(** * BintuBot: a shallow embedding of the server side

    The development follows the server sources:
    - [server/services/file-manager.ts]  (FileManager)
    - [server/services/ffmpeg.ts]        (FFmpegService, StreamConfig)
    - [server/storage.ts]                (MemStorage)
    - [server/routes.ts]                 (the statistics timer)
    - [server/routes.ts], further        (uploads, the clean-up at start-up,
                                          the start and stop actions)

    JavaScript strings are modelled as [string] (file names and encoder
    arguments are taken to be ASCII), integers as [Z], the quotient
    [volume / 100] as an IEEE-754 double printed by [Number::toString],
    JS [Map]s as
    insertion-ordered association lists, the file system as a finite map
    from paths to nodes.  The asynchronous code of FFmpegService is modelled
    as a transition system whose transitions are the run-to-completion
    segments of the Node event loop. *)

From Stdlib Require Import ZArith QArith Qround Ascii String List Bool Lia.
From Stdlib Require Import Numbers.DecimalString Numbers.DecimalN.
From Stdlib Require Numbers.DecimalPos Numbers.DecimalFacts.
From stdpp Require Import base option list gmap strings.
Import ListNotations.

Local Open Scope Z_scope.

(** ** JavaScript strings *)

Module Js.

Definition chars (s : string) : list ascii := list_ascii_of_string s.
Definition str (l : list ascii) : string := string_of_list_ascii l.

(** The strings whose characters are all in the ASCII range; the file
    names and arguments of the server are read as such strings. *)
Definition is_ascii_char (c : ascii) : bool := (nat_of_ascii c <? 128)%nat.

Definition is_ascii (s : string) : bool := forallb is_ascii_char (chars s).

(** [String.prototype.toLowerCase] on a string of ASCII characters: the
    letters [A] to [Z] are the only ones that change.  (Outside ASCII
    JavaScript folds more, [U+212A] to [k] for one.) *)
Definition lower_char (c : ascii) : ascii :=
  let n := nat_of_ascii c in
  if (65 <=? n)%nat && (n <=? 90)%nat then ascii_of_nat (n + 32) else c.

Definition toLowerCase (s : string) : string := str (map lower_char (chars s)).

(** [s.slice(a, b)] for [0 <= a], [0 <= b]. *)
Definition slice_chars (l : list ascii) (a b : Z) : list ascii :=
  take (Z.to_nat (b - a)) (drop (Z.to_nat a) l).

Definition slice (s : string) (a b : Z) : string := str (slice_chars (chars s) a b).

(** [s.substring(a, b)] for literal bounds [0 <= a <= b]. *)
Definition substring (s : string) (a b : Z) : string := slice s a b.

(** [arr.includes(x)] on an array of strings. *)
Definition includes (arr : list string) (x : string) : bool :=
  existsb (String.eqb x) arr.

(** Template-literal rendering of a non-negative integer. *)
Definition show_N (n : N) : string := NilZero.string_of_uint (N.to_uint n).

(** Template-literal rendering of an integer. *)
Definition show_Z (z : Z) : string :=
  if z <? 0 then String "-" (show_N (Z.to_N (- z))) else show_N (Z.to_N z).

(** *** Numbers

    A JavaScript number is an IEEE-754 binary64 value.  The values that
    occur here are not negative: zero, [m * 2^e] with [0 < m < 2^53] and
    [-1074 <= e <= 971], and infinity. *)
Inductive Double := DZero | DFinite (m : positive) (e : Z) | DInfinity.

Definition double_eqb (x y : Double) : bool :=
  match x, y with
  | DZero, DZero => true
  | DInfinity, DInfinity => true
  | DFinite m e, DFinite m' e' => (m =? m')%positive && (e =? e')
  | _, _ => false
  end.

(** The integer nearest to [num / den], ties to the even one. *)
Definition round_half_even (num den : Z) : Z :=
  let q := num / den in
  let r := num mod den in
  if 2 * r <? den then q
  else if den <? 2 * r then q + 1
  else if Z.even q then q else q + 1.

(** The fraction [num / den] divided by [base ^ p]. *)
Definition scale (base num den p : Z) : Z * Z :=
  if 0 <=? p then (num, den * base ^ p) else (num * base ^ (- p), den).

(** The [b] with [2^b <= num / den < 2^(b+1)]. *)
Definition binade (num den : Z) : Z :=
  let d := Z.log2 num - Z.log2 den in
  let '(n1, d1) := scale 2 num den d in
  if d1 <=? n1 then d else d - 1.

(** The number value of the fraction [num / den] ([0 <= num], [0 < den]):
    round to nearest, ties to even, with gradual underflow and overflow to
    infinity.  This is the result of the division [num / den] of two
    numbers that hold the integers [num] and [den]. *)
Definition to_double (num den : Z) : Double :=
  let e := Z.max (binade num den - 52) (-1074) in
  let '(n1, d1) := scale 2 num den e in
  let m := round_half_even n1 d1 in
  if m =? 0 then DZero
  else
    let '(m', e') := if m =? 2 ^ 53 then (2 ^ 52, e + 1) else (m, e) in
    if 971 <? e' then DInfinity else DFinite (Z.to_pos m') e'.

(** [Number::toString(x)] (ECMA-262): "let n, k, and s be integers such
    that k >= 1, 10^(k-1) <= s < 10^k, s * 10^(n-k) is x, and k is as small
    as possible"; of several such [s] the one closest to [x] is taken.

    [decimal_exponent] is the [n] with [10^(n-1) <= num / den < 10^n],
    searched upwards from an estimate that is not above it. *)
Fixpoint decimal_exponent_from (fuel : nat) (num den n : Z) : Z :=
  match fuel with
  | O => n
  | S fuel' =>
      let '(a, b) := scale 10 num den n in
      if a <? b then n else decimal_exponent_from fuel' num den (n + 1)
  end.

Definition decimal_exponent (num den : Z) : Z :=
  let b := Z.log2 num - Z.log2 den in
  decimal_exponent_from 4 num den (b * 30103 / 100000).

(** "[s * 10^p] is [x]": the decimal reads back as the number [x]. *)
Definition digits_valid (x : Double) (s p : Z) : bool :=
  let '(a, b) := scale 10 s 1 (- p) in double_eqb (to_double a b) x.

(** The multiple of [10^p] that is [x = num / den], if there is one: only
    the two multiples around [x] can be, and of two the closer one is taken. *)
Definition digits_at (x : Double) (num den p : Z) : option Z :=
  let '(a, b) := scale 10 num den p in
  let lo := a / b in
  let hi := lo + 1 in
  match digits_valid x lo p, digits_valid x hi p with
  | true, true => Some (round_half_even a b)
  | true, false => Some lo
  | false, true => Some hi
  | false, false => None
  end.

(** The exact decimal expansion of a number. *)
Definition exact_decimal (x : Double) : Z * Z :=
  match x with
  | DFinite m e =>
      if 0 <=? e then (Z.pos m * 2 ^ e, 0) else (Z.pos m * 5 ^ (- e), e)
  | _ => (0, 0)
  end.

(** The search for the least [k], from [k] on; 17 digits always suffice. *)
Fixpoint digits_search (fuel : nat) (x : Double) (num den n k : Z) : Z * Z :=
  match fuel with
  | O => exact_decimal x
  | S fuel' =>
      match digits_at x num den (n - k) with
      | Some s => (s, n - k)
      | None => digits_search fuel' x num den n (k + 1)
      end
  end.

(** [s * 10^p] without the trailing zeros of [s] (the candidate [10^k] of
    the search has [k + 1] digits). *)
Fixpoint strip_zeros (fuel : nat) (s p : Z) : Z * Z :=
  match fuel with
  | O => (s, p)
  | S fuel' =>
      if s mod 10 =? 0 then strip_zeros fuel' (s / 10) (p + 1) else (s, p)
  end.

Definition zeros (j : Z) : string := str (repeat "0"%char (Z.to_nat j)).

(** The four layouts of [Number::toString] for the digits [s] whose last
    one has the weight [10^p]. *)
Definition number_format (s p : Z) : string :=
  let ds := show_Z s in
  let k := Z.of_nat (String.length ds) in
  let n := p + k in
  if (k <=? n) && (n <=? 21) then (ds ++ zeros (n - k))%string
  else if (0 <? n) && (n <=? 21)
  then (slice ds 0 n ++ "." ++ slice ds n k)%string
  else if (-6 <? n) && (n <=? 0)
  then ("0." ++ zeros (- n) ++ ds)%string
  else
    let ex := n - 1 in
    let sign := if ex <? 0 then "-"%string else "+"%string in
    if k =? 1 then (ds ++ "e" ++ sign ++ show_Z (Z.abs ex))%string
    else (slice ds 0 1 ++ "." ++ slice ds 1 k
          ++ "e" ++ sign ++ show_Z (Z.abs ex))%string.

Definition number_to_string (x : Double) : string :=
  match x with
  | DZero => "0"%string
  | DInfinity => "Infinity"%string
  | DFinite m e =>
      let '(num, den) := scale 2 (Z.pos m) 1 (- e) in
      let n := decimal_exponent num den in
      let '(s, p) := digits_search 17 x num den n 1 in
      let '(s', p') := strip_zeros 18 s p in
      number_format s' p'
  end.

(** The template literal [${v / 100}] for a number [v] that holds an
    integer: the division gives the double nearest to the quotient, the
    template literal its [Number::toString]. *)
Definition show_hundredths (v : Z) : string :=
  let sign := if v <? 0 then "-"%string else ""%string in
  (sign ++ number_to_string (to_double (Z.abs v) 100))%string.

(** The digits of [Number.prototype.toString(36)]. *)
Definition digit36 (d : nat) : ascii :=
  nth (d mod 36) (chars "0123456789abcdefghijklmnopqrstuvwxyz") "0"%char.

(** [x.toString(36)] for [0 <= x < 1] whose base-36 expansion has the
    fractional digits [ds] ([ds = []] for [x = 0]). *)
Definition toString36 (ds : list nat) : string :=
  match ds with
  | [] => "0"%string
  | _ => ("0." ++ str (map digit36 ds))%string
  end.

End Js.

(** ** Node's [path] module (POSIX flavour) *)

Module Path.

Definition CHAR_FORWARD_SLASH : ascii := "/"%char.
Definition CHAR_DOT : ascii := "."%char.

Definition is_slash (c : ascii) : bool := Ascii.eqb c CHAR_FORWARD_SLASH.
Definition is_dot (c : ascii) : bool := Ascii.eqb c CHAR_DOT.

(** The local variables of [extname]'s backwards scan. *)
Record ExtScan := mkExtScan {
  startDot : Z;
  startPart : Z;
  end_ : Z;
  matchedSlash : bool;
  preDotState : Z
}.

Definition ext_init : ExtScan :=
  {| startDot := -1; startPart := 0; end_ := -1;
     matchedSlash := true; preDotState := 0 |}.

(** One iteration on a character that is not a path separator. *)
Definition ext_visit (c : ascii) (i : Z) (st : ExtScan) : ExtScan :=
  let st1 :=
    if end_ st =? -1
    then {| startDot := startDot st; startPart := startPart st;
            end_ := i + 1; matchedSlash := false;
            preDotState := preDotState st |}
    else st in
  if is_dot c then
    if startDot st1 =? -1
    then {| startDot := i; startPart := startPart st1; end_ := end_ st1;
            matchedSlash := matchedSlash st1; preDotState := preDotState st1 |}
    else if negb (preDotState st1 =? 1)
    then {| startDot := startDot st1; startPart := startPart st1;
            end_ := end_ st1; matchedSlash := matchedSlash st1;
            preDotState := 1 |}
    else st1
  else if negb (startDot st1 =? -1)
    then {| startDot := startDot st1; startPart := startPart st1;
            end_ := end_ st1; matchedSlash := matchedSlash st1;
            preDotState := -1 |}
    else st1.

(** [for (let i = path.length - 1; i >= 0; --i)]: [rs] holds the characters
    at positions [i], [i-1], ..., [0]. *)
Fixpoint ext_loop (rs : list ascii) (i : Z) (st : ExtScan) : ExtScan :=
  match rs with
  | [] => st
  | c :: rs' =>
      if is_slash c then
        if negb (matchedSlash st)
        then {| startDot := startDot st; startPart := i + 1;
                end_ := end_ st; matchedSlash := matchedSlash st;
                preDotState := preDotState st |}
        else ext_loop rs' (i - 1) st
      else ext_loop rs' (i - 1) (ext_visit c i st)
  end.

Definition ext_result (cs : list ascii) (st : ExtScan) : list ascii :=
  if (startDot st =? -1) || (end_ st =? -1) || (preDotState st =? 0)
     || ((preDotState st =? 1) && (startDot st =? end_ st - 1)
         && (startDot st =? startPart st + 1))
  then []
  else Js.slice_chars cs (startDot st) (end_ st).

Definition extname_chars (cs : list ascii) : list ascii :=
  ext_result cs (ext_loop (rev cs) (Z.of_nat (length cs) - 1) ext_init).

Definition extname (path : string) : string :=
  Js.str (extname_chars (Js.chars path)).

(** The local variables of [basename]'s scan when a suffix is given. *)
Record BaseScan := mkBaseScan {
  b_start : Z;
  b_end : Z;
  b_matchedSlash : bool;
  extIdx : Z;
  firstNonSlashEnd : Z
}.

Definition base_visit (suffix : list ascii) (c : ascii) (i : Z)
    (st : BaseScan) : BaseScan :=
  let st1 :=
    if firstNonSlashEnd st =? -1
    then {| b_start := b_start st; b_end := b_end st;
            b_matchedSlash := false; extIdx := extIdx st;
            firstNonSlashEnd := i + 1 |}
    else st in
  if 0 <=? extIdx st1 then
    if bool_decide (suffix !! Z.to_nat (extIdx st1) = Some c) then
      if extIdx st1 - 1 =? -1
      then {| b_start := b_start st1; b_end := i;
              b_matchedSlash := b_matchedSlash st1; extIdx := -1;
              firstNonSlashEnd := firstNonSlashEnd st1 |}
      else {| b_start := b_start st1; b_end := b_end st1;
              b_matchedSlash := b_matchedSlash st1;
              extIdx := extIdx st1 - 1;
              firstNonSlashEnd := firstNonSlashEnd st1 |}
    else {| b_start := b_start st1; b_end := firstNonSlashEnd st1;
            b_matchedSlash := b_matchedSlash st1; extIdx := -1;
            firstNonSlashEnd := firstNonSlashEnd st1 |}
  else st1.

Fixpoint base_loop_suffix (suffix rs : list ascii) (i : Z) (st : BaseScan)
    : BaseScan :=
  match rs with
  | [] => st
  | c :: rs' =>
      if is_slash c then
        if negb (b_matchedSlash st)
        then {| b_start := i + 1; b_end := b_end st;
                b_matchedSlash := b_matchedSlash st; extIdx := extIdx st;
                firstNonSlashEnd := firstNonSlashEnd st |}
        else base_loop_suffix suffix rs' (i - 1) st
      else base_loop_suffix suffix rs' (i - 1) (base_visit suffix c i st)
  end.

(** The scan of [basename] without a suffix; only [b_start], [b_end] and
    [b_matchedSlash] are used. *)
Fixpoint base_loop (rs : list ascii) (i : Z) (st : BaseScan) : BaseScan :=
  match rs with
  | [] => st
  | c :: rs' =>
      if is_slash c then
        if negb (b_matchedSlash st)
        then {| b_start := i + 1; b_end := b_end st;
                b_matchedSlash := b_matchedSlash st; extIdx := extIdx st;
                firstNonSlashEnd := firstNonSlashEnd st |}
        else base_loop rs' (i - 1) st
      else if b_end st =? -1
        then base_loop rs' (i - 1)
               {| b_start := b_start st; b_end := i + 1;
                  b_matchedSlash := false; extIdx := extIdx st;
                  firstNonSlashEnd := firstNonSlashEnd st |}
        else base_loop rs' (i - 1) st
  end.

Definition basename_chars (cs suffix : list ascii) : list ascii :=
  let len := Z.of_nat (length cs) in
  let slen := Z.of_nat (length suffix) in
  if (0 <? slen) && (slen <=? len) then
    if bool_decide (suffix = cs) then []
    else
      let st := base_loop_suffix suffix (rev cs) (len - 1)
                  {| b_start := 0; b_end := -1; b_matchedSlash := true;
                     extIdx := slen - 1; firstNonSlashEnd := -1 |} in
      let e := if b_start st =? b_end st then firstNonSlashEnd st
               else if b_end st =? -1 then len
               else b_end st in
      Js.slice_chars cs (b_start st) e
  else
    let st := base_loop (rev cs) (len - 1)
                {| b_start := 0; b_end := -1; b_matchedSlash := true;
                   extIdx := -1; firstNonSlashEnd := -1 |} in
    if b_end st =? -1 then []
    else Js.slice_chars cs (b_start st) (b_end st).

Definition basename (path suffix : string) : string :=
  Js.str (basename_chars (Js.chars path) (Js.chars suffix)).

End Path.

(** ** [server/services/file-manager.ts] *)

Module FileManager.

(** The part of the file system the server acts on: what a path names. *)
Inductive FsNode := RegularFile | Directory.

Definition FS := gmap string FsNode.

(** [fs.existsSync] and the promisified [fs.exists]. *)
Definition existsSync (fs : gmap string FsNode) (p : string) : bool :=
  bool_decide (is_Some (fs !! p)).

(** [fs.unlink]: removes a regular file; [None] is a rejected promise
    (the path is missing or names a directory). *)
Definition unlink (fs : gmap string FsNode) (p : string)
    : option (gmap string FsNode) :=
  match fs !! p with
  | Some RegularFile => Some (delete p fs)
  | Some Directory => None
  | None => None
  end.

(** [deleteFile]: the result pairs the file system afterwards with the
    returned boolean; the [catch] block is the [None] branch. *)
Definition deleteFile (fs : gmap string FsNode) (filePath : string)
    : gmap string FsNode * bool :=
  if existsSync fs filePath then
    match unlink fs filePath with
    | Some fs' => (fs', true)
    | None => (fs, false)
    end
  else (fs, false).

(** [cleanupStreamFiles(streamId, videoPath?)]; [if (videoPath)] holds for
    a non-empty string. *)
Definition cleanupStreamFiles (fs : gmap string FsNode) (streamId : Z)
    (videoPath : option string) : gmap string FsNode * bool :=
  match videoPath with
  | Some p => if String.eqb p "" then (fs, false) else deleteFile fs p
  | None => (fs, false)
  end.

(** [generateUniqueFilename]: [timestamp] is the value of [Date.now()] and
    [random36] the base-36 fractional digits of the value of
    [Math.random()]. *)
Definition generateUniqueFilename (timestamp : N) (random36 : list nat)
    (originalName : string) : string :=
  let random := Js.substring (Js.toString36 random36) 2 8 in
  let ext := Path.extname originalName in
  let name := Path.basename originalName ext in
  (name ++ "_" ++ Js.show_N timestamp ++ "_" ++ random ++ ext)%string.

Definition allowedExtensions : list string :=
  [".mp4"; ".mov"; ".avi"; ".mkv"; ".webm"]%string.

Definition isValidVideoFile (filename : string) : bool :=
  let ext := Js.toLowerCase (Path.extname filename) in
  Js.includes allowedExtensions ext.

End FileManager.

(** ** [server/services/ffmpeg.ts]: encoder arguments *)

Module FFmpeg.

Record StreamConfig := mkStreamConfig {
  id : Z;
  videoPath : string;
  streamKey : string;
  quality : string;
  mode : string;
  loopVideo : bool;
  volume : Z;
  isMuted : bool
}.

Record QualitySettings := mkQuality {
  width : Z;
  height : Z;
  bitrate : string;
  bufsize : string
}.

(** The object literal [settings] of [getQualitySettings]. *)
Definition settings : list (string * QualitySettings) :=
  [ ("360p",  mkQuality 640 360 "1000k" "2000k");
    ("480p",  mkQuality 854 480 "1500k" "3000k");
    ("720p",  mkQuality 1280 720 "3000k" "6000k");
    ("1080p", mkQuality 1920 1080 "6000k" "12000k") ]%string.

Definition settings_720p : QualitySettings :=
  mkQuality 1280 720 "3000k" "6000k".

(** The property names every object literal inherits from
    [Object.prototype]; each of them is bound to a function or an object,
    hence truthy. *)
Definition object_prototype_keys : list string :=
  [ "constructor"; "__defineGetter__"; "__defineSetter__"; "hasOwnProperty";
    "__lookupGetter__"; "__lookupSetter__"; "isPrototypeOf";
    "propertyIsEnumerable"; "toString"; "valueOf"; "__proto__";
    "toLocaleString" ]%string.

(** What [settings[quality]] evaluates to. *)
Inductive PropertyValue :=
| OwnEntry (q : QualitySettings)
| Inherited (name : string)
| Undefined.

Fixpoint own_property (tbl : list (string * QualitySettings)) (k : string)
    : option QualitySettings :=
  match tbl with
  | [] => None
  | (k', q) :: tbl' => if String.eqb k k' then Some q else own_property tbl' k
  end.

Definition settings_get (k : string) : PropertyValue :=
  match own_property settings k with
  | Some q => OwnEntry q
  | None =>
      if Js.includes object_prototype_keys k then Inherited k else Undefined
  end.

(** [settings[quality] || settings['720p']] *)
Definition getQualitySettings (quality : string) : PropertyValue :=
  match settings_get quality with
  | Undefined => OwnEntry settings_720p
  | v => v
  end.

(** Reading a numeric or string property of the value returned by
    [getQualitySettings]; a member of [Object.prototype] has none of the
    four properties, the read gives [undefined], which is rendered
    as the text [undefined] both in a template literal and as a process
    argument. *)
Definition prop_num (f : QualitySettings -> Z) (v : PropertyValue) : string :=
  match v with
  | OwnEntry q => Js.show_Z (f q)
  | _ => "undefined"
  end.

Definition prop_str (f : QualitySettings -> string) (v : PropertyValue)
    : string :=
  match v with
  | OwnEntry q => f q
  | _ => "undefined"
  end.

Definition videoFilter (config : StreamConfig) : string :=
  let qualitySettings := getQualitySettings (quality config) in
  if String.eqb (mode config) "mobile" then
    "scale=720:1280:force_original_aspect_ratio=decrease,pad=720:1280:(ow-iw)/2:(oh-ih)/2:black"
  else
    ("scale=" ++ prop_num width qualitySettings ++ ":"
      ++ prop_num height qualitySettings
      ++ ":force_original_aspect_ratio=decrease,pad="
      ++ prop_num width qualitySettings ++ ":"
      ++ prop_num height qualitySettings ++ ":(ow-iw)/2:(oh-ih)/2:black")%string.

Definition audioFilter (config : StreamConfig) : string :=
  if isMuted config then "volume=0"
  else ("volume=" ++ Js.show_hundredths (volume config))%string.

Definition buildFFmpegArgs (config : StreamConfig) : list string :=
  let rtmpUrl := ("rtmp://a.rtmp.youtube.com/live2/" ++ streamKey config)%string in
  let qualitySettings := getQualitySettings (quality config) in
  let args := ["-re"; "-fflags"; "+genpts"]%string in
  let args :=
    if loopVideo config then args ++ ["-stream_loop"; "-1"]%string else args in
  args ++
  [ "-i"; videoPath config;
    "-vf"; videoFilter config;
    "-af"; audioFilter config;
    "-c:v"; "libx264";
    "-preset"; "veryfast";
    "-tune"; "zerolatency";
    "-maxrate"; prop_str bitrate qualitySettings;
    "-bufsize"; prop_str bufsize qualitySettings;
    "-pix_fmt"; "yuv420p";
    "-g"; "60";
    "-keyint_min"; "60";
    "-sc_threshold"; "0";
    "-c:a"; "aac";
    "-b:a"; "128k";
    "-ar"; "44100";
    "-ac"; "2";
    "-f"; "flv";
    rtmpUrl ]%string.

End FFmpeg.

(** ** JavaScript [Map]: keys in insertion order *)

Module JsMap.

Section WithValue.
Context {V : Type}.

Fixpoint get (m : list (Z * V)) (k : Z) : option V :=
  match m with
  | [] => None
  | (k', v) :: m' => if k' =? k then Some v else get m' k
  end.

Definition has (m : list (Z * V)) (k : Z) : bool :=
  match get m k with Some _ => true | None => false end.

(** [m.set(k, v)]: an existing key keeps its position. *)
Fixpoint set (m : list (Z * V)) (k : Z) (v : V) : list (Z * V) :=
  match m with
  | [] => [(k, v)]
  | (k', v') :: m' =>
      if k' =? k then (k, v) :: m' else (k', v') :: set m' k v
  end.

(** [m.delete(k)] *)
Fixpoint delete (m : list (Z * V)) (k : Z) : list (Z * V) :=
  match m with
  | [] => []
  | (k', v') :: m' =>
      if k' =? k then delete m' k else (k', v') :: delete m' k
  end.

(** [Array.from(m.keys())] *)
Definition keys (m : list (Z * V)) : list Z := map fst m.

(** [Array.from(m.values())] *)
Definition values (m : list (Z * V)) : list V := map snd m.

End WithValue.

End JsMap.

(** ** [server/storage.ts] *)

Module Storage.

(** A row of [streams] ([shared/schema.ts]); nullable columns are options. *)
Record Stream := mkStream {
  s_id : Z;
  s_userId : Z;
  s_name : string;
  s_streamKey : string;
  s_videoPath : option string;
  s_quality : string;
  s_mode : string;
  s_loopVideo : option bool;
  s_isActive : option bool;
  s_volume : option Z;
  s_isMuted : option bool
}.

(** A row of [stream_stats]. *)
Record StreamStats := mkStats {
  st_id : Z;
  st_streamId : Z;
  viewerCount : option Z;
  uptime : option Z;
  ping : option Z;
  connectionStatus : option string;
  updatedAt : option Z
}.

Record MemStorage := mkStorage {
  streams : gmap Z Stream;
  streamStats : list (Z * StreamStats)
}.

(** The [Partial<Stream>] objects the server passes to [updateStream]:
    a field left out of the object is [None]. *)
Record StreamUpdates := mkStreamUpdates {
  u_videoPath : option (option string);
  u_isActive : option bool
}.

(** The [Partial<StreamStats>] objects passed to [updateStreamStats]. *)
Record StatsUpdates := mkStatsUpdates {
  u_viewerCount : option Z;
  u_uptime : option Z;
  u_ping : option Z;
  u_connectionStatus : option string
}.

Definition getStream (db : MemStorage) (id : Z) : option Stream :=
  streams db !! id.

(** [{ ...stream, ...updates }] *)
Definition spread_stream (s : Stream) (u : StreamUpdates) : Stream :=
  {| s_id := s_id s; s_userId := s_userId s; s_name := s_name s;
     s_streamKey := s_streamKey s;
     s_videoPath := match u_videoPath u with Some v => v | None => s_videoPath s end;
     s_quality := s_quality s; s_mode := s_mode s;
     s_loopVideo := s_loopVideo s;
     s_isActive := match u_isActive u with Some b => Some b | None => s_isActive s end;
     s_volume := s_volume s; s_isMuted := s_isMuted s |}.

Definition updateStream (db : MemStorage) (id : Z) (u : StreamUpdates)
    : MemStorage * option Stream :=
  match streams db !! id with
  | None => (db, None)
  | Some stream =>
      let updatedStream := spread_stream stream u in
      ({| streams := <[id := updatedStream]> (streams db);
          streamStats := streamStats db |}, Some updatedStream)
  end.

(** [Array.from(...).find(pred)] over the entries of [streamStats]. *)
Definition find_stats_entry (db : MemStorage) (streamId : Z)
    : option (Z * StreamStats) :=
  List.find (fun e => st_streamId (snd e) =? streamId) (streamStats db).

Definition getStreamStats (db : MemStorage) (streamId : Z)
    : option StreamStats :=
  List.find (fun stats => st_streamId stats =? streamId)
            (JsMap.values (streamStats db)).

(** [{ ...stats, ...updates, updatedAt: new Date() }] *)
Definition spread_stats (s : StreamStats) (u : StatsUpdates) (now : Z)
    : StreamStats :=
  {| st_id := st_id s; st_streamId := st_streamId s;
     viewerCount := match u_viewerCount u with Some v => Some v | None => viewerCount s end;
     uptime := match u_uptime u with Some v => Some v | None => uptime s end;
     ping := match u_ping u with Some v => Some v | None => ping s end;
     connectionStatus :=
       match u_connectionStatus u with
       | Some v => Some v
       | None => connectionStatus s
       end;
     updatedAt := Some now |}.

Definition updateStreamStats (db : MemStorage) (streamId : Z)
    (u : StatsUpdates) (now : Z) : MemStorage * option StreamStats :=
  match find_stats_entry db streamId with
  | None => (db, None)
  | Some (id, stats) =>
      let updatedStats := spread_stats stats u now in
      ({| streams := streams db;
          streamStats := JsMap.set (streamStats db) id updatedStats |},
       Some updatedStats)
  end.

End Storage.

(** ** [server/routes.ts]: the statistics timer *)

Module Stats.
Import Storage.

(** The messages handed to [broadcast]. *)
Inductive Broadcast :=
| StatsUpdate (streamId : Z) (viewerCount uptime ping : Z)
              (connectionStatus : string).

(** [x || 0] for a nullable integer column. *)
Definition or0 (x : option Z) : Z :=
  match x with
  | Some v => if v =? 0 then 0 else v
  | None => 0
  end.

Definition is_connected (s : StreamStats) : bool :=
  match connectionStatus s with
  | Some c => String.eqb c "connected"
  | None => false
  end.

(** The state threaded through the [for] loop of one tick: the storage,
    the number of random draws made so far and the broadcasts so far. *)
Definition TickState : Type := MemStorage * nat * list Broadcast.

(** The loop body; [rnd k] is the value of the [k]-th evaluation of
    [Math.floor(Math.random() * 20)] in this tick and [now] the clock. *)
Definition tick_body (rnd : nat -> Z) (now : Z) (acc : TickState)
    (streamId : Z) : TickState :=
  let '(db, k, out) := acc in
  match getStreamStats db streamId with
  | Some currentStats =>
      if is_connected currentStats then
        let newViewerCount :=
          Z.max 0 (or0 (viewerCount currentStats) + rnd k - 10) in
        let newUptime := or0 (uptime currentStats) + 5 in
        let newPing := 15 + rnd (S k) in
        let db' :=
          fst (updateStreamStats db streamId
                 {| u_viewerCount := Some newViewerCount;
                    u_uptime := Some newUptime;
                    u_ping := Some newPing;
                    u_connectionStatus := None |} now) in
        (db', S (S k),
         out ++ [StatsUpdate streamId newViewerCount newUptime newPing
                             "connected"])
      else acc
  | None => acc
  end.

(** One run of the interval callback over [activeStreamIds]. *)
Definition tick (rnd : nat -> Z) (now : Z) (activeStreamIds : list Z)
    (db : MemStorage) : MemStorage * list Broadcast :=
  let '(db', _, out) :=
    fold_left (tick_body rnd now) activeStreamIds (db, 0%nat, []) in
  (db', out).

Definition is_update_for (streamId : Z) (b : Broadcast) : bool :=
  match b with StatsUpdate i _ _ _ _ => i =? streamId end.

Definition updates_for (streamId : Z) (out : list Broadcast) : list Broadcast :=
  List.filter (is_update_for streamId) out.

End Stats.

(** ** [server/services/ffmpeg.ts]: the stream process manager

    Node runs one callback at a time.  A transition of the model is one such
    run: an outside call of a method up to its first suspension, the
    delivery of a child-process event to its listeners, or a timer or a
    promise continuation that has become due.  The promise continuations
    released during a run are resumed at its end, in release order. *)

Module Service.
Import FFmpeg FileManager Storage.

Inductive Signal := SIGTERM | SIGKILL.

(** The two ['exit'] listeners of the source, with the variables they
    close over. *)
Inductive ExitListener :=
| StartExit (config_id : Z)                (* registered by [startStream] *)
| StopExit (streamId : Z) (promise : nat). (* registered by [stopStream] *)

(** A [ChildProcess] returned by [spawn]; ['error'] listeners are given by
    the [config.id] they close over. *)
Record Child := mkChild {
  c_args : list string;
  c_exit_listeners : list ExitListener;
  c_error_listeners : list Z;
  c_signals : list Signal;
  c_exited : bool
}.

(** What the call of [spawn] does, decided by the operating system. *)
Inductive SpawnResult := Spawned | SpawnThrows.

(** Who waits for the promise returned by [stopStream]. *)
Inductive Waiter :=
| Caller (streamId : Z)
| Restart (config : StreamConfig) (sp : SpawnResult).

Record StopPromise := mkPromise {
  p_resolved : bool;
  p_waiter : Waiter
}.

(** Work that a later turn of the event loop performs. *)
Inductive Task :=
| ForceKill (streamId : Z) (process : nat) (promise : nat)
    (* [setTimeout(..., 5000)] of [stopStream] *)
| StartGrace (config_id : Z)
    (* [setTimeout(resolve, 1000)] of [startStream] *)
| CallbackSettled (promise : nat)
    (* the rest of the stop listener after [await this.cleanupCallback] *)
| AutoCleanup (process : nat) (config_id : Z).
    (* the rest of the start listener after [await import] *)

(** Record of the clean-up work done, kept for stating properties. *)
Inductive CleanupRun :=
| CallbackInvoked (process : nat) (streamId : Z) (callback : nat)
| AutoCleanupTriggered (process : nat) (streamId : Z) (path : string).

Record State := mkState {
  activeStreams : list (Z * nat);
  cleanupCallback : option nat;
  children : list Child;
  promises : list StopPromise;
  tasks : list (Task * bool);
  files : gmap string FsNode;
  db : MemStorage;
  cleanups : list CleanupRun
}.

Inductive Output :=
| StartReturned (config_id : Z) (ok : bool)
| StopReturned (streamId : Z) (ok : bool).

Definition init (fs : gmap string FsNode) (d : MemStorage) : State :=
  {| activeStreams := []; cleanupCallback := None; children := [];
     promises := []; tasks := []; files := fs; db := d; cleanups := [] |}.

Definition set_active (a : list (Z * nat)) (s : State) : State :=
  mkState a (cleanupCallback s) (children s) (promises s) (tasks s)
          (files s) (db s) (cleanups s).

Definition set_callback (cb : option nat) (s : State) : State :=
  mkState (activeStreams s) cb (children s) (promises s) (tasks s)
          (files s) (db s) (cleanups s).

Definition set_children (c : list Child) (s : State) : State :=
  mkState (activeStreams s) (cleanupCallback s) c (promises s) (tasks s)
          (files s) (db s) (cleanups s).

Definition set_promises (p : list StopPromise) (s : State) : State :=
  mkState (activeStreams s) (cleanupCallback s) (children s) p (tasks s)
          (files s) (db s) (cleanups s).

Definition set_tasks (t : list (Task * bool)) (s : State) : State :=
  mkState (activeStreams s) (cleanupCallback s) (children s) (promises s) t
          (files s) (db s) (cleanups s).

Definition set_world (fs : gmap string FsNode) (d : MemStorage) (s : State)
    : State :=
  mkState (activeStreams s) (cleanupCallback s) (children s) (promises s)
          (tasks s) fs d (cleanups s).

Definition add_cleanup (r : CleanupRun) (s : State) : State :=
  mkState (activeStreams s) (cleanupCallback s) (children s) (promises s)
          (tasks s) (files s) (db s) (cleanups s ++ [r]).

Definition schedule (t : Task) (s : State) : State :=
  set_tasks (tasks s ++ [(t, false)]) s.

Definition isStreamActive (s : State) (streamId : Z) : bool :=
  JsMap.has (activeStreams s) streamId.

Definition getActiveStreamIds (s : State) : list Z :=
  JsMap.keys (activeStreams s).

Definition setCleanupCallback (callback : nat) (s : State) : State :=
  set_callback (Some callback) s.

Definition add_exit_listener (l : ExitListener) (c : Child) : Child :=
  mkChild (c_args c) (c_exit_listeners c ++ [l]) (c_error_listeners c)
          (c_signals c) (c_exited c).

Definition deliver (sig : Signal) (c : Child) : Child :=
  if c_exited c then c
  else mkChild (c_args c) (c_exit_listeners c) (c_error_listeners c)
               (c_signals c ++ [sig]) (c_exited c).

Definition mark_exited (c : Child) : Child :=
  mkChild (c_args c) (c_exit_listeners c) (c_error_listeners c)
          (c_signals c) true.

(** [process.kill(sig)]: nothing is sent to a child that has exited. *)
Definition kill (process : nat) (sig : Signal) (s : State) : State :=
  set_children (alter (deliver sig) process (children s)) s.

(** [stopStream] once the handle [process] has been found: the promise is
    created, the listener registered, SIGTERM sent and the timer set. *)
Definition stop_register (streamId : Z) (process : nat) (w : Waiter)
    (s : State) : State :=
  let promise := length (promises s) in
  let s1 := set_promises (promises s ++ [mkPromise false w]) s in
  let s2 := set_children
              (alter (add_exit_listener (StopExit streamId promise))
                     process (children s1)) s1 in
  let s3 := kill process SIGTERM s2 in
  schedule (ForceKill streamId process promise) s3.

Definition stopStream (streamId : Z) (s : State) : State * list Output :=
  match JsMap.get (activeStreams s) streamId with
  | None => (s, [StopReturned streamId false])
  | Some process => (stop_register streamId process (Caller streamId) s, [])
  end.

(** [startStream] from the check of the video file up to the wait of one
    second. *)
Definition start_resume (config : StreamConfig) (sp : SpawnResult)
    (s : State) : State * list Output :=
  if negb (existsSync (files s) (videoPath config)) then
    (s, [StartReturned (id config) false])
  else
    let args := buildFFmpegArgs config in
    match sp with
    | SpawnThrows => (s, [StartReturned (id config) false])
    | Spawned =>
        let ffmpegProcess := length (children s) in
        let s1 := set_children
                    (children s ++
                       [mkChild args [StartExit (id config)] [id config]
                                [] false]) s in
        let s2 := set_active
                    (JsMap.set (activeStreams s1) (id config) ffmpegProcess)
                    s1 in
        (schedule (StartGrace (id config)) s2, [])
    end.

Definition startStream (config : StreamConfig) (sp : SpawnResult)
    (s : State) : State * list Output :=
  match JsMap.get (activeStreams s) (id config) with
  | Some process =>
      (stop_register (id config) process (Restart config sp) s, [])
  | None => start_resume config sp s
  end.

(** [resolve(true)]: the first call settles the promise and releases the
    waiter; later calls do nothing. *)
Definition resolve (promise : nat) (acc : State * list Waiter)
    : State * list Waiter :=
  let '(s, q) := acc in
  match promises s !! promise with
  | Some pr =>
      if p_resolved pr then (s, q)
      else (set_promises
              (<[promise := mkPromise true (p_waiter pr)]> (promises s)) s,
            q ++ [p_waiter pr])
  | None => (s, q)
  end.

(** The part of an ['exit'] listener that runs when the event is emitted. *)
Definition run_exit_listener (process : nat) (acc : State * list Waiter)
    (l : ExitListener) : State * list Waiter :=
  let '(s, q) := acc in
  match l with
  | StartExit config_id =>
      let s1 := set_active (JsMap.delete (activeStreams s) config_id) s in
      (schedule (AutoCleanup process config_id) s1, q)
  | StopExit streamId promise =>
      let s1 := set_active (JsMap.delete (activeStreams s) streamId) s in
      match cleanupCallback s1 with
      | Some cb =>
          (schedule (CallbackSettled promise)
             (add_cleanup (CallbackInvoked process streamId cb) s1), q)
      | None => resolve promise (s1, q)
      end
  end.

Definition run_error_listener (s : State) (config_id : Z) : State :=
  set_active (JsMap.delete (activeStreams s) config_id) s.

(** Resuming what waited for a [stopStream] promise. *)
Definition resume (acc : State * list Output) (w : Waiter)
    : State * list Output :=
  let '(s, out) := acc in
  match w with
  | Caller streamId => (s, out ++ [StopReturned streamId true])
  | Restart config sp =>
      let '(s', o) := start_resume config sp s in (s', out ++ o)
  end.

Definition drain (acc : State * list Waiter) : State * list Output :=
  fold_left resume (snd acc) (fst acc, []).

Definition child_exit (process : nat) (s : State) : State * list Output :=
  match children s !! process with
  | Some c =>
      if c_exited c then (s, [])
      else
        let s1 := set_children (<[process := mark_exited c]> (children s)) s in
        drain (fold_left (run_exit_listener process) (c_exit_listeners c)
                         (s1, []))
  | None => (s, [])
  end.

Definition child_error (process : nat) (s : State) : State * list Output :=
  match children s !! process with
  | Some c => (fold_left run_error_listener (c_error_listeners c) s, [])
  | None => (s, [])
  end.

(** The rest of the start listener: the stored record is read, the video
    file deleted and the record reset. *)
Definition auto_cleanup (process : nat) (config_id : Z) (s : State) : State :=
  match getStream (db s) config_id with
  | Some stream =>
      match s_videoPath stream with
      | Some path =>
          if String.eqb path "" then s
          else
            let '(fs', deleted) :=
              cleanupStreamFiles (files s) config_id (Some path) in
            let db' :=
              fst (updateStream (db s) config_id
                     {| u_videoPath := Some None;
                        u_isActive := Some false |}) in
            add_cleanup (AutoCleanupTriggered process config_id path)
                        (set_world fs' db' s)
      | None => s
      end
  | None => s
  end.

Definition run_task (t : Task) (s : State) : State * list Output :=
  match t with
  | ForceKill streamId process promise =>
      if JsMap.has (activeStreams s) streamId then
        let s1 := kill process SIGKILL s in
        let s2 := set_active (JsMap.delete (activeStreams s1) streamId) s1 in
        drain (resolve promise (s2, []))
      else (s, [])
  | StartGrace config_id => (s, [StartReturned config_id true])
  | CallbackSettled promise => drain (resolve promise (s, []))
  | AutoCleanup process config_id => (auto_cleanup process config_id s, [])
  end.

Inductive Event :=
| CallStart (config : StreamConfig) (sp : SpawnResult)
| CallStop (streamId : Z)
| CallSetCleanupCallback (callback : nat)
| ChildExit (process : nat)
| ChildError (process : nat)
| RunTask (k : nat)
| Environment (fs : gmap string FsNode) (d : MemStorage).
    (* the rest of the server acting on the files and the storage *)

Definition step (s : State) (e : Event) : State * list Output :=
  match e with
  | CallStart config sp => startStream config sp s
  | CallStop streamId => stopStream streamId s
  | CallSetCleanupCallback cb => (setCleanupCallback cb s, [])
  | ChildExit process => child_exit process s
  | ChildError process => child_error process s
  | RunTask k =>
      match tasks s !! k with
      | Some (t, false) => run_task t (set_tasks (<[k := (t, true)]> (tasks s)) s)
      | _ => (s, [])
      end
  | Environment fs d => (set_world fs d s, [])
  end.

Definition step_acc (acc : State * list Output) (e : Event)
    : State * list Output :=
  let '(s', o) := step (fst acc) e in (s', snd acc ++ o).

Definition run (s : State) (evs : list Event) : State * list Output :=
  fold_left step_acc evs (s, []).

Definition exec (s : State) (evs : list Event) : State := fst (run s evs).

(** Counting, per process. *)
Definition is_callback_of (process : nat) (r : CleanupRun) : bool :=
  match r with
  | CallbackInvoked p _ _ => Nat.eqb p process
  | AutoCleanupTriggered _ _ _ => false
  end.

Definition is_auto_of (process : nat) (r : CleanupRun) : bool :=
  match r with
  | CallbackInvoked _ _ _ => false
  | AutoCleanupTriggered p _ _ => Nat.eqb p process
  end.

Definition callback_runs (process : nat) (s : State) : nat :=
  length (List.filter (is_callback_of process) (cleanups s)).

Definition auto_runs (process : nat) (s : State) : nat :=
  length (List.filter (is_auto_of process) (cleanups s)).

Definition cleanup_runs (process : nat) (s : State) : nat :=
  (callback_runs process s + auto_runs process s)%nat.

Definition is_stop_listener (l : ExitListener) : bool :=
  match l with StopExit _ _ => true | StartExit _ => false end.

Definition stop_listeners (process : nat) (s : State) : nat :=
  match children s !! process with
  | Some c => length (List.filter is_stop_listener (c_exit_listeners c))
  | None => 0%nat
  end.

Definition has_exited (process : nat) (s : State) : bool :=
  match children s !! process with
  | Some c => c_exited c
  | None => false
  end.

Definition is_auto_task (process : nat) (t : Task * bool) : bool :=
  match fst t with
  | AutoCleanup p _ => Nat.eqb p process
  | _ => false
  end.

Definition auto_scheduled (process : nat) (s : State) : nat :=
  length (List.filter (is_auto_task process) (tasks s)).

End Service.

(** ** Vocabulary of the properties *)

Module Props.
Import FFmpeg FileManager Storage Service.

(** A character that is neither a path separator nor a dot. *)
Definition plain (c : ascii) : bool :=
  negb (Path.is_slash c) && negb (Path.is_dot c).

Definition no_dot (s : string) : bool :=
  forallb (fun c => negb (Path.is_dot c)) (Js.chars s).

Definition all_plain (l : list ascii) : Prop :=
  Forall (fun c => plain c = true) l.

(** What the scan of [extname] has established once the characters
    [done], which follow position [k], have been visited. *)
Definition scan_inv (st : Path.ExtScan) (done : list ascii) (k : nat) : Prop :=
  (Path.end_ st = -1 -> Path.startDot st = -1) /\
  (Path.end_ st <> -1 -> Path.matchedSlash st = false) /\
  (Path.end_ st <> -1 -> Path.startDot st = -1 ->
     exists body tail,
       done = body ++ tail /\
       Path.end_ st = Z.of_nat (k + length body) /\ all_plain body) /\
  (Path.startDot st <> -1 ->
     exists b1 e tail,
       done = b1 ++ Path.CHAR_DOT :: e ++ tail /\
       Path.startDot st = Z.of_nat (k + length b1) /\
       Path.end_ st = Z.of_nat (k + length b1 + 1 + length e) /\
       all_plain e).

(** "Changing the case" of a name, said without [toLowerCase]: two names
    are case variants when they have the same length and at each position
    the same character, or the capital and the small form of one letter. *)
Definition letter_pairs : list (ascii * ascii) :=
  combine (Js.chars "ABCDEFGHIJKLMNOPQRSTUVWXYZ")
          (Js.chars "abcdefghijklmnopqrstuvwxyz").

Definition same_letter (c d : ascii) : bool :=
  Ascii.eqb c d
  || existsb (fun ul => (Ascii.eqb c (fst ul) && Ascii.eqb d (snd ul))
                        || (Ascii.eqb c (snd ul) && Ascii.eqb d (fst ul)))
             letter_pairs.

Fixpoint case_variant_chars (l l' : list ascii) : bool :=
  match l, l' with
  | [], [] => true
  | c :: r, c' :: r' => same_letter c c' && case_variant_chars r r'
  | _, _ => false
  end.

Definition case_variant (s t : string) : bool :=
  case_variant_chars (Js.chars s) (Js.chars t).

(** Reading a decimal numeral back as a rational number. *)
Fixpoint split_dot (s : string) : string * option string :=
  match s with
  | EmptyString => (EmptyString, None)
  | String c r =>
      if Path.is_dot c then (EmptyString, Some r)
      else let '(a, b) := split_dot r in (String c a, b)
  end.

(** A numeral has at least one digit, and digits only. *)
Definition digit_value (c : ascii) : option Z :=
  let n := nat_of_ascii c in
  if (48 <=? n)%nat && (n <=? 57)%nat then Some (Z.of_nat n - 48) else None.

Fixpoint digits_from (acc : Z) (cs : list ascii) : option Z :=
  match cs with
  | [] => Some acc
  | c :: cs' =>
      match digit_value c with
      | Some d => digits_from (10 * acc + d) cs'
      | None => None
      end
  end.

Definition digits_value (s : string) : option Z :=
  match Js.chars s with
  | [] => None
  | cs => digits_from 0 cs
  end.

Definition parse_unsigned (s : string) : option Q :=
  match split_dot s with
  | (ip, None) =>
      match digits_value ip with
      | Some i => Some (inject_Z i)
      | None => None
      end
  | (ip, Some fp) =>
      match digits_value ip, digits_value fp with
      | Some i, Some f =>
          Some (inject_Z i
                + Qmake f (Z.to_pos (10 ^ Z.of_nat (String.length fp))))%Q
      | _, _ => None
      end
  end.

Definition parse_decimal (s : string) : option Q :=
  match s with
  | String "-" r =>
      match parse_unsigned r with
      | Some q => Some (- q)%Q
      | None => None
      end
  | _ => parse_unsigned s
  end.

(** The numeral of [v / 100] for [0 <= v] as one writes it by hand: the
    integer part, then the one or two fractional digits that are needed
    ([0.5] for 50, [0.05] for 5, [1] for 100). *)
Definition hundredths_fraction (fp : Z) : string :=
  if fp =? 0 then ""%string
  else if fp mod 10 =? 0 then ("." ++ Js.show_Z (fp / 10))%string
  else if fp <? 10 then (".0" ++ Js.show_Z fp)%string
  else ("." ++ Js.show_Z fp)%string.

Definition hundredths_numeral (v : Z) : string :=
  (Js.show_Z (v / 100) ++ hundredths_fraction (v mod 100))%string.

(** The position of the audio filter in the argument array. *)
Definition af_index (config : StreamConfig) : nat :=
  if loopVideo config then 10%nat else 8%nat.

(** "Cleanup runs exactly once per termination": every process that has
    exited has had exactly one clean-up run, counting the callback and
    the clean-up of the start listener alike. *)
Definition cleanup_once_per_termination (s : State) : Prop :=
  forall process : nat,
    has_exited process s = true -> cleanup_runs process s = 1%nat.

(** The same, counting the registered callback only. *)
Definition callback_once_per_termination (s : State) : Prop :=
  forall process : nat,
    has_exited process s = true -> callback_runs process s = 1%nat.

(** The keys of the [Map] behind [streamStats] are distinct. *)
Definition stats_wf (d : MemStorage) : Prop :=
  NoDup (JsMap.keys (streamStats d)).

(** Listener counts of one child process. *)
Definition stops (c : Child) : nat :=
  length (List.filter is_stop_listener (c_exit_listeners c)).

Definition starts (c : Child) : nat :=
  length (List.filter (fun l => negb (is_stop_listener l)) (c_exit_listeners c)).

(** The auto clean-up tasks of a process that have been run. *)
Definition auto_done (process : nat) (s : State) : nat :=
  length (List.filter (fun t => is_auto_task process t && snd t) (tasks s)).

(** How the children evolve while none of them exits: a child keeps its
    exit flag and its start listener and may gain stop listeners; a new
    child has not exited and has one start listener. *)
Definition child_grows (c c' : Child) : Prop :=
  c_exited c' = c_exited c /\ starts c' = starts c /\ (stops c <= stops c')%nat.

Definition children_grow (ch ch' : list Child) : Prop :=
  (forall p c, ch !! p = Some c ->
     exists c', ch' !! p = Some c' /\ child_grows c c') /\
  (forall p c', ch !! p = None -> ch' !! p = Some c' ->
     c_exited c' = false /\ starts c' = 1%nat).

(** A change of state without an exit and without clean-up work. *)
Definition quiet (s s' : State) : Prop :=
  children_grow (children s) (children s') /\
  cleanups s' = cleanups s /\
  cleanupCallback s' = cleanupCallback s /\
  (forall p, auto_scheduled p s' = auto_scheduled p s
             /\ auto_done p s' = auto_done p s) /\
  (NoDup (getActiveStreamIds s) -> NoDup (getActiveStreamIds s')).

(** The invariant of the service. *)
Definition service_inv (s : State) : Prop :=
  NoDup (getActiveStreamIds s) /\
  forall p,
    (has_exited p s = false ->
       callback_runs p s = 0%nat /\ auto_scheduled p s = 0%nat) /\
    (callback_runs p s <= stop_listeners p s)%nat /\
    (has_exited p s = true -> auto_scheduled p s = 1%nat) /\
    (auto_runs p s <= auto_done p s)%nat /\
    (forall c, children s !! p = Some c -> starts c = 1%nat).

(** States the service reaches from a fresh instance. *)
Definition reachable (s : State) : Prop :=
  exists fs d evs, s = exec (init fs d) evs.

End Props.

(** ** A scenario: stream 7 *)

Module Scenario.
Import FFmpeg FileManager Storage Service.

Definition video : string := "/uploads/clip_1_a.mp4".

Definition cfg7 : StreamConfig :=
  mkStreamConfig 7 video "KEY" "720p" "desktop" false 50 false.

Definition cfg7_portrait : StreamConfig :=
  mkStreamConfig 7 video "KEY" "720p" "mobile" false 50 false.

Definition cfg7_missing : StreamConfig :=
  mkStreamConfig 7 "/uploads/gone.mp4" "KEY" "720p" "desktop" false 50 false.

Definition cfg_constructor : StreamConfig :=
  mkStreamConfig 7 video "KEY" "constructor" "desktop" false 50 false.

Definition fs7 : gmap string FsNode := {[ video := RegularFile ]}.

Definition stream7 : Stream :=
  mkStream 7 1 "demo" "KEY" (Some video) "720p" "desktop"
           (Some false) (Some true) (Some 50) (Some false).

Definition stats7 : StreamStats :=
  mkStats 1 7 (Some 3) (Some 100) (Some 20) (Some "connected"%string) None.

Definition db7 : MemStorage := mkStorage {[ 7 := stream7 ]} [(1, stats7)].

Definition fresh : State := init fs7 db7.

(** Stream 7 is started and its start call returns. *)
Definition started : list Event := [CallStart cfg7 Spawned; RunTask 0].

(** Stream 7 is started again in portrait mode; the old encoder exits on
    SIGTERM, its clean-up runs, the second start returns, and five seconds
    after the stop its timer fires. *)
Definition restart_graceful : list Event :=
  started ++ [CallStart cfg7_portrait Spawned; ChildExit 0; RunTask 2;
              RunTask 3; RunTask 1].

(** The same restart with an old encoder that ignores SIGTERM: the timer
    fires first, the old encoder exits on SIGKILL afterwards. *)
Definition restart_forced : list Event :=
  started ++ [CallStart cfg7_portrait Spawned; RunTask 1; ChildExit 0;
              RunTask 2].

(** A stop call with a registered callback; the encoder exits, both
    clean-ups run and the stop call returns. *)
Definition stop_then_exit : list Event :=
  CallSetCleanupCallback 0 :: started
  ++ [CallStop 7; ChildExit 0; RunTask 2; RunTask 3].

(** Two overlapping stop calls. *)
Definition two_stops : list Event :=
  CallSetCleanupCallback 0 :: started
  ++ [CallStop 7; CallStop 7; ChildExit 0; RunTask 3].

(** The encoder exits by itself; nobody called stop. *)
Definition spontaneous_exit : list Event :=
  CallSetCleanupCallback 0 :: started ++ [ChildExit 0; RunTask 1].

(** A stop call whose encoder ignores SIGTERM: the timer sends SIGKILL, the
    encoder exits afterwards. *)
Definition stop_forced : list Event :=
  CallSetCleanupCallback 0 :: started
  ++ [CallStop 7; RunTask 1; ChildExit 0; RunTask 2; RunTask 3].

(** The encoder cannot be launched: the ['error'] event arrives during the
    wait of one second. *)
Definition spawn_error : list Event :=
  [CallStart cfg7 Spawned; ChildError 0; RunTask 0].

End Scenario.

(** ** [server/storage.ts]: users, creation and deletion of streams *)

Module Store.
Import Storage.

Record User := mkUser {
  user_id : Z;
  username : string;
  password : string
}.

Record InsertUser := mkInsertUser {
  new_username : string;
  new_password : string
}.

(** [InsertStream]: the columns with a default and the nullable ones may be
    left out or null. *)
Record InsertStream := mkInsertStream {
  i_userId : Z;
  i_name : string;
  i_streamKey : string;
  i_videoPath : option string;
  i_quality : option string;
  i_mode : option string;
  i_loopVideo : option bool;
  i_isActive : option bool;
  i_volume : option Z;
  i_isMuted : option bool
}.

Record InsertStreamStats := mkInsertStats {
  n_streamId : Z;
  n_viewerCount : option Z;
  n_uptime : option Z;
  n_ping : option Z;
  n_connectionStatus : option string
}.

(** The fields of [MemStorage]: the two maps modelled by
    [Storage.MemStorage], the users and the three counters. *)
Record MemStore := mkStore {
  tables : MemStorage;
  users : list (Z * User);
  currentUserId : Z;
  currentStreamId : Z;
  currentStatsId : Z
}.

(** The state built by the constructor. *)
Definition empty : MemStore := mkStore (mkStorage ∅ []) [] 1 1 1.

(** [x || d] on a string, [x || false], [x || d] on a number and
    [x || null]. *)
Definition or_string (x : option string) (d : string) : string :=
  match x with
  | Some s => if String.eqb s "" then d else s
  | None => d
  end.

Definition or_false (x : option bool) : bool :=
  match x with Some b => b | None => false end.

Definition or_Z (x : option Z) (d : Z) : Z :=
  match x with
  | Some v => if v =? 0 then d else v
  | None => d
  end.

Definition or_null (x : option string) : option string :=
  match x with
  | Some s => if String.eqb s "" then None else Some s
  | None => None
  end.

Definition getUser (st : MemStore) (id : Z) : option User :=
  JsMap.get (users st) id.

Definition getUserByUsername (st : MemStore) (name : string) : option User :=
  List.find (fun user => String.eqb (username user) name)
            (JsMap.values (users st)).

Definition createUser (st : MemStore) (insertUser : InsertUser)
    : MemStore * User :=
  let id := currentUserId st in
  let user := mkUser id (new_username insertUser) (new_password insertUser) in
  (mkStore (tables st) (JsMap.set (users st) id user) (id + 1)
           (currentStreamId st) (currentStatsId st), user).

Definition createStreamStats (st : MemStore) (insertStats : InsertStreamStats)
    (now : Z) : MemStore * StreamStats :=
  let id := currentStatsId st in
  let stats :=
    mkStats id (n_streamId insertStats)
            (Some (or_Z (n_viewerCount insertStats) 0))
            (Some (or_Z (n_uptime insertStats) 0))
            (Some (or_Z (n_ping insertStats) 0))
            (Some (or_string (n_connectionStatus insertStats) "disconnected"))
            (Some now) in
  (mkStore (mkStorage (streams (tables st))
                      (JsMap.set (streamStats (tables st)) id stats))
           (users st) (currentUserId st) (currentStreamId st) (id + 1),
   stats).

Definition createStream (st : MemStore) (insertStream : InsertStream)
    (now : Z) : MemStore * Stream :=
  let id := currentStreamId st in
  let stream :=
    mkStream id (i_userId insertStream) (i_name insertStream)
             (i_streamKey insertStream)
             (or_null (i_videoPath insertStream))
             (or_string (i_quality insertStream) "720p")
             (or_string (i_mode insertStream) "desktop")
             (Some (or_false (i_loopVideo insertStream)))
             (Some (or_false (i_isActive insertStream)))
             (Some (or_Z (i_volume insertStream) 75))
             (Some (or_false (i_isMuted insertStream))) in
  let st1 :=
    mkStore (mkStorage (<[id := stream]> (streams (tables st)))
                       (streamStats (tables st)))
            (users st) (currentUserId st) (id + 1) (currentStatsId st) in
  (fst (createStreamStats st1
          (mkInsertStats id (Some 0) (Some 0) (Some 0)
                         (Some "disconnected"%string)) now),
   stream).

Definition deleteStream (st : MemStore) (id : Z) : MemStore * bool :=
  match streams (tables st) !! id with
  | None => (st, false)
  | Some _ =>
      let stats' :=
        match find_stats_entry (tables st) id with
        | Some statsEntry =>
            JsMap.delete (streamStats (tables st)) (fst statsEntry)
        | None => streamStats (tables st)
        end in
      (mkStore (mkStorage (delete id (streams (tables st))) stats')
               (users st) (currentUserId st) (currentStreamId st)
               (currentStatsId st), true)
  end.

(** [updateStream] and [updateStreamStats] on the whole store. *)
Definition updateStream (st : MemStore) (id : Z) (u : StreamUpdates)
    : MemStore * option Stream :=
  let '(t, r) := Storage.updateStream (tables st) id u in
  (mkStore t (users st) (currentUserId st) (currentStreamId st)
           (currentStatsId st), r).

Definition updateStreamStats (st : MemStore) (streamId : Z)
    (u : StatsUpdates) (now : Z) : MemStore * option StreamStats :=
  let '(t, r) := Storage.updateStreamStats (tables st) streamId u now in
  (mkStore t (users st) (currentUserId st) (currentStreamId st)
           (currentStatsId st), r).

(** [updateStream] with the unvalidated body of the PUT route as
    [updates]: [merge] is [stream => ({ ...stream, ...updates })], which may
    change any column of the record. *)
Definition putStream (st : MemStore) (id : Z) (merge : Stream -> Stream)
    : MemStore * option Stream :=
  match streams (tables st) !! id with
  | None => (st, None)
  | Some stream =>
      let updatedStream := merge stream in
      (mkStore (mkStorage (<[id := updatedStream]> (streams (tables st)))
                          (streamStats (tables st)))
               (users st) (currentUserId st) (currentStreamId st)
               (currentStatsId st), Some updatedStream)
  end.

(** The calls the routes make on the storage: login creates the demo user;
    the stream routes create, update and delete streams; the control route
    and the statistics timer update the statistics.  [createStreamStats] is
    called by [createStream] only. *)
Inductive Call :=
| CreateUser (insertUser : InsertUser)
| CreateStream (insertStream : InsertStream) (now : Z)
| UpdateStream (id : Z) (updates : StreamUpdates)
| PutStream (id : Z) (merge : Stream -> Stream)
| DeleteStream (id : Z)
| UpdateStreamStats (streamId : Z) (updates : StatsUpdates) (now : Z).

Definition call (st : MemStore) (c : Call) : MemStore :=
  match c with
  | CreateUser u => fst (createUser st u)
  | CreateStream i now => fst (createStream st i now)
  | UpdateStream id u => fst (updateStream st id u)
  | PutStream id merge => fst (putStream st id merge)
  | DeleteStream id => fst (deleteStream st id)
  | UpdateStreamStats id u now => fst (updateStreamStats st id u now)
  end.

Definition calls (st : MemStore) (cs : list Call) : MemStore :=
  fold_left call cs st.

End Store.

(** ** [server/routes.ts]: uploads and the start of a stream *)

Module Routes.
Import FFmpeg Storage.

(** [fileFilter] and [filename] of the upload configuration. *)
Definition fileFilter (originalname : string) : bool :=
  FileManager.isValidVideoFile originalname.

Definition filename (timestamp : N) (random36 : list nat)
    (originalname : string) : string :=
  FileManager.generateUniqueFilename timestamp random36 originalname.

(** The configuration the [start] action hands to [startStream]; [None]
    is the answer 400 given when the record has no video. *)
Definition startConfig (stream : Stream) : option StreamConfig :=
  match Store.or_null (s_videoPath stream) with
  | None => None
  | Some videoPath =>
      Some (mkStreamConfig (s_id stream) videoPath (s_streamKey stream)
              (s_quality stream) (s_mode stream)
              (Store.or_false (s_loopVideo stream))
              (Store.or_Z (s_volume stream) 75)
              (Store.or_false (s_isMuted stream)))
  end.

(** [cleanupOnStartup]; [files] is what [readdirSync] lists in the uploads
    directory. *)
Definition cleanupOnStartup (fs : gmap string FileManager.FsNode)
    (uploadsDir : string) (files : list string)
    : gmap string FileManager.FsNode :=
  fold_left
    (fun fs file =>
       if String.eqb file ".gitkeep" then fs
       else fst (FileManager.deleteFile fs (uploadsDir ++ "/" ++ file)))
    files fs.

(** What the [start] action stores once [startStream] has returned
    [true]. *)
Definition startSucceeded (d : MemStorage) (streamId : Z) (now : Z)
    : MemStorage :=
  let d1 := fst (updateStream d streamId (mkStreamUpdates None (Some true))) in
  fst (updateStreamStats d1 streamId
         (mkStatsUpdates None (Some 0) None (Some "connected"%string)) now).

(** What the [stop] action does once [stopStream] has returned; [stream] is
    the record read at the start of the request. *)
Definition stopAction (d : MemStorage) (fs : gmap string FileManager.FsNode)
    (streamId : Z) (stream : Stream) (now : Z)
    : MemStorage * gmap string FileManager.FsNode :=
  let d1 := fst (updateStream d streamId (mkStreamUpdates None (Some false))) in
  let d2 :=
    fst (updateStreamStats d1 streamId
           (mkStatsUpdates None None None (Some "disconnected"%string)) now) in
  match Store.or_null (s_videoPath stream) with
  | Some videoPath =>
      let fs' := fst (FileManager.deleteFile fs videoPath) in
      (fst (updateStream d2 streamId (mkStreamUpdates (Some None) None)), fs')
  | None => (d2, fs)
  end.

End Routes.

(** ** Vocabulary of the further properties *)

Module Facts.
Import FFmpeg FileManager Storage Service Store.

Definition no_slash (s : string) : bool :=
  forallb (fun c => negb (Path.is_slash c)) (Js.chars s).

(** What the scan of [extname] knows about the character before the dot:
    once [preDotState] has left 0, a character that is no separator
    stands right before the dot. *)
Definition dot_inv (st : Path.ExtScan) (done : list ascii) (k : nat) : Prop :=
  (Path.startDot st = -1 -> Path.preDotState st = 0) /\
  (Path.startDot st <> -1 -> Path.preDotState st = 0 ->
     Path.startDot st = Z.of_nat k) /\
  (Path.preDotState st <> 0 ->
     exists b1 x rest,
       done = b1 ++ x :: rest /\ Path.is_slash x = false /\
       Path.startDot st = Z.of_nat (k + length b1 + 1)).

(** What the scan of [basename] with a suffix of length [slen] has
    established once the characters [done], which follow position [k], have
    been visited and no separator has ended the scan. *)
Definition base_inv (slen : Z) (st : Path.BaseScan) (done : list ascii)
    (k : nat) : Prop :=
  Path.b_start st = 0 /\
  (Path.firstNonSlashEnd st = -1 ->
     Path.b_matchedSlash st = true /\ Path.b_end st = -1 /\
     Path.extIdx st = slen - 1 /\
     Forall (fun c => Path.is_slash c = true) done) /\
  (Path.firstNonSlashEnd st <> -1 ->
     Path.b_matchedSlash st = false /\
     exists comp sl,
       done = comp ++ sl /\ comp <> [] /\
       Forall (fun c => Path.is_slash c = false) comp /\
       Forall (fun c => Path.is_slash c = true) sl /\
       Path.firstNonSlashEnd st = Z.of_nat (k + length comp) /\
       (Path.b_end st = -1 ->
          Path.extIdx st = slen - 1 - Z.of_nat (length comp) /\
          0 <= Path.extIdx st) /\
       (Path.b_end st <> -1 ->
          Path.extIdx st = -1 /\
          Z.of_nat k <= Path.b_end st <= Z.of_nat (k + length comp))).

(** The same for the scan without a suffix. *)
Definition plain_base_inv (st : Path.BaseScan) (done : list ascii) (k : nat)
    : Prop :=
  Path.b_start st = 0 /\
  (Path.b_end st = -1 ->
     Path.b_matchedSlash st = true /\
     Forall (fun c => Path.is_slash c = true) done) /\
  (Path.b_end st <> -1 ->
     Path.b_matchedSlash st = false /\
     exists comp sl,
       done = comp ++ sl /\
       Forall (fun c => Path.is_slash c = false) comp /\
       Path.b_end st = Z.of_nat (k + length comp)).

Definition is_regular (fs : gmap string FsNode) (p : string) : bool :=
  match fs !! p with Some RegularFile => true | _ => false end.

(** The stream a broadcast is about. *)
Definition update_stream (b : Stats.Broadcast) : Z :=
  match b with Stats.StatsUpdate i _ _ _ _ => i end.

Definition update_viewers (b : Stats.Broadcast) : Z :=
  match b with Stats.StatsUpdate _ v _ _ _ => v end.

Definition update_ping (b : Stats.Broadcast) : Z :=
  match b with Stats.StatsUpdate _ _ _ p _ => p end.

Definition update_status (b : Stats.Broadcast) : string :=
  match b with Stats.StatsUpdate _ _ _ _ c => c end.

(** The stream has a statistics record whose status is connected. *)
Definition connected_in (d : MemStorage) (streamId : Z) : bool :=
  match getStreamStats d streamId with
  | Some s => Stats.is_connected s
  | None => false
  end.

(** What every broadcast of the statistics timer carries; [rnd] gives the
    random draws. *)
Definition broadcast_ok (rnd : nat -> Z) (b : Stats.Broadcast) : Prop :=
  0 <= update_viewers b /\ update_status b = "connected"%string /\
  exists k, update_ping b = 15 + rnd k.

(** The callback invocations made by the stop listeners among [L]. *)
Definition callbacks_of (process : nat) (cb : nat) (L : list ExitListener)
    : list CleanupRun :=
  flat_map (fun l => match l with
                     | StopExit i _ => [CallbackInvoked process i cb]
                     | StartExit _ => []
                     end) L.

(** Every handle is that of a spawned process whose exit event has not been
    delivered and which carries the start listener of the handle's stream;
    the promise of every stop listener exists. *)
Definition handle_inv (s : State) : Prop :=
  (forall k p, JsMap.get (activeStreams s) k = Some p ->
     exists c, children s !! p = Some c /\ c_exited c = false
               /\ In (StartExit k) (c_exit_listeners c)) /\
  (forall p c i j, children s !! p = Some c ->
     In (StopExit i j) (c_exit_listeners c) ->
     (j < length (promises s))%nat).

(** The same while the exit listeners of [process] are run: a handle of
    that process is still to be deleted by one of the listeners [L] that
    have not run yet. *)
Definition exit_inv (process : nat) (L : list ExitListener) (s : State)
    : Prop :=
  (forall k p, JsMap.get (activeStreams s) k = Some p ->
     (p = process -> In (StartExit k) L) /\
     (p <> process ->
      exists c, children s !! p = Some c /\ c_exited c = false
                /\ In (StartExit k) (c_exit_listeners c))) /\
  (forall p c i j, children s !! p = Some c ->
     In (StopExit i j) (c_exit_listeners c) ->
     (j < length (promises s))%nat).

(** The task an exit listener leaves behind when a callback is
    registered. *)
Definition listener_task (process : nat) (l : ExitListener) : Task * bool :=
  match l with
  | StartExit i => (AutoCleanup process i, false)
  | StopExit _ j => (CallbackSettled j, false)
  end.

Definition listener_stream (l : ExitListener) : Z :=
  match l with StartExit i => i | StopExit i _ => i end.

(** The identifiers handed out so far lie below the counters, a user is
    stored under its own id, and a stream has at most one statistics
    record. *)
Definition store_wf (st : MemStore) : Prop :=
  NoDup (JsMap.keys (streamStats (tables st))) /\
  NoDup (map st_streamId (JsMap.values (streamStats (tables st)))) /\
  (forall k s, In (k, s) (streamStats (tables st)) ->
     k < currentStatsId st /\ st_streamId s < currentStreamId st) /\
  (forall k s, streams (tables st) !! k = Some s -> k < currentStreamId st) /\
  NoDup (JsMap.keys (users st)) /\
  (forall k u, In (k, u) (users st) -> k < currentUserId st /\ user_id u = k).

(** A stop promise that has not been settled, with the one who waits. *)
Definition pending (s : State) (promise : nat) (w : Waiter) : Prop :=
  promises s !! promise = Some (mkPromise false w).

(** The child process that a start call spawns. *)
Definition started_child (config : StreamConfig) : Child :=
  mkChild (buildFFmpegArgs config) [StartExit (id config)] [id config] []
          false.

(** Resuming the waiters of settled promises only adds to the state:
    processes, tasks, handles and returned values stay. *)
Definition grows (a r : State * list Output) : Prop :=
  files (fst r) = files (fst a) /\
  promises (fst r) = promises (fst a) /\
  (length (children (fst a)) <= length (children (fst r)))%nat /\
  (forall i c, children (fst a) !! i = Some c ->
               children (fst r) !! i = Some c) /\
  (length (tasks (fst a)) <= length (tasks (fst r)))%nat /\
  (forall i t, tasks (fst a) !! i = Some t -> tasks (fst r) !! i = Some t) /\
  (forall i, JsMap.has (activeStreams (fst a)) i = true ->
             JsMap.has (activeStreams (fst r)) i = true) /\
  (forall o, List.In o (snd a) -> List.In o (snd r)).

(** What a start call that waited for a stop does between [a], where it is
    resumed, and [r]. *)
Definition start_outcome (config : StreamConfig) (sp : SpawnResult)
    (a r : State * list Output) : Prop :=
  (existsSync (files (fst a)) (videoPath config) = false
   \/ sp = SpawnThrows ->
   List.In (StartReturned (id config) false) (snd r)) /\
  (existsSync (files (fst a)) (videoPath config) = true -> sp = Spawned ->
   exists process k : nat,
     (length (children (fst a)) <= process)%nat /\
     children (fst r) !! process = Some (started_child config) /\
     JsMap.has (activeStreams (fst r)) (id config) = true /\
     (length (tasks (fst a)) <= k)%nat /\
     tasks (fst r) !! k = Some (StartGrace (id config), false)).

End Facts.

(** * Properties *)

(** ** Strings *)

Section StringFacts.

Lemma chars_str (l : list ascii) : Js.chars (Js.str l) = l.
Proof. apply list_ascii_of_string_of_list_ascii. Qed.

Lemma str_chars (s : string) : Js.str (Js.chars s) = s.
Proof. apply string_of_list_ascii_of_string. Qed.

Lemma chars_app (s t : string) :
  Js.chars (s ++ t)%string = Js.chars s ++ Js.chars t.
Proof.
  induction s as [|c s IH]; simpl; [reflexivity|].
  unfold Js.chars in *. simpl. now rewrite IH.
Qed.

Lemma chars_inj (s t : string) : Js.chars s = Js.chars t -> s = t.
Proof.
  intros H. rewrite <- (str_chars s), <- (str_chars t). now rewrite H.
Qed.

Lemma slice_chars_map (f : ascii -> ascii) (l : list ascii) (a b : Z) :
  Js.slice_chars (map f l) a b = map f (Js.slice_chars l a b).
Proof.
  unfold Js.slice_chars.
  change (map f) with (fmap (M:=list) f).
  now rewrite fmap_take, fmap_drop.
Qed.

Lemma slice_chars_middle (pre mid post : list ascii) :
  Js.slice_chars (pre ++ mid ++ post) (Z.of_nat (length pre))
                 (Z.of_nat (length pre) + Z.of_nat (length mid)) = mid.
Proof.
  unfold Js.slice_chars.
  replace (Z.to_nat (Z.of_nat (length pre) + Z.of_nat (length mid)
                     - Z.of_nat (length pre))) with (length mid) by lia.
  rewrite Nat2Z.id, drop_app_length.
  now rewrite take_app_length.
Qed.

(** [toLowerCase] never turns a character into, or away from, a path
    separator or a dot. *)
Lemma lower_char_slash (c : ascii) :
  Path.is_slash (Js.lower_char c) = Path.is_slash c.
Proof.
  destruct c as [[] [] [] [] [] [] [] []]; vm_compute; reflexivity.
Qed.

Lemma lower_char_dot (c : ascii) :
  Path.is_dot (Js.lower_char c) = Path.is_dot c.
Proof.
  destruct c as [[] [] [] [] [] [] [] []]; vm_compute; reflexivity.
Qed.

Lemma lower_char_idem (c : ascii) :
  Js.lower_char (Js.lower_char c) = Js.lower_char c.
Proof.
  destruct c as [[] [] [] [] [] [] [] []]; vm_compute; reflexivity.
Qed.

End StringFacts.

(** ** [path.extname] *)

Section ExtnameFacts.
Import Path.

(** The scan tests a character only for being a separator or a dot. *)
Lemma ext_visit_class (f : ascii -> ascii) (c : ascii) (i : Z) (st : ExtScan) :
  is_dot (f c) = is_dot c -> ext_visit (f c) i st = ext_visit c i st.
Proof. intros H. unfold ext_visit. now rewrite H. Qed.

Lemma ext_loop_class (f : ascii -> ascii) :
  (forall c, is_slash (f c) = is_slash c) ->
  (forall c, is_dot (f c) = is_dot c) ->
  forall rs i st, ext_loop (map f rs) i st = ext_loop rs i st.
Proof.
  intros Hs Hd rs. induction rs as [|c rs IH]; intros i st; simpl.
  - reflexivity.
  - rewrite Hs. destruct (is_slash c).
    + destruct (negb (matchedSlash st)); [reflexivity | apply IH].
    + rewrite ext_visit_class by apply Hd. apply IH.
Qed.

Lemma ext_result_map (f : ascii -> ascii) cs st :
  ext_result (map f cs) st = map f (ext_result cs st).
Proof.
  unfold ext_result.
  destruct ((startDot st =? -1) || (end_ st =? -1) || (preDotState st =? 0)
            || ((preDotState st =? 1) && (startDot st =? end_ st - 1)
                && (startDot st =? startPart st + 1))).
  - reflexivity.
  - apply slice_chars_map.
Qed.

Lemma extname_chars_class (f : ascii -> ascii) :
  (forall c, is_slash (f c) = is_slash c) ->
  (forall c, is_dot (f c) = is_dot c) ->
  forall cs, extname_chars (map f cs) = map f (extname_chars cs).
Proof.
  intros Hs Hd cs. unfold extname_chars.
  rewrite <- map_rev, ext_loop_class by assumption.
  rewrite length_map. apply ext_result_map.
Qed.

(** The extension of the lower-cased name is the lower-cased extension. *)
Lemma extname_toLowerCase (name : string) :
  extname (Js.toLowerCase name) = Js.toLowerCase (extname name).
Proof.
  unfold extname, Js.toLowerCase. rewrite !chars_str.
  f_equal. apply extname_chars_class.
  - apply lower_char_slash.
  - apply lower_char_dot.
Qed.

End ExtnameFacts.

Section ExtnameShape.
Import Path Props.

Local Ltac zb :=
  repeat match goal with
    | |- context [?a =? ?b] => destruct (Z.eqb_spec a b)
    | H : context [?a =? ?b] |- _ => destruct (Z.eqb_spec a b)
    end.

Lemma plain_not_slash c : plain c = true -> is_slash c = false.
Proof. unfold plain. destruct (is_slash c); simpl; congruence. Qed.

Lemma plain_not_dot c : plain c = true -> is_dot c = false.
Proof. unfold plain. destruct (is_slash c), (is_dot c); simpl; congruence. Qed.

Lemma is_dot_eq c : is_dot c = true -> c = CHAR_DOT.
Proof. unfold is_dot. intros H. now apply Ascii.eqb_eq in H. Qed.

(** Once the dot and the end of the component are known, the rest of the
    scan keeps them. *)
Lemma ext_loop_tail rs : forall i st,
  startDot st <> -1 -> end_ st <> -1 -> preDotState st <> 0 ->
  startDot (ext_loop rs i st) = startDot st /\
  end_ (ext_loop rs i st) = end_ st /\
  preDotState (ext_loop rs i st) <> 0 /\
  (startPart (ext_loop rs i st) = startPart st
   \/ startPart (ext_loop rs i st) <= i + 1).
Proof.
  induction rs as [|c rs IH]; intros i st Hs He Hp; simpl.
  - repeat split; auto.
  - destruct (is_slash c).
    + destruct (negb (matchedSlash st)); simpl.
      * repeat split; auto; lia.
      * destruct (IH (i - 1) st Hs He Hp) as (A & B & C & D).
        repeat split; auto. destruct D; [left | right]; lia.
    + assert (V : startDot (ext_visit c i st) = startDot st /\
                  end_ (ext_visit c i st) = end_ st /\
                  preDotState (ext_visit c i st) <> 0 /\
                  startPart (ext_visit c i st) = startPart st).
      { unfold ext_visit. destruct (is_dot c); zb; simpl; zb; simpl;
          repeat split; auto; try lia; try congruence. }
      destruct V as (V1 & V2 & V3 & V4).
      destruct (IH (i - 1) (ext_visit c i st)) as (A & B & C & D);
        try congruence.
      repeat split; try congruence.
      destruct D; [left | right]; try congruence; lia.
Qed.

(** Without a dot no extension is found. *)
Lemma ext_loop_no_dot rs : forall i st,
  Forall (fun c => is_dot c = false) rs ->
  startDot st = -1 -> startDot (ext_loop rs i st) = -1.
Proof.
  induction rs as [|c rs IH]; intros i st Hf Hs; simpl; [assumption|].
  inversion Hf as [|? ? Hc Hrs]; subst.
  destruct (is_slash c).
  - destruct (negb (matchedSlash st)); simpl; auto.
  - apply IH; [assumption|].
    unfold ext_visit. rewrite Hc. zb; simpl; zb; simpl; auto; congruence.
Qed.

(** Plain characters after the end of the component has been found. *)
Lemma ext_loop_plain_run rs1 : forall rs2 i st,
  all_plain rs1 -> startDot st = -1 -> end_ st <> -1 ->
  ext_loop (rs1 ++ rs2) i st
  = ext_loop rs2 (i - Z.of_nat (length rs1)) st.
Proof.
  induction rs1 as [|c rs1 IH]; intros rs2 i st Hf Hs He.
  - simpl. f_equal. lia.
  - inversion Hf as [|? ? Hc Hrs]; subst.
    simpl app. simpl ext_loop. rewrite (plain_not_slash _ Hc).
    assert (V : ext_visit c i st = st).
    { unfold ext_visit. rewrite (plain_not_dot _ Hc).
      zb; simpl; zb; simpl; congruence. }
    rewrite V, IH by assumption. f_equal. cbn [length]. lia.
Qed.

(** Plain characters at the very end of the path. *)
Lemma ext_loop_plain_first c rs1 rs2 i :
  all_plain (c :: rs1) -> 0 <= i ->
  ext_loop ((c :: rs1) ++ rs2) i ext_init
  = ext_loop rs2 (i - Z.of_nat (length (c :: rs1)))
      {| startDot := -1; startPart := 0; end_ := i + 1;
         matchedSlash := false; preDotState := 0 |}.
Proof.
  intros Hf Hi. inversion Hf as [|? ? Hc Hrs]; subst.
  simpl app. simpl ext_loop. rewrite (plain_not_slash _ Hc).
  unfold ext_visit. rewrite (plain_not_dot _ Hc). simpl.
  rewrite ext_loop_plain_run; simpl; try assumption; try lia.
  f_equal. cbn [length]. lia.
Qed.

Lemma ext_loop_cons c rs i st :
  is_slash c = false ->
  ext_loop (c :: rs) i st = ext_loop rs (i - 1) (ext_visit c i st).
Proof. intros H. simpl. now rewrite H. Qed.

Lemma ext_visit_after_dot c i st :
  plain c = true -> startDot st <> -1 -> end_ st <> -1 ->
  ext_visit c i st
  = {| startDot := startDot st; startPart := startPart st;
       end_ := end_ st; matchedSlash := matchedSlash st;
       preDotState := -1 |}.
Proof.
  intros Hc Hs He. unfold ext_visit. rewrite (plain_not_dot _ Hc).
  zb; simpl; zb; simpl; congruence.
Qed.

(** The scan of the extension itself: plain characters, then the dot at
    position [p]. *)
Lemma ext_loop_extension (e tail : list ascii) (n p : Z) :
  all_plain e -> n = p + 1 + Z.of_nat (length e) -> 0 <= p ->
  ext_loop (rev e ++ CHAR_DOT :: tail) (n - 1) ext_init
  = ext_loop tail (p - 1)
      {| startDot := p; startPart := 0; end_ := n;
         matchedSlash := false; preDotState := 0 |}.
Proof.
  intros He Hn Hp.
  assert (Hre : all_plain (rev e)) by apply List.Forall_rev, He.
  assert (L : length (rev e) = length e) by apply length_rev.
  destruct (rev e) as [|c re] eqn:E.
  - simpl app. rewrite ext_loop_cons by reflexivity.
    cbn [length] in L. rewrite <- L in Hn.
    unfold ext_visit, ext_init. cbn [end_ startDot startPart matchedSlash preDotState].
    change (is_dot CHAR_DOT) with true. change (-1 =? -1) with true.
    cbv iota. cbn [end_ startDot startPart matchedSlash preDotState].
    change (-1 =? -1) with true. cbv iota.
    f_equal; [lia|]. f_equal; lia.
  - rewrite ext_loop_plain_first by (try assumption; lia).
    rewrite L. rewrite ext_loop_cons by reflexivity.
    unfold ext_visit. cbn [end_ startDot startPart matchedSlash preDotState].
    assert ((n - 1 + 1 =? -1) = false) as -> by lia.
    change (is_dot CHAR_DOT) with true. cbv iota.
    cbn [end_ startDot startPart matchedSlash preDotState].
    change (-1 =? -1) with true. cbv iota.
    f_equal; [lia|]. f_equal; lia.
Qed.

(** A name that ends with two plain characters, a dot and plain
    characters has exactly that ending as its extension. *)
Lemma extname_chars_ending (pre e : list ascii) (a b : ascii) :
  plain a = true -> plain b = true -> all_plain e ->
  extname_chars (pre ++ [a; b] ++ CHAR_DOT :: e) = CHAR_DOT :: e.
Proof.
  intros Ha Hb He. unfold extname_chars.
  set (cs := pre ++ [a; b] ++ CHAR_DOT :: e).
  set (p := Z.of_nat (length pre) + 2).
  assert (Hn : Z.of_nat (length cs) = p + 1 + Z.of_nat (length e)).
  { unfold cs, p. rewrite !length_app. simpl. lia. }
  assert (Hrev : rev cs = rev e ++ CHAR_DOT :: b :: a :: rev pre).
  { unfold cs. rewrite !rev_app_distr. simpl. rewrite <- !app_assoc.
    reflexivity. }
  rewrite Hrev.
  rewrite (ext_loop_extension e _ _ p He Hn) by (unfold p; lia).
  rewrite ext_loop_cons by (apply plain_not_slash, Hb).
  rewrite ext_visit_after_dot by (simpl; try assumption; unfold p; lia).
  rewrite ext_loop_cons by (apply plain_not_slash, Ha).
  rewrite ext_visit_after_dot by (simpl; try assumption; unfold p; lia).
  cbn [end_ startDot startPart matchedSlash preDotState].
  match goal with |- ext_result _ (ext_loop ?rs ?i ?st) = _ =>
    destruct (ext_loop_tail rs i st) as (A & B & C & D);
      [simpl; unfold p; lia | simpl; lia | simpl; lia |];
      set (F := ext_loop rs i st) in *
  end.
  simpl in A, B, D. unfold ext_result.
  assert ((startDot F =? -1) = false) as -> by (unfold p in *; lia).
  assert ((end_ F =? -1) = false) as -> by lia.
  assert ((preDotState F =? 0) = false) as -> by lia.
  assert ((startDot F =? startPart F + 1) = false) as ->
    by (unfold p in *; lia).
  rewrite andb_false_r. simpl.
  rewrite A, B, Hn. unfold cs.
  replace (pre ++ [a; b] ++ CHAR_DOT :: e)
    with ((pre ++ [a; b]) ++ (CHAR_DOT :: e) ++ [])
    by (rewrite app_nil_r, <- app_assoc; reflexivity).
  replace p with (Z.of_nat (length (pre ++ [a; b])))
    by (unfold p; rewrite length_app; simpl; lia).
  replace (Z.of_nat (length (pre ++ [a; b])) + 1 + Z.of_nat (length e))
    with (Z.of_nat (length (pre ++ [a; b]))
          + Z.of_nat (length (CHAR_DOT :: e)))
    by (cbn [length]; lia).
  apply slice_chars_middle.
Qed.

Lemma scan_inv_init (k : nat) : scan_inv ext_init [] k.
Proof.
  unfold scan_inv, ext_init; simpl. repeat split; intros; congruence.
Qed.

Lemma scan_inv_slash st done k c :
  matchedSlash st = true -> scan_inv st done (S k) ->
  scan_inv st (c :: done) k.
Proof.
  intros Hm (I1 & I2 & I3 & I4).
  assert (He : end_ st = -1).
  { destruct (Z.eq_dec (end_ st) (-1)) as [E|E]; [assumption|].
    specialize (I2 E). congruence. }
  specialize (I1 He).
  unfold scan_inv. repeat split; intros; congruence.
Qed.

Lemma scan_inv_visit st done k c :
  is_slash c = false -> scan_inv st done (S k) ->
  scan_inv (ext_visit c (Z.of_nat k) st) (c :: done) k.
Proof.
  intros Hc (I1 & I2 & I3 & I4).
  assert (Hplain : is_dot c = false -> plain c = true).
  { intros Hd. unfold plain. now rewrite Hc, Hd. }
  unfold ext_visit.
  destruct (Z.eqb_spec (end_ st) (-1)) as [He|He].
  - specialize (I1 He).
    cbn [end_ startDot startPart matchedSlash preDotState].
    destruct (is_dot c) eqn:Hd.
    + rewrite I1. change (-1 =? -1) with true. cbv iota.
      apply is_dot_eq in Hd. subst c.
      unfold scan_inv. cbn [end_ startDot startPart matchedSlash preDotState].
      repeat split; try (intros; lia); try reflexivity.
      intros _. exists [], [], done. simpl.
      repeat split; try lia. constructor.
    + rewrite I1. change (negb (-1 =? -1)) with false. cbv iota.
      unfold scan_inv. cbn [end_ startDot startPart matchedSlash preDotState].
      repeat split; try (intros; lia); try reflexivity.
      intros _ _. exists [c], done. simpl.
      repeat split; try lia. constructor; [auto | constructor].
  - specialize (I2 He).
    destruct (is_dot c) eqn:Hd.
    + destruct (Z.eqb_spec (startDot st) (-1)) as [Hs|Hs].
      * destruct (I3 He Hs) as (body & tail & -> & E1 & E2).
        apply is_dot_eq in Hd. subst c.
        unfold scan_inv. cbn [end_ startDot startPart matchedSlash preDotState].
        repeat split; try (intros; lia); try (intros; assumption).
        intros _. exists [], body, tail. simpl.
        repeat split; try lia; assumption.
      * destruct (I4 Hs) as (b1 & e & tail & -> & E1 & E2 & E3).
        assert (K : scan_inv st (c :: b1 ++ CHAR_DOT :: e ++ tail) k).
        { unfold scan_inv. repeat split; try (intros; congruence).
          intros _. exists (c :: b1), e, tail. simpl.
          repeat split; try lia; assumption. }
        destruct (negb (preDotState st =? 1)); [|exact K].
        destruct K as (K1 & K2 & K3 & K4).
        unfold scan_inv. cbn [end_ startDot startPart matchedSlash preDotState].
        repeat split; assumption.
    + destruct (Z.eqb_spec (startDot st) (-1)) as [Hs|Hs]; simpl.
      * destruct (I3 He Hs) as (body & tail & -> & E1 & E2).
        unfold scan_inv. repeat split; try (intros; congruence).
        intros _ _. exists (c :: body), tail. simpl.
        repeat split; try lia. constructor; auto.
      * destruct (I4 Hs) as (b1 & e & tail & -> & E1 & E2 & E3).
        unfold scan_inv. cbn [end_ startDot startPart matchedSlash preDotState].
        repeat split; try (intros; congruence).
        intros _. exists (c :: b1), e, tail. simpl.
        repeat split; try lia; assumption.
Qed.

Lemma ext_loop_inv rs : forall done st,
  scan_inv st done (length rs) ->
  startDot (ext_loop rs (Z.of_nat (length rs) - 1) st) <> -1 ->
  exists pre e tail,
    rev rs ++ done = pre ++ CHAR_DOT :: e ++ tail /\
    startDot (ext_loop rs (Z.of_nat (length rs) - 1) st)
      = Z.of_nat (length pre) /\
    end_ (ext_loop rs (Z.of_nat (length rs) - 1) st)
      = Z.of_nat (length pre) + Z.of_nat (length (CHAR_DOT :: e)) /\
    all_plain e.
Proof.
  induction rs as [|c rs IH]; intros done st Hinv Hs.
  - simpl in *. destruct Hinv as (_ & _ & _ & I4).
    destruct (I4 Hs) as (b1 & e & tail & -> & E1 & E2 & E3).
    exists b1, e, tail. cbn [length]. repeat split; try lia; assumption.
  - cbn [length] in *.
    replace (Z.of_nat (S (length rs)) - 1) with (Z.of_nat (length rs)) in *
      by lia.
    simpl ext_loop in *. destruct (is_slash c) eqn:Hc.
    + destruct (matchedSlash st) eqn:Hm; simpl negb in *; cbv iota in *.
      * replace (Z.of_nat (length rs) - 1 + 1 - 1)
          with (Z.of_nat (length rs) - 1) in * by lia.
        destruct (IH (c :: done) st (scan_inv_slash _ _ _ c Hm Hinv))
          as (pre & e & tail & E0 & E1 & E2 & E3).
        { replace (Z.of_nat (length rs) - 1)
            with (Z.of_nat (length rs) - 1) by lia. exact Hs. }
        exists pre, e, tail. repeat split; try assumption.
        simpl. rewrite <- app_assoc. exact E0.
      * cbn [end_ startDot startPart matchedSlash preDotState] in *.
        destruct Hinv as (_ & _ & _ & I4).
        destruct (I4 Hs) as (b1 & e & tail & -> & E1 & E2 & E3).
        exists (rev rs ++ c :: b1), e, tail.
        repeat split; try assumption.
        -- simpl. rewrite <- !app_assoc. reflexivity.
        -- rewrite length_app, length_rev. cbn [length]. lia.
        -- rewrite length_app, length_rev. cbn [length]. lia.
    + destruct (IH (c :: done) _ (scan_inv_visit _ _ _ c Hc Hinv))
        as (pre & e & tail & E0 & E1 & E2 & E3); [exact Hs|].
      exists pre, e, tail. repeat split; try assumption.
      simpl. rewrite <- app_assoc. exact E0.
Qed.

(** The value of [extname] is empty, or a dot followed by plain
    characters. *)
Lemma extname_chars_shape (cs : list ascii) :
  extname_chars cs = []
  \/ exists e, extname_chars cs = CHAR_DOT :: e /\ all_plain e.
Proof.
  unfold extname_chars, ext_result.
  set (F := ext_loop (rev cs) (Z.of_nat (length cs) - 1) ext_init).
  destruct (Z.eqb_spec (startDot F) (-1)) as [Hs|Hs]; [left; reflexivity|].
  match goal with |- context [if ?b then _ else _] =>
    destruct b; [left; reflexivity | right] end.
  destruct (ext_loop_inv (rev cs) [] ext_init) as
    (pre & e & tail & E0 & E1 & E2 & E3).
  { apply scan_inv_init. }
  { rewrite length_rev. exact Hs. }
  rewrite length_rev in E1, E2. fold F in E1, E2.
  rewrite rev_involutive, app_nil_r in E0.
  exists e. split; [|assumption].
  rewrite E1, E2, E0.
  change (CHAR_DOT :: e ++ tail) with ((CHAR_DOT :: e) ++ tail).
  apply slice_chars_middle.
Qed.

End ExtnameShape.

(** ** [FileManager]: file names *)

Section FileNameFacts.
Import Path Props FileManager.

Lemma uint_chars_plain (d : Decimal.uint) :
  all_plain (Js.chars (NilEmpty.string_of_uint d)).
Proof.
  induction d; simpl; try constructor; try assumption; reflexivity.
Qed.

Lemma show_N_plain (n : N) : all_plain (Js.chars (Js.show_N n)).
Proof.
  unfold Js.show_N, NilZero.string_of_uint.
  destruct (N.to_uint n); try apply uint_chars_plain.
  repeat constructor.
Qed.

Lemma show_N_nonempty (n : N) : Js.chars (Js.show_N n) <> [].
Proof.
  unfold Js.show_N, NilZero.string_of_uint.
  destruct (N.to_uint n); simpl; discriminate.
Qed.

Lemma digit36_plain (d : nat) : plain (Js.digit36 d) = true.
Proof.
  unfold Js.digit36.
  assert (H : all_plain (Js.chars "0123456789abcdefghijklmnopqrstuvwxyz")).
  { repeat constructor. }
  assert (L : (d mod 36 < 36)%nat) by (apply Nat.mod_upper_bound; lia).
  revert H L. generalize (d mod 36)%nat as k.
  generalize (Js.chars "0123456789abcdefghijklmnopqrstuvwxyz") as l.
  intros l k H. revert k. induction H as [|c l Hc Hl IH]; intros k L.
  - destruct k; reflexivity.
  - destruct k; simpl; [assumption|]. apply IH. lia.
Qed.

(** The random token consists of base-36 digits. *)
Lemma random_token_plain (random36 : list nat) :
  all_plain (Js.chars (Js.substring (Js.toString36 random36) 2 8)).
Proof.
  unfold Js.substring, Js.slice. rewrite chars_str.
  destruct random36 as [|d ds].
  - constructor.
  - assert (H : all_plain (map Js.digit36 (d :: ds))).
    { apply Forall_forall. intros c Hc.
      apply list_elem_of_In, in_map_iff in Hc.
      destruct Hc as (k & <- & _). apply digit36_plain. }
    unfold Js.toString36. rewrite chars_app, chars_str.
    unfold Js.slice_chars.
    change (drop (Z.to_nat 2) (Js.chars "0." ++ map Js.digit36 (d :: ds)))
      with (map Js.digit36 (d :: ds)).
    now apply Forall_take.
Qed.

(** What lies between the base name and the extension. *)
Lemma infix_two_plain (timestamp : N) (random36 : list nat) :
  exists m a b,
    Js.chars ("_" ++ Js.show_N timestamp ++ "_"
              ++ Js.substring (Js.toString36 random36) 2 8)
    = m ++ [a; b] /\ all_plain m /\ plain a = true /\ plain b = true.
Proof.
  set (r := Js.chars (Js.substring (Js.toString36 random36) 2 8)).
  set (t := Js.chars (Js.show_N timestamp)).
  assert (Hl : Js.chars ("_" ++ Js.show_N timestamp ++ "_"
               ++ Js.substring (Js.toString36 random36) 2 8)
               = "_"%char :: t ++ "_"%char :: r).
  { rewrite !chars_app. reflexivity. }
  rewrite Hl.
  assert (Hall : all_plain ("_"%char :: t ++ "_"%char :: r)).
  { constructor; [reflexivity|]. apply Forall_app. split.
    - apply show_N_plain.
    - constructor; [reflexivity | apply random_token_plain]. }
  assert (Hlen : (2 <= length ("_"%char :: t ++ "_"%char :: r))%nat).
  { cbn [length]. rewrite length_app. cbn [length]. lia. }
  revert Hall Hlen. generalize ("_"%char :: t ++ "_"%char :: r) as l.
  intros l Hall Hlen.
  destruct (List.exists_last (l:=l)) as (l1 & b & ->).
  { intros ->. simpl in Hlen. lia. }
  destruct (List.exists_last (l:=l1)) as (m & a & ->).
  { intros ->. simpl in Hlen. lia. }
  exists m, a, b. rewrite <- app_assoc. split; [reflexivity|].
  apply Forall_app in Hall. destruct Hall as (H1 & Hb).
  apply Forall_app in H1. destruct H1 as (Hm & Ha).
  inversion Ha; subst. inversion Hb; subst. auto.
Qed.

Lemma generated_chars (timestamp : N) (random36 : list nat) (name : string) :
  Js.chars (generateUniqueFilename timestamp random36 name)
  = Js.chars (basename name (extname name))
    ++ Js.chars ("_" ++ Js.show_N timestamp ++ "_"
                 ++ Js.substring (Js.toString36 random36) 2 8)
    ++ Js.chars (extname name).
Proof.
  unfold generateUniqueFilename. rewrite !chars_app.
  rewrite <- !app_assoc. reflexivity.
Qed.

Lemma no_dot_Forall (s : string) :
  no_dot s = true -> Forall (fun c => is_dot c = false) (Js.chars s).
Proof.
  unfold no_dot. intros H. apply Forall_forall. intros c Hc.
  rewrite forallb_forall in H. apply list_elem_of_In in Hc.
  specialize (H c Hc). now destruct (is_dot c).
Qed.

Lemma all_plain_no_dot (l : list ascii) :
  all_plain l -> Forall (fun c => is_dot c = false) l.
Proof.
  intros H. eapply List.Forall_impl; [|exact H].
  intros c. apply plain_not_dot.
Qed.

Lemma extname_no_dot (s : string) :
  Forall (fun c => is_dot c = false) (Js.chars s) -> extname s = ""%string.
Proof.
  intros H. unfold extname, extname_chars, ext_result.
  rewrite ext_loop_no_dot; [reflexivity | | reflexivity].
  now apply List.Forall_rev.
Qed.

Lemma extname_generated (timestamp : N) (random36 : list nat) (name : string) :
  no_dot (basename name (extname name)) = true ->
  extname (generateUniqueFilename timestamp random36 name) = extname name.
Proof.
  intros Hbase.
  destruct (infix_two_plain timestamp random36) as (m & a & b & Hm & Pm & Pa & Pb).
  destruct (extname_chars_shape (Js.chars name)) as [He | (e & He & Pe)].
  - assert (Hext : extname name = ""%string).
    { unfold extname. now rewrite He. }
    rewrite Hext. apply extname_no_dot.
    rewrite generated_chars, Hext, Hm.
    rewrite Hext in Hbase.
    repeat apply Forall_app_2.
    + now apply no_dot_Forall.
    + now apply all_plain_no_dot.
    + repeat constructor; now apply plain_not_dot.
    + constructor.
  - unfold extname at 1. rewrite generated_chars, Hm.
    assert (Hc : Js.chars (extname name) = CHAR_DOT :: e).
    { unfold extname. now rewrite chars_str. }
    rewrite Hc.
    replace (Js.chars (basename name (extname name))
             ++ (m ++ [a; b]) ++ CHAR_DOT :: e)
      with ((Js.chars (basename name (extname name)) ++ m)
            ++ [a; b] ++ CHAR_DOT :: e)
      by (rewrite <- !app_assoc; reflexivity).
    rewrite extname_chars_ending by assumption.
    unfold extname. now rewrite He.
Qed.

Lemma includes_In (arr : list string) (x : string) :
  Js.includes arr x = true <-> List.In x arr.
Proof.
  unfold Js.includes. rewrite existsb_exists. split.
  - intros (y & Hy & E). apply String.eqb_eq in E. now subst.
  - intros H. exists x. split; [assumption | apply String.eqb_refl].
Qed.

Lemma toLowerCase_app (s t : string) :
  Js.toLowerCase (s ++ t) = (Js.toLowerCase s ++ Js.toLowerCase t)%string.
Proof.
  apply chars_inj. unfold Js.toLowerCase.
  rewrite !chars_app, !chars_str. apply List.map_app.
Qed.

Lemma toLowerCase_idem (s : string) :
  Js.toLowerCase (Js.toLowerCase s) = Js.toLowerCase s.
Proof.
  unfold Js.toLowerCase. rewrite chars_str. f_equal.
  rewrite List.map_map. apply List.map_ext. intros c.
  apply lower_char_idem.
Qed.

Lemma isValidVideoFile_lower (filename : string) :
  isValidVideoFile filename = isValidVideoFile (Js.toLowerCase filename).
Proof.
  unfold isValidVideoFile.
  now rewrite extname_toLowerCase, toLowerCase_idem.
Qed.

End FileNameFacts.

Section CaseFacts.
Import Path FileManager Props.

(** One character that is not a separator before the dot is enough for the
    rest to be the extension. *)
Lemma extname_chars_after (pre e : list ascii) (a : ascii) :
  is_slash a = false -> all_plain e -> e <> [] ->
  extname_chars (pre ++ a :: CHAR_DOT :: e) = CHAR_DOT :: e.
Proof.
  intros Ha He Hne. unfold extname_chars.
  set (cs := pre ++ a :: CHAR_DOT :: e).
  set (p := Z.of_nat (length pre) + 1).
  assert (Le : (0 < length e)%nat) by (destruct e; [congruence | simpl; lia]).
  assert (Hn : Z.of_nat (length cs) = p + 1 + Z.of_nat (length e)).
  { unfold cs, p. rewrite !length_app. simpl. lia. }
  assert (Hrev : rev cs = rev e ++ CHAR_DOT :: a :: rev pre).
  { unfold cs. rewrite !rev_app_distr. simpl. rewrite <- !app_assoc.
    reflexivity. }
  rewrite Hrev.
  rewrite (ext_loop_extension e _ _ p He Hn) by (unfold p; lia).
  rewrite ext_loop_cons by assumption.
  set (st1 := ext_visit a (p - 1) _).
  assert (V : startDot st1 = p /\ end_ st1 = Z.of_nat (length cs)
              /\ preDotState st1 <> 0).
  { unfold st1, ext_visit.
    cbn [end_ startDot startPart matchedSlash preDotState].
    assert ((Z.of_nat (length cs) =? -1) = false) as -> by lia.
    cbn [end_ startDot startPart matchedSlash preDotState].
    assert ((p =? -1) = false) as -> by (unfold p; lia).
    destruct (is_dot a); cbn; repeat split; lia. }
  destruct V as (V1 & V2 & V3).
  destruct (ext_loop_tail (rev pre) (p - 1 - 1) st1) as (A & B & C & D);
    [unfold p in *; lia | lia | assumption |].
  set (F := ext_loop (rev pre) (p - 1 - 1) st1) in *.
  unfold ext_result.
  assert ((startDot F =? -1) = false) as -> by (unfold p in *; lia).
  assert ((end_ F =? -1) = false) as -> by lia.
  assert ((preDotState F =? 0) = false) as -> by lia.
  assert ((startDot F =? end_ F - 1) = false) as -> by lia.
  rewrite andb_false_r. simpl.
  rewrite A, B, V1, V2, Hn. unfold cs.
  replace (pre ++ a :: CHAR_DOT :: e)
    with ((pre ++ [a]) ++ (CHAR_DOT :: e) ++ [])
    by (rewrite app_nil_r, <- app_assoc; reflexivity).
  replace p with (Z.of_nat (length (pre ++ [a])))
    by (unfold p; rewrite length_app; simpl; lia).
  replace (Z.of_nat (length (pre ++ [a])) + 1 + Z.of_nat (length e))
    with (Z.of_nat (length (pre ++ [a]))
          + Z.of_nat (length (CHAR_DOT :: e)))
    by (cbn [length]; lia).
  apply slice_chars_middle.
Qed.

(** The two forms of a letter, spelled out. *)
Lemma same_letter_cases (c d : ascii) :
  same_letter c d = true ->
  c = d \/ List.In (c, d) letter_pairs \/ List.In (d, c) letter_pairs.
Proof.
  unfold same_letter. intros H. apply orb_true_iff in H as [H|H].
  - left. now apply Ascii.eqb_eq.
  - right. apply existsb_exists in H as ([u l] & Hin & H).
    cbn [fst snd] in H. apply orb_true_iff in H as [H|H];
      apply andb_true_iff in H as [H1 H2];
      apply Ascii.eqb_eq in H1, H2; subst; [left | right]; assumption.
Qed.

Lemma letter_pair_lower (u l : ascii) :
  List.In (u, l) letter_pairs ->
  Js.lower_char u = l /\ Js.lower_char l = l /\
  plain u = true /\ plain l = true.
Proof.
  intros H. unfold letter_pairs in H. cbn in H.
  repeat (destruct H as [H|H];
          [injection H as <- <-; repeat split; reflexivity|]).
  destruct H.
Qed.

Lemma same_letter_lower (c d : ascii) :
  same_letter c d = true -> Js.lower_char c = Js.lower_char d.
Proof.
  intros H. destruct (same_letter_cases c d H) as [->|[P|P]];
    [reflexivity | |]; apply letter_pair_lower in P as (A & B & _);
    congruence.
Qed.

Lemma same_letter_plain (c d : ascii) :
  same_letter c d = true -> plain c = true -> plain d = true.
Proof.
  intros H Hc. destruct (same_letter_cases c d H) as [->|[P|P]];
    [assumption | |]; apply letter_pair_lower in P as (_ & _ & A & B);
    assumption.
Qed.

Lemma same_letter_dot (d : ascii) :
  same_letter CHAR_DOT d = true -> d = CHAR_DOT.
Proof.
  intros H. destruct (same_letter_cases _ d H) as [<-|[P|P]];
    [reflexivity | |]; exfalso; unfold letter_pairs in P; cbn in P;
    repeat (destruct P as [P|P]; [discriminate P|]); destruct P.
Qed.

(** Case variants have the same lower-case form. *)
Lemma case_variant_chars_lower (l : list ascii) :
  forall l', case_variant_chars l l' = true ->
             map Js.lower_char l = map Js.lower_char l'.
Proof.
  induction l as [|c l IH]; intros [|c' l'] H; simpl in *;
    try discriminate; [reflexivity|].
  apply andb_true_iff in H as [H1 H2].
  now rewrite (same_letter_lower _ _ H1), (IH _ H2).
Qed.

Lemma case_variant_lower (s t : string) :
  case_variant s t = true -> Js.toLowerCase s = Js.toLowerCase t.
Proof.
  intros H. unfold Js.toLowerCase.
  now rewrite (case_variant_chars_lower _ _ H).
Qed.

Lemma case_variant_chars_plain (l : list ascii) :
  forall l', case_variant_chars l l' = true ->
             all_plain l -> all_plain l' /\ length l' = length l.
Proof.
  induction l as [|c l IH]; intros [|c' l'] H Hp; simpl in *;
    try discriminate; [split; [constructor | reflexivity]|].
  apply andb_true_iff in H as [H1 H2].
  inversion Hp as [|? ? Pc Pl]; subst.
  destruct (IH _ H2 Pl) as [A B].
  split; [constructor; [eapply same_letter_plain; eassumption | assumption]
         | now rewrite B].
Qed.

(** In ASCII, a character is a case variant of its lower-case form. *)
Lemma lower_char_same_letter (c : ascii) :
  Js.is_ascii_char c = true -> same_letter (Js.lower_char c) c = true.
Proof.
  destruct c as [[] [] [] [] [] [] [] []]; vm_compute;
    first [reflexivity | discriminate].
Qed.

Lemma lower_case_variant (l : list ascii) :
  forallb Js.is_ascii_char l = true ->
  case_variant_chars (map Js.lower_char l) l = true.
Proof.
  induction l as [|c l IH]; simpl; [reflexivity|]. intros H.
  apply andb_true_iff in H as [H1 H2].
  now rewrite (lower_char_same_letter _ H1), (IH H2).
Qed.

Lemma extname_chars_ascii (cs : list ascii) :
  forallb Js.is_ascii_char cs = true ->
  forallb Js.is_ascii_char (extname_chars cs) = true.
Proof.
  intros H. unfold extname_chars, ext_result.
  match goal with |- context [if ?b then _ else _] => destruct b end;
    [reflexivity|].
  unfold Js.slice_chars. apply forallb_forall. intros c Hc.
  rewrite forallb_forall in H. apply H.
  apply list_elem_of_In. apply list_elem_of_In in Hc.
  eapply subseteq_drop, subseteq_take, Hc.
Qed.

(** The allowed extensions: a dot and then letters and digits. *)
Lemma allowed_shape (ext : string) :
  List.In ext allowedExtensions ->
  exists e, Js.chars ext = CHAR_DOT :: e /\ all_plain e /\ e <> []
            /\ Js.toLowerCase ext = ext.
Proof.
  intros H. unfold allowedExtensions in H. cbn in H.
  repeat (destruct H as [<-|H];
          [eexists; split; [reflexivity|];
           split; [repeat constructor|]; split; [discriminate | reflexivity]|]).
  destruct H.
Qed.

End CaseFacts.

(** C9.  [isValidVideoFile] is decided by the extension, whatever the case
    of its letters.  A name is accepted when it ends with a character that
    is not [/] followed by [.mp4], [.mov], [.avi], [.mkv] or [.webm] in any
    mix of capital and small letters ([clip.AVI], say); an accepted ASCII
    name has such an extension; two names that differ only in the case of
    letters, in particular only in the case of the extension, get the same
    answer; and for an ASCII name the answer is true exactly when the
    lower-cased extension is in the list. *)
Theorem isValidVideoFile_allow_list :
  (forall (pre : string) (a : ascii) (ext ext' : string),
     List.In ext [".mp4"; ".mov"; ".avi"; ".mkv"; ".webm"]%string ->
     Props.case_variant ext ext' = true ->
     Path.is_slash a = false ->
     FileManager.isValidVideoFile (pre ++ String a ext') = true) /\
  (forall filename : string,
     Js.is_ascii filename = true ->
     FileManager.isValidVideoFile filename = true ->
     exists ext : string,
       List.In ext [".mp4"; ".mov"; ".avi"; ".mkv"; ".webm"]%string /\
       Props.case_variant ext (Path.extname filename) = true) /\
  (forall filename filename' : string,
     Props.case_variant filename filename' = true ->
     FileManager.isValidVideoFile filename'
       = FileManager.isValidVideoFile filename) /\
  (forall stem ext ext' : string,
     Props.case_variant ext ext' = true ->
     FileManager.isValidVideoFile (stem ++ ext')
       = FileManager.isValidVideoFile (stem ++ ext)) /\
  (forall filename : string,
     Js.is_ascii filename = true ->
     (FileManager.isValidVideoFile filename = true
      <-> List.In (Js.toLowerCase (Path.extname filename))
                  [".mp4"; ".mov"; ".avi"; ".mkv"; ".webm"]%string)).
Proof.
  split; [|split; [|split; [|split]]].
  - intros pre a ext ext' Hin Hv Ha.
    destruct (allowed_shape ext Hin) as (e & Ee & Pe & Ne & Le).
    unfold Props.case_variant in Hv. rewrite Ee in Hv.
    destruct (Js.chars ext') as [|d e'] eqn:Ee'; [discriminate|].
    cbn [Props.case_variant_chars] in Hv.
    apply andb_true_iff in Hv as [Hd Hv].
    apply same_letter_dot in Hd. subst d.
    destruct (case_variant_chars_plain _ _ Hv Pe) as [Pe' Len].
    assert (Ne' : e' <> []) by (destruct e', e; simpl in *; congruence).
    assert (X : Path.extname (pre ++ String a ext') = ext').
    { unfold Path.extname. rewrite chars_app.
      change (Js.chars (String a ext')) with (a :: Js.chars ext').
      rewrite Ee', extname_chars_after by assumption.
      rewrite <- Ee'. apply str_chars. }
    unfold FileManager.isValidVideoFile. rewrite X.
    apply includes_In.
    assert (L : Js.toLowerCase ext' = ext).
    { rewrite <- Le. symmetry. apply case_variant_lower.
      unfold Props.case_variant. rewrite Ee, Ee'.
      cbn [Props.case_variant_chars]. rewrite Hv.
      reflexivity. }
    rewrite L. exact Hin.
  - intros filename Hascii Hv.
    exists (Js.toLowerCase (Path.extname filename)). split.
    + apply includes_In. exact Hv.
    + unfold Props.case_variant, Js.toLowerCase, Path.extname.
      rewrite !chars_str. apply lower_case_variant.
      apply extname_chars_ascii. exact Hascii.
  - intros filename filename' H.
    rewrite (isValidVideoFile_lower filename'),
            (isValidVideoFile_lower filename).
    now rewrite (case_variant_lower _ _ H).
  - intros stem ext ext' H.
    rewrite (isValidVideoFile_lower (stem ++ ext')),
            (isValidVideoFile_lower (stem ++ ext)).
    now rewrite !toLowerCase_app, (case_variant_lower _ _ H).
  - intros filename _. unfold FileManager.isValidVideoFile.
    apply includes_In.
Qed.

Lemma isValidVideoFile_allow_list_witness :
  List.In ".avi"%string [".mp4"; ".mov"; ".avi"; ".mkv"; ".webm"]%string /\
  Props.case_variant ".avi" ".AVI" = true /\
  Path.is_slash "p"%char = false /\
  FileManager.isValidVideoFile "clip.AVI" = true.
Proof.
  split; [simpl; auto|]. split; [reflexivity|]. split; [reflexivity|].
  apply (proj1 isValidVideoFile_allow_list
           "cli"%string "p"%char ".avi"%string ".AVI"%string);
    [simpl; auto | reflexivity | reflexivity].
Defined.

(** C10.  The generated name ends with the extension of the original name,
    unchanged; and when the base name of the original holds no dot, the
    generated name has the same extension and the same validity as a video
    file. *)
Theorem generateUniqueFilename_keeps_extension
    (timestamp : N) (random36 : list nat) (originalName : string) :
  (exists stem : string,
     FileManager.generateUniqueFilename timestamp random36 originalName
     = (stem ++ Path.extname originalName)%string) /\
  (Props.no_dot (Path.basename originalName (Path.extname originalName)) = true ->
   Path.extname
     (FileManager.generateUniqueFilename timestamp random36 originalName)
   = Path.extname originalName /\
   FileManager.isValidVideoFile
     (FileManager.generateUniqueFilename timestamp random36 originalName)
   = FileManager.isValidVideoFile originalName).
Proof.
  split.
  - exists (Path.basename originalName (Path.extname originalName)
            ++ "_" ++ Js.show_N timestamp ++ "_"
            ++ Js.substring (Js.toString36 random36) 2 8)%string.
    unfold FileManager.generateUniqueFilename.
    apply chars_inj. rewrite !chars_app, <- !app_assoc. reflexivity.
  - intros H.
    pose proof (extname_generated timestamp random36 originalName H) as E.
    split; [exact E|].
    unfold FileManager.isValidVideoFile. now rewrite E.
Qed.

Lemma generateUniqueFilename_keeps_extension_witness :
  Props.no_dot (Path.basename "holiday.MP4" (Path.extname "holiday.MP4")) = true /\
  (Path.extname
     (FileManager.generateUniqueFilename 1700000000123 [10; 11; 35]%nat
        "holiday.MP4")
   = Path.extname "holiday.MP4" /\
   FileManager.isValidVideoFile
     (FileManager.generateUniqueFilename 1700000000123 [10; 11; 35]%nat
        "holiday.MP4")
   = FileManager.isValidVideoFile "holiday.MP4").
Proof.
  split.
  - reflexivity.
  - apply (proj2 (generateUniqueFilename_keeps_extension
                    1700000000123 [10; 11; 35]%nat "holiday.MP4")).
    reflexivity.
Defined.

(** ** [FileManager.deleteFile] *)

Section DeleteFacts.
Import FileManager.

Lemma existsSync_spec (fs : gmap string FsNode) (p : string) :
  existsSync fs p = match fs !! p with Some _ => true | None => false end.
Proof.
  unfold existsSync. destruct (fs !! p) eqn:E.
  - apply bool_decide_eq_true. eauto.
  - apply bool_decide_eq_false. intros [x Hx]. discriminate.
Qed.

Lemma deleteFile_missing (fs : gmap string FsNode) (p : string) :
  fs !! p = None -> deleteFile fs p = (fs, false).
Proof.
  intros H. unfold deleteFile. now rewrite existsSync_spec, H.
Qed.

Lemma deleteFile_file (fs : gmap string FsNode) (p : string) :
  fs !! p = Some RegularFile -> deleteFile fs p = (delete p fs, true).
Proof.
  intros H. unfold deleteFile, unlink. now rewrite existsSync_spec, H.
Qed.

Lemma deleteFile_directory (fs : gmap string FsNode) (p : string) :
  fs !! p = Some Directory -> deleteFile fs p = (fs, false).
Proof.
  intros H. unfold deleteFile, unlink. now rewrite existsSync_spec, H.
Qed.

End DeleteFacts.

(** C8.  [deleteFile] always returns a boolean: for a path that does not
    exist it returns [false] and leaves the file system as it is; and
    deleting the same path a second time returns [false] and changes
    nothing. *)
Theorem deleteFile_idempotent (fs : gmap string FileManager.FsNode)
    (filePath : string) :
  (fs !! filePath = None ->
   FileManager.deleteFile fs filePath = (fs, false)) /\
  FileManager.deleteFile (fst (FileManager.deleteFile fs filePath)) filePath
  = (fst (FileManager.deleteFile fs filePath), false).
Proof.
  split; [apply deleteFile_missing|].
  destruct (fs !! filePath) as [[]|] eqn:E.
  - rewrite (deleteFile_file _ _ E). simpl.
    apply deleteFile_missing, lookup_delete_eq.
  - rewrite (deleteFile_directory _ _ E). simpl.
    apply deleteFile_directory, E.
  - rewrite (deleteFile_missing _ _ E). simpl.
    apply deleteFile_missing, E.
Qed.

Lemma deleteFile_idempotent_witness :
  (∅ : gmap string FileManager.FsNode) !! "/uploads/gone.mp4"%string = None /\
  FileManager.deleteFile ∅ "/uploads/gone.mp4" = (∅, false).
Proof.
  split.
  - reflexivity.
  - apply (proj1 (deleteFile_idempotent ∅ "/uploads/gone.mp4")).
    reflexivity.
Defined.

(** ** Encoder arguments *)

Section ArgsFacts.
Import FFmpeg Props.

(** Same configuration, same argument sequence. *)
Lemma buildFFmpegArgs_deterministic (c1 c2 : StreamConfig) :
  c1 = c2 -> buildFFmpegArgs c1 = buildFFmpegArgs c2.
Proof. intros ->. reflexivity. Qed.

(** The place of the two filters in the argument array. *)
Lemma args_filters (config : StreamConfig) :
  buildFFmpegArgs config !! (af_index config - 3)%nat = Some "-vf"%string /\
  buildFFmpegArgs config !! (af_index config - 2)%nat
    = Some (videoFilter config) /\
  buildFFmpegArgs config !! (af_index config - 1)%nat = Some "-af"%string /\
  buildFFmpegArgs config !! af_index config = Some (audioFilter config).
Proof.
  unfold buildFFmpegArgs, af_index. destruct (loopVideo config);
    repeat split; reflexivity.
Qed.

(** Portrait mode: the canvas is 720x1280 whatever the resolution class. *)
Lemma videoFilter_mobile (config : StreamConfig) :
  mode config = "mobile"%string ->
  videoFilter config
  = "scale=720:1280:force_original_aspect_ratio=decrease,pad=720:1280:(ow-iw)/2:(oh-ih)/2:black"%string.
Proof. intros H. unfold videoFilter. now rewrite H. Qed.

(** A resolution class that names neither an entry of the table nor a
    member of [Object.prototype] gets the 720p entry. *)
Lemma getQualitySettings_fallback (quality : string) :
  own_property settings quality = None ->
  Js.includes object_prototype_keys quality = false ->
  getQualitySettings quality = OwnEntry (mkQuality 1280 720 "3000k" "6000k").
Proof.
  intros H1 H2. unfold getQualitySettings, settings_get.
  now rewrite H1, H2.
Qed.

Lemma getQualitySettings_own (quality : string) (q : QualitySettings) :
  own_property settings quality = Some q ->
  getQualitySettings quality = OwnEntry q.
Proof.
  intros H. unfold getQualitySettings, settings_get. now rewrite H.
Qed.

End ArgsFacts.

(** C4, at the input on which the fallback is missed.  The resolution class
    [constructor] is not one of the four entries of the table, yet the
    lookup finds the member of that name inherited from [Object.prototype],
    so the 720p entry is not used: width, height, maxrate and bufsize are
    read as [undefined]. *)
Theorem getQualitySettings_inherited_key :
  FFmpeg.own_property FFmpeg.settings "constructor" = None /\
  FFmpeg.getQualitySettings "constructor" = FFmpeg.Inherited "constructor" /\
  FFmpeg.getQualitySettings "constructor"
    <> FFmpeg.OwnEntry (FFmpeg.mkQuality 1280 720 "3000k" "6000k") /\
  FFmpeg.videoFilter Scenario.cfg_constructor
    = "scale=undefined:undefined:force_original_aspect_ratio=decrease,pad=undefined:undefined:(ow-iw)/2:(oh-ih)/2:black"%string /\
  FFmpeg.buildFFmpegArgs Scenario.cfg_constructor !! 15%nat
    = Some "-maxrate"%string /\
  FFmpeg.buildFFmpegArgs Scenario.cfg_constructor !! 16%nat
    = Some "undefined"%string /\
  FFmpeg.buildFFmpegArgs Scenario.cfg_constructor !! 18%nat
    = Some "undefined"%string.
Proof.
  repeat split; try reflexivity. discriminate.
Qed.

(** The scenario of the specification: 720p, landscape, no loop, volume 50,
    not muted. *)
Example args_scenario_720p :
  FFmpeg.videoFilter Scenario.cfg7
    = "scale=1280:720:force_original_aspect_ratio=decrease,pad=1280:720:(ow-iw)/2:(oh-ih)/2:black"%string /\
  FFmpeg.audioFilter Scenario.cfg7 = "volume=0.5"%string /\
  FFmpeg.buildFFmpegArgs Scenario.cfg7 !! 7%nat = Some "-af"%string /\
  FFmpeg.buildFFmpegArgs Scenario.cfg7 !! 8%nat = Some "volume=0.5"%string.
Proof. repeat split; reflexivity. Qed.

(** ** The audio gain *)

(** *** Rounding to a double *)

Section NumberFacts.

Lemma round_half_even_error (n d : Z) :
  0 < d -> 2 * Z.abs (n - Js.round_half_even n d * d) <= d.
Proof.
  intros H. unfold Js.round_half_even.
  pose proof (Z.div_mod n d ltac:(lia)) as E.
  pose proof (Z.mod_pos_bound n d H) as B.
  set (q := n / d) in *. set (r := n mod d) in *.
  destruct (Z.ltb_spec (2 * r) d); [nia|].
  destruct (Z.ltb_spec d (2 * r)); [nia|].
  destruct (Z.even q); nia.
Qed.

Lemma round_half_even_floor (n d : Z) :
  0 < d -> n / d <= Js.round_half_even n d <= n / d + 1.
Proof.
  intros H. unfold Js.round_half_even.
  destruct (Z.ltb_spec (2 * (n mod d)) d); [lia|].
  destruct (Z.ltb_spec d (2 * (n mod d))); [lia|].
  destruct (Z.even (n / d)); lia.
Qed.

Lemma round_half_even_lower (n d c : Z) :
  0 < d -> c * d <= n -> c <= Js.round_half_even n d.
Proof.
  intros H L. pose proof (round_half_even_floor n d H).
  assert (c <= n / d) by (apply Z.div_le_lower_bound; lia). lia.
Qed.

Lemma round_half_even_zero (d : Z) : 0 < d -> Js.round_half_even 0 d = 0.
Proof.
  intros H. unfold Js.round_half_even.
  rewrite Z.div_0_l, Z.mod_0_l by lia.
  destruct (Z.ltb_spec (2 * 0) d); [reflexivity | lia].
Qed.

Lemma pow2_pos (k : Z) : 0 <= k -> 0 < 2 ^ k.
Proof. intros. apply Z.pow_pos_nonneg; lia. Qed.

Lemma pow10_pos (k : Z) : 0 <= k -> 0 < 10 ^ k.
Proof. intros. apply Z.pow_pos_nonneg; lia. Qed.

(** [binade] is a lower bound of the binary exponent of [num / den]. *)
Lemma binade_lower (num den : Z) :
  0 < num -> 0 < den ->
  let b := Js.binade num den in
  (0 <= b -> den * 2 ^ b <= num) /\ (b < 0 -> den <= num * 2 ^ (- b)).
Proof.
  intros Hn Hd. unfold Js.binade.
  pose proof (Z.log2_spec num Hn) as [Ln Un].
  pose proof (Z.log2_spec den Hd) as [Ld Ud].
  pose proof (Z.log2_nonneg num) as Nn.
  pose proof (Z.log2_nonneg den) as Nd.
  set (ln := Z.log2 num) in *. set (ld := Z.log2 den) in *.
  unfold Js.scale.
  destruct (Z.leb_spec 0 (ln - ld)) as [Hs|Hs].
  - destruct (Z.leb_spec (den * 2 ^ (ln - ld)) num) as [Hc|Hc]; cbn zeta.
    + split; [intros _; exact Hc | lia].
    + split.
      * intros Hb.
        assert (E : 2 ^ ln = 2 ^ (ld + 1) * 2 ^ (ln - ld - 1)).
        { rewrite <- Z.pow_add_r by lia. f_equal. lia. }
        assert (0 < 2 ^ (ln - ld - 1)) by (apply pow2_pos; lia).
        replace (Z.succ ld) with (ld + 1) in Ud by lia. nia.
      * intros Hb. assert (El : ln = ld) by lia.
        replace (- (ln - ld - 1)) with 1 by lia.
        replace (Z.succ ld) with (ld + 1) in Ud by lia.
        rewrite Z.pow_add_r in Ud by lia. rewrite El in Ln.
        rewrite Z.pow_1_r in *. lia.
  - destruct (Z.leb_spec den (num * 2 ^ (- (ln - ld)))) as [Hc|Hc]; cbn zeta.
    + split; [lia | intros _; exact Hc].
    + split; [lia|]. intros _.
      replace (- (ln - ld - 1)) with ((ld + 1) - ln) by lia.
      assert (E : 2 ^ (ld + 1) = 2 ^ ln * 2 ^ (ld + 1 - ln)).
      { rewrite <- Z.pow_add_r by lia. f_equal. lia. }
      assert (0 < 2 ^ (ld + 1 - ln)) by (apply pow2_pos; lia).
      replace (Z.succ ld) with (ld + 1) in Ud by lia. nia.
Qed.

Lemma binade_bounds (num den : Z) :
  Z.log2 num - Z.log2 den - 1 <= Js.binade num den <= Z.log2 num - Z.log2 den.
Proof.
  unfold Js.binade.
  destruct (Js.scale 2 num den (Z.log2 num - Z.log2 den)) as [n1 d1].
  destruct (d1 <=? n1); lia.
Qed.


Lemma scale_den_pos (base num den p : Z) :
  0 < base -> 0 < den -> 0 < snd (Js.scale base num den p).
Proof.
  intros Hb Hd. unfold Js.scale.
  destruct (Z.leb_spec 0 p); cbn [snd]; [|assumption].
  apply Z.mul_pos_pos; [assumption | apply Z.pow_pos_nonneg; lia].
Qed.

Lemma scale_num_nonneg (base num den p : Z) :
  0 < base -> 0 <= num -> 0 <= fst (Js.scale base num den p).
Proof.
  intros Hb Hn. unfold Js.scale.
  destruct (Z.leb_spec 0 p); cbn [fst]; [assumption|].
  apply Z.mul_nonneg_nonneg; [assumption | apply Z.pow_nonneg; lia].
Qed.

(** The steps of [to_double] when the result is finite. *)
Lemma to_double_finite (num den : Z) (m : positive) (e : Z) :
  0 <= num -> 0 < den ->
  Js.to_double num den = Js.DFinite m e ->
  exists e0 m0,
    e0 = Z.max (Js.binade num den - 52) (-1074) /\
    m0 = Js.round_half_even (fst (Js.scale 2 num den e0))
                            (snd (Js.scale 2 num den e0)) /\
    0 < m0 /\
    ((m0 = 2 ^ 53 /\ Z.pos m = 2 ^ 52 /\ e = e0 + 1)
     \/ (m0 <> 2 ^ 53 /\ Z.pos m = m0 /\ e = e0)).
Proof.
  intros Hn Hd. unfold Js.to_double.
  set (e0 := Z.max (Js.binade num den - 52) (-1074)).
  pose proof (scale_den_pos 2 num den e0 ltac:(lia) Hd) as Dp.
  pose proof (scale_num_nonneg 2 num den e0 ltac:(lia) Hn) as Np.
  destruct (Js.scale 2 num den e0) as [n1 d1] eqn:Es. cbn [fst snd] in *.
  set (m0 := Js.round_half_even n1 d1).
  assert (M0 : 0 <= m0).
  { pose proof (round_half_even_floor n1 d1 Dp).
    assert (0 <= n1 / d1) by (apply Z.div_pos; lia). unfold m0. lia. }
  destruct (Z.eqb_spec m0 0) as [Hz|Hz]; [discriminate|].
  destruct (Z.eqb_spec m0 (2 ^ 53)) as [Hc|Hc].
  - destruct (971 <? e0 + 1); [discriminate|]. intros E. injection E as <- <-.
    exists e0, m0. split; [reflexivity|].
    split; [rewrite Es; reflexivity|].
    split; [lia|]. left. rewrite Hc. repeat split; reflexivity.
  - destruct (971 <? e0); [discriminate|]. intros E. injection E as <- <-.
    exists e0, m0. split; [reflexivity|].
    split; [rewrite Es; reflexivity|].
    split; [lia|]. right. split; [assumption|]. split; [lia | reflexivity].
Qed.

(** Rounding error: at most half a unit in the last place. *)
Lemma to_double_error (num den : Z) (m : positive) (e : Z) :
  0 <= num -> 0 < den ->
  Js.to_double num den = Js.DFinite m e -> e < 0 ->
  2 * Z.abs (num * 2 ^ (- e) - Z.pos m * den) <= den.
Proof.
  intros Hn Hd E He.
  destruct (to_double_finite _ _ _ _ Hn Hd E) as (e0 & m0 & He0 & Hm0 & Mp & C).
  assert (S0 : e0 < 0) by lia.
  unfold Js.scale in Hm0.
  destruct (Z.leb_spec 0 e0); [lia|]. cbn [fst snd] in Hm0.
  pose proof (round_half_even_error (num * 2 ^ (- e0)) den Hd) as R.
  rewrite <- Hm0 in R.
  destruct C as [(C1 & C2 & C3) | (C1 & C2 & C3)].
  - rewrite C2. subst e.
    replace (- e0) with (1 + - (e0 + 1)) in R by lia.
    rewrite Z.pow_add_r, Z.pow_1_r in R by lia.
    rewrite C1 in R. change (2 ^ 53) with (2 * 2 ^ 52) in R.
    set (P := 2 ^ (- (e0 + 1))) in *. lia.
  - rewrite C2. subst e. exact R.
Qed.

(** Unless the exponent is clamped, the significand has 53 bits. *)
Lemma scale_normal (num den : Z) :
  0 < num -> 0 < den ->
  2 ^ 52 * snd (Js.scale 2 num den (Js.binade num den - 52))
  <= fst (Js.scale 2 num den (Js.binade num den - 52)).
Proof.
  intros Hn Hd. destruct (binade_lower num den Hn Hd) as [B1 B2].
  set (b := Js.binade num den) in *. unfold Js.scale.
  destruct (Z.leb_spec 0 (b - 52)) as [H|H]; cbn [fst snd].
  - specialize (B1 ltac:(lia)).
    replace b with (52 + (b - 52)) in B1 by lia.
    rewrite Z.pow_add_r in B1 by lia. lia.
  - destruct (Z.leb_spec 0 b) as [Hb|Hb].
    + specialize (B1 Hb).
      assert (E : 2 ^ 52 = 2 ^ b * 2 ^ (- (b - 52))).
      { rewrite <- Z.pow_add_r by lia. f_equal. lia. }
      rewrite E. assert (0 < 2 ^ (- (b - 52))) by (apply pow2_pos; lia). nia.
    + specialize (B2 Hb).
      replace (- (b - 52)) with (52 + - b) by lia.
      rewrite Z.pow_add_r by lia. lia.
Qed.

Lemma to_double_normal (num den : Z) :
  0 < num -> 0 < den -> -1022 <= Js.binade num den ->
  Js.to_double num den <> Js.DZero /\
  forall m e, Js.to_double num den = Js.DFinite m e -> 2 ^ 52 <= Z.pos m.
Proof.
  intros Hn Hd Hb.
  pose proof (scale_normal num den Hn Hd) as N.
  assert (E0 : Z.max (Js.binade num den - 52) (-1074) = Js.binade num den - 52)
    by lia.
  split.
  - unfold Js.to_double. rewrite E0.
    pose proof (scale_den_pos 2 num den (Js.binade num den - 52) ltac:(lia) Hd).
    destruct (Js.scale 2 num den (Js.binade num den - 52)) as [n1 d1].
    cbn [fst snd] in *.
    pose proof (round_half_even_lower n1 d1 (2 ^ 52) H N) as L.
    destruct (Z.eqb_spec (Js.round_half_even n1 d1) 0) as [Hz|Hz].
    { rewrite Hz in L. lia. }
    destruct (Js.round_half_even n1 d1 =? 2 ^ 53).
    + destruct (971 <? _); discriminate.
    + destruct (971 <? _); discriminate.
  - intros m e E.
    destruct (to_double_finite num den m e (Z.lt_le_incl _ _ Hn) Hd E)
      as (e0 & m0 & He0 & Hm0 & Mp & C).
    rewrite E0 in He0. subst e0.
    pose proof (scale_den_pos 2 num den (Js.binade num den - 52) ltac:(lia) Hd).
    pose proof (round_half_even_lower _ _ (2 ^ 52) H N) as L.
    rewrite <- Hm0 in L. destruct C as [(_ & C & _)|(_ & C & _)]; lia.
Qed.

Lemma to_double_zero (den : Z) : 0 < den -> Js.to_double 0 den = Js.DZero.
Proof.
  intros Hd. unfold Js.to_double.
  set (e0 := Z.max _ _).
  pose proof (scale_den_pos 2 0 den e0 ltac:(lia) Hd) as Dp.
  assert (N0 : fst (Js.scale 2 0 den e0) = 0).
  { unfold Js.scale. destruct (0 <=? e0); cbn [fst]; lia. }
  destruct (Js.scale 2 0 den e0) as [n1 d1]. cbn [fst snd] in *. subst n1.
  rewrite round_half_even_zero by assumption. reflexivity.
Qed.

End NumberFacts.

(** *** The digits of [Number::toString] *)

Section DigitFacts.

Lemma to_double_infinite (num den : Z) :
  Js.to_double num den = Js.DInfinity ->
  970 < Z.max (Js.binade num den - 52) (-1074).
Proof.
  unfold Js.to_double. set (e0 := Z.max _ _).
  destruct (Js.scale 2 num den e0) as [n1 d1].
  destruct (Js.round_half_even n1 d1 =? 0); [discriminate|].
  destruct (Js.round_half_even n1 d1 =? 2 ^ 53).
  - destruct (Z.ltb_spec 971 (e0 + 1)); [lia | discriminate].
  - destruct (Z.ltb_spec 971 e0); [lia | discriminate].
Qed.

Lemma double_eqb_eq (x y : Js.Double) : Js.double_eqb x y = true <-> x = y.
Proof.
  destruct x as [|m e|], y as [|m' e'|]; simpl; split; intros H;
    try reflexivity; try discriminate.
  - apply andb_true_iff in H as [H1 H2].
    apply Pos.eqb_eq in H1. apply Z.eqb_eq in H2. now subst.
  - injection H as -> ->. now rewrite Pos.eqb_refl, Z.eqb_refl.
Qed.

(** A result of [digits_at] reads back as [x]. *)
Lemma digits_at_valid (x : Js.Double) (num den p s : Z) :
  0 <= num -> 0 < den ->
  Js.digits_at x num den p = Some s ->
  Js.digits_valid x s p = true /\ 0 <= s.
Proof.
  intros Hn Hd. unfold Js.digits_at.
  pose proof (scale_den_pos 10 num den p ltac:(lia) Hd) as Dp.
  pose proof (scale_num_nonneg 10 num den p ltac:(lia) Hn) as Np.
  destruct (Js.scale 10 num den p) as [a b]. cbn [fst snd] in *.
  assert (L : 0 <= a / b) by (apply Z.div_pos; lia).
  pose proof (round_half_even_floor a b Dp) as R.
  destruct (Js.digits_valid x (a / b) p) eqn:V1,
           (Js.digits_valid x (a / b + 1) p) eqn:V2;
    intros E; try discriminate; injection E as <-.
  - split; [|lia].
    assert (C : Js.round_half_even a b = a / b
                \/ Js.round_half_even a b = a / b + 1) by lia.
    destruct C as [-> | ->]; assumption.
  - split; [assumption | lia].
  - split; [assumption | lia].
Qed.

(** The search stops at the first number of digits that has a candidate. *)
Lemma digits_search_found (x : Js.Double) (num den n : Z) (fuel : nat) :
  forall (k : Z) (j : nat),
    (j < fuel)%nat ->
    Js.digits_at x num den (n - (k + Z.of_nat j)) <> None ->
    exists (i : nat) (s : Z),
      (i <= j)%nat /\
      Js.digits_search fuel x num den n k = (s, n - (k + Z.of_nat i)) /\
      Js.digits_at x num den (n - (k + Z.of_nat i)) = Some s.
Proof.
  induction fuel as [|fuel IH]; intros k j Hj Hs; [lia|].
  cbn [Js.digits_search].
  destruct (Js.digits_at x num den (n - k)) as [s|] eqn:E.
  - exists 0%nat, s. replace (k + Z.of_nat 0) with k by lia.
    split; [lia|]. split; [reflexivity | assumption].
  - destruct j as [|j].
    { replace (k + Z.of_nat 0) with k in Hs by lia. congruence. }
    destruct (IH (k + 1) j ltac:(lia)) as (i & s & Hi & S1 & S2).
    { replace (k + 1 + Z.of_nat j) with (k + Z.of_nat (S j)) by lia.
      exact Hs. }
    exists (S i), s.
    replace (k + Z.of_nat (S i)) with (k + 1 + Z.of_nat i) by lia.
    split; [lia|]. split; assumption.
Qed.

Lemma strip_zeros_value (fuel : nat) :
  forall s p s' p',
    0 < s -> Js.strip_zeros fuel s p = (s', p') ->
    0 < s' /\ p <= p' /\ s = s' * 10 ^ (p' - p).
Proof.
  induction fuel as [|fuel IH]; intros s p s' p' Hs; cbn [Js.strip_zeros].
  - intros E. injection E as <- <-. rewrite Z.sub_diag. simpl. lia.
  - destruct (Z.eqb_spec (s mod 10) 0) as [Hz|Hz].
    + intros E.
      pose proof (Z.div_mod s 10 ltac:(lia)) as D.
      destruct (IH (s / 10) (p + 1) s' p' ltac:(lia) E) as (P1 & P2 & P3).
      split; [assumption|]. split; [lia|].
      replace (p' - p) with (1 + (p' - (p + 1))) by lia.
      rewrite Z.pow_add_r, Z.pow_1_r by lia. lia.
    + intros E. injection E as <- <-. rewrite Z.sub_diag. simpl. lia.
Qed.

Lemma decimal_exponent_upper (num den N : Z) (fuel : nat) :
  forall n,
    n <= N ->
    fst (Js.scale 10 num den N) < snd (Js.scale 10 num den N) ->
    Js.decimal_exponent_from fuel num den n <= N.
Proof.
  induction fuel as [|fuel IH]; intros n Hn HN; cbn [Js.decimal_exponent_from];
    [assumption|].
  destruct (Js.scale 10 num den n) as [a b] eqn:E.
  destruct (Z.ltb_spec a b) as [Hlt|Hge]; [assumption|].
  apply IH; [|assumption].
  destruct (Z.eq_dec n N) as [->|]; [|lia].
  rewrite E in HN. cbn [fst snd] in HN. lia.
Qed.

Lemma decimal_exponent_lower (num den L : Z) (fuel : nat) :
  forall n,
    (forall j, j < L ->
       snd (Js.scale 10 num den j) <= fst (Js.scale 10 num den j)) ->
    L <= n + Z.of_nat fuel ->
    L <= Js.decimal_exponent_from fuel num den n.
Proof.
  induction fuel as [|fuel IH]; intros n Hl Hn; cbn [Js.decimal_exponent_from];
    [lia|].
  destruct (Js.scale 10 num den n) as [a b] eqn:E.
  destruct (Z.ltb_spec a b) as [Hlt|Hge].
  - destruct (Z.lt_ge_cases n L) as [C|C]; [|lia].
    specialize (Hl n C). rewrite E in Hl. cbn [fst snd] in Hl. lia.
  - apply IH; [assumption | lia].
Qed.

End DigitFacts.

(** *** Quotients by 100 *)

Section HundredthsFacts.

Variable a : Z.
Hypothesis Ha : 2 <= a < 100 * 2 ^ 46.

(** The quotient [a / 100] as a double: 53 significant bits, a unit in the
    last place of at most [2^-7], and within half a unit of [a / 100]. *)
Lemma hundredths_double :
  exists m e,
    Js.to_double a 100 = Js.DFinite m e /\
    e <= -7 /\ 2 ^ 52 <= Z.pos m /\
    2 * Z.abs (a * 2 ^ (- e) - Z.pos m * 100) <= 100.
Proof.
  assert (L1 : Z.log2 a < 53).
  { apply Z.log2_lt_pow2; [lia|]. change (2 ^ 53) with (128 * 2 ^ 46). lia. }
  pose proof (Z.log2_nonneg a) as L0.
  pose proof (binade_bounds a 100) as B. change (Z.log2 100) with 6 in B.
  destruct (to_double_normal a 100 ltac:(lia) ltac:(lia) ltac:(lia)) as [NZ NM].
  destruct (Js.to_double a 100) as [|m e|] eqn:E.
  - congruence.
  - exists m, e. split; [reflexivity|].
    pose proof (NM m e eq_refl) as M.
    destruct (to_double_finite a 100 m e ltac:(lia) ltac:(lia) E)
      as (e0 & m0 & He0 & _ & _ & C).
    assert (He : e < 0) by lia.
    pose proof (to_double_error a 100 m e ltac:(lia) ltac:(lia) E He) as R.
    split; [|split; assumption].
    destruct (Z.le_gt_cases e (-7)) as [|G]; [assumption|exfalso].
    assert (P1 : 2 ^ (- e) <= 2 ^ 6) by (apply Z.pow_le_mono_r; lia).
    assert (P0 : 0 < 2 ^ (- e)) by (apply pow2_pos; lia).
    change (2 ^ 6) with 64 in P1. change (2 ^ 52) with 4503599627370496 in M.
    change (2 ^ 46) with 70368744177664 in Ha.
    set (P := 2 ^ (- e)) in *.
    assert (A : a * P <= 7036874417766399 * P) by nia.
    lia.
  - apply to_double_infinite in E. lia.
Qed.

Lemma scale2_double (m : positive) (e : Z) :
  e < 0 -> Js.scale 2 (Z.pos m) 1 (- e) = (Z.pos m, 2 ^ (- e)).
Proof.
  intros He. unfold Js.scale.
  destruct (Z.leb_spec 0 (- e)); [|lia]. now rewrite Z.mul_1_l.
Qed.

Section WithDouble.

Variables (m : positive) (e : Z).
Hypothesis E : Js.to_double a 100 = Js.DFinite m e.
Hypothesis He : e <= -7.
Hypothesis Hm : 2 ^ 52 <= Z.pos m.
Hypothesis Herr : 2 * Z.abs (a * 2 ^ (- e) - Z.pos m * 100) <= 100.

Lemma ulp_small : 128 <= 2 ^ (- e).
Proof. change 128 with (2 ^ 7). apply Z.pow_le_mono_r; lia. Qed.

Lemma hundredths_exponent :
  -1 <= Js.decimal_exponent (Z.pos m) (2 ^ (- e)) <= 15.
Proof.
  pose proof ulp_small as U.
  unfold Js.decimal_exponent.
  rewrite Z.log2_pow2 by lia.
  change (2 ^ 46) with 70368744177664 in Ha.
  assert (A1 : a * 2 ^ (- e) <= 7036874417766399 * 2 ^ (- e)) by nia.
  assert (A2 : 2 * 2 ^ (- e) <= a * 2 ^ (- e)) by nia.
  assert (M1 : Z.pos m <= 70368744177664 * 2 ^ (- e)) by lia.
  assert (M2 : 2 ^ (- e) <= 100 * Z.pos m) by lia.
  assert (B1 : Z.log2 (Z.pos m) - - e <= 46).
  { assert (Z.log2 (Z.pos m) < 47 - e); [|lia].
    apply Z.log2_lt_pow2; [lia|].
    replace (47 - e) with (47 + - e) by lia. rewrite Z.pow_add_r by lia.
    change (2 ^ 47) with 140737488355328. lia. }
  assert (B2 : -7 <= Z.log2 (Z.pos m) - - e).
  { pose proof (Z.log2_spec (Z.pos m) ltac:(lia)) as [_ S].
    replace (Z.succ (Z.log2 (Z.pos m))) with (Z.log2 (Z.pos m) + 1) in S by lia.
    pose proof (Z.log2_nonneg (Z.pos m)).
    assert (L : 2 ^ (- e) < 2 ^ (Z.log2 (Z.pos m) + 8)).
    { replace (Z.log2 (Z.pos m) + 8) with (Z.log2 (Z.pos m) + 1 + 7) by lia.
      rewrite (Z.pow_add_r _ _ 7) by lia. change (2 ^ 7) with 128. lia. }
    apply Z.pow_lt_mono_r_iff in L; lia. }
  set (b := Z.log2 (Z.pos m) - - e) in *.
  assert (S1 : -3 <= b * 30103 / 100000).
  { change (-3) with (-7 * 30103 / 100000). apply Z.div_le_mono; lia. }
  assert (S2 : b * 30103 / 100000 <= 13).
  { change 13 with (46 * 30103 / 100000). apply Z.div_le_mono; lia. }
  split.
  - apply decimal_exponent_lower; [|lia].
    intros j Hj. unfold Js.scale.
    destruct (Z.leb_spec 0 j); [lia|]. cbn [fst snd].
    assert (10 ^ 2 <= 10 ^ (- j)) by (apply Z.pow_le_mono_r; lia).
    change (10 ^ 2) with 100 in *. nia.
  - apply decimal_exponent_upper; [lia|].
    unfold Js.scale. cbn [Z.leb Z.compare fst snd].
    change (10 ^ 15) with 1000000000000000. lia.
Qed.

Lemma hundredths_candidate :
  Js.digits_at (Js.DFinite m e) (Z.pos m) (2 ^ (- e)) (-2) <> None.
Proof.
  pose proof ulp_small as U.
  assert (V : Js.digits_valid (Js.DFinite m e) a (-2) = true).
  { change (Js.double_eqb (Js.to_double a 100) (Js.DFinite m e) = true).
    rewrite E. apply double_eqb_eq. reflexivity. }
  unfold Js.digits_at.
  set (P := 2 ^ (- e)) in *.
  change (Js.scale 10 (Z.pos m) P (-2)) with (Z.pos m * 100, P).
  assert (C : Z.pos m * 100 / P = a \/ Z.pos m * 100 / P + 1 = a).
  { destruct (Z.le_gt_cases (a * P) (Z.pos m * 100)) as [G|G].
    - left. symmetry. apply Z.div_unique with (r := Z.pos m * 100 - a * P); lia.
    - right.
      assert (Z.pos m * 100 / P = a - 1); [|lia].
      symmetry.
      apply Z.div_unique with (r := Z.pos m * 100 - (a - 1) * P); lia. }
  cbn beta iota zeta.
  destruct C as [C|C]; rewrite <- C in V.
  - rewrite V.
    destruct (Js.digits_valid (Js.DFinite m e) (Z.pos m * 100 / P + 1) (-2));
      discriminate.
  - rewrite V.
    destruct (Js.digits_valid (Js.DFinite m e) (Z.pos m * 100 / P) (-2));
      discriminate.
Qed.

(** A decimal with at most two fractional digits that reads back as the
    double of [a / 100] is [a / 100]. *)
Lemma hundredths_digits (s p : Z) :
  -2 <= p -> 0 <= s ->
  Js.digits_valid (Js.DFinite m e) s p = true ->
  s * 10 ^ (p + 2) = a.
Proof.
  intros Hp Hs V. pose proof ulp_small as U.
  unfold Js.digits_valid in V.
  assert (F : 2 * Z.abs (s * 10 ^ (p + 2) * 2 ^ (- e) - Z.pos m * 100) <= 100).
  { unfold Js.scale in V. destruct (Z.leb_spec 0 (- p)) as [Hq|Hq].
    - apply double_eqb_eq in V. rewrite Z.mul_1_l in V.
      assert (Bp : 0 < 10 ^ (- p)) by (apply pow10_pos; lia).
      assert (Cp : 0 < 10 ^ (p + 2)) by (apply pow10_pos; lia).
      pose proof (to_double_error s _ m e Hs Bp V ltac:(lia)) as R.
      assert (BC : 10 ^ (- p) * 10 ^ (p + 2) = 100).
      { rewrite <- Z.pow_add_r by lia. replace (- p + (p + 2)) with 2 by lia.
        reflexivity. }
      replace (s * 10 ^ (p + 2) * 2 ^ (- e) - Z.pos m * 100)
        with ((s * 2 ^ (- e) - Z.pos m * 10 ^ (- p)) * 10 ^ (p + 2))
        by (rewrite <- BC; ring).
      rewrite Z.abs_mul, (Z.abs_eq (10 ^ (p + 2))) by lia.
      rewrite <- BC. nia.
    - apply double_eqb_eq in V.
      replace (- - p) with p in V by lia.
      assert (Sp : 0 <= s * 10 ^ p).
      { apply Z.mul_nonneg_nonneg; [lia | apply Z.pow_nonneg; lia]. }
      pose proof (to_double_error _ 1 m e Sp ltac:(lia) V ltac:(lia)) as R.
      replace (p + 2) with (p + 2) by lia. rewrite Z.pow_add_r by lia.
      change (10 ^ 2) with 100. lia. }
  set (c := s * 10 ^ (p + 2)) in *. set (P := 2 ^ (- e)) in *.
  destruct (Z.eq_dec c a) as [|Hne]; [assumption|exfalso].
  assert (G : P <= Z.abs ((c - a) * P)).
  { rewrite Z.abs_mul, (Z.abs_eq P) by lia.
    assert (1 <= Z.abs (c - a)) by lia. nia. }
  lia.
Qed.

(** The digits that [Number::toString] finds for the double of [a / 100]. *)
Lemma hundredths_number_to_string :
  exists s p,
    Js.number_to_string (Js.DFinite m e) = Js.number_format s p /\
    0 < s /\ -2 <= p /\ s * 10 ^ (p + 2) = a.
Proof.
  pose proof hundredths_exponent as N.
  unfold Js.number_to_string. rewrite scale2_double by lia.
  set (n := Js.decimal_exponent (Z.pos m) (2 ^ (- e))) in *.
  destruct (digits_search_found (Js.DFinite m e) (Z.pos m) (2 ^ (- e)) n 17 1
              (Z.to_nat (n + 1)) ltac:(lia)) as (i & s & Hi & S1 & S2).
  { replace (n - (1 + Z.of_nat (Z.to_nat (n + 1)))) with (-2) by lia.
    exact hundredths_candidate. }
  rewrite S1.
  set (p := n - (1 + Z.of_nat i)) in *.
  assert (Hp : -2 <= p) by lia.
  destruct (digits_at_valid (Js.DFinite m e) (Z.pos m) (2 ^ (- e)) p s
              (Pos2Z.is_nonneg m) (pow2_pos (- e) ltac:(lia)) S2) as [V S0].
  pose proof (hundredths_digits s p Hp S0 V) as D.
  assert (Sp : 0 < s).
  { destruct (Z.eq_dec s 0) as [->|]; [|lia]. simpl in D. lia. }
  destruct (Js.strip_zeros 18 s p) as [s' p'] eqn:T.
  destruct (strip_zeros_value _ _ _ _ _ Sp T) as (T1 & T2 & T3).
  exists s', p'. split; [reflexivity|]. split; [assumption|].
  split; [lia|].
  rewrite <- D, T3. replace (p' + 2) with (p' - p + (p + 2)) by lia.
  rewrite Z.pow_add_r by lia. ring.
Qed.

End WithDouble.

End HundredthsFacts.

(** *** Numerals read back *)

Section GainFacts.
Import Props.

Lemma digit_value_range (c : ascii) (d : Z) :
  digit_value c = Some d -> 0 <= d <= 9.
Proof.
  unfold digit_value.
  destruct (Nat.leb_spec 48 (nat_of_ascii c)); [|discriminate].
  destruct (Nat.leb_spec (nat_of_ascii c) 57); [|discriminate].
  simpl. intros E. injection E as <-. lia.
Qed.

Lemma digit_value_no_dot (c : ascii) (d : Z) :
  digit_value c = Some d -> Path.is_dot c = false.
Proof.
  intros E. destruct (Path.is_dot c) eqn:D; [|reflexivity].
  apply is_dot_eq in D. subst c. discriminate.
Qed.

Lemma digits_from_app (l1 l2 : list ascii) :
  forall acc,
    digits_from acc (l1 ++ l2)
    = match digits_from acc l1 with
      | Some v => digits_from v l2
      | None => None
      end.
Proof.
  induction l1 as [|c l1 IH]; intros acc; simpl; [reflexivity|].
  destruct (digit_value c); [apply IH | reflexivity].
Qed.

Lemma digits_from_shift (l : list ascii) :
  forall acc acc' v,
    digits_from acc l = Some v ->
    digits_from acc' l = Some (v + (acc' - acc) * 10 ^ Z.of_nat (length l)).
Proof.
  induction l as [|c l IH]; intros acc acc' v; simpl digits_from.
  - intros E. injection E as <-. f_equal. simpl. lia.
  - destruct (digit_value c) as [d|]; [|discriminate]. intros E.
    rewrite (IH _ (10 * acc' + d) _ E). f_equal.
    replace (Z.of_nat (length (c :: l))) with (1 + Z.of_nat (length l))
      by (simpl; lia).
    rewrite Z.pow_add_r, Z.pow_1_r by lia. ring.
Qed.

Lemma digits_from_lower (l : list ascii) :
  forall acc v,
    0 <= acc -> digits_from acc l = Some v ->
    acc * 10 ^ Z.of_nat (length l) <= v.
Proof.
  induction l as [|c l IH]; intros acc v Ha; simpl digits_from.
  - intros E. injection E as <-. simpl. lia.
  - destruct (digit_value c) as [d|] eqn:D; [|discriminate]. intros E.
    apply digit_value_range in D.
    apply IH in E; [|lia].
    replace (Z.of_nat (length (c :: l))) with (1 + Z.of_nat (length l))
      by (simpl; lia).
    rewrite Z.pow_add_r, Z.pow_1_r by lia.
    assert (0 < 10 ^ Z.of_nat (length l)) by (apply pow10_pos; lia). nia.
Qed.

Lemma digits_from_no_dot (l : list ascii) :
  forall acc v,
    digits_from acc l = Some v -> Forall (fun c => Path.is_dot c = false) l.
Proof.
  induction l as [|c l IH]; intros acc v; simpl; [constructor|].
  destruct (digit_value c) as [d|] eqn:D; [|discriminate]. intros E.
  constructor; [eapply digit_value_no_dot, D | eapply IH, E].
Qed.

Lemma digits_from_zeros (j : nat) :
  forall acc,
    digits_from acc (repeat "0"%char j) = Some (acc * 10 ^ Z.of_nat j).
Proof.
  induction j as [|j IH]; intros acc.
  - simpl. f_equal. lia.
  - cbn [repeat digits_from]. change (digit_value "0") with (Some 0).
    cbv iota. rewrite IH. f_equal.
    replace (Z.of_nat (S j)) with (1 + Z.of_nat j) by lia.
    rewrite Z.pow_add_r, Z.pow_1_r by lia. ring.
Qed.

Lemma digits_value_chars (s : string) :
  Js.chars s <> [] -> digits_value s = digits_from 0 (Js.chars s).
Proof. unfold digits_value. destruct (Js.chars s); congruence. Qed.

(** The digits of a decimal numeral of the standard library. *)
Lemma digits_from_uint_acc (d : Decimal.uint) :
  forall acc : positive,
    digits_from (Z.pos acc) (Js.chars (NilEmpty.string_of_uint d))
    = Some (Z.pos (Pos.of_uint_acc d acc)).
Proof.
  induction d; intros acc; simpl; try reflexivity;
    rewrite <- IHd; f_equal;
    match goal with
    | |- context [Z.of_nat (nat_of_ascii ?c)] =>
        let v := eval vm_compute in (Z.of_nat (nat_of_ascii c)) in
        change (Z.of_nat (nat_of_ascii c)) with v
    end; lia.
Qed.

Lemma digits_from_uint (d : Decimal.uint) :
  digits_from 0 (Js.chars (NilEmpty.string_of_uint d))
  = Some (Z.of_N (Pos.of_uint d)).
Proof.
  induction d; simpl; try reflexivity; try assumption;
    rewrite <- digits_from_uint_acc; reflexivity.
Qed.

Lemma show_N_digits (n : N) :
  digits_from 0 (Js.chars (Js.show_N n)) = Some (Z.of_N n).
Proof.
  unfold Js.show_N, NilZero.string_of_uint.
  pose proof (DecimalN.Unsigned.of_to n) as H.
  destruct (N.to_uint n) eqn:E;
    try (rewrite digits_from_uint; unfold N.of_uint in H; now rewrite H).
  simpl in H. now subst.
Qed.

Lemma digits_value_show_N (n : N) :
  digits_value (Js.show_N n) = Some (Z.of_N n).
Proof.
  rewrite digits_value_chars by apply show_N_nonempty. apply show_N_digits.
Qed.

Lemma split_dot_end (s : string) :
  Forall (fun c => Path.is_dot c = false) (Js.chars s) ->
  split_dot s = (s, None).
Proof.
  induction s as [|c s IH]; intros H; simpl; [reflexivity|].
  inversion H as [|? ? Hc Hs]; subst.
  rewrite Hc, (IH Hs). reflexivity.
Qed.

Lemma split_dot_at (s r : string) :
  Forall (fun c => Path.is_dot c = false) (Js.chars s) ->
  split_dot (s ++ String "." r) = (s, Some r).
Proof.
  induction s as [|c s IH]; intros H; simpl; [reflexivity|].
  inversion H as [|? ? Hc Hs]; subst.
  rewrite Hc, (IH Hs). reflexivity.
Qed.

Lemma show_N_no_dot (n : N) :
  Forall (fun c => Path.is_dot c = false) (Js.chars (Js.show_N n)).
Proof. apply all_plain_no_dot, show_N_plain. Qed.

Lemma show_N_head (n : N) :
  exists c r, Js.show_N n = String c r /\ c <> "-"%char.
Proof.
  unfold Js.show_N, NilZero.string_of_uint.
  destruct (N.to_uint n); simpl; eexists; eexists;
    (split; [reflexivity | discriminate]).
Qed.

Lemma show_Z_nonneg (z : Z) : 0 <= z -> Js.show_Z z = Js.show_N (Z.to_N z).
Proof.
  intros H. unfold Js.show_Z.
  destruct (Z.ltb_spec z 0); [lia | reflexivity].
Qed.

Lemma length_chars (s : string) : length (Js.chars s) = String.length s.
Proof. induction s as [|c s IH]; simpl; [reflexivity | now rewrite <- IH]. Qed.

(** The numeral of a positive integer starts with a digit that is not 0. *)
Lemma show_N_pos_head (p : positive) :
  exists c r d,
    Js.chars (Js.show_N (N.pos p)) = c :: r /\
    digit_value c = Some d /\ 1 <= d.
Proof.
  unfold Js.show_N. change (N.to_uint (N.pos p)) with (Pos.to_uint p).
  assert (U : Pos.to_uint p = Decimal.unorm (Pos.to_uint p)).
  { pose proof (DecimalPos.Unsigned.to_of (Pos.to_uint p)) as T.
    rewrite DecimalPos.Unsigned.of_to in T. exact T. }
  pose proof (DecimalPos.Unsigned.to_uint_nonzero p) as NZ.
  assert (H0 : forall u, Pos.to_uint p <> Decimal.D0 u).
  { intros u Eu. rewrite Eu in U. rewrite DecimalFacts.unorm_D0 in U.
    unfold Decimal.unorm in U.
    destruct (Decimal.nzhead u) eqn:Hh;
      try (symmetry in U; rewrite <- Hh in U;
           exact (DecimalFacts.nzhead_nonzero _ _ U)).
    apply NZ. rewrite Eu. exact U. }
  pose proof (DecimalPos.Unsigned.to_uint_nonnil p) as NN.
  destruct (Pos.to_uint p) as [|u|u|u|u|u|u|u|u|u|u] eqn:Eu;
    try congruence;
    try (exfalso; exact (H0 u eq_refl));
    simpl; do 3 eexists; (split; [reflexivity|]);
    (split; [reflexivity | now vm_compute]).
Qed.

(** A numeral of [k] digits denotes at least [10^(k-1)]. *)
Lemma show_N_length (p : positive) :
  10 ^ (Z.of_nat (String.length (Js.show_N (N.pos p))) - 1) <= Z.pos p.
Proof.
  destruct (show_N_pos_head p) as (c & r & d & E & D & D1).
  pose proof (show_N_digits (N.pos p)) as V.
  rewrite <- length_chars, E in *. cbn [digits_from] in V. rewrite D in V.
  apply digits_from_lower in V; [|lia].
  replace (Z.of_nat (length (c :: r)) - 1) with (Z.of_nat (length r))
    by (simpl; lia).
  assert (0 < 10 ^ Z.of_nat (length r)) by (apply pow10_pos; lia).
  change (Z.of_N (N.pos p)) with (Z.pos p) in V. nia.
Qed.

Lemma zeros_no_dot (j : nat) :
  Forall (fun c => Path.is_dot c = false) (repeat "0"%char j).
Proof. induction j; simpl; constructor; [reflexivity | assumption]. Qed.

Lemma Forall_take_no_dot (n : nat) (l : list ascii) :
  Forall (fun c => Path.is_dot c = false) l ->
  Forall (fun c => Path.is_dot c = false) (take n l).
Proof.
  revert n. induction l as [|c l IH]; intros [|n] H; simpl; try constructor;
    inversion H; subst; auto.
Qed.

(** The positional layouts of [Number::toString] read back as the number:
    [s * 10^p] for [-2 <= p] and fewer than 22 digits before the point. *)
Lemma number_format_value (s p : Z) :
  0 < s -> -2 <= p -> s * 10 ^ (p + 2) < 10 ^ 16 ->
  exists q,
    parse_unsigned (Js.number_format s p) = Some q /\
    (q == Qmake (s * 10 ^ (p + 2)) 100)%Q.
Proof.
  intros Hs Hp Hb. unfold Js.number_format.
  rewrite (show_Z_nonneg s) by lia.
  destruct (Z.to_N s) as [|sp] eqn:Es; [lia|].
  assert (Esp : s = Z.pos sp) by lia.
  pose proof (show_N_digits (N.pos sp)) as V.
  pose proof (show_N_length sp) as L.
  pose proof (show_N_nonempty (N.pos sp)) as NE.
  pose proof (show_N_no_dot (N.pos sp)) as ND.
  change (Z.of_N (N.pos sp)) with (Z.pos sp) in V. rewrite <- Esp in *.
  set (ds := Js.show_N (N.pos sp)) in *.
  set (k := Z.of_nat (String.length ds)) in *.
  assert (Hk : 1 <= k).
  { unfold k. rewrite <- length_chars. destruct (Js.chars ds); [congruence|].
    simpl. lia. }
  assert (Hn : p + k <= 14).
  { assert (10 ^ (k - 1 + (p + 2)) < 10 ^ 16).
    { rewrite Z.pow_add_r by lia.
      assert (0 < 10 ^ (p + 2)) by (apply pow10_pos; lia). nia. }
    apply Z.pow_lt_mono_r_iff in H; lia. }
  destruct (Z.le_gt_cases 0 p) as [P0|P0].
  - (* digits and zeros *)
    destruct (Z.leb_spec k (p + k)); [|lia].
    destruct (Z.leb_spec (p + k) 21); [|lia]. cbn [andb].
    replace (p + k - k) with p by lia.
    unfold parse_unsigned.
    assert (C : Js.chars (ds ++ Js.zeros p)
                = Js.chars ds ++ repeat "0"%char (Z.to_nat p)).
    { rewrite chars_app. unfold Js.zeros. now rewrite chars_str. }
    rewrite split_dot_end.
    2:{ rewrite C. apply Forall_app. split; [exact ND | apply zeros_no_dot]. }
    rewrite digits_value_chars.
    2:{ rewrite C. destruct (Js.chars ds); [congruence | discriminate]. }
    rewrite C, digits_from_app, V, digits_from_zeros.
    eexists. split; [reflexivity|].
    rewrite Z2Nat.id by lia.
    unfold Qeq, inject_Z. cbn [Qnum Qden].
    rewrite Z.pow_add_r by lia. change (10 ^ 2) with 100. lia.
  - destruct (Z.leb_spec k (p + k)); [lia|]. cbn [andb].
    assert (Hlen : length (Js.chars ds) = Z.to_nat k).
    { unfold k. rewrite length_chars. lia. }
    destruct (Z.ltb_spec 0 (p + k)) as [N0|N0].
    + (* a point inside the digits *)
      destruct (Z.leb_spec (p + k) 21); [|lia]. cbn [andb].
      set (n := p + k) in *.
      assert (T : Js.chars ds
                  = take (Z.to_nat n) (Js.chars ds)
                    ++ drop (Z.to_nat n) (Js.chars ds))
        by (symmetry; apply take_drop).
      assert (S1 : Js.slice ds 0 n = Js.str (take (Z.to_nat n) (Js.chars ds))).
      { unfold Js.slice, Js.slice_chars. rewrite Z.sub_0_r. reflexivity. }
      assert (S2 : Js.slice ds n k = Js.str (drop (Z.to_nat n) (Js.chars ds))).
      { unfold Js.slice, Js.slice_chars. f_equal. apply take_ge.
        rewrite length_drop. lia. }
      rewrite S1, S2.
      set (ip := take (Z.to_nat n) (Js.chars ds)) in *.
      set (fp := drop (Z.to_nat n) (Js.chars ds)) in *.
      assert (Lf : length fp = Z.to_nat (- p)).
      { unfold fp. rewrite length_drop. lia. }
      assert (Li : length ip = Z.to_nat n).
      { unfold ip. rewrite length_take. lia. }
      rewrite T, digits_from_app in V.
      destruct (digits_from 0 ip) as [vi|] eqn:Vi; [|discriminate].
      pose proof (digits_from_shift fp vi 0 s V) as Vf.
      unfold parse_unsigned.
      change ("." ++ Js.str fp)%string with (String "." (Js.str fp)).
      rewrite split_dot_at.
      2:{ rewrite chars_str. apply Forall_take_no_dot, ND. }
      rewrite !digits_value_chars, !chars_str, Vi, Vf.
      2:{ rewrite chars_str. destruct fp; [simpl in Lf; lia | discriminate]. }
      2:{ rewrite chars_str. destruct ip; [simpl in Li; lia | discriminate]. }
      eexists. split; [reflexivity|].
      rewrite <- length_chars, chars_str, Lf.
      assert (Cp : p = -1 \/ p = -2) by lia.
      destruct Cp as [-> | ->].
      * change (Z.of_nat (Z.to_nat (- (-1)))) with 1.
        change (-1 + 2) with 1. rewrite !Z.pow_1_r.
        change (Z.to_pos 10) with 10%positive.
        unfold Qeq, Qplus, inject_Z. cbn [Qnum Qden]. lia.
      * change (Z.of_nat (Z.to_nat (- (-2)))) with 2.
        change (-2 + 2) with 0. rewrite Z.pow_0_r. change (10 ^ 2) with 100.
        change (Z.to_pos 100) with 100%positive.
        unfold Qeq, Qplus, inject_Z. cbn [Qnum Qden]. lia.
    + (* zeros between the point and the digits *)
      destruct (Z.ltb_spec (-6) (p + k)); [|lia].
      destruct (Z.leb_spec (p + k) 0); [|lia]. cbn [andb].
      set (n := p + k) in *.
      unfold parse_unsigned.
      change ("0." ++ Js.zeros (- n) ++ ds)%string
        with (String "0" (String "." (Js.zeros (- n) ++ ds))).
      cbn [split_dot]. change (Path.is_dot "0") with false.
      change (Path.is_dot ".") with true. cbv iota.
      change (digits_value "0") with (Some 0).
      assert (C : Js.chars (Js.zeros (- n) ++ ds)
                  = repeat "0"%char (Z.to_nat (- n)) ++ Js.chars ds).
      { rewrite chars_app. unfold Js.zeros. now rewrite chars_str. }
      rewrite digits_value_chars.
      2:{ rewrite C. destruct (Js.chars ds); [congruence|].
          destruct (repeat _ _); discriminate. }
      rewrite C, digits_from_app, digits_from_zeros, Z.mul_0_l, V.
      eexists. split; [reflexivity|].
      rewrite <- length_chars, C, length_app, repeat_length, Hlen.
      replace (Z.to_nat (- n) + Z.to_nat k)%nat with (Z.to_nat (- p)) by lia.
      assert (Cp : p = -1 \/ p = -2) by lia.
      destruct Cp as [-> | ->].
      * change (Z.of_nat (Z.to_nat (- (-1)))) with 1.
        change (-1 + 2) with 1. rewrite !Z.pow_1_r.
        change (Z.to_pos 10) with 10%positive.
        unfold Qeq, Qplus, inject_Z. cbn [Qnum Qden]. lia.
      * change (Z.of_nat (Z.to_nat (- (-2)))) with 2.
        change (-2 + 2) with 0. rewrite Z.pow_0_r. change (10 ^ 2) with 100.
        change (Z.to_pos 100) with 100%positive.
        unfold Qeq, Qplus, inject_Z. cbn [Qnum Qden]. lia.
Qed.

Lemma parse_unsigned_minus (r : string) :
  parse_unsigned (String "-" r) = None.
Proof.
  unfold parse_unsigned. cbn [split_dot].
  change (Path.is_dot "-") with false. cbv iota.
  destruct (split_dot r) as [a [b|]]; reflexivity.
Qed.

Lemma parse_decimal_unsigned (s : string) (q : Q) :
  parse_unsigned s = Some q -> parse_decimal s = Some q.
Proof.
  intros H. destruct s as [|c r]; [exact H|].
  destruct (Ascii.eqb_spec c "-") as [->|Hc].
  - now rewrite parse_unsigned_minus in H.
  - unfold parse_decimal.
    destruct c as [[] [] [] [] [] [] [] []]; try exact H. congruence.
Qed.

Lemma digits_valid_zero (m : positive) (e p : Z) :
  Js.digits_valid (Js.DFinite m e) 0 p = false.
Proof.
  unfold Js.digits_valid, Js.scale.
  destruct (Z.leb_spec 0 (- p)).
  - rewrite to_double_zero; [reflexivity|].
    rewrite Z.mul_1_l. apply pow10_pos. lia.
  - rewrite Z.mul_0_l, to_double_zero; [reflexivity | lia].
Qed.

Lemma digits_search_pos (m : positive) (e num den n : Z) (fuel : nat) :
  0 <= num -> 0 < den ->
  forall k, 0 < fst (Js.digits_search fuel (Js.DFinite m e) num den n k).
Proof.
  intros Hn Hd. induction fuel as [|fuel IH]; intros k;
    cbn [Js.digits_search].
  - unfold Js.exact_decimal. destruct (Z.leb_spec 0 e); cbn [fst].
    + assert (0 < 2 ^ e) by (apply pow2_pos; lia). lia.
    + assert (0 < 5 ^ (- e)) by (apply Z.pow_pos_nonneg; lia). lia.
  - destruct (Js.digits_at (Js.DFinite m e) num den (n - k)) as [s|] eqn:E;
      [|apply IH].
    destruct (digits_at_valid _ _ _ _ _ Hn Hd E) as [V S0]. cbn [fst].
    destruct (Z.eq_dec s 0) as [->|]; [|lia].
    now rewrite digits_valid_zero in V.
Qed.

Lemma not_single_zero (x y : string) (c : ascii) :
  c <> "0"%char -> (x ++ String c y)%string <> "0"%string.
Proof.
  intros Hc E. apply (f_equal Js.chars) in E. rewrite chars_app in E.
  change (Js.chars (String c y)) with (c :: Js.chars y) in E.
  change (Js.chars "0") with ["0"%char] in E.
  destruct (Js.chars x) as [|a [|b l]]; simpl in E; congruence.
Qed.

(** No layout of a positive number is the numeral [0]. *)
Lemma number_format_nonzero (s p : Z) :
  0 < s -> Js.number_format s p <> "0"%string.
Proof.
  intros Hs. unfold Js.number_format.
  rewrite (show_Z_nonneg s) by lia.
  destruct (Z.to_N s) as [|sp] eqn:Es; [lia|].
  destruct (show_N_pos_head sp) as (c & r & d & E & D & D1).
  assert (Hc : c <> "0"%char).
  { intros ->. change (digit_value "0") with (Some 0) in D.
    injection D as <-. lia. }
  assert (Ed : Js.show_N (N.pos sp) = String c (Js.str r)).
  { apply chars_inj. rewrite E.
    change (Js.chars (String c (Js.str r))) with (c :: Js.chars (Js.str r)).
    now rewrite chars_str. }
  set (ds := Js.show_N (N.pos sp)) in *.
  set (k := Z.of_nat (String.length ds)).
  destruct ((k <=? p + k) && (p + k <=? 21)).
  { rewrite Ed. apply (not_single_zero ""). exact Hc. }
  destruct ((0 <? p + k) && (p + k <=? 21)).
  { apply not_single_zero. discriminate. }
  destruct ((-6 <? p + k) && (p + k <=? 0)).
  { discriminate. }
  destruct (k =? 1).
  - apply not_single_zero. discriminate.
  - apply not_single_zero. discriminate.
Qed.

Lemma number_to_string_nonzero (m : positive) (e : Z) :
  Js.number_to_string (Js.DFinite m e) <> "0"%string.
Proof.
  unfold Js.number_to_string.
  pose proof (scale_den_pos 2 (Z.pos m) 1 (- e) ltac:(lia) ltac:(lia)) as Dp.
  pose proof (scale_num_nonneg 2 (Z.pos m) 1 (- e) ltac:(lia) ltac:(lia))
    as Np.
  destruct (Js.scale 2 (Z.pos m) 1 (- e)) as [num den]. cbn [fst snd] in *.
  pose proof (digits_search_pos m e num den (Js.decimal_exponent num den) 17
                Np Dp 1) as Sp.
  destruct (Js.digits_search 17 _ num den _ 1) as [s p]. cbn [fst] in Sp.
  destruct (Js.strip_zeros 18 s p) as [s' p'] eqn:T.
  destruct (strip_zeros_value _ _ _ _ _ Sp T) as (T1 & _).
  now apply number_format_nonzero.
Qed.

(** A volume that is not 0 is never printed as [0]. *)
Lemma show_hundredths_nonzero (v : Z) :
  v <> 0 -> Js.show_hundredths v <> "0"%string.
Proof.
  intros Hv. unfold Js.show_hundredths.
  destruct (Z.ltb_spec v 0) as [Hneg|Hpos]; [discriminate|].
  change ("" ++ ?x)%string with x.
  pose proof (binade_bounds (Z.abs v) 100) as B.
  change (Z.log2 100) with 6 in B.
  pose proof (Z.log2_nonneg (Z.abs v)).
  destruct (to_double_normal (Z.abs v) 100 ltac:(lia) ltac:(lia) ltac:(lia))
    as [NZ _].
  destruct (Js.to_double (Z.abs v) 100) as [|m e|]; [congruence | |].
  - apply number_to_string_nonzero.
  - discriminate.
Qed.

(** Reading back what [volume / 100] is printed as gives [volume / 100],
    as long as two neighbouring quotients are different doubles. *)
Lemma show_hundredths_value (v : Z) :
  Z.abs v <= 100 * 2 ^ 46 ->
  exists q, parse_decimal (Js.show_hundredths v) = Some q
            /\ (q == Qmake v 100)%Q.
Proof.
  intros Hv. change (100 * 2 ^ 46) with 7036874417766400 in Hv.
  destruct (Z.eq_dec v 0) as [->|V0].
  { exists 0%Q. split; reflexivity. }
  destruct (Z.eq_dec v 1) as [->|V1].
  { eexists. split; [vm_compute; reflexivity | reflexivity]. }
  destruct (Z.eq_dec v (-1)) as [->|V2].
  { eexists. split; [vm_compute; reflexivity | reflexivity]. }
  destruct (Z.eq_dec v 7036874417766400) as [->|V3].
  { eexists. split; [vm_compute; reflexivity | reflexivity]. }
  destruct (Z.eq_dec v (-7036874417766400)) as [->|V4].
  { eexists. split; [vm_compute; reflexivity | reflexivity]. }
  assert (Ha : 2 <= Z.abs v < 100 * 2 ^ 46).
  { change (100 * 2 ^ 46) with 7036874417766400. lia. }
  destruct (hundredths_double _ Ha) as (m & e & E & He & Hm & Herr).
  destruct (hundredths_number_to_string _ Ha m e E He Hm Herr)
    as (s & p & F & Sp & Pp & Val).
  destruct (number_format_value s p Sp Pp) as (q & Hq & Eq).
  { rewrite Val. change (10 ^ 16) with 10000000000000000. lia. }
  unfold Js.show_hundredths. rewrite E, F.
  destruct (Z.ltb_spec v 0) as [Hneg|Hpos].
  - exists (- q)%Q. split.
    + change (parse_decimal (String "-" (Js.number_format s p))
              = Some (- q)%Q).
      unfold parse_decimal. now rewrite Hq.
    + rewrite Eq, Val. unfold Qeq, Qopp. cbn [Qnum Qden]. lia.
  - exists q. split.
    + apply parse_decimal_unsigned. exact Hq.
    + rewrite Eq, Val. unfold Qeq. cbn [Qnum Qden]. lia.
Qed.

(** On the range of the data model, and ten times beyond, the numeral is
    the one written by hand. *)
Lemma show_hundredths_numeral (v : Z) :
  0 <= v <= 1000 -> Js.show_hundredths v = hundredths_numeral v.
Proof.
  intros Hv.
  assert (A : forallb (fun n => String.eqb (Js.show_hundredths (Z.of_nat n))
                                           (hundredths_numeral (Z.of_nat n)))
                      (seq 0 1001) = true) by (vm_compute; reflexivity).
  rewrite forallb_forall in A.
  specialize (A (Z.to_nat v)). rewrite Z2Nat.id in A by lia.
  apply String.eqb_eq, A, in_seq. lia.
Qed.

End GainFacts.

(** C7.  The argument after [-af] is the audio filter.  It is [volume=0]
    when the stream is muted.  When it is not, the filter is [volume=]
    followed by the decimal numeral of exactly [volume / 100]: for the
    volumes 0 to 100 of the data model (and up to 1000) it is the numeral
    with the one or two fractional digits that are needed, [volume=0.5] for
    the volume 50; and for every integer volume up to [100 * 2^46] in
    absolute value the numeral reads back as exactly [volume / 100].  From
    there on two neighbouring quotients can be the same double. *)
Theorem audio_gain_exact (config : FFmpeg.StreamConfig) :
  FFmpeg.buildFFmpegArgs config !! (Props.af_index config - 1)%nat
    = Some "-af"%string /\
  FFmpeg.buildFFmpegArgs config !! Props.af_index config
    = Some (FFmpeg.audioFilter config) /\
  (FFmpeg.isMuted config = true ->
   FFmpeg.audioFilter config = "volume=0"%string) /\
  (FFmpeg.isMuted config = false -> FFmpeg.volume config = 50 ->
   FFmpeg.audioFilter config = "volume=0.5"%string) /\
  (FFmpeg.isMuted config = false -> 0 <= FFmpeg.volume config <= 1000 ->
   FFmpeg.audioFilter config
   = ("volume=" ++ Props.hundredths_numeral (FFmpeg.volume config))%string) /\
  (FFmpeg.isMuted config = false ->
   Z.abs (FFmpeg.volume config) <= 100 * 2 ^ 46 ->
   exists (gain : string) (q : Q),
     FFmpeg.audioFilter config = ("volume=" ++ gain)%string /\
     Props.parse_decimal gain = Some q /\
     (q == Qmake (FFmpeg.volume config) 100)%Q).
Proof.
  destruct (args_filters config) as (_ & _ & H1 & H2).
  split; [exact H1|]. split; [exact H2|].
  unfold FFmpeg.audioFilter.
  split; [intros ->; reflexivity|].
  split; [intros -> ->; reflexivity|].
  split; [intros -> Hv; now rewrite show_hundredths_numeral|].
  intros -> Hv.
  destruct (show_hundredths_value (FFmpeg.volume config) Hv) as (q & Hq & Eq).
  exists (Js.show_hundredths (FFmpeg.volume config)), q.
  repeat split; assumption.
Qed.

Lemma audio_gain_exact_witness :
  FFmpeg.isMuted Scenario.cfg7 = false /\
  Z.abs (FFmpeg.volume Scenario.cfg7) <= 100 * 2 ^ 46 /\
  FFmpeg.audioFilter Scenario.cfg7 = "volume=0.5"%string /\
  exists (gain : string) (q : Q),
    FFmpeg.audioFilter Scenario.cfg7 = ("volume=" ++ gain)%string /\
    Props.parse_decimal gain = Some q /\
    (q == Qmake (FFmpeg.volume Scenario.cfg7) 100)%Q.
Proof.
  split; [reflexivity|]. split; [vm_compute; discriminate|].
  split.
  - apply (proj1 (proj2 (proj2 (proj2 (audio_gain_exact Scenario.cfg7)))));
      reflexivity.
  - apply (proj2 (proj2 (proj2 (proj2 (proj2
             (audio_gain_exact Scenario.cfg7))))));
      [reflexivity | vm_compute; discriminate].
Defined.

(** Past the bound the quotient is rounded: the volumes [100 * 2^46 + 1]
    and [100 * 2^46 + 2] give the same double and the same filter. *)
Lemma audio_gain_rounded :
  Js.show_hundredths (100 * 2 ^ 46 + 1) = "70368744177664.02"%string /\
  Js.show_hundredths (100 * 2 ^ 46 + 2) = "70368744177664.02"%string.
Proof. split; vm_compute; reflexivity. Qed.

(** ** JavaScript [Map] *)

Section JsMapFacts.
Context {V : Type}.
Implicit Types (m : list (Z * V)) (k : Z) (v : V).

Lemma jsmap_has_keys m k : JsMap.has m k = true <-> k ∈ JsMap.keys m.
Proof.
  unfold JsMap.has, JsMap.keys. induction m as [|[k' v'] m IH]; simpl.
  - split; [discriminate | intros H; inversion H].
  - destruct (Z.eqb_spec k' k) as [->|Hne].
    + split; [intros _; constructor | reflexivity].
    + rewrite IH. split; [now constructor|].
      intros H. inversion H; subst; [congruence | assumption].
Qed.

Lemma jsmap_get_has m k : JsMap.get m k = None <-> JsMap.has m k = false.
Proof. unfold JsMap.has. destruct (JsMap.get m k); split; congruence. Qed.

Lemma jsmap_keys_delete m k :
  JsMap.keys (JsMap.delete m k)
  = List.filter (fun k' => negb (k' =? k)) (JsMap.keys m).
Proof.
  unfold JsMap.keys. induction m as [|[k' v'] m IH]; simpl; [reflexivity|].
  destruct (k' =? k); simpl; now rewrite IH.
Qed.

Lemma jsmap_delete_NoDup m k :
  NoDup (JsMap.keys m) -> NoDup (JsMap.keys (JsMap.delete m k)).
Proof.
  rewrite jsmap_keys_delete. intros H.
  apply NoDup_ListNoDup, List.NoDup_filter, NoDup_ListNoDup, H.
Qed.

Lemma jsmap_keys_set m k v :
  JsMap.keys (JsMap.set m k v)
  = if JsMap.has m k then JsMap.keys m else JsMap.keys m ++ [k].
Proof.
  unfold JsMap.keys, JsMap.has.
  induction m as [|[k' v'] m IH]; simpl; [reflexivity|].
  destruct (Z.eqb_spec k' k) as [->|Hne]; simpl; [reflexivity|].
  rewrite IH. now destruct (JsMap.get m k).
Qed.

Lemma jsmap_set_NoDup m k v :
  NoDup (JsMap.keys m) -> NoDup (JsMap.keys (JsMap.set m k v)).
Proof.
  intros H. rewrite jsmap_keys_set.
  destruct (JsMap.has m k) eqn:E; [assumption|].
  apply NoDup_app. repeat split; [assumption | | apply NoDup_singleton].
  intros x Hx Hk. apply list_elem_of_singleton in Hk. subst x.
  apply jsmap_has_keys in Hx. congruence.
Qed.

Lemma jsmap_get_delete m k : JsMap.get (JsMap.delete m k) k = None.
Proof.
  induction m as [|[k' v'] m IH]; simpl; [reflexivity|].
  destruct (Z.eqb_spec k' k) as [->|Hne]; simpl; [assumption|].
  destruct (Z.eqb_spec k' k); [congruence | assumption].
Qed.

Lemma jsmap_get_set m k v : JsMap.get (JsMap.set m k v) k = Some v.
Proof.
  induction m as [|[k' v'] m IH]; simpl.
  - now rewrite Z.eqb_refl.
  - destruct (Z.eqb_spec k' k) as [->|Hne]; simpl.
    + now rewrite Z.eqb_refl.
    + destruct (Z.eqb_spec k' k); [congruence | assumption].
Qed.

End JsMapFacts.

(** ** The statistics timer *)

Section StatsFacts.
Import Storage Stats.

Lemma find_stats_entry_value (db : MemStorage) (i : Z) :
  getStreamStats db i = option_map snd (find_stats_entry db i).
Proof.
  unfold getStreamStats, find_stats_entry, JsMap.values.
  induction (streamStats db) as [|[k s] l IH]; simpl; [reflexivity|].
  destruct (st_streamId s =? i); [reflexivity | exact IH].
Qed.

Lemma set_found (l : list (Z * StreamStats)) (j id : Z)
    (st st' : StreamStats) :
  NoDup (JsMap.keys l) ->
  List.find (fun e => st_streamId (snd e) =? j) l = Some (id, st) ->
  st_streamId st' = j ->
  JsMap.keys (JsMap.set l id st') = JsMap.keys l /\
  forall i,
    List.find (fun x => st_streamId x =? i)
              (JsMap.values (JsMap.set l id st'))
    = if i =? j then Some st'
      else List.find (fun x => st_streamId x =? i) (JsMap.values l).
Proof.
  intros Hnd Hf Hj. induction l as [|[k0 s0] l IH]; [discriminate|].
  simpl in Hf. cbn [JsMap.keys map fst] in Hnd.
  apply NoDup_cons in Hnd. destruct Hnd as (Hk0 & Hnd).
  destruct (Z.eqb_spec (st_streamId s0) j) as [E|E].
  - inversion Hf; subst id st. simpl. rewrite Z.eqb_refl. simpl.
    split; [reflexivity|]. intros i.
    rewrite Hj, E. rewrite (Z.eqb_sym j i).
    now destruct (i =? j).
  - assert (Hin : id ∈ JsMap.keys l).
    { apply find_some in Hf. destruct Hf as (Hin & _).
      apply list_elem_of_In. unfold JsMap.keys.
      apply in_map_iff. now exists (id, st). }
    assert (Hne : k0 <> id) by (intros ->; contradiction).
    destruct (IH Hnd Hf) as (K & F).
    simpl. destruct (Z.eqb_spec k0 id); [contradiction|]. simpl.
    split; [unfold JsMap.keys in *; simpl; now rewrite K|].
    intros i. destruct (Z.eqb_spec (st_streamId s0) i) as [Ei|Ei].
    + destruct (Z.eqb_spec i j); [congruence | reflexivity].
    + apply F.
Qed.

Lemma updateStreamStats_lookup (db : MemStorage) (j : Z) (u : StatsUpdates)
    (now : Z) (cur : StreamStats) :
  Props.stats_wf db -> getStreamStats db j = Some cur ->
  Props.stats_wf (fst (updateStreamStats db j u now)) /\
  streams (fst (updateStreamStats db j u now)) = streams db /\
  forall i,
    getStreamStats (fst (updateStreamStats db j u now)) i
    = if i =? j then Some (spread_stats cur u now)
      else getStreamStats db i.
Proof.
  intros Hwf Hcur. rewrite find_stats_entry_value in Hcur.
  unfold Props.stats_wf in *. unfold updateStreamStats.
  destruct (find_stats_entry db j) as [[id st]|] eqn:Hf; [|discriminate].
  simpl in Hcur. inversion Hcur; subst st. simpl.
  assert (Hj : st_streamId (spread_stats cur u now) = j).
  { unfold find_stats_entry in Hf. apply find_some in Hf.
    destruct Hf as (_ & Hf). simpl in Hf. simpl. lia. }
  destruct (set_found _ _ _ _ _ Hwf Hf Hj) as (K & F).
  split; [now rewrite K|]. split; [reflexivity|].
  intros i. unfold getStreamStats. simpl. apply F.
Qed.

(** One iteration for another stream leaves the statistics and the
    broadcasts of [i] alone. *)
Lemma tick_body_other (rnd : nat -> Z) (now : Z) (acc : TickState) (i j : Z) :
  i <> j -> Props.stats_wf (fst (fst acc)) ->
  Props.stats_wf (fst (fst (tick_body rnd now acc j))) /\
  getStreamStats (fst (fst (tick_body rnd now acc j))) i
    = getStreamStats (fst (fst acc)) i /\
  updates_for i (snd (tick_body rnd now acc j)) = updates_for i (snd acc).
Proof.
  intros Hij Hwf. destruct acc as [[db k] out]. simpl in *.
  destruct (getStreamStats db j) as [cur|] eqn:Hc; [|auto].
  destruct (is_connected cur); [|auto]. simpl.
  match goal with |- context [updateStreamStats db j ?u now] =>
    destruct (updateStreamStats_lookup db j u now cur Hwf Hc)
      as (W & _ & L) end.
  split; [exact W|]. split.
  - rewrite L. destruct (Z.eqb_spec i j); [contradiction | reflexivity].
  - unfold updates_for. rewrite List.filter_app. simpl.
    destruct (Z.eqb_spec j i); [congruence|]. apply app_nil_r.
Qed.

Lemma tick_fold_other (rnd : nat -> Z) (now : Z) (i : Z) (ids : list Z) :
  forall acc : TickState,
    i ∉ ids -> Props.stats_wf (fst (fst acc)) ->
    Props.stats_wf (fst (fst (fold_left (tick_body rnd now) ids acc))) /\
    getStreamStats (fst (fst (fold_left (tick_body rnd now) ids acc))) i
      = getStreamStats (fst (fst acc)) i /\
    updates_for i (snd (fold_left (tick_body rnd now) ids acc))
      = updates_for i (snd acc).
Proof.
  induction ids as [|j ids IH]; intros acc Hi Hwf; simpl; [auto|].
  apply not_elem_of_cons in Hi. destruct Hi as (Hij & Hi).
  destruct (tick_body_other rnd now acc i j Hij Hwf) as (W & G & U).
  destruct (IH (tick_body rnd now acc j) Hi W) as (W' & G' & U').
  split; [exact W'|]. split; congruence.
Qed.

(** One iteration for a connected stream. *)
Lemma tick_body_connected (rnd : nat -> Z) (now : Z) (acc : TickState)
    (i : Z) (cur : StreamStats) :
  Props.stats_wf (fst (fst acc)) ->
  getStreamStats (fst (fst acc)) i = Some cur ->
  is_connected cur = true ->
  exists k new,
    Props.stats_wf (fst (fst (tick_body rnd now acc i))) /\
    getStreamStats (fst (fst (tick_body rnd now acc i))) i = Some new /\
    viewerCount new = Some (Z.max 0 (or0 (viewerCount cur) + rnd k - 10)) /\
    uptime new = Some (or0 (uptime cur) + 5) /\
    ping new = Some (15 + rnd (S k)) /\
    connectionStatus new = connectionStatus cur /\
    snd (tick_body rnd now acc i)
    = snd acc ++ [StatsUpdate i (Z.max 0 (or0 (viewerCount cur) + rnd k - 10))
                             (or0 (uptime cur) + 5) (15 + rnd (S k))
                             "connected"].
Proof.
  intros Hwf Hc Hconn. destruct acc as [[db k] out]. simpl in *.
  rewrite Hc, Hconn. simpl.
  match goal with |- context [updateStreamStats db i ?u now] =>
    destruct (updateStreamStats_lookup db i u now cur Hwf Hc)
      as (W & _ & L) end.
  eexists k, _. split; [exact W|]. split.
  - rewrite L, Z.eqb_refl. reflexivity.
  - repeat split; reflexivity.
Qed.

(** A tick over distinct stream ids, seen from one connected stream. *)
Lemma tick_connected (rnd : nat -> Z) (now : Z) (ids : list Z)
    (db : MemStorage) (i : Z) (cur : StreamStats) :
  NoDup ids -> i ∈ ids -> Props.stats_wf db ->
  getStreamStats db i = Some cur -> is_connected cur = true ->
  exists k new,
    getStreamStats (fst (tick rnd now ids db)) i = Some new /\
    viewerCount new = Some (Z.max 0 (or0 (viewerCount cur) + rnd k - 10)) /\
    uptime new = Some (or0 (uptime cur) + 5) /\
    connectionStatus new = connectionStatus cur /\
    updates_for i (snd (tick rnd now ids db))
    = [StatsUpdate i (Z.max 0 (or0 (viewerCount cur) + rnd k - 10))
                   (or0 (uptime cur) + 5) (15 + rnd (S k)) "connected"].
Proof.
  intros Hnd Hin Hwf Hc Hconn.
  apply list_elem_of_split in Hin. destruct Hin as (l1 & l2 & ->).
  apply NoDup_app in Hnd. destruct Hnd as (_ & H1 & H2).
  apply NoDup_cons in H2. destruct H2 as (Hi2 & _).
  assert (Hi1 : i ∉ l1).
  { intros Hx. apply (H1 i Hx). constructor. }
  assert (T : forall ids0,
    fst (tick rnd now ids0 db)
      = fst (fst (fold_left (tick_body rnd now) ids0 (db, 0%nat, []))) /\
    snd (tick rnd now ids0 db)
      = snd (fold_left (tick_body rnd now) ids0 (db, 0%nat, []))).
  { intros ids0. unfold tick.
    destruct (fold_left (tick_body rnd now) ids0 (db, 0%nat, []))
      as [[? ?] ?]. split; reflexivity. }
  destruct (T (l1 ++ i :: l2)) as (-> & ->).
  rewrite fold_left_app. simpl fold_left.
  set (acc1 := fold_left (tick_body rnd now) l1 (db, 0%nat, [])).
  destruct (tick_fold_other rnd now i l1 (db, 0%nat, []) Hi1 Hwf)
    as (W1 & G1 & U1). fold acc1 in W1, G1, U1. simpl in G1, U1.
  rewrite Hc in G1.
  destruct (tick_body_connected rnd now acc1 i cur W1 G1 Hconn)
    as (k & new & W2 & G2 & Hv & Hu & Hp & Hs & Ho).
  destruct (tick_fold_other rnd now i l2 (tick_body rnd now acc1 i) Hi2 W2)
    as (W3 & G3 & U3).
  exists k, new. rewrite G3, U3, Ho.
  repeat split; try assumption.
  unfold updates_for in *. rewrite List.filter_app, U1. simpl.
  now rewrite Z.eqb_refl.
Qed.

(** A tick leaves a stream that is not connected, or not active, alone. *)
Lemma tick_untouched (rnd : nat -> Z) (now : Z) (ids : list Z)
    (db : MemStorage) (i : Z) :
  Props.stats_wf db ->
  (i ∉ ids \/ getStreamStats db i = None
   \/ exists cur, getStreamStats db i = Some cur /\ is_connected cur = false) ->
  getStreamStats (fst (tick rnd now ids db)) i = getStreamStats db i /\
  updates_for i (snd (tick rnd now ids db)) = [].
Proof.
  intros Hwf Hi.
  assert (G : forall acc : TickState,
    Props.stats_wf (fst (fst acc)) ->
    getStreamStats (fst (fst acc)) i = getStreamStats db i ->
    Props.stats_wf (fst (fst (fold_left (tick_body rnd now) ids acc))) /\
    getStreamStats (fst (fst (fold_left (tick_body rnd now) ids acc))) i
      = getStreamStats db i /\
    updates_for i (snd (fold_left (tick_body rnd now) ids acc))
      = updates_for i (snd acc)).
  { clear Hwf.
    induction ids as [|j ids IH]; intros acc W E; simpl; [auto|].
    assert (Hi' : i ∉ ids \/ getStreamStats db i = None
              \/ exists cur, getStreamStats db i = Some cur
                             /\ is_connected cur = false).
    { destruct Hi as [Hi|Hi]; [left | right; exact Hi].
      now apply not_elem_of_cons in Hi. }
    destruct (Z.eq_dec i j) as [<-|Hij].
    - assert (B : tick_body rnd now acc i = acc).
      { destruct acc as [[d k] out]. simpl in *.
        destruct Hi as [Hi | [Hi | (cur & Hi & Hc)]].
        - exfalso. apply Hi. constructor.
        - now rewrite E, Hi.
        - now rewrite E, Hi, Hc. }
      rewrite B. now apply IH.
    - destruct (tick_body_other rnd now acc i j Hij W) as (W' & G' & U').
      destruct (IH Hi' (tick_body rnd now acc j) W') as (A & B & C);
        [congruence|].
      split; [exact A|]. split; congruence. }
  destruct (G (db, 0%nat, []) Hwf eq_refl) as (_ & A & B).
  unfold tick.
  destruct (fold_left (tick_body rnd now) ids (db, 0%nat, [])) as [[? ?] ?].
  simpl in *. split; assumption.
Qed.

End StatsFacts.

(** ** The stream process manager *)

Section ServiceFrame.
Import FFmpeg FileManager Storage Service Props.

Lemma child_grows_refl (c : Child) : child_grows c c.
Proof. unfold child_grows. auto. Qed.

Lemma children_grow_refl (ch : list Child) : children_grow ch ch.
Proof.
  split.
  - intros p c H. exists c. split; [assumption | apply child_grows_refl].
  - intros p c' H1 H2. congruence.
Qed.

Lemma children_grow_trans (a b c : list Child) :
  children_grow a b -> children_grow b c -> children_grow a c.
Proof.
  intros (A1 & A2) (B1 & B2). split.
  - intros p x Hx. destruct (A1 p x Hx) as (y & Hy & (G1 & G2 & G3)).
    destruct (B1 p y Hy) as (z & Hz & (K1 & K2 & K3)).
    exists z. split; [assumption|]. unfold child_grows.
    repeat split; try congruence. lia.
  - intros p z Ha Hz. destruct (b !! p) as [y|] eqn:Hb.
    + destruct (A2 p y Ha Hb) as (F1 & F2).
      destruct (B1 p y Hb) as (z' & Hz' & (K1 & K2 & K3)).
      assert (z' = z) by congruence. subst z'.
      split; congruence.
    + apply (B2 p z Hb Hz).
Qed.

Lemma children_grow_alter (f : Child -> Child) (q : nat) (ch : list Child) :
  (forall c, child_grows c (f c)) -> children_grow ch (alter f q ch).
Proof.
  intros Hf. split.
  - intros p c Hc. destruct (Nat.eq_dec q p) as [->|Hne].
    + exists (f c). split; [|apply Hf].
      rewrite list_lookup_alter_eq, Hc. reflexivity.
    + exists c. split; [|apply child_grows_refl].
      rewrite list_lookup_alter_ne by assumption. assumption.
  - intros p c' Hn Hc'. destruct (Nat.eq_dec q p) as [->|Hne].
    + rewrite list_lookup_alter_eq, Hn in Hc'. discriminate.
    + rewrite list_lookup_alter_ne in Hc' by assumption. congruence.
Qed.

Lemma children_grow_spawn (ch : list Child) (args : list string) (i : Z) :
  children_grow ch (ch ++ [mkChild args [StartExit i] [i] [] false]).
Proof.
  split.
  - intros p c Hc. exists c. split; [|apply child_grows_refl].
    now apply lookup_app_l_Some.
  - intros p c' Hn Hc'.
    apply lookup_ge_None in Hn.
    rewrite lookup_app_r in Hc' by assumption.
    destruct (p - length ch)%nat; simpl in Hc'; [|discriminate].
    inversion Hc'; subst. split; reflexivity.
Qed.

Lemma deliver_grows (sig : Signal) (c : Child) : child_grows c (deliver sig c).
Proof.
  unfold deliver. destruct (c_exited c) eqn:E; [apply child_grows_refl|].
  unfold child_grows, starts, stops. simpl. auto.
Qed.

Lemma add_stop_listener_grows (i : Z) (k : nat) (c : Child) :
  child_grows c (add_exit_listener (StopExit i k) c).
Proof.
  unfold child_grows, starts, stops, add_exit_listener. simpl.
  rewrite !List.filter_app, !length_app. simpl. repeat split; lia.
Qed.

Lemma quiet_refl (s : State) : quiet s s.
Proof.
  unfold quiet. split; [apply children_grow_refl|]. repeat split; auto.
Qed.

Lemma quiet_trans (a b c : State) : quiet a b -> quiet b c -> quiet a c.
Proof.
  intros (A1 & A2 & A3 & A4 & A5) (B1 & B2 & B3 & B4 & B5).
  unfold quiet. split; [eapply children_grow_trans; eassumption|].
  repeat split; try congruence; auto.
  - destruct (A4 p), (B4 p). congruence.
  - destruct (A4 p), (B4 p). congruence.
Qed.

(** A change of the children alone. *)
Lemma quiet_set_children (ch : list Child) (s : State) :
  children_grow (children s) ch -> quiet s (set_children ch s).
Proof. intros H. unfold quiet. split; [exact H|]. repeat split; auto. Qed.

Lemma quiet_set_active (a : list (Z * nat)) (s : State) :
  (NoDup (JsMap.keys (activeStreams s)) -> NoDup (JsMap.keys a)) ->
  quiet s (set_active a s).
Proof.
  intros H. unfold quiet. split; [apply children_grow_refl|].
  repeat split; auto.
Qed.

Lemma quiet_set_promises (pr : list StopPromise) (s : State) :
  quiet s (set_promises pr s).
Proof.
  unfold quiet. split; [apply children_grow_refl|]. repeat split; auto.
Qed.

Lemma quiet_set_world (fs : gmap string FsNode) (d : MemStorage) (s : State) :
  quiet s (set_world fs d s).
Proof.
  unfold quiet. split; [apply children_grow_refl|]. repeat split; auto.
Qed.

(** Scheduling anything but an auto clean-up. *)
Lemma quiet_schedule (t : Task) (s : State) :
  (forall p i, t <> AutoCleanup p i) -> quiet s (schedule t s).
Proof.
  intros Ht. unfold quiet. split; [apply children_grow_refl|].
  repeat split; auto.
  - unfold auto_scheduled, schedule. simpl.
    rewrite List.filter_app, length_app. simpl.
    unfold is_auto_task at 2. simpl.
    destruct t; simpl; try lia. exfalso. eapply Ht. reflexivity.
  - unfold auto_done, schedule. simpl.
    rewrite List.filter_app, length_app. simpl.
    rewrite andb_false_r. simpl. lia.
Qed.

Lemma quiet_kill (q : nat) (sig : Signal) (s : State) : quiet s (kill q sig s).
Proof.
  unfold kill. apply quiet_set_children, children_grow_alter.
  apply deliver_grows.
Qed.

Lemma quiet_stop_register (i : Z) (q : nat) (w : Waiter) (s : State) :
  quiet s (stop_register i q w s).
Proof.
  unfold stop_register.
  eapply quiet_trans; [|apply quiet_schedule; discriminate].
  eapply quiet_trans; [|apply quiet_kill].
  eapply quiet_trans; [apply quiet_set_promises|].
  apply quiet_set_children, children_grow_alter.
  apply add_stop_listener_grows.
Qed.

Lemma quiet_start_resume (config : StreamConfig) (sp : SpawnResult) (s : State) :
  quiet s (fst (start_resume config sp s)).
Proof.
  unfold start_resume.
  destruct (negb (existsSync (files s) (videoPath config)));
    [apply quiet_refl|].
  destruct sp; [|apply quiet_refl]. simpl.
  eapply quiet_trans; [|apply quiet_schedule; discriminate].
  eapply quiet_trans; [apply quiet_set_children, children_grow_spawn|].
  apply quiet_set_active. simpl. apply jsmap_set_NoDup.
Qed.

Lemma quiet_resolve (k : nat) (s : State) (q : list Waiter) :
  quiet s (fst (resolve k (s, q))).
Proof.
  unfold resolve. destruct (promises s !! k) as [pr|]; [|apply quiet_refl].
  destruct (p_resolved pr); [apply quiet_refl|]. simpl.
  apply quiet_set_promises.
Qed.

Lemma quiet_resume (acc : State * list Output) (w : Waiter) :
  quiet (fst acc) (fst (resume acc w)).
Proof.
  destruct acc as [s out]. destruct w as [i|config sp]; simpl.
  - apply quiet_refl.
  - pose proof (quiet_start_resume config sp s) as H.
    destruct (start_resume config sp s). exact H.
Qed.

Lemma quiet_drain (acc : State * list Waiter) :
  quiet (fst acc) (fst (drain acc)).
Proof.
  unfold drain. destruct acc as [s q]. simpl.
  change s with (fst (s, @nil Output)) at 1.
  generalize (s, @nil Output) as acc.
  induction q as [|w q IH]; intros acc; simpl; [apply quiet_refl|].
  eapply quiet_trans; [apply (quiet_resume acc w) | apply IH].
Qed.

End ServiceFrame.

Section ServiceInvariant.
Import FFmpeg FileManager Storage Service Props.

Lemma has_exited_grow (p : nat) (s s' : State) :
  children_grow (children s) (children s') ->
  has_exited p s' = has_exited p s.
Proof.
  intros (G1 & G2). unfold has_exited.
  destruct (children s !! p) as [c|] eqn:E.
  - destruct (G1 p c E) as (c' & -> & (K & _)). exact K.
  - destruct (children s' !! p) as [c'|] eqn:E'; [|reflexivity].
    destruct (G2 p c' E E') as (K & _). exact K.
Qed.

Lemma stop_listeners_grow (p : nat) (s s' : State) :
  children_grow (children s) (children s') ->
  (stop_listeners p s <= stop_listeners p s')%nat.
Proof.
  intros (G1 & G2). unfold stop_listeners.
  destruct (children s !! p) as [c|] eqn:E; [|lia].
  destruct (G1 p c E) as (c' & -> & (_ & _ & K)). exact K.
Qed.

Lemma starts_grow (p : nat) (s s' : State) :
  children_grow (children s) (children s') ->
  (forall c, children s !! p = Some c -> starts c = 1%nat) ->
  forall c', children s' !! p = Some c' -> starts c' = 1%nat.
Proof.
  intros (G1 & G2) H c' E'.
  destruct (children s !! p) as [c|] eqn:E.
  - destruct (G1 p c E) as (c'' & E'' & (_ & K & _)).
    assert (c'' = c') by congruence. subst. rewrite K. now apply H.
  - now destruct (G2 p c' E E').
Qed.

Lemma quiet_inv (s s' : State) : service_inv s -> quiet s s' -> service_inv s'.
Proof.
  intros (Hnd & Hinv) (G & Hcl & _ & Hau & Hact).
  split; [auto|]. intros p.
  destruct (Hinv p) as (A & B & C & D & E).
  destruct (Hau p) as (S1 & S2).
  pose proof (has_exited_grow p s s' G) as Hex.
  pose proof (stop_listeners_grow p s s' G) as Hsl.
  assert (Hcr : callback_runs p s' = callback_runs p s)
    by (unfold callback_runs; now rewrite Hcl).
  assert (Har : auto_runs p s' = auto_runs p s)
    by (unfold auto_runs; now rewrite Hcl).
  rewrite Hex, Hcr, Har, S1, S2.
  repeat split; try (intros; apply A; assumption); auto; try lia.
  now apply (starts_grow p s s' G).
Qed.

(** Counting in a list of which one element is replaced. *)
Lemma filter_length_insert {A : Type} (f : A -> bool) (l : list A) (k : nat)
    (x y : A) :
  l !! k = Some x ->
  (length (List.filter f (<[k := y]> l)) + (if f x then 1 else 0)
   = length (List.filter f l) + (if f y then 1 else 0))%nat.
Proof.
  revert k. induction l as [|a l IH]; intros k H; [discriminate|].
  destruct k as [|k]; simpl in *.
  - inversion H; subst. destruct (f x), (f y); simpl; lia.
  - specialize (IH k H). destruct (f a); simpl; lia.
Qed.

Lemma filter_done_le (p : nat) (l : list (Task * bool)) :
  (length (List.filter (fun t => is_auto_task p t && snd t) l)
   <= length (List.filter (is_auto_task p) l))%nat.
Proof.
  induction l as [|t l IH]; simpl; [lia|].
  destruct (is_auto_task p t), (snd t); simpl; lia.
Qed.

(** Marking a task that is not an auto clean-up as run. *)
Lemma quiet_mark_done (s : State) (k : nat) (t : Task) :
  tasks s !! k = Some (t, false) ->
  (forall p i, t <> AutoCleanup p i) ->
  quiet s (set_tasks (<[k := (t, true)]> (tasks s)) s).
Proof.
  intros Hk Ht. unfold quiet. split; [apply children_grow_refl|].
  assert (F : forall p, is_auto_task p (t, true) = false
                        /\ is_auto_task p (t, false) = false).
  { intros p. unfold is_auto_task. simpl.
    destruct t; auto. exfalso. eapply Ht. reflexivity. }
  repeat split; auto.
  - unfold auto_scheduled. simpl.
    pose proof (filter_length_insert (is_auto_task p) _ k _ (t, true) Hk) as E.
    destruct (F p) as (-> & ->) in E. lia.
  - unfold auto_done. simpl.
    pose proof (filter_length_insert
                  (fun t0 => is_auto_task p t0 && snd t0) _ k _ (t, true) Hk) as E.
    destruct (F p) as (F1 & F2). cbv beta in E.
    rewrite F1, F2 in E. simpl in E. lia.
Qed.

Lemma quiet_delete_active (i : Z) (s : State) :
  quiet s (set_active (JsMap.delete (activeStreams s) i) s).
Proof. apply quiet_set_active, jsmap_delete_NoDup. Qed.

Lemma quiet_child_error (q : nat) (s : State) :
  quiet s (fst (child_error q s)).
Proof.
  unfold child_error. destruct (children s !! q) as [c|]; [|apply quiet_refl].
  simpl. generalize (c_error_listeners c) as l. intros l. revert s.
  induction l as [|i l IH]; intros s; simpl; [apply quiet_refl|].
  eapply quiet_trans; [|apply IH]. apply quiet_delete_active.
Qed.

Lemma quiet_plain_task (t : Task) (s : State) :
  (forall p i, t <> AutoCleanup p i) -> quiet s (fst (run_task t s)).
Proof.
  intros Ht. destruct t as [i q k|i|k|q i]; simpl.
  - destruct (JsMap.has (activeStreams s) i); [|apply quiet_refl].
    apply (quiet_trans s (kill q SIGKILL s)); [apply quiet_kill|].
    set (s2 := set_active
                 (JsMap.delete (activeStreams (kill q SIGKILL s)) i)
                 (kill q SIGKILL s)).
    apply (quiet_trans _ s2); [apply quiet_delete_active|].
    apply (quiet_trans _ (fst (resolve k (s2, []))));
      [apply quiet_resolve | apply quiet_drain].
  - apply quiet_refl.
  - apply (quiet_trans _ (fst (resolve k (s, []))));
      [apply quiet_resolve | apply quiet_drain].
  - exfalso. eapply Ht. reflexivity.
Qed.

(** The listeners of an exiting process, run one after the other. *)
Lemma exit_listeners_effect (q : nat) (L : list ExitListener) :
  forall acc : State * list Waiter,
    let acc' := fold_left (run_exit_listener q) L acc in
    children (fst acc') = children (fst acc) /\
    cleanupCallback (fst acc') = cleanupCallback (fst acc) /\
    (NoDup (getActiveStreamIds (fst acc)) ->
     NoDup (getActiveStreamIds (fst acc'))) /\
    forall p,
      callback_runs p (fst acc')
      = (callback_runs p (fst acc)
         + if Nat.eqb q p
           then match cleanupCallback (fst acc) with
                | Some _ => length (List.filter is_stop_listener L)
                | None => 0
                end
           else 0)%nat /\
      auto_runs p (fst acc') = auto_runs p (fst acc) /\
      auto_scheduled p (fst acc')
      = (auto_scheduled p (fst acc)
         + if Nat.eqb q p
           then length (List.filter (fun l => negb (is_stop_listener l)) L)
           else 0)%nat /\
      auto_done p (fst acc') = auto_done p (fst acc).
Proof.
  induction L as [|l L IH]; intros acc; simpl.
  - repeat split; auto; destruct (Nat.eqb q p);
      try destruct (cleanupCallback (fst acc)); lia.
  - specialize (IH (run_exit_listener q acc l)). simpl in IH.
    destruct IH as (I1 & I2 & I3 & I4).
    destruct acc as [s w].
    assert (Step :
      children (fst (run_exit_listener q (s, w) l)) = children s /\
      cleanupCallback (fst (run_exit_listener q (s, w) l)) = cleanupCallback s /\
      (NoDup (getActiveStreamIds s) ->
       NoDup (getActiveStreamIds (fst (run_exit_listener q (s, w) l)))) /\
      forall p,
        callback_runs p (fst (run_exit_listener q (s, w) l))
        = (callback_runs p s
           + if Nat.eqb q p
             then match cleanupCallback s with
                  | Some _ => if is_stop_listener l then 1 else 0
                  | None => 0
                  end
             else 0)%nat /\
        auto_runs p (fst (run_exit_listener q (s, w) l)) = auto_runs p s /\
        auto_scheduled p (fst (run_exit_listener q (s, w) l))
        = (auto_scheduled p s
           + if Nat.eqb q p
             then if is_stop_listener l then 0 else 1
             else 0)%nat /\
        auto_done p (fst (run_exit_listener q (s, w) l)) = auto_done p s).
    { destruct l as [i|i k]; simpl.
      - repeat split; auto.
        + apply jsmap_delete_NoDup.
        + destruct (Nat.eqb q p); try destruct (cleanupCallback s);
            unfold callback_runs; simpl; lia.
        + unfold auto_scheduled. simpl.
          rewrite List.filter_app, length_app. simpl.
          unfold is_auto_task at 2. simpl.
          destruct (Nat.eqb q p); simpl; lia.
        + unfold auto_done. simpl.
          rewrite List.filter_app, length_app. simpl.
          rewrite andb_false_r. simpl. lia.
      - destruct (cleanupCallback s) as [cb|] eqn:Ecb; simpl.
        + repeat split; auto.
          * apply jsmap_delete_NoDup.
          * unfold callback_runs. simpl.
            rewrite List.filter_app, length_app. simpl.
            destruct (Nat.eqb q p); simpl; lia.
          * unfold auto_runs. simpl.
            rewrite List.filter_app, length_app. simpl. lia.
          * unfold auto_scheduled. simpl.
            rewrite List.filter_app, length_app. simpl.
            destruct (Nat.eqb q p); simpl; lia.
          * unfold auto_done. simpl.
            rewrite List.filter_app, length_app. simpl. lia.
        + assert (R : forall s0 : State,
                   children s0 = children s -> cleanupCallback s0 = None ->
                   cleanups s0 = cleanups s -> tasks s0 = tasks s ->
                   activeStreams s0 = JsMap.delete (activeStreams s) i ->
                   children s0 = children s /\
                   cleanupCallback s0 = None /\
                   (NoDup (getActiveStreamIds s) ->
                    NoDup (getActiveStreamIds s0)) /\
                   forall p,
                     callback_runs p s0
                     = (callback_runs p s + if Nat.eqb q p then 0 else 0)%nat /\
                     auto_runs p s0 = auto_runs p s /\
                     auto_scheduled p s0
                     = (auto_scheduled p s + if Nat.eqb q p then 0 else 0)%nat /\
                     auto_done p s0 = auto_done p s).
          { intros s0 H1 H2 H3 H4 H5. repeat split; auto.
            - intros Hn. unfold getActiveStreamIds. rewrite H5.
              now apply jsmap_delete_NoDup.
            - unfold callback_runs. rewrite H3. destruct (Nat.eqb q p); lia.
            - unfold auto_runs. now rewrite H3.
            - unfold auto_scheduled. rewrite H4. destruct (Nat.eqb q p); lia.
            - unfold auto_done. now rewrite H4. }
          destruct (promises s !! k) as [pr|]; [destruct (p_resolved pr)|];
            cbn [fst]; apply R; reflexivity || assumption.
    }
    destruct Step as (S1 & S2 & S3 & S4). cbn [fst] in *.
    split; [congruence|]. split; [congruence|]. split; [auto|].
    intros p. destruct (I4 p) as (J1 & J2 & J3 & J4).
    destruct (S4 p) as (T1 & T2 & T3 & T4).
    rewrite J1, J2, J3, J4, T1, T2, T3, T4, S2. simpl.
    destruct (Nat.eqb q p), (cleanupCallback s), (is_stop_listener l);
      simpl; repeat split; lia.
Qed.

End ServiceInvariant.

Section ServiceSteps.
Import FFmpeg FileManager Storage Service Props.

Lemma mark_exited_stops (c : Child) : stops (mark_exited c) = stops c.
Proof. reflexivity. Qed.

Lemma mark_exited_starts (c : Child) : starts (mark_exited c) = starts c.
Proof. reflexivity. Qed.

(** The ['exit'] event of a process that has not exited yet. *)
Lemma child_exit_effect (s : State) (q : nat) (c : Child) :
  service_inv s -> children s !! q = Some c -> c_exited c = false ->
  service_inv (fst (child_exit q s)) /\
  has_exited q (fst (child_exit q s)) = true /\
  callback_runs q (fst (child_exit q s))
    = match cleanupCallback s with
      | Some _ => stop_listeners q s
      | None => 0%nat
      end /\
  auto_scheduled q (fst (child_exit q s)) = 1%nat /\
  stop_listeners q (fst (child_exit q s)) = stop_listeners q s.
Proof.
  intros (Hnd & Hinv) Hq Hex.
  unfold child_exit. rewrite Hq, Hex.
  set (s1 := set_children (<[q := mark_exited c]> (children s)) s).
  set (acc := fold_left (run_exit_listener q) (c_exit_listeners c) (s1, [])).
  destruct (exit_listeners_effect q (c_exit_listeners c) (s1, []))
    as (F1 & F2 & F3 & F4'). fold acc in F1, F2, F3, F4'. cbn [fst] in *.
  assert (F4 : forall p,
    callback_runs p (fst acc)
    = (callback_runs p s
       + if Nat.eqb q p
         then match cleanupCallback s with
              | Some _ => stops c
              | None => 0
              end
         else 0)%nat /\
    auto_runs p (fst acc) = auto_runs p s /\
    auto_scheduled p (fst acc)
    = (auto_scheduled p s + if Nat.eqb q p then starts c else 0)%nat /\
    auto_done p (fst acc) = auto_done p s) by exact F4'.
  clear F4'.
  assert (Hlen : (q < length (children s))%nat)
    by (eapply lookup_lt_Some; eassumption).
  assert (Hq1 : children (fst acc) !! q = Some (mark_exited c)).
  { rewrite F1. simpl. now apply list_lookup_insert_eq. }
  assert (Hne : forall p, p <> q ->
            children (fst acc) !! p = children s !! p).
  { intros p Hp. rewrite F1. simpl. apply list_lookup_insert_ne. auto. }
  assert (Inv2 : service_inv (fst acc) /\
                 has_exited q (fst acc) = true /\
                 callback_runs q (fst acc)
                   = match cleanupCallback s with
                     | Some _ => stop_listeners q s
                     | None => 0%nat
                     end /\
                 auto_scheduled q (fst acc) = 1%nat /\
                 stop_listeners q (fst acc) = stop_listeners q s).
  { destruct (Hinv q) as (A & B & C & D & E).
    assert (Hexq : has_exited q s = false)
      by (unfold has_exited; now rewrite Hq).
    destruct (A Hexq) as (A1 & A2).
    destruct (F4 q) as (G1 & G2 & G3 & G4).
    rewrite Nat.eqb_refl in G1, G3.
    assert (Hst : stop_listeners q s = stops c)
      by (unfold stop_listeners; now rewrite Hq).
    assert (Hstart : starts c = 1%nat) by now apply E.
    split; [|repeat split].
    - split; [apply F3, Hnd|]. intros p.
      destruct (Nat.eq_dec p q) as [->|Hp].
      + unfold has_exited, stop_listeners. rewrite Hq1. simpl.
        fold (stops c).
        split; [discriminate|].
        split; [rewrite G1, A1; destruct (cleanupCallback s); lia|].
        split; [intros _; lia|].
        split; [rewrite G2, G4; exact D|].
        intros c0 H0. assert (c0 = mark_exited c) by congruence.
        subst c0. exact Hstart.
      + destruct (F4 p) as (K1 & K2 & K3 & K4).
        assert (Nat.eqb q p = false) as Hb by (apply Nat.eqb_neq; auto).
        rewrite Hb in K1, K3.
        assert (Hex' : has_exited p (fst acc) = has_exited p s)
          by (unfold has_exited; now rewrite (Hne p Hp)).
        assert (Hsl' : stop_listeners p (fst acc) = stop_listeners p s)
          by (unfold stop_listeners; now rewrite (Hne p Hp)).
        rewrite Hex', Hsl', K1, K2, K3, K4, !Nat.add_0_r, (Hne p Hp).
        exact (Hinv p).
    - unfold has_exited. now rewrite Hq1.
    - rewrite G1, A1, Hst. destruct (cleanupCallback s); reflexivity.
    - lia.
    - unfold stop_listeners. now rewrite Hq1, Hq. }
  destruct Inv2 as (I & X1 & X2 & X3 & X4).
  pose proof (quiet_drain acc) as Q.
  split; [exact (quiet_inv _ _ I Q)|].
  destruct Q as (G & Hcl & _ & Hau & _).
  split; [now rewrite (has_exited_grow q _ _ G)|].
  split; [unfold callback_runs in *; now rewrite Hcl|].
  split; [now destruct (Hau q) as (-> & _)|].
  (* the listeners of [q] are those before the event *)
  destruct G as (G1 & _). destruct (G1 q _ Hq1) as (c' & Hc' & _).
  revert Hc'. unfold drain. destruct acc as [s2 w2]. cbn [fst snd] in *.
  assert (K : forall (w : list Waiter) (a : State * list Output),
            children (fst a) !! q = Some (mark_exited c) ->
            children (fst (fold_left resume w a)) !! q = Some (mark_exited c)).
  { induction w as [|x w IH]; intros a Ha; simpl; [exact Ha|].
    apply IH. destruct a as [s0 o0]. destruct x as [i|config sp]; simpl;
      [exact Ha|].
    unfold start_resume.
    destruct (negb (existsSync (files s0) (videoPath config)));
      [exact Ha|].
    destruct sp; [|exact Ha]. simpl. now apply lookup_app_l_Some. }
  intros _. unfold stop_listeners.
  rewrite (K w2 (s2, []) Hq1), Hq. reflexivity.
Qed.

Lemma child_exit_noop (s : State) (q : nat) :
  has_exited q s = true \/ children s !! q = None ->
  child_exit q s = (s, []).
Proof.
  unfold child_exit, has_exited.
  destruct (children s !! q) as [c|]; intros [H|H]; try discriminate;
    try reflexivity.
  now rewrite H.
Qed.

(** Running the auto clean-up of process [q]. *)
Lemma auto_task_inv (s : State) (k q : nat) (i : Z) :
  service_inv s -> tasks s !! k = Some (AutoCleanup q i, false) ->
  service_inv
    (auto_cleanup q i (set_tasks (<[k := (AutoCleanup q i, true)]> (tasks s)) s)).
Proof.
  intros (Hnd & Hinv) Hk.
  set (s1 := set_tasks (<[k := (AutoCleanup q i, true)]> (tasks s)) s).
  assert (Hsched : forall p, auto_scheduled p s1 = auto_scheduled p s).
  { intros p. unfold auto_scheduled. simpl.
    pose proof (filter_length_insert (is_auto_task p) _ k _
                  (AutoCleanup q i, true) Hk) as E.
    unfold is_auto_task in E at 2 4. simpl in E.
    fold (is_auto_task p) in E. destruct (Nat.eqb q p); lia. }
  assert (Hdone : forall p,
            auto_done p s1
            = (auto_done p s + if Nat.eqb q p then 1 else 0)%nat).
  { intros p. unfold auto_done. simpl.
    pose proof (filter_length_insert
                  (fun t => is_auto_task p t && snd t) _ k _
                  (AutoCleanup q i, true) Hk) as E.
    cbv beta in E. unfold is_auto_task in E at 2 4. simpl in E.
    rewrite andb_false_r, andb_true_r in E. destruct (Nat.eqb q p); lia. }
  assert (Shape :
    children (auto_cleanup q i s1) = children s /\
    activeStreams (auto_cleanup q i s1) = activeStreams s /\
    tasks (auto_cleanup q i s1) = tasks s1 /\
    (cleanups (auto_cleanup q i s1) = cleanups s \/
     exists path, cleanups (auto_cleanup q i s1)
                  = cleanups s ++ [AutoCleanupTriggered q i path])).
  { unfold auto_cleanup.
    destruct (getStream (db s1) i) as [stream|]; [|auto].
    destruct (s_videoPath stream) as [path|]; [|auto].
    destruct (String.eqb path ""); [auto|].
    destruct (cleanupStreamFiles (files s1) i (Some path)) as [fs' deleted].
    simpl. repeat split; eauto. }
  destruct Shape as (Hch & Hact & Htk & Hcl).
  set (s2 := auto_cleanup q i s1) in *.
  split; [unfold getActiveStreamIds; now rewrite Hact|].
  intros p. destruct (Hinv p) as (A & B & C & D & E).
  assert (Hex : has_exited p s2 = has_exited p s)
    by (unfold has_exited; now rewrite Hch).
  assert (Hsl : stop_listeners p s2 = stop_listeners p s)
    by (unfold stop_listeners; now rewrite Hch).
  assert (Hsc : auto_scheduled p s2 = auto_scheduled p s).
  { rewrite <- Hsched. unfold auto_scheduled. now rewrite Htk. }
  assert (Hdn : auto_done p s2
                = (auto_done p s + if Nat.eqb q p then 1 else 0)%nat).
  { rewrite <- Hdone. unfold auto_done. now rewrite Htk. }
  assert (Hcr : callback_runs p s2 = callback_runs p s).
  { unfold callback_runs. destruct Hcl as [->|(path & ->)]; [reflexivity|].
    rewrite List.filter_app, length_app. simpl. lia. }
  assert (Har : (auto_runs p s2
                 <= auto_runs p s + if Nat.eqb q p then 1 else 0)%nat).
  { unfold auto_runs. destruct Hcl as [->|(path & ->)].
    - destruct (Nat.eqb q p); lia.
    - rewrite List.filter_app, length_app. simpl.
      destruct (Nat.eqb q p); simpl; lia. }
  rewrite Hex, Hsl, Hsc, Hdn, Hcr, Hch.
  split; [exact A|]. split; [exact B|]. split; [exact C|].
  split; [|exact E]. destruct (Nat.eqb q p); lia.
Qed.

(** Every transition keeps the invariant. *)
Lemma step_inv (s : State) (e : Event) :
  service_inv s -> service_inv (fst (step s e)).
Proof.
  intros Hinv. destruct e as [config sp|i|cb|q|q|k|fs d]; simpl.
  - apply (quiet_inv s); [assumption|]. unfold startStream.
    destruct (JsMap.get (activeStreams s) (id config)); simpl.
    + apply quiet_stop_register.
    + apply quiet_start_resume.
  - apply (quiet_inv s); [assumption|]. unfold stopStream.
    destruct (JsMap.get (activeStreams s) i); simpl.
    + apply quiet_stop_register.
    + apply quiet_refl.
  - exact Hinv.
  - destruct (children s !! q) as [c|] eqn:Hq.
    + destruct (c_exited c) eqn:Hex.
      * rewrite child_exit_noop; [assumption|].
        left. unfold has_exited. now rewrite Hq.
      * now destruct (child_exit_effect s q c Hinv Hq Hex).
    + rewrite child_exit_noop; auto.
  - apply (quiet_inv s); [assumption | apply quiet_child_error].
  - destruct (tasks s !! k) as [[t [|]]|] eqn:Hk; try assumption.
    destruct t as [i q p|i|p|q i].
    + apply (quiet_inv s); [assumption|].
      eapply quiet_trans;
        [apply (quiet_mark_done s k _ Hk); discriminate|].
      apply quiet_plain_task. discriminate.
    + apply (quiet_inv s); [assumption|].
      eapply quiet_trans;
        [apply (quiet_mark_done s k _ Hk); discriminate|].
      apply quiet_plain_task. discriminate.
    + apply (quiet_inv s); [assumption|].
      eapply quiet_trans;
        [apply (quiet_mark_done s k _ Hk); discriminate|].
      apply quiet_plain_task. discriminate.
    + simpl. now apply auto_task_inv.
  - apply (quiet_inv s); [assumption | apply quiet_set_world].
Qed.

Lemma init_inv (fs : gmap string FsNode) (d : MemStorage) :
  service_inv (init fs d).
Proof.
  split; [constructor|]. intros p.
  unfold has_exited, callback_runs, auto_scheduled, stop_listeners,
    auto_runs, auto_done. simpl.
  split; [auto|]. split; [lia|]. split; [discriminate|]. split; [lia|].
  intros c H. destruct p; discriminate.
Qed.

Lemma exec_snoc (s : State) (evs : list Event) (e : Event) :
  exec s (evs ++ [e]) = fst (step (exec s evs) e).
Proof.
  unfold exec, run. rewrite fold_left_app. simpl.
  unfold step_acc at 1.
  destruct (step (fst (fold_left step_acc evs (s, []))) e). reflexivity.
Qed.

Lemma exec_inv (s : State) (evs : list Event) :
  service_inv s -> service_inv (exec s evs).
Proof.
  intros H. induction evs as [|e evs IH] using rev_ind.
  - exact H.
  - rewrite exec_snoc. now apply step_inv.
Qed.

Lemma reachable_inv (s : State) : reachable s -> service_inv s.
Proof.
  intros (fs & d & evs & ->). apply exec_inv, init_inv.
Qed.

End ServiceSteps.

(** ** Scheduled work stays scheduled *)

Section TaskFacts.
Import FFmpeg FileManager Storage Service Props.

Lemma tasks_stop_register (i : Z) (q : nat) (w : Waiter) (s : State) :
  exists x, tasks (stop_register i q w s) = tasks s ++ x.
Proof. eexists. reflexivity. Qed.

Lemma tasks_start_resume (config : StreamConfig) (sp : SpawnResult) (s : State) :
  exists x, tasks (fst (start_resume config sp s)) = tasks s ++ x.
Proof.
  unfold start_resume.
  destruct (negb (existsSync (files s) (videoPath config)));
    [exists []; now rewrite app_nil_r|].
  destruct sp; [eexists; reflexivity | exists []; now rewrite app_nil_r].
Qed.

Lemma tasks_resolve (k : nat) (s : State) (q : list Waiter) :
  tasks (fst (resolve k (s, q))) = tasks s.
Proof.
  unfold resolve. destruct (promises s !! k) as [pr|]; [|reflexivity].
  destruct (p_resolved pr); reflexivity.
Qed.

Lemma tasks_drain (acc : State * list Waiter) :
  exists x, tasks (fst (drain acc)) = tasks (fst acc) ++ x.
Proof.
  unfold drain. destruct acc as [s q]. cbn [fst snd].
  change s with (fst (s, @nil Output)) at 2.
  generalize (s, @nil Output) as a.
  induction q as [|w q IH]; intros a; simpl.
  - exists []. now rewrite app_nil_r.
  - destruct (IH (resume a w)) as (x & Hx). rewrite Hx.
    destruct a as [s0 o]. destruct w as [i|config sp]; simpl.
    + now exists x.
    + destruct (tasks_start_resume config sp s0) as (y & Hy).
      destruct (start_resume config sp s0) as [s1 o1]. simpl in *.
      rewrite Hy. exists (y ++ x). now rewrite app_assoc.
Qed.

Lemma tasks_exit_listeners (q : nat) (L : list ExitListener) :
  forall acc : State * list Waiter,
    exists x, tasks (fst (fold_left (run_exit_listener q) L acc))
              = tasks (fst acc) ++ x.
Proof.
  induction L as [|l L IH]; intros acc; simpl.
  - exists []. now rewrite app_nil_r.
  - destruct (IH (run_exit_listener q acc l)) as (x & Hx). rewrite Hx.
    destruct acc as [s w].
    assert (S : exists y, tasks (fst (run_exit_listener q (s, w) l))
                          = tasks s ++ y).
    { destruct l as [i|i k]; simpl.
      - eexists. reflexivity.
      - destruct (cleanupCallback s); simpl.
        + eexists. reflexivity.
        + exists []. rewrite app_nil_r.
          apply (tasks_resolve k
                   (set_active (JsMap.delete (activeStreams s) i) s) w). }
    destruct S as (y & Hy). rewrite Hy. exists (y ++ x).
    now rewrite app_assoc.
Qed.

Lemma tasks_child_exit (q : nat) (s : State) :
  exists x, tasks (fst (child_exit q s)) = tasks s ++ x.
Proof.
  unfold child_exit.
  destruct (children s !! q) as [c|]; [|exists []; now rewrite app_nil_r].
  destruct (c_exited c); [exists []; now rewrite app_nil_r|].
  match goal with |- context [drain ?a] =>
    destruct (tasks_drain a) as (x & Hx); rewrite Hx end.
  match goal with |- context [fold_left _ ?L ?a] =>
    destruct (tasks_exit_listeners q L a) as (y & Hy); rewrite Hy end.
  simpl. exists (y ++ x). now rewrite app_assoc.
Qed.

Lemma tasks_child_error (q : nat) (s : State) :
  tasks (fst (child_error q s)) = tasks s.
Proof.
  unfold child_error. destruct (children s !! q) as [c|]; [|reflexivity].
  simpl. generalize (c_error_listeners c) as l. intros l. revert s.
  induction l as [|i l IH]; intros s; simpl; [reflexivity|].
  now rewrite IH.
Qed.

Lemma tasks_auto_cleanup (q : nat) (i : Z) (s : State) :
  tasks (auto_cleanup q i s) = tasks s.
Proof.
  unfold auto_cleanup.
  destruct (getStream (db s) i) as [stream|]; [|reflexivity].
  destruct (s_videoPath stream) as [path|]; [|reflexivity].
  destruct (String.eqb path ""); [reflexivity|].
  destruct (cleanupStreamFiles (files s) i (Some path)). reflexivity.
Qed.

Lemma tasks_run_task (t : Task) (s : State) :
  exists x, tasks (fst (run_task t s)) = tasks s ++ x.
Proof.
  destruct t as [i q k|i|k|q i]; unfold run_task.
  - destruct (JsMap.has (activeStreams s) i);
      [|exists []; now rewrite app_nil_r].
    match goal with |- context [drain ?a] =>
      destruct (tasks_drain a) as (x & Hx); rewrite Hx end.
    rewrite tasks_resolve. simpl. now exists x.
  - exists []. now rewrite app_nil_r.
  - match goal with |- context [drain ?a] =>
      destruct (tasks_drain a) as (x & Hx); rewrite Hx end.
    rewrite tasks_resolve. now exists x.
  - cbn [fst]. rewrite tasks_auto_cleanup. exists []. now rewrite app_nil_r.
Qed.

(** A task that has not run stays in its place until it is run. *)
Lemma step_keeps_task (s : State) (e : Event) (k : nat) (t : Task) :
  tasks s !! k = Some (t, false) -> e <> RunTask k ->
  tasks (fst (step s e)) !! k = Some (t, false).
Proof.
  intros Hk He.
  assert (App : forall s', (exists x, tasks s' = tasks s ++ x) ->
                           tasks s' !! k = Some (t, false)).
  { intros s' (x & ->). now apply lookup_app_l_Some. }
  destruct e as [config sp|i|cb|q|q|j|fs d]; simpl.
  - apply App. unfold startStream.
    destruct (JsMap.get (activeStreams s) (id config)); cbn [fst].
    + eapply tasks_stop_register.
    + apply tasks_start_resume.
  - apply App. unfold stopStream.
    destruct (JsMap.get (activeStreams s) i); cbn [fst].
    + eapply tasks_stop_register.
    + exists []. now rewrite app_nil_r.
  - exact Hk.
  - apply App, tasks_child_exit.
  - now rewrite tasks_child_error.
  - destruct (tasks s !! j) as [[u [|]]|] eqn:Hj; try exact Hk.
    destruct (tasks_run_task u
                (set_tasks (<[j := (u, true)]> (tasks s)) s)) as (x & ->).
    simpl. apply lookup_app_l_Some.
    rewrite list_lookup_insert_ne; [exact Hk|].
    intros ->. now apply He.
  - exact Hk.
Qed.

Lemma exec_keeps_task (s : State) (evs : list Event) (k : nat) (t : Task) :
  tasks s !! k = Some (t, false) ->
  Forall (fun e => e <> RunTask k) evs ->
  tasks (exec s evs) !! k = Some (t, false).
Proof.
  intros Hk Hev. induction evs as [|e evs IH] using rev_ind; [exact Hk|].
  apply Forall_app in Hev. destruct Hev as (H1 & H2).
  inversion H2; subst. rewrite exec_snoc.
  apply step_keeps_task; auto.
Qed.

End TaskFacts.

(** ** [stopStream] and [startStream] *)

(** C6.  A stop call for a stream id that has no handle returns [false]
    and leaves the whole state as it is: the table of handles, the
    callback, the child processes, the pending work, the files and the
    stored records. *)
Theorem stopStream_no_handle (s : Service.State) (streamId : Z) :
  Service.isStreamActive s streamId = false ->
  Service.step s (Service.CallStop streamId)
  = (s, [Service.StopReturned streamId false]).
Proof.
  intros H. simpl. unfold Service.stopStream.
  apply jsmap_get_has in H. now rewrite H.
Qed.

Lemma stopStream_no_handle_witness :
  Service.isStreamActive Scenario.fresh 7 = false /\
  Service.step Scenario.fresh (Service.CallStop 7)
  = (Scenario.fresh, [Service.StopReturned 7 false]).
Proof.
  split.
  - reflexivity.
  - apply (stopStream_no_handle Scenario.fresh 7). reflexivity.
Defined.

Section ResumeFacts.
Import FFmpeg FileManager Storage Service Props Facts.

Lemma jsmap_has_set {V : Type} (m : list (Z * V)) (k i : Z) (v : V) :
  JsMap.has m i = true -> JsMap.has (JsMap.set m k v) i = true.
Proof.
  unfold JsMap.has. induction m as [|[k' v'] m IH]; simpl; [discriminate|].
  destruct (Z.eqb_spec k' i) as [->|Hi].
  - destruct (Z.eqb_spec i k) as [->|Hk]; simpl; now rewrite Z.eqb_refl.
  - destruct (Z.eqb_spec k' k) as [->|Hk]; simpl.
    + destruct (Z.eqb_spec k i); [congruence|]. auto.
    + destruct (Z.eqb_spec k' i); [congruence|]. auto.
Qed.

Lemma jsmap_has_set_eq {V : Type} (m : list (Z * V)) (k : Z) (v : V) :
  JsMap.has (JsMap.set m k v) k = true.
Proof. unfold JsMap.has. now rewrite jsmap_get_set. Qed.

Lemma grows_refl (a : State * list Output) : grows a a.
Proof. unfold grows. repeat split; auto. Qed.

Lemma grows_trans (a b c : State * list Output) :
  grows a b -> grows b c -> grows a c.
Proof.
  intros (A1 & A2 & A3 & A4 & A5 & A6 & A7 & A8)
         (B1 & B2 & B3 & B4 & B5 & B6 & B7 & B8).
  unfold grows. rewrite B1, B2.
  repeat split; auto; lia.
Qed.

Lemma grows_start_resume (config : StreamConfig) (sp : SpawnResult)
    (s : State) (out : list Output) :
  grows (s, out) (fst (start_resume config sp s),
                  out ++ snd (start_resume config sp s)).
Proof.
  unfold start_resume.
  destruct (negb (existsSync (files s) (videoPath config))).
  { unfold grows. cbn [fst snd]. repeat split; auto.
    intros o Ho. apply in_or_app. now left. }
  destruct sp.
  - unfold grows. cbn. repeat split; auto.
    + rewrite length_app. lia.
    + intros i c Hc. now apply lookup_app_l_Some.
    + rewrite length_app. lia.
    + intros i t Ht. now apply lookup_app_l_Some.
    + intros i Hi. now apply jsmap_has_set.
    + intros o Ho. apply in_or_app. now left.
  - unfold grows. cbn [fst snd]. repeat split; auto.
    intros o Ho. apply in_or_app. now left.
Qed.

Lemma grows_resume (acc : State * list Output) (w : Waiter) :
  grows acc (resume acc w).
Proof.
  destruct acc as [s out]. destruct w as [i|config sp]; cbn [resume].
  - unfold grows. cbn [fst snd]. repeat split; auto.
    intros o Ho. apply in_or_app. now left.
  - pose proof (grows_start_resume config sp s out) as G.
    destruct (start_resume config sp s) as [s' o]. exact G.
Qed.

Lemma grows_fold (q : list Waiter) :
  forall acc, grows acc (fold_left resume q acc).
Proof.
  induction q as [|w q IH]; intros acc; cbn [fold_left];
    [apply grows_refl|].
  eapply grows_trans; [apply grows_resume | apply IH].
Qed.

(** The outcome of a resumed start call. *)
Lemma resume_restart (acc : State * list Output) (config : StreamConfig)
    (sp : SpawnResult) :
  start_outcome config sp acc (resume acc (Restart config sp)).
Proof.
  destruct acc as [s out]. cbn [resume]. unfold start_outcome, start_resume.
  cbn [fst snd]. split.
  - intros [H|H].
    + rewrite H. cbn. apply in_or_app. right. now left.
    + subst sp.
      destruct (negb (existsSync (files s) (videoPath config)));
        cbn; apply in_or_app; right; now left.
  - intros H ->. rewrite H. cbn.
    exists (length (children s)), (length (tasks s)).
    split; [lia|]. split.
    { now rewrite lookup_app_r, Nat.sub_diag by lia. }
    split; [apply jsmap_has_set_eq|]. split; [lia|].
    now rewrite lookup_app_r, Nat.sub_diag by lia.
Qed.

Lemma start_outcome_later (config : StreamConfig) (sp : SpawnResult)
    (a b c : State * list Output) :
  start_outcome config sp a b -> grows b c -> start_outcome config sp a c.
Proof.
  intros (O1 & O2) (G1 & G2 & G3 & G4 & G5 & G6 & G7 & G8). split.
  - intros H. apply G8, O1, H.
  - intros H E. destruct (O2 H E) as (p & k & P1 & P2 & P3 & P4 & P5).
    exists p, k. repeat split; auto.
Qed.

Lemma start_outcome_earlier (config : StreamConfig) (sp : SpawnResult)
    (a b c : State * list Output) :
  grows a b -> start_outcome config sp b c -> start_outcome config sp a c.
Proof.
  intros (G1 & G2 & G3 & G4 & G5 & G6 & G7 & G8) (O1 & O2). split.
  - intros H. apply O1. now rewrite G1.
  - intros H E. rewrite <- G1 in H.
    destruct (O2 H E) as (p & k & P1 & P2 & P3 & P4 & P5).
    exists p, k. repeat split; auto; lia.
Qed.

(** Every start call among the resumed waiters has its outcome. *)
Lemma fold_restart (config : StreamConfig) (sp : SpawnResult)
    (q : list Waiter) :
  forall acc,
    List.In (Restart config sp) q ->
    start_outcome config sp acc (fold_left resume q acc).
Proof.
  induction q as [|w q IH]; intros acc Hin; [destruct Hin|].
  cbn [fold_left]. destruct Hin as [->|Hin].
  - eapply start_outcome_later; [apply resume_restart | apply grows_fold].
  - eapply start_outcome_earlier; [apply grows_resume | apply IH, Hin].
Qed.

(** Settling a promise releases its waiter; other promises stay. *)
Lemma resolve_pending (promise : nat) (s : State) (q : list Waiter) :
  files (fst (resolve promise (s, q))) = files s /\
  children (fst (resolve promise (s, q))) = children s /\
  tasks (fst (resolve promise (s, q))) = tasks s /\
  (forall w, List.In w q -> List.In w (snd (resolve promise (s, q)))) /\
  (forall j w, pending s j w ->
     pending (fst (resolve promise (s, q))) j w
     \/ List.In w (snd (resolve promise (s, q)))).
Proof.
  unfold resolve, pending.
  destruct (promises s !! promise) as [pr|] eqn:E; [|cbn; auto 6].
  destruct (p_resolved pr) eqn:R; [cbn; auto 6|].
  cbn [fst snd set_promises files children tasks promises].
  repeat split; auto.
  - intros w Hw. apply in_or_app. now left.
  - intros j w Hj. destruct (Nat.eq_dec j promise) as [->|Hne].
    + right. apply in_or_app. right. left.
      rewrite E in Hj. injection Hj as ->. reflexivity.
    + left. now rewrite list_lookup_insert_ne by congruence.
Qed.

Lemma exit_fold_pending (process : nat) (ls : list ExitListener) :
  forall acc : State * list Waiter,
    files (fst (fold_left (run_exit_listener process) ls acc))
      = files (fst acc) /\
    children (fst (fold_left (run_exit_listener process) ls acc))
      = children (fst acc) /\
    (length (tasks (fst acc))
     <= length (tasks (fst (fold_left (run_exit_listener process) ls acc))))%nat
    /\
    (forall w, List.In w (snd acc) ->
       List.In w (snd (fold_left (run_exit_listener process) ls acc))) /\
    (forall j w, pending (fst acc) j w ->
       pending (fst (fold_left (run_exit_listener process) ls acc)) j w
       \/ List.In w (snd (fold_left (run_exit_listener process) ls acc))).
Proof.
  induction ls as [|l ls IH]; intros [s q]; cbn [fold_left];
    [cbn; auto 6|].
  destruct (IH (run_exit_listener process (s, q) l))
    as (A & B & C & D & E).
  assert (S1 : files (fst (run_exit_listener process (s, q) l)) = files s /\
               children (fst (run_exit_listener process (s, q) l))
                 = children s /\
               (length (tasks s)
                <= length (tasks (fst (run_exit_listener process (s, q) l))))%nat
               /\
               (forall w, List.In w q ->
                  List.In w (snd (run_exit_listener process (s, q) l))) /\
               (forall j w, pending s j w ->
                  pending (fst (run_exit_listener process (s, q) l)) j w
                  \/ List.In w (snd (run_exit_listener process (s, q) l)))).
  { destruct l as [i|i j]; unfold run_exit_listener.
    - cbn. rewrite length_app. repeat split; auto; lia.
    - set (s1 := set_active (JsMap.delete (activeStreams s) i) s).
      destruct (cleanupCallback s1).
      + cbn. rewrite length_app. repeat split; auto; lia.
      + destruct (resolve_pending j s1 q) as (R1 & R2 & R3 & R4 & R5).
        rewrite R1, R2, R3. repeat split; auto. }
  destruct S1 as (S1 & S2 & S3 & S4 & S5).
  cbn [fst snd]. rewrite A, B, S1, S2.
  repeat split; auto; [lia|].
  intros j w Hj. destruct (S5 j w Hj) as [P|P]; [apply E, P | right; auto].
Qed.

Lemma promises_error_fold (l : list Z) :
  forall s, promises (fold_left run_error_listener l s) = promises s.
Proof.
  induction l as [|i l IH]; intros s; cbn [fold_left]; [reflexivity|].
  now rewrite IH.
Qed.

Lemma promises_stop_register (i : Z) (process : nat) (w : Waiter) (s : State) :
  promises (stop_register i process w s)
  = promises s ++ [mkPromise false w].
Proof. reflexivity. Qed.

Lemma drain_fold (acc : State * list Waiter) :
  drain acc = fold_left resume (snd acc) (fst acc, []).
Proof. reflexivity. Qed.

(** A turn after which a promise is no longer pending has resumed its
    waiter, in a state with the files and the processes of before. *)
Lemma step_settles (s : State) (e : Event) (promise : nat) (w : Waiter) :
  pending s promise w ->
  ~ pending (fst (step s e)) promise w ->
  exists (s' : State) (q : list Waiter),
    step s e = fold_left resume q (s', []) /\
    List.In w q /\
    files s' = files s /\
    length (children s') = length (children s) /\
    (length (tasks s) <= length (tasks s'))%nat.
Proof.
  intros P N. unfold pending in *.
  assert (Drain : forall acc : State * list Waiter,
            files (fst acc) = files s ->
            length (children (fst acc)) = length (children s) ->
            (length (tasks s) <= length (tasks (fst acc)))%nat ->
            (pending (fst acc) promise w \/ List.In w (snd acc)) ->
            ~ pending (fst (drain acc)) promise w ->
            exists (s' : State) (q : list Waiter),
              drain acc = fold_left resume q (s', []) /\
              List.In w q /\ files s' = files s /\
              length (children s') = length (children s) /\
              (length (tasks s) <= length (tasks s'))%nat).
  { intros [s' q] F C T [Hp|Hq] Hn.
    - exfalso. apply Hn. unfold pending.
      rewrite drain_fold.
      destruct (grows_fold q (s', [])) as (_ & G & _).
      cbn [fst snd] in *. now rewrite G.
    - exists s', q. repeat split; auto. }
  destruct e as [config sp|i|cb|p|p|k|fs d]; cbn [step] in *.
  - exfalso. apply N. unfold startStream.
    destruct (JsMap.get (activeStreams s) (id config)) as [process|].
    + cbn [fst]. rewrite promises_stop_register.
      now apply lookup_app_l_Some.
    + destruct (grows_start_resume config sp s []) as (_ & G & _).
      cbn [fst snd] in G. now rewrite G.
  - exfalso. apply N. unfold stopStream.
    destruct (JsMap.get (activeStreams s) i) as [process|]; [|exact P].
    cbn [fst]. rewrite promises_stop_register. now apply lookup_app_l_Some.
  - exfalso. apply N. exact P.
  - unfold child_exit in *.
    destruct (children s !! p) as [c|] eqn:Hc; [|exfalso; apply N, P].
    destruct (c_exited c); [exfalso; apply N, P|].
    set (s1 := set_children (<[p := mark_exited c]> (children s)) s) in *.
    destruct (exit_fold_pending p (c_exit_listeners c) (s1, []))
      as (A & B & C & D & E).
    apply Drain; auto;
      first [ rewrite B; cbn; now rewrite length_insert
            | rewrite A; reflexivity
            | apply E; exact P ].
  - exfalso. apply N. unfold child_error.
    destruct (children s !! p) as [c|]; [|exact P].
    cbn [fst]. unfold pending. now rewrite promises_error_fold.
  - destruct (tasks s !! k) as [[t [|]]|] eqn:Hk;
      try (exfalso; apply N, P).
    set (s1 := set_tasks (<[k := (t, true)]> (tasks s)) s) in *.
    assert (T1 : length (tasks s1) = length (tasks s))
      by (cbn; now rewrite length_insert).
    destruct t as [i process j|i|j|process i]; cbn [run_task] in *.
    + destruct (JsMap.has (activeStreams s1) i);
        [|exfalso; apply N, P].
      match goal with
      | |- context [resolve j (?x, [])] =>
          destruct (resolve_pending j x []) as (R1 & R2 & R3 & R4 & R5)
      end.
      apply Drain; auto;
        first [ rewrite R2; cbn; now rewrite length_alter
              | rewrite R3; cbn; rewrite length_insert; lia
              | rewrite R1; reflexivity
              | apply R5; exact P ].
    + exfalso. apply N. exact P.
    + destruct (resolve_pending j s1 []) as (R1 & R2 & R3 & R4 & R5).
      apply Drain; auto;
        first [ now rewrite R2
              | rewrite R3; lia
              | rewrite R1; reflexivity
              | apply R5; exact P ].
    + exfalso. apply N. unfold auto_cleanup.
      destruct (getStream (db s1) i) as [stream|]; [|exact P].
      destruct (s_videoPath stream) as [path|]; [|exact P].
      destruct (String.eqb path ""); [exact P|].
      destruct (cleanupStreamFiles (files s1) i (Some path)). exact P.
  - exfalso. apply N. exact P.
Qed.

(** The timer of a stop settles the promise when the handle is still
    there. *)
Lemma force_kill_settles (s : State) (k : nat) (i : Z) (process promise : nat)
    (w : Waiter) :
  tasks s !! k = Some (ForceKill i process promise, false) ->
  pending s promise w ->
  isStreamActive s i = true ->
  promises (fst (step s (RunTask k))) !! promise = Some (mkPromise true w).
Proof.
  intros Hk P A. cbn [step]. rewrite Hk. cbn [run_task].
  unfold isStreamActive in A.
  change (activeStreams (set_tasks (<[k := (ForceKill i process promise, true)]>
                                       (tasks s)) s))
    with (activeStreams s).
  rewrite A. rewrite drain_fold.
  match goal with
  | |- context [resolve promise (?x, [])] => set (s2 := x)
  end.
  assert (P2 : promises s2 !! promise = Some (mkPromise false w)) by exact P.
  unfold resolve. rewrite P2. cbn [p_resolved p_waiter fst snd].
  match goal with
  | |- context [fold_left resume ?q ?a] =>
      destruct (grows_fold q a) as (_ & G2 & _)
  end.
  cbn [fst snd] in G2. rewrite G2. cbn [promises set_promises].
  apply list_lookup_insert_eq. apply lookup_lt_is_Some. eauto.
Qed.

Lemma pending_stop_register (i : Z) (process : nat) (w : Waiter) (s : State) :
  pending (stop_register i process w s) (length (promises s)) w /\
  tasks (stop_register i process w s) !! length (tasks s)
  = Some (ForceKill i process (length (promises s)), false) /\
  files (stop_register i process w s) = files s /\
  db (stop_register i process w s) = db s /\
  activeStreams (stop_register i process w s) = activeStreams s /\
  length (children (stop_register i process w s)) = length (children s).
Proof.
  unfold pending. rewrite promises_stop_register.
  split; [now rewrite lookup_app_r, Nat.sub_diag by lia|].
  split.
  { unfold stop_register, schedule. cbn.
    now rewrite lookup_app_r, Nat.sub_diag by lia. }
  repeat split; try reflexivity.
  unfold stop_register, kill. cbn. now rewrite !length_alter.
Qed.

End ResumeFacts.

(** C3, as the code has it.  With no handle for the id: a missing source
    file or a spawn that throws makes the start call return [false] at
    once, nothing is spawned and the state is unchanged; when the file
    exists and spawn returns a process, the handle is registered, the
    process runs with the built arguments, files and records are untouched,
    and the call returns [true] when its one-second timer fires, whatever
    else has happened in between.

    With a handle for the id the call first does what a stop call does,
    before the file is checked: it creates the stop's promise, sends
    SIGTERM, sets the five-second timer and waits; nothing is spawned yet
    and nothing is returned.  Whatever happens next, in the turn that
    settles that promise the call goes on: it returns [false] in that turn
    when the file is missing then or spawn throws; otherwise a new process
    with the built arguments is spawned in that turn, the stream has a
    handle again, and the call returns [true] when its one-second timer
    fires.  The five-second timer settles the promise if the handle is
    still there when it fires. *)
Theorem startStream_outcome (s : Service.State) (config : FFmpeg.StreamConfig)
    (sp : Service.SpawnResult) :
  (Service.isStreamActive s (FFmpeg.id config) = false ->
   (FileManager.existsSync (Service.files s) (FFmpeg.videoPath config) = false
    \/ sp = Service.SpawnThrows ->
    Service.step s (Service.CallStart config sp)
    = (s, [Service.StartReturned (FFmpeg.id config) false])) /\
   (FileManager.existsSync (Service.files s) (FFmpeg.videoPath config) = true ->
    sp = Service.Spawned ->
    snd (Service.step s (Service.CallStart config sp)) = [] /\
    Service.children (fst (Service.step s (Service.CallStart config sp)))
    = Service.children s
      ++ [Service.mkChild (FFmpeg.buildFFmpegArgs config)
            [Service.StartExit (FFmpeg.id config)] [FFmpeg.id config] []
            false] /\
    JsMap.get
      (Service.activeStreams
         (fst (Service.step s (Service.CallStart config sp))))
      (FFmpeg.id config)
    = Some (length (Service.children s)) /\
    Service.files (fst (Service.step s (Service.CallStart config sp)))
    = Service.files s /\
    Service.db (fst (Service.step s (Service.CallStart config sp)))
    = Service.db s /\
    forall evs : list Service.Event,
      Forall (fun e => e <> Service.RunTask (length (Service.tasks s))) evs ->
      snd (Service.step
             (Service.exec
                (fst (Service.step s (Service.CallStart config sp))) evs)
             (Service.RunTask (length (Service.tasks s))))
      = [Service.StartReturned (FFmpeg.id config) true])) /\
  (forall process : nat,
     JsMap.get (Service.activeStreams s) (FFmpeg.id config) = Some process ->
     Service.step s (Service.CallStart config sp)
     = (Service.stop_register (FFmpeg.id config) process
          (Service.Restart config sp) s, []) /\
     length (Service.children
               (fst (Service.step s (Service.CallStart config sp))))
     = length (Service.children s) /\
     Service.files (fst (Service.step s (Service.CallStart config sp)))
     = Service.files s /\
     Service.db (fst (Service.step s (Service.CallStart config sp)))
     = Service.db s /\
     Service.activeStreams (fst (Service.step s (Service.CallStart config sp)))
     = Service.activeStreams s /\
     Service.promises (fst (Service.step s (Service.CallStart config sp)))
       !! length (Service.promises s)
     = Some (Service.mkPromise false (Service.Restart config sp)) /\
     Service.tasks (fst (Service.step s (Service.CallStart config sp)))
       !! length (Service.tasks s)
     = Some (Service.ForceKill (FFmpeg.id config) process
               (length (Service.promises s)), false) /\
     (forall (evs : list Service.Event) (e : Service.Event),
        Service.promises
          (Service.exec (fst (Service.step s (Service.CallStart config sp)))
                        evs)
          !! length (Service.promises s)
        = Some (Service.mkPromise false (Service.Restart config sp)) ->
        Service.promises
          (fst (Service.step
                  (Service.exec
                     (fst (Service.step s (Service.CallStart config sp))) evs)
                  e))
          !! length (Service.promises s)
        <> Some (Service.mkPromise false (Service.Restart config sp)) ->
        (FileManager.existsSync
           (Service.files
              (Service.exec
                 (fst (Service.step s (Service.CallStart config sp))) evs))
           (FFmpeg.videoPath config) = false
         \/ sp = Service.SpawnThrows ->
         List.In (Service.StartReturned (FFmpeg.id config) false)
           (snd (Service.step
                   (Service.exec
                      (fst (Service.step s (Service.CallStart config sp))) evs)
                   e))) /\
        (FileManager.existsSync
           (Service.files
              (Service.exec
                 (fst (Service.step s (Service.CallStart config sp))) evs))
           (FFmpeg.videoPath config) = true ->
         sp = Service.Spawned ->
         exists fresh k : nat,
           (length
              (Service.children
                 (Service.exec
                    (fst (Service.step s (Service.CallStart config sp))) evs))
            <= fresh)%nat /\
           Service.children
             (fst (Service.step
                     (Service.exec
                        (fst (Service.step s (Service.CallStart config sp)))
                        evs) e)) !! fresh
           = Some (Service.mkChild (FFmpeg.buildFFmpegArgs config)
                     [Service.StartExit (FFmpeg.id config)] [FFmpeg.id config]
                     [] false) /\
           Service.isStreamActive
             (fst (Service.step
                     (Service.exec
                        (fst (Service.step s (Service.CallStart config sp)))
                        evs) e)) (FFmpeg.id config) = true /\
           (length
              (Service.tasks
                 (Service.exec
                    (fst (Service.step s (Service.CallStart config sp))) evs))
            <= k)%nat /\
           Service.tasks
             (fst (Service.step
                     (Service.exec
                        (fst (Service.step s (Service.CallStart config sp)))
                        evs) e)) !! k
           = Some (Service.StartGrace (FFmpeg.id config), false) /\
           forall evs' : list Service.Event,
             Forall (fun e' => e' <> Service.RunTask k) evs' ->
             snd (Service.step
                    (Service.exec
                       (fst (Service.step
                               (Service.exec
                                  (fst (Service.step s
                                          (Service.CallStart config sp)))
                                  evs) e)) evs')
                    (Service.RunTask k))
             = [Service.StartReturned (FFmpeg.id config) true])) /\
     (forall evs : list Service.Event,
        Forall (fun e => e <> Service.RunTask (length (Service.tasks s))) evs ->
        Service.promises
          (Service.exec (fst (Service.step s (Service.CallStart config sp)))
                        evs)
          !! length (Service.promises s)
        = Some (Service.mkPromise false (Service.Restart config sp)) ->
        Service.isStreamActive
          (Service.exec (fst (Service.step s (Service.CallStart config sp)))
                        evs) (FFmpeg.id config) = true ->
        Service.promises
          (fst (Service.step
                  (Service.exec
                     (fst (Service.step s (Service.CallStart config sp))) evs)
                  (Service.RunTask (length (Service.tasks s)))))
          !! length (Service.promises s)
        = Some (Service.mkPromise true (Service.Restart config sp)))).
Proof.
  split.
  - intros Hact. apply jsmap_get_has in Hact.
    simpl. unfold Service.startStream. rewrite Hact.
    unfold Service.start_resume. split.
    + intros [H|H].
      * now rewrite H.
      * subst sp.
        now destruct (negb (FileManager.existsSync (Service.files s)
                              (FFmpeg.videoPath config))).
    + intros H ->. rewrite H. simpl.
      repeat split; try reflexivity.
      * apply jsmap_get_set.
      * intros evs Hev.
        match goal with |- context [Service.exec ?s1 evs] =>
          pose proof (exec_keeps_task s1 evs (length (Service.tasks s))
                        (Service.StartGrace (FFmpeg.id config))) as K end.
        rewrite K; [reflexivity | | exact Hev].
        simpl. now rewrite lookup_app_r, Nat.sub_diag by lia.
  - intros process H.
    assert (E : Service.step s (Service.CallStart config sp)
                = (Service.stop_register (FFmpeg.id config) process
                     (Service.Restart config sp) s, [])).
    { simpl. unfold Service.startStream. now rewrite H. }
    rewrite E. cbn [fst].
    destruct (pending_stop_register (FFmpeg.id config) process
                (Service.Restart config sp) s)
      as (P1 & P2 & P3 & P4 & P5 & P6).
    set (s1 := Service.stop_register (FFmpeg.id config) process
                 (Service.Restart config sp) s) in *.
    split; [reflexivity|]. split; [exact P6|]. split; [exact P3|].
    split; [exact P4|]. split; [exact P5|]. split; [exact P1|].
    split; [exact P2|]. split.
    + intros evs e Hp Hn.
      set (s2 := Service.exec s1 evs) in *.
      destruct (step_settles s2 e _ _ Hp Hn)
        as (s' & q & Es & Hin & F & C & T).
      pose proof (fold_restart config sp q (s', []) Hin) as (O1 & O2).
      rewrite <- Es in O1, O2. cbn [fst snd] in O1, O2.
      rewrite F in O1, O2. split; [exact O1|].
      intros Hf Hs. destruct (O2 Hf Hs) as (p & k & Q1 & Q2 & Q3 & Q4 & Q5).
      exists p, k. split; [lia|]. split; [exact Q2|]. split; [exact Q3|].
      split; [lia|]. split; [exact Q5|].
      intros evs' Hev.
      match goal with |- context [Service.exec ?x evs'] =>
        pose proof (exec_keeps_task x evs' k
                      (Service.StartGrace (FFmpeg.id config)) Q5 Hev) as K
      end.
      cbn [Service.step]. rewrite K. reflexivity.
    + intros evs Hev Hp Ha.
      apply (force_kill_settles _ _ (FFmpeg.id config) process); auto.
      apply exec_keeps_task; assumption.
Qed.

Lemma startStream_outcome_witness :
  (Service.isStreamActive Scenario.fresh 7 = false /\
   (FileManager.existsSync (Service.files Scenario.fresh) "/uploads/gone.mp4"
    = false \/ Service.Spawned = Service.SpawnThrows) /\
   Service.step Scenario.fresh
     (Service.CallStart Scenario.cfg7_missing Service.Spawned)
   = (Scenario.fresh, [Service.StartReturned 7 false])) /\
  (JsMap.get
     (Service.activeStreams (Service.exec Scenario.fresh Scenario.started)) 7
   = Some 0%nat /\
   List.In (Service.StartReturned 7 false)
     (snd (Service.step
             (Service.exec
                (fst (Service.step
                        (Service.exec Scenario.fresh Scenario.started)
                        (Service.CallStart Scenario.cfg7_missing
                           Service.Spawned))) [])
             (Service.ChildExit 0)))).
Proof.
  split.
  - split; [reflexivity|]. split; [left; reflexivity|].
    apply (proj1 (proj1 (startStream_outcome Scenario.fresh
                           Scenario.cfg7_missing Service.Spawned) eq_refl)).
    left. reflexivity.
  - split; [reflexivity|].
    apply (proj1 (proj2 (proj2 (proj2 (proj2 (proj2 (proj2 (proj2
             (proj2 (startStream_outcome
                       (Service.exec Scenario.fresh Scenario.started)
                       Scenario.cfg7_missing Service.Spawned)
                    0%nat eq_refl)))))))) [] (Service.ChildExit 0)).
    + reflexivity.
    + vm_compute. discriminate.
    + left. reflexivity.
Defined.

(** C3 as stated fails twice.  A start call for a missing file while the
    stream has a handle first stops the running encoder: SIGTERM is sent
    and, once the encoder has exited, the handle is gone although the call
    returns [false].  And when the encoder cannot be launched and says so
    with an ['error'] event during the wait, the call still returns
    [true]. *)
Lemma startStream_missing_file_mutates :
  Service.isStreamActive (Service.exec Scenario.fresh Scenario.started) 7
    = true /\
  FileManager.existsSync
    (Service.files (Service.exec Scenario.fresh Scenario.started))
    (FFmpeg.videoPath Scenario.cfg7_missing) = false /\
  snd (Service.run (Service.exec Scenario.fresh Scenario.started)
         [Service.CallStart Scenario.cfg7_missing Service.Spawned;
          Service.ChildExit 0])
    = [Service.StartReturned 7 false] /\
  Service.isStreamActive
    (Service.exec (Service.exec Scenario.fresh Scenario.started)
       [Service.CallStart Scenario.cfg7_missing Service.Spawned;
        Service.ChildExit 0]) 7 = false /\
  Service.exec (Service.exec Scenario.fresh Scenario.started)
    [Service.CallStart Scenario.cfg7_missing Service.Spawned]
    <> Service.exec Scenario.fresh Scenario.started /\
  snd (Service.run Scenario.fresh Scenario.spawn_error)
    = [Service.StartReturned 7 true] /\
  Service.isStreamActive (Service.exec Scenario.fresh Scenario.spawn_error) 7
    = false.
Proof.
  repeat split; try (vm_compute; reflexivity).
  intros H. apply (f_equal Service.tasks) in H. vm_compute in H.
  discriminate.
Qed.

(** ** Clean-up at the end of an encoder process *)

Section CleanupFacts.
Import Service Props.

Lemma inv_auto_runs (s : State) (p : nat) :
  service_inv s -> (auto_runs p s <= auto_scheduled p s)%nat.
Proof.
  intros (_ & H). destruct (H p) as (_ & _ & _ & D & _).
  pose proof (filter_done_le p (tasks s)) as L.
  unfold auto_done in D. unfold auto_scheduled. lia.
Qed.

Lemma inv_auto_scheduled (s : State) (p : nat) :
  service_inv s -> (auto_scheduled p s <= 1)%nat.
Proof.
  intros (_ & H). destruct (H p) as (A & _ & C & _ & _).
  destruct (has_exited p s); [rewrite C | destruct A]; auto; lia.
Qed.

(** The timer of [stopStream] does no clean-up, and does nothing at all
    when the stream has no handle. *)
Lemma force_kill_timer (s : State) (k : nat) (i : Z) (p pr : nat) :
  tasks s !! k = Some (ForceKill i p pr, false) ->
  cleanups (fst (step s (RunTask k))) = cleanups s /\
  (isStreamActive s i = false ->
   step s (RunTask k)
   = (set_tasks (<[k := (ForceKill i p pr, true)]> (tasks s)) s, [])).
Proof.
  intros Hk. simpl. rewrite Hk. split.
  - match goal with |- cleanups (fst (run_task ?t ?s1)) = _ =>
      destruct (quiet_plain_task t s1) as (_ & Hcl & _);
        [discriminate | exact Hcl] end.
  - intros H. unfold run_task. simpl. unfold isStreamActive in H.
    now rewrite H.
Qed.

End CleanupFacts.

(** C1, as the code has it.  In every state the service reaches: a process
    that has not exited has had no clean-up; the callback has been invoked
    at most once per stop call made on the process, and the clean-up of the
    start listener has run at most once.  The exit event of a process
    invokes the callback (when one is registered) once for each stop call
    pending on it, so not at all when nobody called stop, and schedules the
    clean-up of the start listener once; a process exits once.  The
    five-second timer of a stop call never runs clean-up, and changes
    nothing but its own mark when the stream has no handle. *)
Theorem cleanup_per_exit :
  (forall (s : Service.State) (p : nat),
     Props.reachable s ->
     (Service.has_exited p s = false -> Service.cleanup_runs p s = 0%nat) /\
     (Service.callback_runs p s <= Service.stop_listeners p s)%nat /\
     (Service.auto_runs p s <= 1)%nat) /\
  (forall (s : Service.State) (p : nat) (c : Service.Child),
     Props.reachable s ->
     Service.children s !! p = Some c -> Service.c_exited c = false ->
     Service.has_exited p (fst (Service.step s (Service.ChildExit p))) = true /\
     Service.callback_runs p (fst (Service.step s (Service.ChildExit p)))
     = match Service.cleanupCallback s with
       | Some _ => Service.stop_listeners p s
       | None => 0%nat
       end /\
     Service.auto_scheduled p (fst (Service.step s (Service.ChildExit p)))
     = 1%nat) /\
  (forall (s : Service.State) (p : nat),
     Service.has_exited p s = true ->
     Service.step s (Service.ChildExit p) = (s, [])) /\
  (forall (s : Service.State) (k : nat) (i : Z) (p pr : nat),
     Service.tasks s !! k = Some (Service.ForceKill i p pr, false) ->
     Service.cleanups (fst (Service.step s (Service.RunTask k)))
     = Service.cleanups s /\
     (Service.isStreamActive s i = false ->
      Service.step s (Service.RunTask k)
      = (Service.set_tasks
           (<[k := (Service.ForceKill i p pr, true)]> (Service.tasks s)) s,
         []))).
Proof.
  split; [|split; [|split]].
  - intros s p Hr. pose proof (reachable_inv s Hr) as Hinv.
    pose proof (inv_auto_runs s p Hinv) as H1.
    pose proof (inv_auto_scheduled s p Hinv) as H2.
    destruct Hinv as (_ & H). destruct (H p) as (A & B & _).
    split; [|split; [exact B | lia]].
    intros Hex. destruct (A Hex) as (A1 & A2).
    unfold Service.cleanup_runs. lia.
  - intros s p c Hr Hp Hex. pose proof (reachable_inv s Hr) as Hinv.
    destruct (child_exit_effect s p c Hinv Hp Hex) as (_ & E1 & E2 & E3 & _).
    simpl. auto.
  - intros s p H. simpl. apply child_exit_noop. now left.
  - intros s k i p pr Hk. now apply force_kill_timer.
Qed.

Lemma cleanup_per_exit_witness :
  Props.reachable (Service.exec Scenario.fresh Scenario.stop_forced) /\
  (Service.callback_runs 0 (Service.exec Scenario.fresh Scenario.stop_forced)
   <= Service.stop_listeners 0
        (Service.exec Scenario.fresh Scenario.stop_forced))%nat /\
  (Service.auto_runs 0 (Service.exec Scenario.fresh Scenario.stop_forced)
   <= 1)%nat.
Proof.
  assert (R : Props.reachable (Service.exec Scenario.fresh Scenario.stop_forced)).
  { exists Scenario.fs7, Scenario.db7, Scenario.stop_forced. reflexivity. }
  split; [exact R|].
  exact (proj2 (proj1 cleanup_per_exit _ 0%nat R)).
Defined.

(** C1 as stated fails.  With a callback registered, a stop call followed
    by the exit of the encoder runs clean-up twice for the one termination:
    the callback from the stop listener and the file clean-up from the
    start listener, neither of which is a no-op.  Counting the callback
    alone, two overlapping stop calls invoke it twice, and an exit that
    nobody asked for does not invoke it at all. *)
Lemma cleanup_not_once :
  (Service.has_exited 0 (Service.exec Scenario.fresh Scenario.stop_then_exit)
     = true /\
   Service.callback_runs 0
     (Service.exec Scenario.fresh Scenario.stop_then_exit) = 1%nat /\
   Service.auto_runs 0
     (Service.exec Scenario.fresh Scenario.stop_then_exit) = 1%nat /\
   ~ Props.cleanup_once_per_termination
       (Service.exec Scenario.fresh Scenario.stop_then_exit)) /\
  (Service.callback_runs 0 (Service.exec Scenario.fresh Scenario.two_stops)
     = 2%nat /\
   ~ Props.callback_once_per_termination
       (Service.exec Scenario.fresh Scenario.two_stops)) /\
  (Service.has_exited 0
     (Service.exec Scenario.fresh Scenario.spontaneous_exit) = true /\
   Service.callback_runs 0
     (Service.exec Scenario.fresh Scenario.spontaneous_exit) = 0%nat /\
   ~ Props.callback_once_per_termination
       (Service.exec Scenario.fresh Scenario.spontaneous_exit)).
Proof.
  repeat split; try (vm_compute; reflexivity).
  - intros H. specialize (H 0%nat). vm_compute in H.
    specialize (H eq_refl). discriminate.
  - intros H. specialize (H 0%nat). vm_compute in H.
    specialize (H eq_refl). discriminate.
  - intros H. specialize (H 0%nat). vm_compute in H.
    specialize (H eq_refl). discriminate.
Qed.

(** For the record: with a single stop call the callback runs once, also
    when the encoder ignores SIGTERM and exits on the SIGKILL of the
    timer. *)
Example single_stop_forced :
  Service.callback_runs 0 (Service.exec Scenario.fresh Scenario.stop_forced)
    = 1%nat /\
  snd (Service.run Scenario.fresh Scenario.stop_forced)
    = [Service.StartReturned 7 true; Service.StopReturned 7 true].
Proof. split; vm_compute; reflexivity. Qed.

(** ** Restarting a stream *)

(** At most one handle per stream id, in every state the service reaches. *)
Lemma one_handle_per_id (s : Service.State) :
  Props.reachable s -> NoDup (Service.getActiveStreamIds s).
Proof. intros H. now destruct (reachable_inv s H). Qed.

(** Right after the old encoder has exited the restarted stream has its one
    handle, that of the new process. *)
Example restart_new_handle :
  Service.activeStreams
    (Service.exec Scenario.fresh
       (Scenario.started
        ++ [Service.CallStart Scenario.cfg7_portrait Service.Spawned;
            Service.ChildExit 0]))
  = [(7, 1%nat)].
Proof. vm_compute. reflexivity. Qed.

(** C2, at the input on which the code loses the handle.  Stream 7 is
    started twice and both calls return [true].  When the old encoder exits
    on SIGTERM, the timer of the internal stop call still fires five
    seconds later, finds a handle for the id, which is the new one, and
    deletes it.  When the old encoder ignores SIGTERM, the timer lets the
    restart go on and the handle of the new process is deleted by the exit
    listeners of the old one.  Either way the new encoder runs and the
    stream has no handle. *)
Theorem restart_loses_handle :
  (snd (Service.run Scenario.fresh Scenario.restart_graceful)
     = [Service.StartReturned 7 true; Service.StartReturned 7 true] /\
   Service.isStreamActive
     (Service.exec Scenario.fresh Scenario.restart_graceful) 7 = false /\
   Service.getActiveStreamIds
     (Service.exec Scenario.fresh Scenario.restart_graceful) = [] /\
   Service.has_exited 1
     (Service.exec Scenario.fresh Scenario.restart_graceful) = false /\
   (Service.c_args <$>
      Service.children
        (Service.exec Scenario.fresh Scenario.restart_graceful) !! 1%nat)
     = Some (FFmpeg.buildFFmpegArgs Scenario.cfg7_portrait)) /\
  (snd (Service.run Scenario.fresh Scenario.restart_forced)
     = [Service.StartReturned 7 true; Service.StartReturned 7 true] /\
   Service.isStreamActive
     (Service.exec Scenario.fresh Scenario.restart_forced) 7 = false /\
   Service.has_exited 1
     (Service.exec Scenario.fresh Scenario.restart_forced) = false /\
   Service.cleanup_runs 0
     (Service.exec Scenario.fresh
        (Scenario.started
         ++ [Service.CallStart Scenario.cfg7_portrait Service.Spawned;
             Service.RunTask 1])) = 0%nat /\
   Service.isStreamActive
     (Service.exec Scenario.fresh
        (Scenario.started
         ++ [Service.CallStart Scenario.cfg7_portrait Service.Spawned;
             Service.RunTask 1])) 7 = true).
Proof.
  repeat split; vm_compute; reflexivity.
Qed.

(** ** One tick of the statistics timer *)

Section TickFacts.
Import Storage Stats.

Lemma or0_Some (u : Z) : or0 (Some u) = u.
Proof. simpl. destruct (Z.eqb_spec u 0); congruence. Qed.

Lemma is_connected_spec (cur : StreamStats) :
  connectionStatus cur = Some "connected"%string -> is_connected cur = true.
Proof. intros H. unfold is_connected. now rewrite H. Qed.

End TickFacts.

(** C5.  In a state the service reaches, take a stream with a handle whose
    statistics record is connected.  One tick stores a record for it whose
    uptime is the old uptime plus 5 (100 becomes 105), whose viewer count
    is the old count plus a draw from 0..19 minus 10, floored at zero, hence
    not negative, and whose status is unchanged; and it broadcasts exactly
    one statsUpdate for the stream, carrying these values.  A stream whose
    record is missing or not connected, or that has no handle, keeps its
    record and gets no broadcast. *)
Theorem stats_tick (s : Service.State) (rnd : nat -> Z) (now : Z) :
  Props.reachable s -> Props.stats_wf (Service.db s) ->
  (forall (streamId : Z) (cur : Storage.StreamStats),
     Service.isStreamActive s streamId = true ->
     Storage.getStreamStats (Service.db s) streamId = Some cur ->
     Storage.connectionStatus cur = Some "connected"%string ->
     exists (k : nat) (new : Storage.StreamStats) (v : Z),
       Storage.getStreamStats
         (fst (Stats.tick rnd now (Service.getActiveStreamIds s) (Service.db s)))
         streamId = Some new /\
       Storage.uptime new = Some (Stats.or0 (Storage.uptime cur) + 5) /\
       (forall u, Storage.uptime cur = Some u ->
                  Storage.uptime new = Some (u + 5)) /\
       v = Z.max 0 (Stats.or0 (Storage.viewerCount cur) + (rnd k - 10)) /\
       Storage.viewerCount new = Some v /\ 0 <= v /\
       (0 <= rnd k < 20 -> -10 <= rnd k - 10 <= 9) /\
       Storage.connectionStatus new = Some "connected"%string /\
       Stats.updates_for streamId
         (snd (Stats.tick rnd now (Service.getActiveStreamIds s) (Service.db s)))
       = [Stats.StatsUpdate streamId v (Stats.or0 (Storage.uptime cur) + 5)
            (15 + rnd (S k)) "connected"]) /\
  (forall streamId : Z,
     (Service.isStreamActive s streamId = false
      \/ Storage.getStreamStats (Service.db s) streamId = None
      \/ exists cur, Storage.getStreamStats (Service.db s) streamId = Some cur
                     /\ Storage.connectionStatus cur <> Some "connected"%string) ->
     Storage.getStreamStats
       (fst (Stats.tick rnd now (Service.getActiveStreamIds s) (Service.db s)))
       streamId
     = Storage.getStreamStats (Service.db s) streamId /\
     Stats.updates_for streamId
       (snd (Stats.tick rnd now (Service.getActiveStreamIds s) (Service.db s)))
     = []).
Proof.
  intros Hr Hwf. split.
  - intros streamId cur Hact Hcur Hconn.
    destruct (tick_connected rnd now (Service.getActiveStreamIds s)
                (Service.db s) streamId cur)
      as (k & new & G & Hv & Hu & Hs & Ho);
      try assumption.
    + now apply one_handle_per_id.
    + now apply jsmap_has_keys.
    + now apply is_connected_spec.
    + exists k, new,
        (Z.max 0 (Stats.or0 (Storage.viewerCount cur) + (rnd k - 10))).
      replace (Stats.or0 (Storage.viewerCount cur) + (rnd k - 10))
        with (Stats.or0 (Storage.viewerCount cur) + rnd k - 10) by lia.
      repeat split; try assumption; try lia; try congruence.
      intros u Hu'. rewrite Hu, Hu', or0_Some. reflexivity.
  - intros streamId H. apply tick_untouched; [assumption|].
    destruct H as [H | [H | (cur & H1 & H2)]].
    + left. intros Hin. apply jsmap_has_keys in Hin.
      unfold Service.isStreamActive in H. congruence.
    + right. now left.
    + right. right. exists cur. split; [assumption|].
      unfold Stats.is_connected.
      destruct (Storage.connectionStatus cur) as [c|]; [|reflexivity].
      destruct (String.eqb_spec c "connected"); [congruence | reflexivity].
Qed.

Lemma stats_tick_witness :
  Props.reachable (Service.exec Scenario.fresh Scenario.started) /\
  Props.stats_wf (Service.db (Service.exec Scenario.fresh Scenario.started)) /\
  exists (k : nat) (new : Storage.StreamStats) (v : Z),
    Storage.getStreamStats
      (fst (Stats.tick (fun _ => 4) 0
              (Service.getActiveStreamIds
                 (Service.exec Scenario.fresh Scenario.started))
              (Service.db (Service.exec Scenario.fresh Scenario.started))))
      7 = Some new /\
    Storage.uptime new = Some 105.
Proof.
  assert (R : Props.reachable (Service.exec Scenario.fresh Scenario.started)).
  { exists Scenario.fs7, Scenario.db7, Scenario.started. reflexivity. }
  assert (W : Props.stats_wf
                (Service.db (Service.exec Scenario.fresh Scenario.started))).
  { vm_compute. apply NoDup_singleton. }
  split; [exact R|]. split; [exact W|].
  destruct (proj1 (stats_tick _ (fun _ => 4) 0 R W) 7 Scenario.stats7)
    as (k & new & v & G & Hu & _); try reflexivity.
  exists k, new, v. split; [exact G | exact Hu].
Defined.

(** * Further properties *)

(** ** Files *)

(** X1.  [deleteFile] returns [true] exactly when the path names a regular
    file; the path is then gone, otherwise the file system is unchanged;
    and no other path is ever touched. *)
Theorem deleteFile_effect (fs : gmap string FileManager.FsNode)
    (filePath : string) :
  snd (FileManager.deleteFile fs filePath) = Facts.is_regular fs filePath /\
  (Facts.is_regular fs filePath = true ->
   fst (FileManager.deleteFile fs filePath) !! filePath = None) /\
  (Facts.is_regular fs filePath = false ->
   fst (FileManager.deleteFile fs filePath) = fs) /\
  (forall other : string,
     other <> filePath ->
     fst (FileManager.deleteFile fs filePath) !! other = fs !! other).
Proof.
  unfold Facts.is_regular.
  destruct (fs !! filePath) as [[]|] eqn:E.
  - rewrite (deleteFile_file _ _ E). simpl. repeat split.
    + intros _. apply lookup_delete_eq.
    + discriminate.
    + intros other H. apply lookup_delete_ne. congruence.
  - rewrite (deleteFile_directory _ _ E). simpl. repeat split; auto.
    discriminate.
  - rewrite (deleteFile_missing _ _ E). simpl. repeat split; auto.
Qed.

Lemma deleteFile_effect_witness :
  Facts.is_regular Scenario.fs7 Scenario.video = true /\
  fst (FileManager.deleteFile Scenario.fs7 Scenario.video) !! Scenario.video
  = None.
Proof.
  split.
  - reflexivity.
  - apply (proj1 (proj2 (deleteFile_effect Scenario.fs7 Scenario.video))).
    reflexivity.
Defined.

(** X2.  [cleanupStreamFiles] deletes something only when it is given a
    non-empty path that names a regular file, and then it removes that
    path and returns [true]; in every other case (no path, the empty
    path, a missing path, a directory) it returns [false] and the file
    system is unchanged.  The stream id plays no part. *)
Theorem cleanupStreamFiles_effect (fs : gmap string FileManager.FsNode)
    (streamId : Z) (videoPath : option string) :
  (forall p : string,
     videoPath = Some p -> p <> ""%string ->
     Facts.is_regular fs p = true ->
     FileManager.cleanupStreamFiles fs streamId videoPath
     = (delete p fs, true)) /\
  ((videoPath = None \/ videoPath = Some ""%string
    \/ exists p, videoPath = Some p /\ Facts.is_regular fs p = false) ->
   FileManager.cleanupStreamFiles fs streamId videoPath = (fs, false)).
Proof.
  split.
  - intros p -> Hp Hr. unfold FileManager.cleanupStreamFiles.
    destruct (String.eqb_spec p ""); [contradiction|].
    unfold Facts.is_regular in Hr.
    destruct (fs !! p) as [[]|] eqn:E; try discriminate.
    now apply deleteFile_file.
  - intros [-> | [-> | (p & -> & Hr)]]; try reflexivity.
    unfold FileManager.cleanupStreamFiles.
    destruct (String.eqb p ""); [reflexivity|].
    unfold Facts.is_regular in Hr.
    destruct (fs !! p) as [[]|] eqn:E; try discriminate.
    + now apply deleteFile_directory.
    + now apply deleteFile_missing.
Qed.

Lemma cleanupStreamFiles_effect_witness :
  Some Scenario.video = Some Scenario.video /\
  Scenario.video <> ""%string /\
  Facts.is_regular Scenario.fs7 Scenario.video = true /\
  FileManager.cleanupStreamFiles Scenario.fs7 7 (Some Scenario.video)
  = (delete Scenario.video Scenario.fs7, true).
Proof.
  split; [reflexivity|]. split; [discriminate|]. split; [reflexivity|].
  apply (proj1 (cleanupStreamFiles_effect Scenario.fs7 7
                  (Some Scenario.video)) Scenario.video);
    [reflexivity | discriminate | reflexivity].
Defined.

(** ** Generated file names *)

Section GeneratedNames.
Import Path Props FileManager.

Lemma uint_chars_no_underscore (d : Decimal.uint) :
  Forall (fun c => c <> "_"%char) (Js.chars (NilEmpty.string_of_uint d)).
Proof.
  induction d; simpl; try constructor; try assumption; discriminate.
Qed.

Lemma show_N_no_underscore (n : N) :
  Forall (fun c => c <> "_"%char) (Js.chars (Js.show_N n)).
Proof.
  unfold Js.show_N, NilZero.string_of_uint.
  destruct (N.to_uint n); try apply uint_chars_no_underscore.
  repeat constructor; discriminate.
Qed.

Lemma show_N_inj (m n : N) : Js.show_N m = Js.show_N n -> m = n.
Proof.
  intros H. pose proof (digits_value_show_N m) as Hm.
  rewrite H, digits_value_show_N in Hm. inversion Hm. lia.
Qed.

(** Splitting at the first occurrence of a separator. *)
Lemma split_at_first {A : Type} (x : A) (l1 l2 r1 r2 : list A) :
  Forall (fun c => c <> x) l1 -> Forall (fun c => c <> x) l2 ->
  l1 ++ x :: r1 = l2 ++ x :: r2 -> l1 = l2 /\ r1 = r2.
Proof.
  revert l2. induction l1 as [|a l1 IH]; intros l2 H1 H2 E.
  - destruct l2 as [|b l2]; simpl in E.
    + inversion E. auto.
    + inversion E; subst. inversion H2; subst. congruence.
  - destruct l2 as [|b l2]; simpl in E.
    + inversion E; subst. inversion H1; subst. congruence.
    + inversion E; subst. inversion H1; subst. inversion H2; subst.
      destruct (IH l2) as (-> & ->); auto.
Qed.

(** The end of the component is the end of a path whose last character is
    not a separator. *)
Lemma ext_end_stable rs : forall i st,
  end_ st <> -1 -> end_ (ext_loop rs i st) = end_ st.
Proof.
  induction rs as [|c rs IH]; intros i st He; simpl; [reflexivity|].
  destruct (is_slash c).
  - destruct (negb (matchedSlash st)); simpl; auto.
  - rewrite IH.
    + unfold ext_visit.
      destruct (Z.eqb_spec (end_ st) (-1)) as [|_]; [contradiction|].
      destruct (is_dot c), (startDot st =? -1), (negb (preDotState st =? 1));
        reflexivity.
    + unfold ext_visit.
      destruct (Z.eqb_spec (end_ st) (-1)) as [|_]; [contradiction|].
      destruct (is_dot c), (startDot st =? -1), (negb (preDotState st =? 1));
        assumption.
Qed.

Lemma ext_end_last (cs : list ascii) (b : ascii) :
  is_slash b = false ->
  end_ (ext_loop (rev (cs ++ [b])) (Z.of_nat (length (cs ++ [b])) - 1)
          ext_init)
  = Z.of_nat (length (cs ++ [b])).
Proof.
  intros Hb. rewrite rev_app_distr. simpl rev. simpl app.
  rewrite ext_loop_cons by assumption.
  assert (E : end_ (ext_visit b (Z.of_nat (length (cs ++ [b])) - 1) ext_init)
              = Z.of_nat (length (cs ++ [b]))).
  { unfold ext_visit, ext_init. simpl.
    destruct (is_dot b); simpl; lia. }
  rewrite ext_end_stable; [exact E|]. rewrite E. lia.
Qed.

(** The extension of a path that ends with a character other than a
    separator is a suffix of the path. *)
Lemma extname_chars_suffix (cs : list ascii) (b : ascii) :
  is_slash b = false ->
  extname_chars (cs ++ [b]) = []
  \/ exists pre e,
       extname_chars (cs ++ [b]) = CHAR_DOT :: e /\ all_plain e /\
       cs ++ [b] = pre ++ CHAR_DOT :: e.
Proof.
  intros Hb. unfold extname_chars, ext_result.
  set (G := cs ++ [b]).
  set (F := ext_loop (rev G) (Z.of_nat (length G) - 1) ext_init).
  destruct (Z.eqb_spec (startDot F) (-1)) as [Hs|Hs]; [left; reflexivity|].
  match goal with |- context [if ?c then _ else _] =>
    destruct c; [left; reflexivity | right] end.
  destruct (ext_loop_inv (rev G) [] ext_init) as
    (pre & e & tail & E0 & E1 & E2 & E3).
  { apply scan_inv_init. }
  { rewrite length_rev. exact Hs. }
  rewrite length_rev in E1, E2. fold F in E1, E2.
  rewrite rev_involutive, app_nil_r in E0.
  pose proof (ext_end_last cs b Hb) as L. fold G in L. fold F in L.
  assert (Ht : tail = []).
  { apply (f_equal (@length ascii)) in E0.
    rewrite !length_app in E0. cbn [length] in E0, E2.
    rewrite length_app in E0.
    destruct tail; [reflexivity|]. cbn [length] in E0. lia. }
  subst tail. rewrite app_nil_r in E0.
  exists pre, e. split; [|split; assumption].
  rewrite E1, E2, E0.
  replace (pre ++ CHAR_DOT :: e) with (pre ++ (CHAR_DOT :: e) ++ [])
    by now rewrite app_nil_r.
  apply slice_chars_middle.
Qed.

Lemma allowed_no_underscore (x : string) :
  Js.includes allowedExtensions x = true ->
  Forall (fun c => c <> "_"%char) (Js.chars x).
Proof.
  intros H. apply includes_In in H. simpl in H.
  destruct H as [<-|[<-|[<-|[<-|[<-|[]]]]]];
    repeat constructor; discriminate.
Qed.

Lemma lower_char_underscore (c : ascii) :
  Js.lower_char c = "_"%char -> c = "_"%char.
Proof.
  destruct c as [[] [] [] [] [] [] [] []]; vm_compute; congruence.
Qed.

(** An extension that holds an underscore is not an allowed one. *)
Lemma underscore_not_valid (l1 l2 : list ascii) :
  Js.includes allowedExtensions
    (Js.toLowerCase (Js.str (l1 ++ "_"%char :: l2))) = false.
Proof.
  destruct (Js.includes allowedExtensions
              (Js.toLowerCase (Js.str (l1 ++ "_"%char :: l2)))) eqn:E;
    [|reflexivity].
  apply allowed_no_underscore in E.
  unfold Js.toLowerCase in E. rewrite !chars_str in E.
  rewrite List.map_app in E. apply Forall_app in E. destruct E as (_ & E).
  simpl in E. inversion E; subst. exfalso. auto.
Qed.

Lemma extname_generated_nonempty (timestamp : N) (random36 : list nat)
    (name : string) :
  extname name <> ""%string ->
  extname (generateUniqueFilename timestamp random36 name) = extname name.
Proof.
  intros Hne.
  destruct (infix_two_plain timestamp random36)
    as (m & a & b & Hm & Pm & Pa & Pb).
  destruct (extname_chars_shape (Js.chars name)) as [He | (e & He & Pe)].
  - exfalso. apply Hne. unfold extname. now rewrite He.
  - unfold extname at 1. rewrite generated_chars, Hm.
    assert (Hc : Js.chars (extname name) = CHAR_DOT :: e).
    { unfold extname. now rewrite chars_str. }
    rewrite Hc.
    replace (Js.chars (basename name (extname name))
             ++ (m ++ [a; b]) ++ CHAR_DOT :: e)
      with ((Js.chars (basename name (extname name)) ++ m)
            ++ [a; b] ++ CHAR_DOT :: e)
      by (rewrite <- !app_assoc; reflexivity).
    rewrite extname_chars_ending by assumption.
    unfold extname. now rewrite He.
Qed.

Lemma generated_invalid_without_extension (timestamp : N)
    (random36 : list nat) (name : string) :
  extname name = ""%string ->
  isValidVideoFile (generateUniqueFilename timestamp random36 name) = false.
Proof.
  intros Hext. unfold isValidVideoFile, extname.
  rewrite generated_chars, Hext.
  change (Js.chars "") with (@nil ascii). rewrite app_nil_r.
  set (B := Js.chars (basename name "")).
  set (T := Js.chars (Js.show_N timestamp)).
  set (R := Js.chars (Js.substring (Js.toString36 random36) 2 8)).
  assert (Hmid : Js.chars ("_" ++ Js.show_N timestamp ++ "_"
                   ++ Js.substring (Js.toString36 random36) 2 8)
                 = "_"%char :: T ++ "_"%char :: R).
  { rewrite !chars_app. reflexivity. }
  rewrite Hmid.
  assert (Pmid : all_plain ("_"%char :: T ++ "_"%char :: R)).
  { constructor; [reflexivity|]. apply Forall_app. split.
    - apply show_N_plain.
    - constructor; [reflexivity | apply random_token_plain]. }
  destruct (List.exists_last (l := "_"%char :: T ++ "_"%char :: R))
    as (m0 & b & Hlast); [discriminate|].
  assert (Hb : is_slash b = false).
  { rewrite Hlast in Pmid. apply Forall_app in Pmid.
    destruct Pmid as (_ & Pb). inversion Pb; subst.
    now apply plain_not_slash. }
  replace (B ++ "_"%char :: T ++ "_"%char :: R) with ((B ++ m0) ++ [b])
    by (rewrite <- app_assoc, <- Hlast; reflexivity).
  destruct (extname_chars_suffix (B ++ m0) b Hb) as [->|(pre & e & -> & Pe & E)].
  - reflexivity.
  - rewrite <- app_assoc, <- Hlast in E.
    (* the dot lies in the base name, so the infix is part of [e] *)
    apply app_eq_app in E. destruct E as (l & [(E1 & E2)|(E1 & E2)]).
    + rewrite E2. apply underscore_not_valid.
    + exfalso.
      assert (D : In CHAR_DOT ("_"%char :: T ++ "_"%char :: R)).
      { rewrite E2. apply in_or_app. right. now left. }
      unfold all_plain in Pmid. rewrite List.Forall_forall in Pmid.
      specialize (Pmid _ D). discriminate.
Qed.

End GeneratedNames.

(** X3.  Renaming an upload never changes whether it counts as a video
    file, whatever the original name: a name with an extension keeps it,
    and a name without one does not gain an allowed one.  So every upload
    that passes the filter is stored under a name that passes it. *)
Theorem upload_name_validity (timestamp : N) (random36 : list nat)
    (originalname : string) :
  FileManager.isValidVideoFile
    (FileManager.generateUniqueFilename timestamp random36 originalname)
  = FileManager.isValidVideoFile originalname /\
  (Path.extname originalname <> ""%string ->
   Path.extname
     (FileManager.generateUniqueFilename timestamp random36 originalname)
   = Path.extname originalname) /\
  (Routes.fileFilter originalname = true ->
   Routes.fileFilter (Routes.filename timestamp random36 originalname) = true).
Proof.
  assert (V : FileManager.isValidVideoFile
                (FileManager.generateUniqueFilename timestamp random36
                   originalname)
              = FileManager.isValidVideoFile originalname).
  { destruct (string_dec (Path.extname originalname) "") as [E|E].
    - rewrite (generated_invalid_without_extension _ _ _ E).
      unfold FileManager.isValidVideoFile. now rewrite E.
    - unfold FileManager.isValidVideoFile.
      now rewrite (extname_generated_nonempty _ _ _ E). }
  split; [exact V|]. split.
  - apply extname_generated_nonempty.
  - unfold Routes.fileFilter, Routes.filename. now rewrite V.
Qed.

Lemma upload_name_validity_witness :
  Routes.fileFilter "a.b/My.Clip.MOV" = true /\
  Routes.fileFilter (Routes.filename 1700000000123 [1; 2]%nat "a.b/My.Clip.MOV")
  = true.
Proof.
  split.
  - reflexivity.
  - apply (proj2 (proj2 (upload_name_validity 1700000000123 [1; 2]%nat
                           "a.b/My.Clip.MOV"))).
    reflexivity.
Defined.

(** X5.  For one original name, two generated names are equal only if
    they were made in the same millisecond with the same random token. *)
Theorem generateUniqueFilename_distinct (t t' : N) (r r' : list nat)
    (originalName : string) :
  FileManager.generateUniqueFilename t r originalName
  = FileManager.generateUniqueFilename t' r' originalName ->
  t = t' /\
  Js.substring (Js.toString36 r) 2 8 = Js.substring (Js.toString36 r') 2 8.
Proof.
  intros H. apply (f_equal Js.chars) in H.
  rewrite !generated_chars in H.
  apply app_inv_head, app_inv_tail in H.
  rewrite !chars_app in H. simpl in H. inversion H as [H'].
  apply split_at_first in H'; try apply show_N_no_underscore.
  destruct H' as (Ht & Hr). split.
  - apply show_N_inj. now apply chars_inj.
  - now apply chars_inj.
Qed.

Lemma generateUniqueFilename_distinct_witness :
  FileManager.generateUniqueFilename 5 [1]%nat "a.mp4"
  = FileManager.generateUniqueFilename 5 [1]%nat "a.mp4" /\
  (5%N = 5%N /\
   Js.substring (Js.toString36 [1]%nat) 2 8
   = Js.substring (Js.toString36 [1]%nat) 2 8).
Proof.
  split.
  - reflexivity.
  - apply (generateUniqueFilename_distinct 5 5 [1]%nat [1]%nat "a.mp4").
    reflexivity.
Defined.

(** ** Encoder arguments, continued *)

Section MoreArgsFacts.
Import FFmpeg Props.

Lemma show_hundredths_inj (v w : Z) :
  Z.abs v <= 100 * 2 ^ 46 -> Z.abs w <= 100 * 2 ^ 46 ->
  Js.show_hundredths v = Js.show_hundredths w -> v = w.
Proof.
  intros Hv Hw H.
  destruct (show_hundredths_value v Hv) as (q & Hq & Eq).
  destruct (show_hundredths_value w Hw) as (q' & Hq' & Eq').
  rewrite H, Hq' in Hq. inversion Hq; subst q'.
  rewrite Eq' in Eq. unfold Qeq in Eq. simpl in Eq. lia.
Qed.

Lemma volume_prefix_inj (a b : string) :
  ("volume=" ++ a)%string = ("volume=" ++ b)%string -> a = b.
Proof. intros H. simpl in H. now inversion H. Qed.

(** The filter is the silent one only for a muted stream or volume 0. *)
Lemma audioFilter_silent (config : StreamConfig) :
  audioFilter config = "volume=0"%string
  <-> isMuted config = true \/ volume config = 0.
Proof.
  unfold audioFilter. destruct (isMuted config).
  - split; auto.
  - split.
    + intros H. right.
      change "volume=0"%string with ("volume=" ++ "0")%string in H.
      apply volume_prefix_inj in H.
      destruct (Z.eq_dec (volume config) 0) as [|Hv]; [assumption|].
      now apply show_hundredths_nonzero in Hv.
    + intros [H|H]; [discriminate|]. now rewrite H.
Qed.

End MoreArgsFacts.

(** X6.  Two streams that are not muted and whose volumes are at most
    [100 * 2^46] in absolute value get the same audio filter only if their
    volumes are equal; the bound is needed, the volumes [100 * 2^46 + 1]
    and [100 * 2^46 + 2] give the same filter; and for every volume the
    filter is the silent one, [volume=0], exactly when the stream is muted
    or its volume is 0. *)
Theorem audioFilter_injective (c1 c2 : FFmpeg.StreamConfig) :
  (FFmpeg.isMuted c1 = false -> FFmpeg.isMuted c2 = false ->
   Z.abs (FFmpeg.volume c1) <= 100 * 2 ^ 46 ->
   Z.abs (FFmpeg.volume c2) <= 100 * 2 ^ 46 ->
   FFmpeg.audioFilter c1 = FFmpeg.audioFilter c2 ->
   FFmpeg.volume c1 = FFmpeg.volume c2) /\
  (FFmpeg.isMuted c1 = false -> FFmpeg.isMuted c2 = false ->
   FFmpeg.volume c1 = 100 * 2 ^ 46 + 1 ->
   FFmpeg.volume c2 = 100 * 2 ^ 46 + 2 ->
   FFmpeg.audioFilter c1 = FFmpeg.audioFilter c2) /\
  (FFmpeg.audioFilter c1 = "volume=0"%string
   <-> FFmpeg.isMuted c1 = true \/ FFmpeg.volume c1 = 0).
Proof.
  split; [|split; [|apply audioFilter_silent]].
  - unfold FFmpeg.audioFilter. intros -> -> H1 H2 H.
    now apply volume_prefix_inj, show_hundredths_inj in H.
  - unfold FFmpeg.audioFilter. intros -> -> -> ->. vm_compute. reflexivity.
Qed.

Lemma audioFilter_injective_witness :
  FFmpeg.isMuted Scenario.cfg7 = false /\
  FFmpeg.isMuted Scenario.cfg7_portrait = false /\
  Z.abs (FFmpeg.volume Scenario.cfg7) <= 100 * 2 ^ 46 /\
  Z.abs (FFmpeg.volume Scenario.cfg7_portrait) <= 100 * 2 ^ 46 /\
  FFmpeg.audioFilter Scenario.cfg7 = FFmpeg.audioFilter Scenario.cfg7_portrait /\
  FFmpeg.volume Scenario.cfg7 = FFmpeg.volume Scenario.cfg7_portrait.
Proof.
  split; [reflexivity|]. split; [reflexivity|].
  split; [vm_compute; discriminate|]. split; [vm_compute; discriminate|].
  split; [reflexivity|].
  apply (proj1 (audioFilter_injective Scenario.cfg7 Scenario.cfg7_portrait));
    try reflexivity; vm_compute; discriminate.
Defined.



(** X8.  The start action refuses a record without a video path and
    otherwise passes the record's id and path on; a missing volume or the
    volume 0 becomes 75, so the encoder of a started stream is silent
    exactly when the record is muted. *)
Theorem startConfig_effect (stream : Storage.Stream) :
  (Routes.startConfig stream = None
   <-> Storage.s_videoPath stream = None
       \/ Storage.s_videoPath stream = Some ""%string) /\
  (forall cfg : FFmpeg.StreamConfig,
     Routes.startConfig stream = Some cfg ->
     Storage.s_videoPath stream = Some (FFmpeg.videoPath cfg) /\
     FFmpeg.id cfg = Storage.s_id stream /\
     FFmpeg.volume cfg <> 0 /\
     (Storage.s_volume stream = None \/ Storage.s_volume stream = Some 0 ->
      FFmpeg.volume cfg = 75) /\
     (FFmpeg.audioFilter cfg = "volume=0"%string
      <-> Storage.s_isMuted stream = Some true)).
Proof.
  unfold Routes.startConfig, Store.or_null.
  destruct (Storage.s_videoPath stream) as [p|].
  - destruct (String.eqb_spec p "") as [->|Hp].
    + split; [split; auto|]. discriminate.
    + split.
      * split; [discriminate|]. intros [H|H]; [discriminate | congruence].
      * intros cfg H. inversion H; subst cfg; clear H. simpl.
        assert (V : Store.or_Z (Storage.s_volume stream) 75 <> 0).
        { unfold Store.or_Z. destruct (Storage.s_volume stream) as [v|];
            [|lia]. destruct (Z.eqb_spec v 0); lia. }
        split; [reflexivity|]. split; [reflexivity|]. split; [exact V|].
        split.
        { intros [->| ->]; reflexivity. }
        rewrite audioFilter_silent. simpl. split.
        -- intros [H|H]; [|contradiction].
           destruct (Storage.s_isMuted stream) as [[]|]; simpl in H;
             congruence.
        -- intros ->. now left.
  - split; [split; auto|]. discriminate.
Qed.

Lemma startConfig_effect_witness :
  exists cfg : FFmpeg.StreamConfig,
    Routes.startConfig Scenario.stream7 = Some cfg /\
    FFmpeg.volume cfg <> 0.
Proof.
  exists Scenario.cfg7. split; [reflexivity|].
  apply (proj2 (startConfig_effect Scenario.stream7) Scenario.cfg7).
  reflexivity.
Defined.

(** ** Statistics records, continued *)

Section MoreStatsFacts.
Import Storage Stats Facts.

Lemma updateStreamStats_keys (d : MemStorage) (j : Z) (u : StatsUpdates)
    (now : Z) :
  JsMap.keys (streamStats (fst (updateStreamStats d j u now)))
  = JsMap.keys (streamStats d).
Proof.
  unfold updateStreamStats.
  destruct (find_stats_entry d j) as [[k st]|] eqn:Hf; [|reflexivity].
  simpl. rewrite jsmap_keys_set.
  assert (H : JsMap.has (streamStats d) k = true).
  { apply jsmap_has_keys. unfold find_stats_entry in Hf.
    apply find_some in Hf. destruct Hf as (Hin & _).
    apply list_elem_of_In. unfold JsMap.keys.
    apply in_map_iff. now exists (k, st). }
  now rewrite H.
Qed.

Lemma updateStreamStats_result (d : MemStorage) (j : Z) (u : StatsUpdates)
    (now : Z) :
  snd (updateStreamStats d j u now)
  = option_map (fun cur => spread_stats cur u now) (getStreamStats d j).
Proof.
  rewrite find_stats_entry_value. unfold updateStreamStats.
  destruct (find_stats_entry d j) as [[k st]|]; reflexivity.
Qed.

Lemma tick_body_shape (rnd : nat -> Z) (now : Z) (acc : TickState) (j : Z) :
  Props.stats_wf (fst (fst acc)) ->
  Props.stats_wf (fst (fst (tick_body rnd now acc j))) /\
  streams (fst (fst (tick_body rnd now acc j))) = streams (fst (fst acc)) /\
  JsMap.keys (streamStats (fst (fst (tick_body rnd now acc j))))
    = JsMap.keys (streamStats (fst (fst acc))) /\
  (forall i, connected_in (fst (fst (tick_body rnd now acc j))) i
             = connected_in (fst (fst acc)) i) /\
  exists new,
    snd (tick_body rnd now acc j) = snd acc ++ new /\
    map update_stream new = List.filter (connected_in (fst (fst acc))) [j] /\
    Forall (broadcast_ok rnd) new.
Proof.
  intros Hwf. destruct acc as [[d k] out]. cbn [fst snd] in *.
  unfold tick_body. cbn [List.filter]. unfold connected_in at 3.
  destruct (getStreamStats d j) as [cur|] eqn:Hc.
  2:{ cbn [fst snd]. repeat split; auto.
      exists []. rewrite app_nil_r. repeat split; auto. }
  destruct (is_connected cur) eqn:Hconn.
  2:{ cbn [fst snd]. repeat split; auto.
      exists []. rewrite app_nil_r. repeat split; auto. }
  cbn [fst snd].
  match goal with |- context [updateStreamStats d j ?u now] =>
    destruct (updateStreamStats_lookup d j u now cur Hwf Hc) as (W & Hst & L);
    pose proof (updateStreamStats_keys d j u now) as K end.
  split; [exact W|]. split; [exact Hst|]. split; [exact K|]. split.
  - intros i. unfold connected_in. rewrite L.
    destruct (Z.eqb_spec i j) as [->|]; [|reflexivity].
    rewrite Hc. reflexivity.
  - eexists. split; [reflexivity|]. split; [reflexivity|].
    constructor; [|constructor]. unfold broadcast_ok. simpl.
    split; [lia|]. split; [reflexivity|]. now exists (S k).
Qed.

Lemma tick_fold_shape (rnd : nat -> Z) (now : Z) (ids : list Z) :
  forall acc : TickState,
    Props.stats_wf (fst (fst acc)) ->
    streams (fst (fst (fold_left (tick_body rnd now) ids acc)))
      = streams (fst (fst acc)) /\
    JsMap.keys (streamStats (fst (fst (fold_left (tick_body rnd now) ids acc))))
      = JsMap.keys (streamStats (fst (fst acc))) /\
    exists new,
      snd (fold_left (tick_body rnd now) ids acc) = snd acc ++ new /\
      map update_stream new = List.filter (connected_in (fst (fst acc))) ids /\
      Forall (broadcast_ok rnd) new.
Proof.
  induction ids as [|j ids IH]; intros acc Hwf.
  - simpl. repeat split; auto. exists []. rewrite app_nil_r. auto.
  - cbn [fold_left].
    destruct (tick_body_shape rnd now acc j Hwf)
      as (W & S & K & C & new1 & E1 & M1 & F1).
    destruct (IH (tick_body rnd now acc j) W)
      as (S' & K' & new2 & E2 & M2 & F2).
    split; [congruence|]. split; [congruence|].
    exists (new1 ++ new2). split; [|split].
    + rewrite E2, E1. now rewrite app_assoc.
    + rewrite List.map_app, M1, M2.
      rewrite (List.filter_ext _ _ C).
      change (j :: ids) with ([j] ++ ids). now rewrite List.filter_app.
    + apply Forall_app. split; assumption.
Qed.

End MoreStatsFacts.

(** X9.  One tick broadcasts once for each active id whose record is
    connected, in the order of the ids and nothing else; every broadcast
    carries a viewer count that is not negative, a ping from 15 to 34 and
    the status [connected]; the stream records and the set of statistics
    records are left as they are. *)
Theorem tick_broadcasts (rnd : nat -> Z) (now : Z) (activeStreamIds : list Z)
    (d : Storage.MemStorage) :
  Props.stats_wf d ->
  (forall k : nat, 0 <= rnd k < 20) ->
  map Facts.update_stream (snd (Stats.tick rnd now activeStreamIds d))
  = List.filter (Facts.connected_in d) activeStreamIds /\
  Forall (fun b => 0 <= Facts.update_viewers b /\
                   15 <= Facts.update_ping b <= 34 /\
                   Facts.update_status b = "connected"%string)
         (snd (Stats.tick rnd now activeStreamIds d)) /\
  Storage.streams (fst (Stats.tick rnd now activeStreamIds d))
  = Storage.streams d /\
  JsMap.keys (Storage.streamStats (fst (Stats.tick rnd now activeStreamIds d)))
  = JsMap.keys (Storage.streamStats d).
Proof.
  intros Hwf Hr.
  destruct (tick_fold_shape rnd now activeStreamIds (d, 0%nat, []) Hwf)
    as (S & K & new & E & M & F).
  unfold Stats.tick.
  destruct (fold_left (Stats.tick_body rnd now) activeStreamIds (d, 0%nat, []))
    as [[d' n] out].
  cbn [fst snd] in *. subst out. split; [exact M|].
  split; [|split; assumption].
  eapply List.Forall_impl; [|exact F].
  intros b (Hv & Hs & k & Hp). specialize (Hr k). repeat split; auto; lia.
Qed.

Lemma tick_broadcasts_witness :
  Props.stats_wf Scenario.db7 /\
  (forall k : nat, 0 <= (fun _ : nat => 4) k < 20) /\
  map Facts.update_stream
    (snd (Stats.tick (fun _ => 4) 0 [7; 8; 7] Scenario.db7))
  = List.filter (Facts.connected_in Scenario.db7) [7; 8; 7].
Proof.
  assert (W : Props.stats_wf Scenario.db7).
  { vm_compute. apply NoDup_singleton. }
  assert (R : forall k : nat, 0 <= (fun _ : nat => 4) k < 20) by (intros; lia).
  split; [exact W|]. split; [exact R|].
  apply (proj1 (tick_broadcasts (fun _ => 4) 0 [7; 8; 7] Scenario.db7 W R)).
Defined.

(** X10.  [updateStreamStats] answers [undefined] and changes nothing
    when the stream has no statistics record.  Otherwise it returns the
    old record overlaid with the updates and stamped with the current
    time, [getStreamStats] returns that record from then on, the records
    of the other streams read as before, and no record is added or
    removed. *)
Theorem updateStreamStats_effect (d : Storage.MemStorage) (streamId : Z)
    (u : Storage.StatsUpdates) (now : Z) :
  (Storage.getStreamStats d streamId = None ->
   Storage.updateStreamStats d streamId u now = (d, None)) /\
  (forall cur : Storage.StreamStats,
     Props.stats_wf d ->
     Storage.getStreamStats d streamId = Some cur ->
     snd (Storage.updateStreamStats d streamId u now)
     = Some (Storage.spread_stats cur u now) /\
     Storage.getStreamStats
       (fst (Storage.updateStreamStats d streamId u now)) streamId
     = Some (Storage.spread_stats cur u now) /\
     Storage.st_streamId (Storage.spread_stats cur u now) = streamId /\
     Storage.updatedAt (Storage.spread_stats cur u now) = Some now /\
     (forall other : Z,
        other <> streamId ->
        Storage.getStreamStats
          (fst (Storage.updateStreamStats d streamId u now)) other
        = Storage.getStreamStats d other) /\
     JsMap.keys
       (Storage.streamStats (fst (Storage.updateStreamStats d streamId u now)))
     = JsMap.keys (Storage.streamStats d) /\
     Storage.streams (fst (Storage.updateStreamStats d streamId u now))
     = Storage.streams d).
Proof.
  split.
  - intros H. rewrite find_stats_entry_value in H.
    unfold Storage.updateStreamStats.
    destruct (Storage.find_stats_entry d streamId) as [[k st]|];
      [discriminate | reflexivity].
  - intros cur Hwf Hc.
    destruct (updateStreamStats_lookup d streamId u now cur Hwf Hc)
      as (_ & S & L).
    split; [rewrite updateStreamStats_result, Hc; reflexivity|].
    split; [rewrite L, Z.eqb_refl; reflexivity|].
    split.
    { simpl. unfold Storage.getStreamStats in Hc. apply find_some in Hc.
      destruct Hc as (_ & Hc). lia. }
    split; [reflexivity|]. split.
    { intros other Ho. rewrite L.
      destruct (Z.eqb_spec other streamId); [contradiction | reflexivity]. }
    split; [apply updateStreamStats_keys | exact S].
Qed.

Lemma updateStreamStats_effect_witness :
  Props.stats_wf Scenario.db7 /\
  Storage.getStreamStats Scenario.db7 7 = Some Scenario.stats7 /\
  snd (Storage.updateStreamStats Scenario.db7 7
         (Storage.mkStatsUpdates None (Some 0) None (Some "connected"%string))
         42)
  = Some (Storage.spread_stats Scenario.stats7
            (Storage.mkStatsUpdates None (Some 0) None
               (Some "connected"%string)) 42).
Proof.
  assert (W : Props.stats_wf Scenario.db7).
  { vm_compute. apply NoDup_singleton. }
  split; [exact W|]. split; [reflexivity|].
  apply (proj2 (updateStreamStats_effect Scenario.db7 7
                  (Storage.mkStatsUpdates None (Some 0) None
                     (Some "connected"%string)) 42)
           Scenario.stats7 W eq_refl).
Defined.

(** ** The storage *)

Section StoreFacts.
Import Storage Store Facts.

Lemma jsmap_set_fresh {V : Type} (m : list (Z * V)) (k : Z) (v : V) :
  JsMap.has m k = false -> JsMap.set m k v = m ++ [(k, v)].
Proof.
  unfold JsMap.has. induction m as [|[k' v'] m IH]; simpl; [reflexivity|].
  destruct (k' =? k); [discriminate|]. intros H. now rewrite IH.
Qed.

Lemma jsmap_bound_fresh {V : Type} (m : list (Z * V)) (n : Z) :
  (forall k v, In (k, v) m -> k < n) -> JsMap.has m n = false.
Proof.
  intros H. destruct (JsMap.has m n) eqn:E; [|reflexivity].
  apply jsmap_has_keys, list_elem_of_In in E. unfold JsMap.keys in E.
  apply in_map_iff in E. destruct E as ([k v] & Hk & Hin). simpl in Hk.
  subst k. apply H in Hin. lia.
Qed.

Lemma jsmap_get_app {V : Type} (m : list (Z * V)) (k n : Z) (v : V) :
  JsMap.get (m ++ [(n, v)]) k
  = match JsMap.get m k with
    | Some x => Some x
    | None => if n =? k then Some v else None
    end.
Proof.
  induction m as [|[k' v'] m IH]; simpl; [reflexivity|].
  destruct (k' =? k); [reflexivity | exact IH].
Qed.

Lemma jsmap_get_In {V : Type} (m : list (Z * V)) (k : Z) (v : V) :
  JsMap.get m k = Some v -> In (k, v) m.
Proof.
  induction m as [|[k' v'] m IH]; simpl; [discriminate|].
  destruct (Z.eqb_spec k' k) as [->|].
  - intros H. inversion H. now left.
  - intros H. right. now apply IH.
Qed.

Lemma jsmap_delete_In {V : Type} (m : list (Z * V)) (k : Z) (e : Z * V) :
  In e (JsMap.delete m k) -> In e m.
Proof.
  induction m as [|[k' v'] m IH]; simpl; [auto|].
  destruct (k' =? k); simpl; intuition.
Qed.

Lemma jsmap_delete_absent {V : Type} (m : list (Z * V)) (k : Z) :
  k ∉ JsMap.keys m -> JsMap.delete m k = m.
Proof.
  unfold JsMap.keys. induction m as [|[k' v'] m IH]; simpl; [reflexivity|].
  intros H. apply not_elem_of_cons in H. destruct H as (H1 & H2).
  destruct (Z.eqb_spec k' k); [congruence|]. now rewrite IH.
Qed.

Lemma jsmap_set_In {V : Type} (m : list (Z * V)) (k : Z) (v : V) (e : Z * V) :
  In e (JsMap.set m k v) -> In e m \/ e = (k, v).
Proof.
  induction m as [|[k' v'] m IH]; simpl.
  - intros [H|[]]; auto.
  - destruct (k' =? k); simpl.
    + intros [H|H]; auto.
    + intros [H|H]; auto. destruct (IH H); auto.
Qed.

Lemma find_snoc {A : Type} (f : A -> bool) (l : list A) (x : A) :
  List.find f (l ++ [x])
  = match List.find f l with
    | Some y => Some y
    | None => if f x then Some x else None
    end.
Proof.
  induction l as [|a l IH]; simpl; [reflexivity|].
  destruct (f a); [reflexivity | exact IH].
Qed.

Lemma find_stream_absent (l : list StreamStats) (i : Z) :
  ~ In i (map st_streamId l) ->
  List.find (fun x => st_streamId x =? i) l = None.
Proof.
  induction l as [|a l IH]; simpl; [reflexivity|].
  intros H. destruct (Z.eqb_spec (st_streamId a) i); [tauto|].
  apply IH. tauto.
Qed.

Lemma values_delete_NoDup (l : list (Z * StreamStats)) (k : Z) :
  NoDup (map st_streamId (JsMap.values l)) ->
  NoDup (map st_streamId (JsMap.values (JsMap.delete l k))).
Proof.
  unfold JsMap.values. induction l as [|[k' s] l IH]; simpl; [auto|].
  intros H. apply NoDup_cons in H. destruct H as (H1 & H2).
  destruct (k' =? k); [auto|]. simpl. apply NoDup_cons. split; [|auto].
  intros Hin. apply H1. apply list_elem_of_In in Hin. apply list_elem_of_In.
  apply in_map_iff in Hin. destruct Hin as (x & Hx & Hin).
  apply in_map_iff in Hin. destruct Hin as (e & He & Hin).
  apply jsmap_delete_In in Hin.
  apply in_map_iff. exists x. split; [exact Hx|].
  apply in_map_iff. now exists e.
Qed.

(** Deleting by the key of the record found for a stream removes the
    records of that stream and no other. *)
Lemma delete_found (l : list (Z * StreamStats)) (id k : Z) (e : StreamStats) :
  NoDup (JsMap.keys l) ->
  NoDup (map st_streamId (JsMap.values l)) ->
  List.find (fun x => st_streamId (snd x) =? id) l = Some (k, e) ->
  forall i,
    List.find (fun x => st_streamId x =? i) (JsMap.values (JsMap.delete l k))
    = if i =? id then None
      else List.find (fun x => st_streamId x =? i) (JsMap.values l).
Proof.
  unfold JsMap.keys, JsMap.values.
  induction l as [|[k0 s0] l IH]; [discriminate|].
  cbn [map fst snd List.find JsMap.delete]. intros Hk Hs Hf i.
  apply NoDup_cons in Hk. destruct Hk as (Hk1 & Hk2).
  apply NoDup_cons in Hs. destruct Hs as (Hs1 & Hs2).
  destruct (Z.eqb_spec (st_streamId s0) id) as [E|E].
  - inversion Hf; subst k0 s0. rewrite Z.eqb_refl.
    rewrite (jsmap_delete_absent l k Hk1).
    destruct (Z.eqb_spec i id) as [->|Hi].
    + apply find_stream_absent. rewrite <- E. intros Hin.
      apply Hs1. now apply list_elem_of_In.
    + destruct (Z.eqb_spec (st_streamId e) i); [congruence | reflexivity].
  - assert (Hin : k ∈ map fst l).
    { apply find_some in Hf. destruct Hf as (Hin & _).
      apply list_elem_of_In, in_map_iff. now exists (k, e). }
    destruct (Z.eqb_spec k0 k) as [->|Hne]; [contradiction|].
    cbn [map snd List.find].
    destruct (Z.eqb_spec (st_streamId s0) i) as [Ei|Ei].
    + destruct (Z.eqb_spec i id); [congruence | reflexivity].
    + now apply IH.
Qed.

Lemma set_same_stream (l : list (Z * StreamStats)) (k : Z)
    (st st' : StreamStats) :
  NoDup (JsMap.keys l) -> In (k, st) l ->
  st_streamId st' = st_streamId st ->
  map st_streamId (JsMap.values (JsMap.set l k st'))
  = map st_streamId (JsMap.values l).
Proof.
  unfold JsMap.keys, JsMap.values.
  induction l as [|[k0 s0] l IH]; [intros _ []|].
  cbn [map fst snd JsMap.set]. intros Hk Hin E.
  apply NoDup_cons in Hk. destruct Hk as (Hk1 & Hk2).
  destruct (Z.eqb_spec k0 k) as [->|Hne].
  - destruct Hin as [Hin|Hin].
    + inversion Hin; subst s0. simpl. now rewrite E.
    + exfalso. apply Hk1, list_elem_of_In, in_map_iff. now exists (k, st).
  - destruct Hin as [Hin|Hin]; [congruence|].
    simpl. now rewrite IH.
Qed.

Lemma createStream_tables (st : MemStore) (insertStream : InsertStream)
    (now : Z) :
  store_wf st ->
  tables (fst (createStream st insertStream now))
  = mkStorage
      (<[currentStreamId st := snd (createStream st insertStream now)]>
         (streams (tables st)))
      (streamStats (tables st)
       ++ [(currentStatsId st,
            mkStats (currentStatsId st) (currentStreamId st) (Some 0) (Some 0)
                    (Some 0) (Some "disconnected"%string) (Some now))]).
Proof.
  intros (_ & _ & W3 & _). unfold createStream, createStreamStats.
  cbn [fst snd tables streams streamStats currentStatsId n_streamId
       n_viewerCount n_uptime n_ping n_connectionStatus].
  rewrite jsmap_set_fresh.
  - reflexivity.
  - apply jsmap_bound_fresh. intros k v H. now apply W3 in H.
Qed.

Lemma createStream_wf (st : MemStore) (insertStream : InsertStream) (now : Z) :
  store_wf st -> store_wf (fst (createStream st insertStream now)).
Proof.
  intros W. pose proof (createStream_tables st insertStream now W) as T.
  destruct W as (W1 & W2 & W3 & W4 & W5 & W6).
  unfold store_wf. rewrite T. clear T.
  cbn [streams streamStats].
  assert (C : currentStatsId (fst (createStream st insertStream now))
              = currentStatsId st + 1
              /\ currentStreamId (fst (createStream st insertStream now))
                 = currentStreamId st + 1
              /\ currentUserId (fst (createStream st insertStream now))
                 = currentUserId st
              /\ users (fst (createStream st insertStream now)) = users st).
  { repeat split; reflexivity. }
  destruct C as (-> & -> & -> & ->).
  split; [|split; [|split; [|split; [|split]]]].
  - unfold JsMap.keys. rewrite List.map_app. apply NoDup_app.
    split; [exact W1|]. split; [|apply NoDup_singleton].
    intros x Hx Hin. apply list_elem_of_singleton in Hin. simpl in Hin.
    subst x. apply list_elem_of_In, in_map_iff in Hx.
    destruct Hx as ([k s] & Hk & Hin). simpl in Hk. subst k.
    apply W3 in Hin. lia.
  - unfold JsMap.values. rewrite !List.map_app. apply NoDup_app.
    split; [exact W2|]. split; [|apply NoDup_singleton].
    intros x Hx Hin. apply list_elem_of_singleton in Hin. simpl in Hin.
    subst x. apply list_elem_of_In, in_map_iff in Hx.
    destruct Hx as (s & Hs & Hin). apply in_map_iff in Hin.
    destruct Hin as ([k s'] & Hk & Hin). simpl in Hk. subst s'.
    apply W3 in Hin. lia.
  - intros k s Hin. apply in_app_or in Hin. destruct Hin as [Hin|[Hin|[]]].
    + apply W3 in Hin. lia.
    + inversion Hin; subst. simpl. lia.
  - intros k s H. destruct (Z.eq_dec k (currentStreamId st)) as [->|Hne];
      [lia|].
    rewrite lookup_insert_ne in H by congruence. apply W4 in H. lia.
  - exact W5.
  - exact W6.
Qed.

Lemma createUser_users (st : MemStore) (insertUser : InsertUser) :
  store_wf st ->
  users (fst (createUser st insertUser))
  = users st ++ [(currentUserId st, snd (createUser st insertUser))].
Proof.
  intros (_ & _ & _ & _ & _ & W6). unfold createUser. cbn [fst snd users].
  apply jsmap_set_fresh, jsmap_bound_fresh.
  intros k v H. now apply W6 in H.
Qed.

Lemma createUser_wf (st : MemStore) (insertUser : InsertUser) :
  store_wf st -> store_wf (fst (createUser st insertUser)).
Proof.
  intros W. pose proof (createUser_users st insertUser W) as U.
  destruct W as (W1 & W2 & W3 & W4 & W5 & W6).
  unfold store_wf. rewrite U. clear U.
  split; [exact W1|]. split; [exact W2|]. split; [exact W3|].
  split; [exact W4|]. split.
  - unfold JsMap.keys. rewrite List.map_app. apply NoDup_app.
    split; [exact W5|]. split; [|apply NoDup_singleton].
    intros x Hx Hin. apply list_elem_of_singleton in Hin. simpl in Hin.
    subst x. apply list_elem_of_In, in_map_iff in Hx.
    destruct Hx as ([k s] & Hk & Hin). simpl in Hk. subst k.
    apply W6 in Hin. lia.
  - intros k u Hin. apply in_app_or in Hin. destruct Hin as [Hin|[Hin|[]]].
    + apply W6 in Hin. simpl. lia.
    + inversion Hin; subst. simpl. split; [lia | reflexivity].
Qed.

Lemma deleteStream_wf (st : MemStore) (id : Z) :
  store_wf st -> store_wf (fst (deleteStream st id)).
Proof.
  intros W. unfold deleteStream.
  destruct (streams (tables st) !! id) as [s|] eqn:E; [|exact W].
  destruct W as (W1 & W2 & W3 & W4 & W5 & W6).
  unfold store_wf.
  cbn [fst tables streams streamStats users currentStatsId currentStreamId
       currentUserId].
  split; [|split; [|split; [|split; [|split]]]]; try assumption.
  - destruct (find_stats_entry (tables st) id); [|exact W1].
    now apply jsmap_delete_NoDup.
  - destruct (find_stats_entry (tables st) id); [|exact W2].
    now apply values_delete_NoDup.
  - intros k s0 Hin. apply W3.
    destruct (find_stats_entry (tables st) id); [|exact Hin].
    now apply jsmap_delete_In in Hin.
  - intros k s0 H. apply lookup_delete_Some in H. destruct H as (_ & H).
    now apply W4 in H.
Qed.

Lemma updateStream_wf (st : MemStore) (id : Z) (u : StreamUpdates) :
  store_wf st -> store_wf (fst (Store.updateStream st id u)).
Proof.
  intros W. unfold Store.updateStream, Storage.updateStream.
  destruct (streams (tables st) !! id) as [s|] eqn:E.
  - destruct W as (W1 & W2 & W3 & W4 & W5 & W6).
    unfold store_wf.
    cbn [fst tables streams streamStats users currentStatsId currentStreamId
         currentUserId].
    split; [|split; [|split; [|split; [|split]]]]; try assumption.
    intros k s0 H. destruct (Z.eq_dec k id) as [->|Hne].
    + now apply W4 in E.
    + rewrite lookup_insert_ne in H by congruence. now apply W4 in H.
  - destruct st as [[? ?] ? ? ? ?]. exact W.
Qed.

Lemma putStream_wf (st : MemStore) (id : Z) (merge : Stream -> Stream) :
  store_wf st -> store_wf (fst (putStream st id merge)).
Proof.
  intros W. unfold putStream.
  destruct (streams (tables st) !! id) as [s|] eqn:E; [|exact W].
  destruct W as (W1 & W2 & W3 & W4 & W5 & W6).
  unfold store_wf.
  cbn [fst tables streams streamStats users currentStatsId currentStreamId
       currentUserId].
  split; [|split; [|split; [|split; [|split]]]]; try assumption.
  intros k s0 H. destruct (Z.eq_dec k id) as [->|Hne].
  - now apply W4 in E.
  - rewrite lookup_insert_ne in H by congruence. now apply W4 in H.
Qed.

(** The updates the server builds itself are a special case. *)
Lemma updateStream_putStream (st : MemStore) (id : Z) (u : StreamUpdates) :
  Store.updateStream st id u
  = putStream st id (fun stream => spread_stream stream u).
Proof.
  unfold Store.updateStream, Storage.updateStream, putStream.
  destruct (streams (tables st) !! id); [reflexivity|].
  now destruct st as [[? ?] ? ? ? ?].
Qed.

Lemma updateStreamStats_wf (st : MemStore) (id : Z) (u : StatsUpdates)
    (now : Z) :
  store_wf st -> store_wf (fst (Store.updateStreamStats st id u now)).
Proof.
  intros W. unfold Store.updateStreamStats, Storage.updateStreamStats.
  destruct (find_stats_entry (tables st) id) as [[k e]|] eqn:E.
  - destruct W as (W1 & W2 & W3 & W4 & W5 & W6).
    unfold find_stats_entry in E. apply find_some in E.
    destruct E as (Hin & _).
    unfold store_wf.
    cbn [fst tables streams streamStats users currentStatsId currentStreamId
         currentUserId].
    split; [|split; [|split; [|split; [|split]]]]; try assumption.
    + now apply jsmap_set_NoDup.
    + rewrite (set_same_stream _ k e); auto.
    + intros k0 s0 H. apply jsmap_set_In in H. destruct H as [H|H].
      * now apply W3.
      * inversion H; subst. simpl. now apply W3 in Hin.
  - destruct st as [[? ?] ? ? ? ?]. exact W.
Qed.

Lemma empty_wf : store_wf Store.empty.
Proof.
  unfold store_wf, Store.empty. simpl.
  repeat split; try constructor; try contradiction.
  all: intros k s H; rewrite lookup_empty in H; discriminate.
Qed.

Lemma call_wf (st : MemStore) (c : Call) :
  store_wf st -> store_wf (call st c).
Proof.
  destruct c; simpl.
  - apply createUser_wf.
  - apply createStream_wf.
  - apply updateStream_wf.
  - apply putStream_wf.
  - apply deleteStream_wf.
  - apply updateStreamStats_wf.
Qed.

Lemma calls_wf (cs : list Call) :
  forall st, store_wf st -> store_wf (calls st cs).
Proof.
  unfold calls. induction cs as [|c cs IH]; intros st W; simpl; [exact W|].
  apply IH, call_wf, W.
Qed.

End StoreFacts.

(** X11.  Whatever sequence of storage calls the routes make on a fresh
    store, the PUT route with any request body included, the ids handed
    out lie below the counters, every user is stored under its own id, the
    keys of the statistics map are distinct and no stream has two
    statistics records. *)
Theorem store_invariant (cs : list Store.Call) :
  Facts.store_wf (Store.calls Store.empty cs) /\
  Props.stats_wf (Store.tables (Store.calls Store.empty cs)).
Proof.
  pose proof (calls_wf cs Store.empty empty_wf) as W.
  split; [exact W|]. now destruct W.
Qed.

(** X12.  [createStream] uses the next id, which no stream has, and stores
    the record under it together with a fresh statistics record that is
    disconnected with all counts zero.  The record has the user, the name
    and the key of the input; the video path of the input, or none when
    that is missing or empty; the quality and the mode of the input, or
    [720p] and [desktop] when they are missing or empty; the three flags of
    the input, or [false]; and the volume of the input, or 75 when that is
    missing or 0: so the quality and the mode are never empty and the
    volume is never 0.  All other streams and their statistics read as
    before. *)
Theorem createStream_effect (st : Store.MemStore)
    (insertStream : Store.InsertStream) (now : Z) :
  Facts.store_wf st ->
  let st' := fst (Store.createStream st insertStream now) in
  let stream := snd (Store.createStream st insertStream now) in
  Storage.s_id stream = Store.currentStreamId st /\
  Storage.s_userId stream = Store.i_userId insertStream /\
  Storage.s_name stream = Store.i_name insertStream /\
  Storage.s_streamKey stream = Store.i_streamKey insertStream /\
  Storage.s_videoPath stream
  = match Store.i_videoPath insertStream with
    | Some path => if String.eqb path "" then None else Some path
    | None => None
    end /\
  Storage.s_quality stream
  = match Store.i_quality insertStream with
    | Some quality => if String.eqb quality "" then "720p"%string else quality
    | None => "720p"%string
    end /\
  Storage.s_mode stream
  = match Store.i_mode insertStream with
    | Some mode => if String.eqb mode "" then "desktop"%string else mode
    | None => "desktop"%string
    end /\
  Storage.s_loopVideo stream
  = Some match Store.i_loopVideo insertStream with
         | Some b => b
         | None => false
         end /\
  Storage.s_isActive stream
  = Some match Store.i_isActive insertStream with
         | Some b => b
         | None => false
         end /\
  Storage.s_volume stream
  = Some match Store.i_volume insertStream with
         | Some v => if v =? 0 then 75 else v
         | None => 75
         end /\
  Storage.s_isMuted stream
  = Some match Store.i_isMuted insertStream with
         | Some b => b
         | None => false
         end /\
  Storage.getStream (Store.tables st) (Store.currentStreamId st) = None /\
  Store.currentStreamId st' = Store.currentStreamId st + 1 /\
  Storage.getStream (Store.tables st') (Storage.s_id stream) = Some stream /\
  Storage.getStreamStats (Store.tables st') (Storage.s_id stream)
  = Some (Storage.mkStats (Store.currentStatsId st) (Store.currentStreamId st)
            (Some 0) (Some 0) (Some 0) (Some "disconnected"%string)
            (Some now)) /\
  Storage.s_quality stream <> ""%string /\
  Storage.s_mode stream <> ""%string /\
  Storage.s_volume stream <> Some 0 /\
  (forall other : Z,
     other <> Store.currentStreamId st ->
     Storage.getStream (Store.tables st') other
     = Storage.getStream (Store.tables st) other /\
     Storage.getStreamStats (Store.tables st') other
     = Storage.getStreamStats (Store.tables st) other).
Proof.
  intros W st' stream.
  pose proof (createStream_tables st insertStream now W) as T.
  fold st' stream in T.
  destruct W as (W1 & W2 & W3 & W4 & W5 & W6).
  assert (Hs : forall i,
    Storage.getStreamStats (Store.tables st') i
    = match Storage.getStreamStats (Store.tables st) i with
      | Some x => Some x
      | None =>
          if Store.currentStreamId st =? i
          then Some (Storage.mkStats (Store.currentStatsId st)
                       (Store.currentStreamId st) (Some 0) (Some 0) (Some 0)
                       (Some "disconnected"%string) (Some now))
          else None
      end).
  { intros i. unfold Storage.getStreamStats. rewrite T.
    cbn [Storage.streamStats]. unfold JsMap.values.
    rewrite List.map_app. cbn [map snd]. now rewrite find_snoc. }
  assert (Hnone : Storage.getStreamStats (Store.tables st)
                    (Store.currentStreamId st) = None).
  { unfold Storage.getStreamStats. apply find_stream_absent.
    intros Hin. apply in_map_iff in Hin. destruct Hin as (s & Hs' & Hin).
    unfold JsMap.values in Hin. apply in_map_iff in Hin.
    destruct Hin as ([k s'] & Hk & Hin). simpl in Hk. subst s'.
    apply W3 in Hin. lia. }
  assert (Q : forall x d, d <> ""%string -> Store.or_string x d <> ""%string).
  { intros x d Hd. unfold Store.or_string. destruct x as [s|]; [|exact Hd].
    destruct (String.eqb_spec s ""); assumption. }
  split; [reflexivity|]. do 10 (split; [reflexivity|]). split.
  { unfold Storage.getStream.
    destruct (Storage.streams (Store.tables st) !! Store.currentStreamId st)
      as [s|] eqn:E; [|reflexivity].
    apply W4 in E. lia. }
  split; [reflexivity|]. split.
  { unfold Storage.getStream. rewrite T. cbn [Storage.streams].
    apply lookup_insert_eq. }
  split.
  { rewrite Hs. change (Storage.s_id stream) with (Store.currentStreamId st).
    now rewrite Hnone, Z.eqb_refl. }
  split; [apply Q; discriminate|]. split; [apply Q; discriminate|].
  split.
  { unfold stream, Store.createStream. cbn [snd Storage.s_volume].
    unfold Store.or_Z. destruct (Store.i_volume insertStream) as [v|];
      [|discriminate].
    destruct (Z.eqb_spec v 0); [discriminate|]. congruence. }
  intros other Ho. split.
  - unfold Storage.getStream. rewrite T. cbn [Storage.streams].
    apply lookup_insert_ne. congruence.
  - rewrite Hs.
    destruct (Storage.getStreamStats (Store.tables st) other);
      [reflexivity|].
    destruct (Z.eqb_spec (Store.currentStreamId st) other);
      [congruence | reflexivity].
Qed.

Lemma createStream_effect_witness :
  Facts.store_wf Store.empty /\
  Storage.s_id
    (snd (Store.createStream Store.empty
            (Store.mkInsertStream 1 "demo" "KEY" None None None None None
               (Some 0) None) 0))
  = Store.currentStreamId Store.empty.
Proof.
  split; [exact empty_wf|].
  apply (proj1 (createStream_effect Store.empty
                  (Store.mkInsertStream 1 "demo" "KEY" None None None None
                     None (Some 0) None) 0 empty_wf)).
Defined.

(** X13.  [deleteStream] answers [false] and changes nothing when the id
    has no stream.  Otherwise it answers [true], the stream and its
    statistics record are gone, every other stream and its statistics read
    as before, and the counters are as they were, so the id is not handed
    out again. *)
Theorem deleteStream_effect (st : Store.MemStore) (id : Z) :
  Facts.store_wf st ->
  (Storage.getStream (Store.tables st) id = None ->
   Store.deleteStream st id = (st, false)) /\
  (Storage.getStream (Store.tables st) id <> None ->
   let st' := fst (Store.deleteStream st id) in
   snd (Store.deleteStream st id) = true /\
   Storage.getStream (Store.tables st') id = None /\
   Storage.getStreamStats (Store.tables st') id = None /\
   Store.currentStreamId st' = Store.currentStreamId st /\
   Store.currentStatsId st' = Store.currentStatsId st /\
   (forall other : Z,
      other <> id ->
      Storage.getStream (Store.tables st') other
      = Storage.getStream (Store.tables st) other /\
      Storage.getStreamStats (Store.tables st') other
      = Storage.getStreamStats (Store.tables st) other)).
Proof.
  intros (W1 & W2 & W3 & W4 & W5 & W6).
  unfold Storage.getStream, Store.deleteStream. split.
  - intros H. now rewrite H.
  - intros H.
    destruct (Storage.streams (Store.tables st) !! id) as [s|] eqn:E;
      [clear H | contradiction].
    cbn [fst snd Store.tables Storage.streams Store.currentStreamId
         Store.currentStatsId].
    assert (G : forall i,
      Storage.getStreamStats
        {| Storage.streams := delete id (Storage.streams (Store.tables st));
           Storage.streamStats :=
             match Storage.find_stats_entry (Store.tables st) id with
             | Some statsEntry =>
                 JsMap.delete (Storage.streamStats (Store.tables st))
                              (fst statsEntry)
             | None => Storage.streamStats (Store.tables st)
             end |} i
      = if i =? id then None
        else Storage.getStreamStats (Store.tables st) i).
    { intros i. unfold Storage.getStreamStats at 1.
      cbn [Storage.streamStats].
      destruct (Storage.find_stats_entry (Store.tables st) id)
        as [[k e]|] eqn:F.
      - cbn [fst]. apply (delete_found _ id k e W1 W2 F).
      - destruct (Z.eqb_spec i id) as [->|]; [|reflexivity].
        pose proof (find_stats_entry_value (Store.tables st) id) as V.
        rewrite F in V. exact V. }
    split; [reflexivity|]. split; [apply lookup_delete_eq|].
    split; [rewrite G; now rewrite Z.eqb_refl|].
    split; [reflexivity|]. split; [reflexivity|].
    intros other Ho. split.
    + apply lookup_delete_ne. congruence.
    + rewrite G. destruct (Z.eqb_spec other id); [contradiction | reflexivity].
Qed.

Lemma deleteStream_effect_witness :
  Facts.store_wf Store.empty /\
  Storage.getStream (Store.tables Store.empty) 3 = None /\
  Store.deleteStream Store.empty 3 = (Store.empty, false).
Proof.
  split; [exact empty_wf|]. split; [reflexivity|].
  apply (proj1 (deleteStream_effect Store.empty 3 empty_wf)). reflexivity.
Defined.

(** X14.  [createUser] uses the next id and [getUser] finds the new user
    under it; the other ids read as before.  User names are not checked:
    when the name is taken, [getUserByUsername] keeps answering with the
    older user, and the new one is found by name only if the name was
    free. *)
Theorem createUser_effect (st : Store.MemStore)
    (insertUser : Store.InsertUser) :
  Facts.store_wf st ->
  let st' := fst (Store.createUser st insertUser) in
  let user := snd (Store.createUser st insertUser) in
  Store.user_id user = Store.currentUserId st /\
  Store.getUser st (Store.currentUserId st) = None /\
  Store.getUser st' (Store.user_id user) = Some user /\
  (forall other : Z,
     other <> Store.currentUserId st ->
     Store.getUser st' other = Store.getUser st other) /\
  (forall name : string,
     Store.getUserByUsername st' name
     = match Store.getUserByUsername st name with
       | Some older => Some older
       | None =>
           if String.eqb (Store.new_username insertUser) name
           then Some user else None
       end).
Proof.
  intros W st' user.
  pose proof (createUser_users st insertUser W) as U. fold st' user in U.
  destruct W as (W1 & W2 & W3 & W4 & W5 & W6).
  assert (F : Store.getUser st (Store.currentUserId st) = None).
  { unfold Store.getUser.
    destruct (JsMap.get (Store.users st) (Store.currentUserId st))
      as [u|] eqn:E; [|reflexivity].
    apply jsmap_get_In, W6 in E. lia. }
  split; [reflexivity|]. split; [exact F|]. split; [|split].
  - unfold Store.getUser in *. rewrite U, jsmap_get_app.
    change (Store.user_id user) with (Store.currentUserId st).
    now rewrite F, Z.eqb_refl.
  - intros other Ho. unfold Store.getUser. rewrite U, jsmap_get_app.
    destruct (JsMap.get (Store.users st) other); [reflexivity|].
    destruct (Z.eqb_spec (Store.currentUserId st) other);
      [congruence | reflexivity].
  - intros name. unfold Store.getUserByUsername. rewrite U.
    unfold JsMap.values. rewrite List.map_app. cbn [map snd].
    now rewrite find_snoc.
Qed.

Lemma createUser_effect_witness :
  Facts.store_wf Store.empty /\
  Store.getUser (fst (Store.createUser Store.empty
                        (Store.mkInsertUser "demo" "demo"))) 1
  = Some (Store.mkUser 1 "demo" "demo").
Proof.
  split; [exact empty_wf|].
  apply (createUser_effect Store.empty (Store.mkInsertUser "demo" "demo")
           empty_wf).
Defined.

(** ** Handles and processes *)

Section HandleFacts.
Import FFmpeg FileManager Storage Service Props Facts.

Lemma jsmap_get_delete_other {V : Type} (m : list (Z * V)) (i k : Z) :
  JsMap.get (JsMap.delete m i) k = if k =? i then None else JsMap.get m k.
Proof.
  induction m as [|[k' v'] m IH]; simpl.
  - now destruct (k =? i).
  - destruct (Z.eqb_spec k' i) as [E|Hne].
    + rewrite IH. destruct (Z.eqb_spec k i) as [E'|Hk]; [reflexivity|].
      destruct (Z.eqb_spec k' k); [congruence | reflexivity].
    + simpl. destruct (Z.eqb_spec k' k) as [E|Hk].
      * destruct (Z.eqb_spec k i); [congruence | reflexivity].
      * exact IH.
Qed.

Lemma jsmap_get_set_other {V : Type} (m : list (Z * V)) (i k : Z) (v : V) :
  k <> i -> JsMap.get (JsMap.set m i v) k = JsMap.get m k.
Proof.
  intros Hk. induction m as [|[k' v'] m IH]; simpl.
  - destruct (Z.eqb_spec i k); [congruence | reflexivity].
  - destruct (Z.eqb_spec k' i) as [E|Hne]; simpl.
    + destruct (Z.eqb_spec i k); [congruence|].
      destruct (Z.eqb_spec k' k); [congruence | reflexivity].
    + destruct (Z.eqb_spec k' k); [reflexivity | exact IH].
Qed.

Lemma hinv_frame (s s' : State) :
  activeStreams s' = activeStreams s -> children s' = children s ->
  length (promises s') = length (promises s) ->
  handle_inv s -> handle_inv s'.
Proof. unfold handle_inv. intros -> -> ->. auto. Qed.

Lemma exit_inv_frame (q : nat) (L : list ExitListener) (s s' : State) :
  activeStreams s' = activeStreams s -> children s' = children s ->
  length (promises s') = length (promises s) ->
  exit_inv q L s -> exit_inv q L s'.
Proof. unfold exit_inv. intros -> -> ->. auto. Qed.

Lemma resolve_frame (k : nat) (s : State) (w : list Waiter) :
  activeStreams (fst (resolve k (s, w))) = activeStreams s /\
  children (fst (resolve k (s, w))) = children s /\
  length (promises (fst (resolve k (s, w)))) = length (promises s) /\
  cleanupCallback (fst (resolve k (s, w))) = cleanupCallback s /\
  cleanups (fst (resolve k (s, w))) = cleanups s /\
  files (fst (resolve k (s, w))) = files s /\
  db (fst (resolve k (s, w))) = db s.
Proof.
  unfold resolve. destruct (promises s !! k) as [pr|]; [|auto 10].
  destruct (p_resolved pr); [auto 10|]. simpl.
  rewrite length_insert. auto 10.
Qed.

Lemma hinv_delete (i : Z) (s : State) :
  handle_inv s -> handle_inv (set_active (JsMap.delete (activeStreams s) i) s).
Proof.
  intros (H1 & H2). split; [|exact H2]. simpl. intros k p Hk.
  rewrite jsmap_get_delete_other in Hk.
  destruct (k =? i); [discriminate|]. now apply H1.
Qed.

Lemma hinv_alter (f : Child -> Child) (q : nat) (s : State) :
  (forall c, c_exited (f c) = c_exited c /\
             exists extra,
               c_exit_listeners (f c) = c_exit_listeners c ++ extra /\
               forall i j, In (StopExit i j) extra ->
                           (j < length (promises s))%nat) ->
  handle_inv s -> handle_inv (set_children (alter f q (children s)) s).
Proof.
  intros Hf (H1 & H2). split; simpl.
  - intros k p Hk. destruct (H1 k p Hk) as (c & Hc & Hex & Hin).
    destruct (Nat.eq_dec q p) as [->|Hne].
    + exists (f c). rewrite list_lookup_alter_eq, Hc.
      destruct (Hf c) as (E & extra & L & _).
      split; [reflexivity|]. split; [congruence|].
      rewrite L. apply in_or_app. now left.
    + exists c. rewrite list_lookup_alter_ne by assumption. auto.
  - intros p c i j Hc Hin. destruct (Nat.eq_dec q p) as [->|Hne].
    + rewrite list_lookup_alter_eq in Hc.
      destruct (children s !! p) as [c0|] eqn:E; [|discriminate].
      simpl in Hc. inversion Hc; subst c.
      destruct (Hf c0) as (_ & extra & L & B). rewrite L in Hin.
      apply in_app_or in Hin. destruct Hin as [Hin|Hin].
      * now apply (H2 p c0 i j).
      * now apply (B i j).
    + rewrite list_lookup_alter_ne in Hc by assumption.
      now apply (H2 p c i j).
Qed.

Lemma hinv_kill (q : nat) (sig : Signal) (s : State) :
  handle_inv s -> handle_inv (kill q sig s).
Proof.
  unfold kill. apply hinv_alter. intros c. unfold deliver.
  destruct (c_exited c) eqn:E; (split; [simpl; congruence|]);
    exists []; rewrite app_nil_r; (split; [reflexivity | intros i j []]).
Qed.

Lemma hinv_stop_register (i : Z) (q : nat) (w : Waiter) (s : State) :
  handle_inv s -> handle_inv (stop_register i q w s).
Proof.
  intros H. unfold stop_register, schedule.
  match goal with |- handle_inv (set_tasks _ ?s3) =>
    apply (hinv_frame s3); try reflexivity end.
  apply hinv_kill.
  apply hinv_alter.
  - intros c. split; [reflexivity|].
    exists [StopExit i (length (promises s))]. split; [reflexivity|].
    intros i0 j [Hin|[]]. inversion Hin; subst. simpl.
    rewrite length_app. simpl. lia.
  - destruct H as (H1 & H2). split; simpl; [exact H1|].
    intros p c i0 j Hc Hin. rewrite length_app. simpl.
    specialize (H2 p c i0 j Hc Hin). lia.
Qed.

Lemma hinv_start_resume (config : StreamConfig) (sp : SpawnResult)
    (s : State) :
  handle_inv s -> handle_inv (fst (start_resume config sp s)).
Proof.
  intros (H1 & H2). unfold start_resume.
  destruct (negb (existsSync (files s) (videoPath config)));
    [split; assumption|].
  destruct sp; [|split; assumption]. split; simpl.
  - intros k p Hk. destruct (Z.eq_dec k (id config)) as [->|Hne].
    + rewrite jsmap_get_set in Hk. inversion Hk; subst p.
      eexists. split; [|split].
      * rewrite lookup_app_r by lia. rewrite Nat.sub_diag. reflexivity.
      * reflexivity.
      * now left.
    + rewrite jsmap_get_set_other in Hk by assumption.
      destruct (H1 k p Hk) as (c & Hc & Hex & Hin).
      exists c. split; [now apply lookup_app_l_Some | auto].
  - intros p c i j Hc Hin.
    apply lookup_app_Some in Hc. destruct Hc as [Hc|(Hl & Hc)].
    + now apply (H2 p c i j).
    + destruct (p - length (children s))%nat; simpl in Hc; [|discriminate].
      inversion Hc; subst c. simpl in Hin. destruct Hin as [Hin|[]].
      discriminate.
Qed.

Lemma hinv_resume (acc : State * list Output) (w : Waiter) :
  handle_inv (fst acc) -> handle_inv (fst (resume acc w)).
Proof.
  destruct acc as [s out]. destruct w as [i|config sp]; simpl; [auto|].
  intros H. pose proof (hinv_start_resume config sp s H) as G.
  destruct (start_resume config sp s). exact G.
Qed.

Lemma hinv_drain (acc : State * list Waiter) :
  handle_inv (fst acc) -> handle_inv (fst (drain acc)).
Proof.
  unfold drain. destruct acc as [s q]. cbn [fst snd].
  change s with (fst (s, @nil Output)) at 1.
  generalize (s, @nil Output) as a.
  induction q as [|w q IH]; intros a H; simpl; [exact H|].
  apply IH. now apply hinv_resume.
Qed.

Lemma hinv_resolve (k : nat) (s : State) (w : list Waiter) :
  handle_inv s -> handle_inv (fst (resolve k (s, w))).
Proof.
  destruct (resolve_frame k s w) as (A & B & C & _).
  now apply hinv_frame.
Qed.

Lemma exit_inv_listener (q : nat) (l : ExitListener) (L : list ExitListener)
    (s : State) (w : list Waiter) :
  exit_inv q (l :: L) s ->
  exit_inv q L (fst (run_exit_listener q (s, w) l)).
Proof.
  intros (H1 & H2).
  assert (D : exit_inv q L
                (set_active (JsMap.delete (activeStreams s)
                               (listener_stream l)) s)).
  { split; [|exact H2]. simpl. intros k p Hk.
    rewrite jsmap_get_delete_other in Hk.
    destruct (Z.eqb_spec k (listener_stream l)) as [|Hne]; [discriminate|].
    destruct (H1 k p Hk) as (A & B). split; [|exact B].
    intros Hp. destruct (A Hp) as [E|E]; [|exact E].
    subst l. simpl in Hne. congruence. }
  destruct l as [i|i j]; unfold run_exit_listener; cbn [listener_stream] in D.
  - cbn [fst]. revert D. apply exit_inv_frame; reflexivity.
  - set (s1 := set_active (JsMap.delete (activeStreams s) i) s) in *.
    destruct (cleanupCallback s1) as [cb|].
    + cbn [fst]. revert D. apply exit_inv_frame; reflexivity.
    + destruct (resolve_frame j s1 w) as (A & B & C & _).
      revert D. now apply exit_inv_frame.
Qed.

Lemma exit_inv_fold (q : nat) (L : list ExitListener) :
  forall acc : State * list Waiter,
    exit_inv q L (fst acc) ->
    handle_inv (fst (fold_left (run_exit_listener q) L acc)).
Proof.
  induction L as [|l L IH]; intros [s w] H; simpl.
  - destruct H as (H1 & H2). split; [|exact H2].
    intros k p Hk. destruct (H1 k p Hk) as (A & B).
    destruct (Nat.eq_dec p q) as [E|E]; [destruct (A E) | exact (B E)].
  - apply IH. now apply exit_inv_listener.
Qed.

Lemma hinv_child_exit (q : nat) (s : State) :
  handle_inv s -> handle_inv (fst (child_exit q s)).
Proof.
  intros H. unfold child_exit.
  destruct (children s !! q) as [c|] eqn:Hq; [|exact H].
  destruct (c_exited c) eqn:Hex; [exact H|].
  apply hinv_drain, exit_inv_fold. cbn [fst].
  destruct H as (H1 & H2). split; simpl.
  - intros k p Hk. destruct (H1 k p Hk) as (c0 & Hc0 & E0 & I0). split.
    + intros ->. congruence.
    + intros Hne. exists c0.
      rewrite list_lookup_insert_ne by congruence. auto.
  - intros p c0 i j Hc0 Hin. destruct (Nat.eq_dec q p) as [->|Hne].
    + rewrite list_lookup_insert_eq in Hc0
        by (apply lookup_lt_is_Some; eauto).
      inversion Hc0; subst c0. simpl in Hin. now apply (H2 p c i j).
    + rewrite list_lookup_insert_ne in Hc0 by assumption.
      now apply (H2 p c0 i j).
Qed.

Lemma hinv_child_error (q : nat) (s : State) :
  handle_inv s -> handle_inv (fst (child_error q s)).
Proof.
  unfold child_error. destruct (children s !! q) as [c|]; [|auto].
  cbn [fst]. generalize (c_error_listeners c) as l. intros l. revert s.
  induction l as [|i l IH]; intros s H; simpl; [exact H|].
  apply IH. unfold run_error_listener. now apply hinv_delete.
Qed.

Lemma hinv_auto_cleanup (q : nat) (i : Z) (s : State) :
  handle_inv s -> handle_inv (auto_cleanup q i s).
Proof.
  unfold auto_cleanup.
  destruct (getStream (db s) i) as [stream|]; [|auto].
  destruct (s_videoPath stream) as [path|]; [|auto].
  destruct (String.eqb path ""); [auto|].
  destruct (cleanupStreamFiles (files s) i (Some path)).
  apply hinv_frame; reflexivity.
Qed.

Lemma hinv_run_task (t : Task) (s : State) :
  handle_inv s -> handle_inv (fst (run_task t s)).
Proof.
  intros H. destruct t as [i q k|i|k|q i]; unfold run_task.
  - destruct (JsMap.has (activeStreams s) i); [|exact H].
    apply hinv_drain, hinv_resolve.
    apply (hinv_delete i (kill q SIGKILL s)), hinv_kill, H.
  - exact H.
  - apply hinv_drain, hinv_resolve, H.
  - cbn [fst]. now apply hinv_auto_cleanup.
Qed.

Lemma hinv_step (s : State) (e : Event) :
  handle_inv s -> handle_inv (fst (step s e)).
Proof.
  intros H. destruct e as [config sp|i|cb|q|q|k|fs d]; simpl.
  - unfold startStream.
    destruct (JsMap.get (activeStreams s) (id config)); cbn [fst].
    + now apply hinv_stop_register.
    + now apply hinv_start_resume.
  - unfold stopStream.
    destruct (JsMap.get (activeStreams s) i); cbn [fst].
    + now apply hinv_stop_register.
    + exact H.
  - exact H.
  - now apply hinv_child_exit.
  - now apply hinv_child_error.
  - destruct (tasks s !! k) as [[t [|]]|]; try exact H.
    apply hinv_run_task. revert H. apply hinv_frame; reflexivity.
  - exact H.
Qed.

Lemma hinv_exec (s : State) (evs : list Event) :
  handle_inv s -> handle_inv (exec s evs).
Proof.
  intros H. induction evs as [|e evs IH] using rev_ind; [exact H|].
  rewrite exec_snoc. now apply hinv_step.
Qed.

Lemma reachable_hinv (s : State) : reachable s -> handle_inv s.
Proof.
  intros (fs & d & evs & ->). apply hinv_exec.
  split; simpl; [discriminate|]. intros p c i j Hc. destruct p; discriminate.
Qed.

End HandleFacts.

(** X15.  In every state the service reaches, a stream that is reported
    active has a handle to a process that was spawned and whose exit event
    has not been delivered, and the start listener of that stream is still
    registered on the process; the promise of every registered stop
    listener exists. *)
Theorem active_stream_has_live_process (s : Service.State) (streamId : Z) :
  Props.reachable s ->
  Facts.handle_inv s /\
  (Service.isStreamActive s streamId = true ->
   exists (process : nat) (c : Service.Child),
     JsMap.get (Service.activeStreams s) streamId = Some process /\
     Service.children s !! process = Some c /\
     Service.c_exited c = false /\
     Service.has_exited process s = false /\
     In (Service.StartExit streamId) (Service.c_exit_listeners c)).
Proof.
  intros Hr. pose proof (reachable_hinv s Hr) as H. split; [exact H|].
  unfold Service.isStreamActive, JsMap.has.
  destruct (JsMap.get (Service.activeStreams s) streamId) as [p|] eqn:E;
    [|discriminate].
  intros _. destruct H as (H1 & _).
  destruct (H1 streamId p E) as (c & Hc & Hex & Hin).
  exists p, c. unfold Service.has_exited. rewrite Hc. auto.
Qed.

Lemma active_stream_has_live_process_witness :
  Props.reachable (Service.exec Scenario.fresh Scenario.started) /\
  Facts.handle_inv (Service.exec Scenario.fresh Scenario.started).
Proof.
  assert (R : Props.reachable (Service.exec Scenario.fresh Scenario.started)).
  { exists Scenario.fs7, Scenario.db7, Scenario.started. reflexivity. }
  split; [exact R|].
  apply (proj1 (active_stream_has_live_process _ 7 R)).
Defined.

(** ** Stop calls on a running stream *)

Section StopFacts.
Import FFmpeg FileManager Storage Service Props Facts.

Lemma run_acc (evs : list Event) :
  forall (s : State) (o : list Output),
    fold_left step_acc evs (s, o)
    = (fst (fold_left step_acc evs (s, [])),
       o ++ snd (fold_left step_acc evs (s, []))).
Proof.
  induction evs as [|e evs IH]; intros s o; simpl.
  - now rewrite app_nil_r.
  - unfold step_acc at 2 4 6. cbn [fst snd].
    destruct (step s e) as [s' o']. rewrite (IH s' (o ++ o')).
    rewrite (IH s' ([] ++ o')). simpl. now rewrite app_assoc.
Qed.

Lemma run_cons (s : State) (e : Event) (evs : list Event) :
  run s (e :: evs)
  = (fst (run (fst (step s e)) evs),
     snd (step s e) ++ snd (run (fst (step s e)) evs)).
Proof.
  unfold run. simpl. unfold step_acc at 2. cbn [fst snd].
  destruct (step s e) as [s' o']. simpl. apply run_acc.
Qed.

Lemma run_nil (s : State) : run s [] = (s, []).
Proof. reflexivity. Qed.

Lemma stopStream_active (i : Z) (p : nat) (s : State) :
  JsMap.get (activeStreams s) i = Some p ->
  step s (CallStop i) = (stop_register i p (Caller i) s, []).
Proof. intros H. simpl. unfold stopStream. now rewrite H. Qed.

(** The child a stop call leaves behind. *)
Lemma stop_register_child (i : Z) (p : nat) (w : Waiter) (s : State)
    (c : Child) :
  children s !! p = Some c -> c_exited c = false ->
  children (stop_register i p w s)
  = <[p := mkChild (c_args c)
             (c_exit_listeners c ++ [StopExit i (length (promises s))])
             (c_error_listeners c) (c_signals c ++ [SIGTERM]) false]>
      (children s).
Proof.
  intros Hc Hex. unfold stop_register, schedule, kill. simpl.
  apply list_eq. intros n. destruct (Nat.eq_dec p n) as [->|Hne].
  - rewrite !list_lookup_alter_eq, Hc.
    rewrite list_lookup_insert_eq by (apply lookup_lt_is_Some; eauto).
    simpl. unfold deliver, add_exit_listener. simpl. now rewrite Hex.
  - rewrite !list_lookup_alter_ne by assumption.
    now rewrite list_lookup_insert_ne by assumption.
Qed.

Lemma drain_snoc (s : State) (ws : list Waiter) (i : Z) :
  drain (s, ws ++ [Caller i])
  = (fst (drain (s, ws)), snd (drain (s, ws)) ++ [StopReturned i true]).
Proof.
  unfold drain. cbn [fst snd]. rewrite fold_left_app. simpl.
  destruct (fold_left resume ws (s, [])) as [s' o]. reflexivity.
Qed.

Lemma cleanups_drain (acc : State * list Waiter) :
  cleanups (fst (drain acc)) = cleanups (fst acc).
Proof. now destruct (quiet_drain acc) as (_ & H & _). Qed.

(** The exit listeners when no callback is registered: no clean-up is
    recorded and only the promises of the stop listeners are touched. *)
Lemma exit_fold_no_callback (q k : nat) (L : list ExitListener) :
  forall acc : State * list Waiter,
    cleanupCallback (fst acc) = None ->
    (forall i j, In (StopExit i j) L -> j <> k) ->
    cleanupCallback (fst (fold_left (run_exit_listener q) L acc)) = None /\
    promises (fst (fold_left (run_exit_listener q) L acc)) !! k
    = promises (fst acc) !! k /\
    cleanups (fst (fold_left (run_exit_listener q) L acc))
    = cleanups (fst acc).
Proof.
  induction L as [|l L IH]; intros [s w] Hcb HL; cbn [fold_left]; [auto|].
  assert (S : cleanupCallback (fst (run_exit_listener q (s, w) l)) = None /\
              promises (fst (run_exit_listener q (s, w) l)) !! k
              = promises s !! k /\
              cleanups (fst (run_exit_listener q (s, w) l)) = cleanups s).
  { cbn [fst] in Hcb. destruct l as [i|i j]; unfold run_exit_listener.
    - cbn [fst]. auto.
    - set (s1 := set_active (JsMap.delete (activeStreams s) i) s).
      change (cleanupCallback s1) with (cleanupCallback s). rewrite Hcb.
      destruct (resolve_frame j s1 w) as (_ & _ & _ & A & B & _).
      split; [rewrite A; exact Hcb|]. split; [|rewrite B; reflexivity].
      assert (Hj : j <> k) by (apply (HL i j); now left).
      unfold resolve. change (promises s1) with (promises s).
      destruct (promises s !! j) as [pr|]; [|reflexivity].
      destruct (p_resolved pr); [reflexivity|]. cbn [fst promises].
      simpl. now rewrite list_lookup_insert_ne by assumption. }
  destruct S as (S1 & S2 & S3).
  destruct (IH (run_exit_listener q (s, w) l) S1) as (A & B & C).
  { intros i j Hin. apply (HL i j). now right. }
  cbn [fst]. split; [exact A|]. split; congruence.
Qed.

(** The exit listeners when a callback is registered: the callback is
    invoked once per stop listener, each listener leaves one task, and no
    promise is settled. *)
Lemma exit_fold_callback (q cb : nat) (L : list ExitListener) :
  forall (s : State) (w : list Waiter),
    cleanupCallback s = Some cb ->
    snd (fold_left (run_exit_listener q) L (s, w)) = w /\
    cleanups (fst (fold_left (run_exit_listener q) L (s, w)))
    = cleanups s ++ callbacks_of q cb L /\
    promises (fst (fold_left (run_exit_listener q) L (s, w))) = promises s /\
    tasks (fst (fold_left (run_exit_listener q) L (s, w)))
    = tasks s ++ map (listener_task q) L.
Proof.
  induction L as [|l L IH]; intros s w Hcb; cbn [fold_left].
  - simpl. rewrite !app_nil_r. auto.
  - assert (S : exists s1,
      run_exit_listener q (s, w) l = (s1, w) /\
      cleanupCallback s1 = Some cb /\
      cleanups s1 = cleanups s ++ callbacks_of q cb [l] /\
      promises s1 = promises s /\
      tasks s1 = tasks s ++ [listener_task q l]).
    { destruct l as [i|i j]; unfold run_exit_listener.
      - eexists. split; [reflexivity|]. simpl. rewrite app_nil_r. auto.
      - change (cleanupCallback
                  (set_active (JsMap.delete (activeStreams s) i) s))
          with (cleanupCallback s).
        rewrite Hcb. eexists. split; [reflexivity|]. simpl. auto. }
    destruct S as (s1 & -> & Hcb1 & E1 & E2 & E3).
    destruct (IH s1 w Hcb1) as (A & B & C & D).
    rewrite A, B, C, D, E1, E2, E3.
    change (l :: L) with ([l] ++ L).
    unfold callbacks_of. rewrite flat_map_app, List.map_app.
    rewrite <- !app_assoc. auto.
Qed.

End StopFacts.

Section TimerFacts.
Import FFmpeg FileManager Storage Service Props Facts.

(** A promise keeps its waiter. *)
Lemma resolve_waiter (promise : nat) (s : State) (q : list Waiter)
    (j : nat) (p : StopPromise) :
  promises s !! j = Some p ->
  exists b, promises (fst (resolve promise (s, q))) !! j
            = Some (mkPromise b (p_waiter p)).
Proof.
  intros Hj. unfold resolve.
  assert (Same : exists b, promises s !! j = Some (mkPromise b (p_waiter p))).
  { exists (p_resolved p). rewrite Hj. now destruct p. }
  destruct (promises s !! promise) as [pr|] eqn:E; [|exact Same].
  destruct (p_resolved pr); [exact Same|].
  cbn [fst promises set_promises].
  destruct (Nat.eq_dec j promise) as [->|Hne].
  - exists true. rewrite E in Hj. injection Hj as ->.
    apply list_lookup_insert_eq, lookup_lt_is_Some. eauto.
  - rewrite list_lookup_insert_ne by congruence. exact Same.
Qed.

Lemma exit_fold_waiter (process : nat) (ls : list ExitListener) :
  forall (acc : State * list Waiter) (j : nat) (p : StopPromise),
    promises (fst acc) !! j = Some p ->
    exists b,
      promises (fst (fold_left (run_exit_listener process) ls acc)) !! j
      = Some (mkPromise b (p_waiter p)).
Proof.
  induction ls as [|l ls IH]; intros [s q] j p Hj; cbn [fold_left].
  - exists (p_resolved p). cbn [fst] in *. rewrite Hj. now destruct p.
  - assert (S1 : exists b,
              promises (fst (run_exit_listener process (s, q) l)) !! j
              = Some (mkPromise b (p_waiter p))).
    { destruct l as [i|i k]; unfold run_exit_listener.
      - exists (p_resolved p). cbn in *. rewrite Hj. now destruct p.
      - set (s1 := set_active (JsMap.delete (activeStreams s) i) s).
        destruct (cleanupCallback s1).
        + exists (p_resolved p). cbn in *. rewrite Hj. now destruct p.
        + apply resolve_waiter. exact Hj. }
    destruct S1 as (b & Hb).
    destruct (IH _ j _ Hb) as (b' & Hb'). exists b'. exact Hb'.
Qed.

Lemma drain_promises (acc : State * list Waiter) :
  promises (fst (drain acc)) = promises (fst acc).
Proof.
  rewrite drain_fold.
  destruct (grows_fold (snd acc) (fst acc, [])) as (_ & G & _). exact G.
Qed.

Lemma step_waiter (s : State) (e : Event) (j : nat) (p : StopPromise) :
  promises s !! j = Some p ->
  exists b, promises (fst (step s e)) !! j = Some (mkPromise b (p_waiter p)).
Proof.
  intros Hj.
  assert (Same : exists b, promises s !! j = Some (mkPromise b (p_waiter p))).
  { exists (p_resolved p). rewrite Hj. now destruct p. }
  destruct e as [config sp|i|cb|q|q|k|fs d]; cbn [step].
  - unfold startStream.
    destruct (JsMap.get (activeStreams s) (id config)) as [process|].
    + cbn [fst]. rewrite promises_stop_register.
      destruct Same as (b & Hb). exists b. now apply lookup_app_l_Some.
    + destruct (grows_start_resume config sp s []) as (_ & G & _).
      cbn [fst snd] in G. rewrite G. exact Same.
  - unfold stopStream.
    destruct (JsMap.get (activeStreams s) i) as [process|]; [|exact Same].
    cbn [fst]. rewrite promises_stop_register.
    destruct Same as (b & Hb). exists b. now apply lookup_app_l_Some.
  - exact Same.
  - unfold child_exit.
    destruct (children s !! q) as [c|]; [|exact Same].
    destruct (c_exited c); [exact Same|].
    rewrite drain_promises. apply exit_fold_waiter. exact Hj.
  - unfold child_error.
    destruct (children s !! q) as [c|]; [|exact Same].
    cbn [fst]. rewrite promises_error_fold. exact Same.
  - destruct (tasks s !! k) as [[t [|]]|]; try exact Same.
    destruct t as [i process promise|i|promise|process i]; cbn [run_task].
    + match goal with
      | |- context [if ?b then _ else _] => destruct b; [|exact Same]
      end.
      rewrite drain_promises. apply resolve_waiter. exact Hj.
    + exact Same.
    + rewrite drain_promises. apply resolve_waiter. exact Hj.
    + unfold auto_cleanup. cbn [fst].
      match goal with
      | |- context [getStream ?d i] => destruct (getStream d i) as [stream|]
      end; [|exact Same].
      destruct (s_videoPath stream) as [path|]; [|exact Same].
      destruct (String.eqb path ""); [exact Same|].
      match goal with
      | |- context [cleanupStreamFiles ?f i ?x] =>
          destruct (cleanupStreamFiles f i x)
      end.
      exact Same.
  - exact Same.
Qed.

Lemma exec_waiter (s : State) (evs : list Event) (j : nat) (p : StopPromise) :
  promises s !! j = Some p ->
  exists b, promises (exec s evs) !! j = Some (mkPromise b (p_waiter p)).
Proof.
  intros Hj. induction evs as [|e evs IH] using rev_ind.
  - exists (p_resolved p). change (exec s []) with s. rewrite Hj.
    now destruct p.
  - destruct IH as (b & Hb). rewrite exec_snoc.
    apply (step_waiter _ e) in Hb. exact Hb.
Qed.

(** The timer of a stop call that finds the handle. *)
Lemma force_kill_fires (s : State) (k : nat) (i : Z) (process promise : nat)
    (b : bool) :
  tasks s !! k = Some (ForceKill i process promise, false) ->
  promises s !! promise = Some (mkPromise b (Caller i)) ->
  isStreamActive s i = true ->
  isStreamActive (fst (step s (RunTask k))) i = false /\
  children (fst (step s (RunTask k)))
  = alter (deliver SIGKILL) process (children s) /\
  cleanups (fst (step s (RunTask k))) = cleanups s /\
  snd (step s (RunTask k)) = (if b then [] else [StopReturned i true]).
Proof.
  intros Hk Hp A. cbn [step]. rewrite Hk. cbn [run_task].
  unfold isStreamActive in *.
  change (activeStreams (set_tasks (<[k := (ForceKill i process promise, true)]>
                                       (tasks s)) s))
    with (activeStreams s).
  rewrite A.
  match goal with
  | |- context [resolve promise (?x, [])] => set (s2 := x)
  end.
  assert (P2 : promises s2 !! promise = Some (mkPromise b (Caller i)))
    by exact Hp.
  assert (D : JsMap.has (JsMap.delete (activeStreams s) i) i = false)
    by apply jsmap_get_has, jsmap_get_delete.
  unfold resolve. rewrite P2. cbn [p_resolved p_waiter].
  destruct b; unfold drain; cbn [fst snd fold_left resume app];
    repeat split; try reflexivity; exact D.
Qed.

(** The timer of a stop call that finds no handle does nothing. *)
Lemma force_kill_idle (s : State) (k : nat) (i : Z) (process promise : nat) :
  tasks s !! k = Some (ForceKill i process promise, false) ->
  isStreamActive s i = false ->
  step s (RunTask k)
  = (set_tasks (<[k := (ForceKill i process promise, true)]> (tasks s)) s, []).
Proof.
  intros Hk A. cbn [step]. rewrite Hk. cbn [run_task].
  unfold isStreamActive in A.
  change (activeStreams (set_tasks (<[k := (ForceKill i process promise, true)]>
                                       (tasks s)) s))
    with (activeStreams s).
  now rewrite A.
Qed.

End TimerFacts.

(** X18.  The five-second timer of a stop call does what its guard says.
    When it fires and the stream has a handle, whatever has happened since
    the call: the process of the stop call is sent SIGKILL, unless it has
    exited, the handle is removed, no clean-up runs, and the stop call, if
    it still waits, returns [true] in that turn.  When it fires and the
    stream has no handle any more, because another stop's timer, the exit
    of the process or an ['error'] event has removed it, nothing is sent,
    nothing changes and nothing is returned: a stop call that still waits
    goes on waiting.  In particular, when the timer is the very next event
    after the call and the process is alive, the process has been sent
    SIGTERM and then SIGKILL, the handle is removed and the call returns
    [true], while the process has not exited yet. *)
Theorem stop_forced_by_timer (s : Service.State) (streamId : Z)
    (process : nat) (c : Service.Child) :
  JsMap.get (Service.activeStreams s) streamId = Some process ->
  Service.children s !! process = Some c ->
  Service.c_exited c = false ->
  (snd (Service.run s [Service.CallStop streamId;
                       Service.RunTask (length (Service.tasks s))])
   = [Service.StopReturned streamId true] /\
   Service.isStreamActive
     (Service.exec s [Service.CallStop streamId;
                      Service.RunTask (length (Service.tasks s))]) streamId
   = false /\
   Service.cleanups
     (Service.exec s [Service.CallStop streamId;
                      Service.RunTask (length (Service.tasks s))])
   = Service.cleanups s /\
   Service.children
     (Service.exec s [Service.CallStop streamId;
                      Service.RunTask (length (Service.tasks s))]) !! process
   = Some (Service.mkChild (Service.c_args c)
             (Service.c_exit_listeners c
              ++ [Service.StopExit streamId (length (Service.promises s))])
             (Service.c_error_listeners c)
             (Service.c_signals c ++ [Service.SIGTERM; Service.SIGKILL])
             false)) /\
  (forall evs : list Service.Event,
     Forall (fun e => e <> Service.RunTask (length (Service.tasks s))) evs ->
     (Service.isStreamActive
        (Service.exec (fst (Service.step s (Service.CallStop streamId))) evs)
        streamId = true ->
      Service.isStreamActive
        (fst (Service.step
                (Service.exec (fst (Service.step s (Service.CallStop streamId)))
                              evs)
                (Service.RunTask (length (Service.tasks s))))) streamId
      = false /\
      Service.children
        (fst (Service.step
                (Service.exec (fst (Service.step s (Service.CallStop streamId)))
                              evs)
                (Service.RunTask (length (Service.tasks s)))))
      = alter (Service.deliver Service.SIGKILL) process
          (Service.children
             (Service.exec (fst (Service.step s (Service.CallStop streamId)))
                           evs)) /\
      Service.cleanups
        (fst (Service.step
                (Service.exec (fst (Service.step s (Service.CallStop streamId)))
                              evs)
                (Service.RunTask (length (Service.tasks s)))))
      = Service.cleanups
          (Service.exec (fst (Service.step s (Service.CallStop streamId)))
                        evs) /\
      exists settled : bool,
        Service.promises
          (Service.exec (fst (Service.step s (Service.CallStop streamId))) evs)
          !! length (Service.promises s)
        = Some (Service.mkPromise settled (Service.Caller streamId)) /\
        snd (Service.step
               (Service.exec (fst (Service.step s (Service.CallStop streamId)))
                             evs)
               (Service.RunTask (length (Service.tasks s))))
        = (if settled then [] else [Service.StopReturned streamId true])) /\
     (Service.isStreamActive
        (Service.exec (fst (Service.step s (Service.CallStop streamId))) evs)
        streamId = false ->
      snd (Service.step
             (Service.exec (fst (Service.step s (Service.CallStop streamId)))
                           evs)
             (Service.RunTask (length (Service.tasks s)))) = [] /\
      Service.children
        (fst (Service.step
                (Service.exec (fst (Service.step s (Service.CallStop streamId)))
                              evs)
                (Service.RunTask (length (Service.tasks s)))))
      = Service.children
          (Service.exec (fst (Service.step s (Service.CallStop streamId)))
                        evs) /\
      Service.activeStreams
        (fst (Service.step
                (Service.exec (fst (Service.step s (Service.CallStop streamId)))
                              evs)
                (Service.RunTask (length (Service.tasks s)))))
      = Service.activeStreams
          (Service.exec (fst (Service.step s (Service.CallStop streamId)))
                        evs) /\
      Service.promises
        (fst (Service.step
                (Service.exec (fst (Service.step s (Service.CallStop streamId)))
                              evs)
                (Service.RunTask (length (Service.tasks s)))))
      = Service.promises
          (Service.exec (fst (Service.step s (Service.CallStop streamId)))
                        evs) /\
      Service.cleanups
        (fst (Service.step
                (Service.exec (fst (Service.step s (Service.CallStop streamId)))
                              evs)
                (Service.RunTask (length (Service.tasks s)))))
      = Service.cleanups
          (Service.exec (fst (Service.step s (Service.CallStop streamId)))
                        evs))).
Proof.
  intros Hget Hc Hex. split.
  - unfold Service.exec.
    rewrite run_cons, (stopStream_active _ _ _ Hget). cbn [fst snd].
    rewrite run_cons, run_nil. cbn [fst snd]. rewrite app_nil_r.
    pose proof (stop_register_child streamId process
                  (Service.Caller streamId) s c Hc Hex) as Hch.
    set (s1 := Service.stop_register streamId process
                 (Service.Caller streamId) s) in *.
    assert (Ht : Service.tasks s1 !! length (Service.tasks s)
                 = Some (Service.ForceKill streamId process
                           (length (Service.promises s)), false)).
    { unfold s1, Service.stop_register, Service.schedule. simpl.
      rewrite lookup_app_r by lia. now rewrite Nat.sub_diag. }
    cbn [Service.step]. rewrite Ht.
    set (s2 := Service.set_tasks _ s1).
    unfold Service.run_task.
    assert (Hhas : JsMap.has (Service.activeStreams s2) streamId = true).
    { unfold JsMap.has. change (Service.activeStreams s2)
        with (Service.activeStreams s). now rewrite Hget. }
    rewrite Hhas.
    set (s4 := Service.set_active _ (Service.kill process Service.SIGKILL s2)).
    assert (Hp : Service.promises s4 !! length (Service.promises s)
                 = Some (Service.mkPromise false (Service.Caller streamId))).
    { change (Service.promises s4)
        with (Service.promises s
              ++ [Service.mkPromise false (Service.Caller streamId)]).
      rewrite lookup_app_r by lia. now rewrite Nat.sub_diag. }
    unfold Service.resolve. rewrite Hp.
    cbn [Service.p_resolved Service.p_waiter].
    unfold Service.drain. cbn [fst snd fold_left Service.resume app].
    split; [reflexivity|]. split; [|split].
    + unfold Service.isStreamActive.
      change (JsMap.has
                (JsMap.delete (Service.activeStreams s) streamId) streamId
              = false).
      apply jsmap_get_has, jsmap_get_delete.
    + reflexivity.
    + change (alter (Service.deliver Service.SIGKILL) process
                (Service.children s1) !! process = Some
                (Service.mkChild (Service.c_args c)
                   (Service.c_exit_listeners c
                    ++ [Service.StopExit streamId
                          (length (Service.promises s))])
                   (Service.c_error_listeners c)
                   (Service.c_signals c ++ [Service.SIGTERM; Service.SIGKILL])
                   false)).
      rewrite list_lookup_alter_eq, Hch.
      rewrite list_lookup_insert_eq by (apply lookup_lt_is_Some; eauto).
      simpl. unfold Service.deliver. simpl. now rewrite <- app_assoc.
  - intros evs Hev.
    rewrite (stopStream_active _ _ _ Hget). cbn [fst].
    destruct (pending_stop_register streamId process
                (Service.Caller streamId) s) as (P1 & P2 & _).
    set (s1 := Service.stop_register streamId process
                 (Service.Caller streamId) s) in *.
    pose proof (exec_keeps_task s1 evs _ _ P2 Hev) as Ht.
    destruct (exec_waiter s1 evs _ _ P1) as (b & Hb).
    cbn [Service.p_waiter] in Hb.
    set (s2 := Service.exec s1 evs) in *.
    split.
    + intros A.
      destruct (force_kill_fires s2 _ _ _ _ b Ht Hb A) as (F1 & F2 & F3 & F4).
      split; [exact F1|]. split; [exact F2|]. split; [exact F3|].
      exists b. split; [exact Hb | exact F4].
    + intros A. rewrite (force_kill_idle s2 _ _ _ _ Ht A).
      repeat split; reflexivity.
Qed.

Lemma stop_forced_by_timer_witness :
  snd (Service.run (Service.exec Scenario.fresh Scenario.started)
         [Service.CallStop 7; Service.RunTask 1])
  = [Service.StopReturned 7 true].
Proof.
  apply (proj1 (stop_forced_by_timer
                  (Service.exec Scenario.fresh Scenario.started) 7 0%nat
                  (Service.mkChild (FFmpeg.buildFFmpegArgs Scenario.cfg7)
                     [Service.StartExit 7] [7] [] false)
                  eq_refl eq_refl eq_refl)).
Defined.

(** X16.  With no callback registered, a stop call on an active stream
    followed by the exit of its encoder: the handle is that of a live
    process, the exit event settles the promise of the stop call, and the
    stop call is the last to return in that turn, with [true]; no clean-up
    callback has been recorded. *)
Theorem stop_returns_on_exit (s : Service.State) (streamId : Z)
    (process : nat) :
  Props.reachable s ->
  JsMap.get (Service.activeStreams s) streamId = Some process ->
  Service.cleanupCallback s = None ->
  Service.has_exited process s = false /\
  snd (Service.step s (Service.CallStop streamId)) = [] /\
  (exists earlier : list Service.Output,
     snd (Service.run s [Service.CallStop streamId;
                         Service.ChildExit process])
     = earlier ++ [Service.StopReturned streamId true]) /\
  Service.cleanups
    (Service.exec s [Service.CallStop streamId; Service.ChildExit process])
  = Service.cleanups s.
Proof.
  intros Hr Hget Hcb.
  destruct (reachable_hinv s Hr) as (H1 & H2).
  destruct (H1 streamId process Hget) as (c & Hc & Hex & Hin).
  split; [unfold Service.has_exited; now rewrite Hc|].
  rewrite (stopStream_active _ _ _ Hget). split; [reflexivity|].
  unfold Service.exec.
  rewrite run_cons, (stopStream_active _ _ _ Hget). cbn [fst snd].
  rewrite run_cons, run_nil. cbn [fst snd]. rewrite app_nil_r.
  pose proof (stop_register_child streamId process
                (Service.Caller streamId) s c Hc Hex) as Hch.
  set (s1 := Service.stop_register streamId process
               (Service.Caller streamId) s) in *.
  set (k := length (Service.promises s)) in *.
  set (c1 := Service.mkChild (Service.c_args c)
               (Service.c_exit_listeners c ++ [Service.StopExit streamId k])
               (Service.c_error_listeners c)
               (Service.c_signals c ++ [Service.SIGTERM]) false) in *.
  assert (Hc1 : Service.children s1 !! process = Some c1).
  { rewrite Hch. apply list_lookup_insert_eq, lookup_lt_is_Some. eauto. }
  cbn [Service.step]. unfold Service.child_exit. rewrite Hc1.
  cbn [Service.c_exited c1 Service.c_exit_listeners].
  rewrite fold_left_app. cbn [fold_left].
  set (s1' := Service.set_children _ s1).
  destruct (exit_fold_no_callback process k (Service.c_exit_listeners c)
              (s1', []))
    as (A & B & C).
  { exact Hcb. }
  { intros i j Hj. specialize (H2 process c i j Hc Hj). unfold k. lia. }
  destruct (fold_left (Service.run_exit_listener process)
              (Service.c_exit_listeners c) (s1', [])) as [sA wA].
  cbn [fst] in A, B, C.
  unfold Service.run_exit_listener.
  set (sA' := Service.set_active _ sA).
  change (Service.cleanupCallback sA') with (Service.cleanupCallback sA).
  rewrite A.
  assert (Hp : Service.promises sA' !! k
               = Some (Service.mkPromise false (Service.Caller streamId))).
  { change (Service.promises sA') with (Service.promises sA). rewrite B.
    change (Service.promises s1')
      with (Service.promises s
            ++ [Service.mkPromise false (Service.Caller streamId)]).
    unfold k. rewrite lookup_app_r by lia. now rewrite Nat.sub_diag. }
  unfold Service.resolve. rewrite Hp.
  cbn [Service.p_resolved Service.p_waiter].
  rewrite drain_snoc. cbn [fst snd]. split.
  - eexists. reflexivity.
  - rewrite cleanups_drain. cbn [fst]. exact C.
Qed.

Lemma stop_returns_on_exit_witness :
  Props.reachable (Service.exec Scenario.fresh Scenario.started) /\
  exists earlier : list Service.Output,
    snd (Service.run (Service.exec Scenario.fresh Scenario.started)
           [Service.CallStop 7; Service.ChildExit 0])
    = earlier ++ [Service.StopReturned 7 true].
Proof.
  assert (R : Props.reachable (Service.exec Scenario.fresh Scenario.started)).
  { exists Scenario.fs7, Scenario.db7, Scenario.started. reflexivity. }
  split; [exact R|].
  apply (stop_returns_on_exit (Service.exec Scenario.fresh Scenario.started)
           7 0%nat R); reflexivity.
Defined.

(** X17.  With a callback registered, the exit of the encoder does not
    return the stop call: the exit event invokes the callback once for
    each stop listener of the process, in the order of registration and
    last for this call, and the stop call returns [true] only when the
    continuation after the callback runs. *)
Theorem stop_waits_for_callback (s : Service.State) (streamId : Z)
    (process callback : nat) :
  Props.reachable s ->
  JsMap.get (Service.activeStreams s) streamId = Some process ->
  Service.cleanupCallback s = Some callback ->
  exists c : Service.Child,
    Service.children s !! process = Some c /\
    snd (Service.run s [Service.CallStop streamId; Service.ChildExit process])
    = [] /\
    Service.cleanups
      (Service.exec s [Service.CallStop streamId; Service.ChildExit process])
    = Service.cleanups s
      ++ Facts.callbacks_of process callback (Service.c_exit_listeners c)
      ++ [Service.CallbackInvoked process streamId callback] /\
    snd (Service.run s
           [Service.CallStop streamId; Service.ChildExit process;
            Service.RunTask (length (Service.tasks s) + 1
                             + length (Service.c_exit_listeners c))])
    = [Service.StopReturned streamId true].
Proof.
  intros Hr Hget Hcb.
  destruct (reachable_hinv s Hr) as (H1 & H2).
  destruct (H1 streamId process Hget) as (c & Hc & Hex & Hin).
  exists c. split; [exact Hc|].
  unfold Service.exec.
  rewrite !run_cons, !(stopStream_active _ _ _ Hget). cbn [fst snd].
  rewrite !run_nil. cbn [fst snd]. rewrite !app_nil_r.
  pose proof (stop_register_child streamId process
                (Service.Caller streamId) s c Hc Hex) as Hch.
  set (s1 := Service.stop_register streamId process
               (Service.Caller streamId) s) in *.
  set (k := length (Service.promises s)) in *.
  set (c1 := Service.mkChild (Service.c_args c)
               (Service.c_exit_listeners c ++ [Service.StopExit streamId k])
               (Service.c_error_listeners c)
               (Service.c_signals c ++ [Service.SIGTERM]) false) in *.
  assert (Hc1 : Service.children s1 !! process = Some c1).
  { rewrite Hch. apply list_lookup_insert_eq, lookup_lt_is_Some. eauto. }
  assert (E : Service.step s1 (Service.ChildExit process)
              = (fst (fold_left (Service.run_exit_listener process)
                        (Service.c_exit_listeners c1)
                        (Service.set_children
                           (<[process := Service.mark_exited c1]>
                              (Service.children s1)) s1, [])), [])).
  { cbn [Service.step]. unfold Service.child_exit. rewrite Hc1.
    cbn [Service.c_exited c1].
    match goal with |- Service.drain (fold_left _ ?L (?s0, [])) = _ =>
      destruct (exit_fold_callback process callback L s0 []) as (A & _);
        [exact Hcb|] end.
    unfold Service.drain. rewrite A. reflexivity. }
  rewrite E. cbn [fst snd].
  match type of E with _ = (fst (fold_left _ ?L (?s0, [])), []) =>
    destruct (exit_fold_callback process callback L s0 [])
      as (_ & B & C & D); [exact Hcb|];
    set (s2 := fst (fold_left (Service.run_exit_listener process) L
                      (s0, []))) in * end.
  split; [reflexivity|]. split.
  - rewrite B. cbn [Service.c_exit_listeners c1].
    unfold Facts.callbacks_of. rewrite flat_map_app. reflexivity.
  - cbn [app].
    assert (Ht : Service.tasks s2
                 !! (length (Service.tasks s) + 1
                     + length (Service.c_exit_listeners c))%nat
                 = Some (Service.CallbackSettled k, false)).
    { rewrite D. cbn [Service.c_exit_listeners c1].
      rewrite List.map_app.
      change (Service.tasks
                (Service.set_children
                   (<[process := Service.mark_exited c1]>
                      (Service.children s1)) s1))
        with (Service.tasks s
              ++ [(Service.ForceKill streamId process k, false)]).
      rewrite app_assoc.
      rewrite lookup_app_r
        by (rewrite !length_app, length_map; simpl; lia).
      rewrite !length_app, length_map. cbn [length].
      replace (length (Service.tasks s) + 1
               + length (Service.c_exit_listeners c)
               - (length (Service.tasks s) + 1
                  + length (Service.c_exit_listeners c)))%nat
        with 0%nat by lia.
      reflexivity. }
    cbn [Service.step]. rewrite Ht. unfold Service.run_task.
    set (s3 := Service.set_tasks _ s2).
    assert (Hp : Service.promises s3 !! k
                 = Some (Service.mkPromise false (Service.Caller streamId))).
    { change (Service.promises s3) with (Service.promises s2). rewrite C.
      change (Service.promises
                (Service.set_children
                   (<[process := Service.mark_exited c1]>
                      (Service.children s1)) s1))
        with (Service.promises s
              ++ [Service.mkPromise false (Service.Caller streamId)]).
      unfold k. rewrite lookup_app_r by lia. now rewrite Nat.sub_diag. }
    unfold Service.resolve. rewrite Hp.
    cbn [Service.p_resolved Service.p_waiter].
    reflexivity.
Qed.

Lemma stop_waits_for_callback_witness :
  Props.reachable
    (Service.exec Scenario.fresh
       (Service.CallSetCleanupCallback 0 :: Scenario.started)) /\
  exists c : Service.Child,
    Service.children
      (Service.exec Scenario.fresh
         (Service.CallSetCleanupCallback 0 :: Scenario.started)) !! 0%nat
    = Some c /\
    snd (Service.run
           (Service.exec Scenario.fresh
              (Service.CallSetCleanupCallback 0 :: Scenario.started))
           [Service.CallStop 7; Service.ChildExit 0])
    = [].
Proof.
  assert (R : Props.reachable
                (Service.exec Scenario.fresh
                   (Service.CallSetCleanupCallback 0 :: Scenario.started))).
  { exists Scenario.fs7, Scenario.db7,
      (Service.CallSetCleanupCallback 0 :: Scenario.started). reflexivity. }
  split; [exact R|].
  destruct (stop_waits_for_callback
              (Service.exec Scenario.fresh
                 (Service.CallSetCleanupCallback 0 :: Scenario.started))
              7 0%nat 0%nat R eq_refl eq_refl) as (c & Hc & Ho & _).
  exists c. split; [exact Hc | exact Ho].
Defined.

(** ** The error event and the clean-up of the start listener *)

Section ErrorFacts.
Import Service.

Lemma error_fold (l : list Z) :
  forall s : State,
    (forall i, In i l ->
       JsMap.get (activeStreams (fold_left run_error_listener l s)) i = None) /\
    (forall k, ~ In k l ->
       JsMap.get (activeStreams (fold_left run_error_listener l s)) k
       = JsMap.get (activeStreams s) k) /\
    (forall k p,
       JsMap.get (activeStreams (fold_left run_error_listener l s)) k = Some p ->
       JsMap.get (activeStreams s) k = Some p) /\
    set_active (activeStreams s) (fold_left run_error_listener l s) = s.
Proof.
  induction l as [|i l IH]; intros s; cbn [fold_left].
  - split; [intros i []|]. split; [auto|]. split; [auto|]. now destruct s.
  - destruct (IH (run_error_listener s i)) as (A & B & C & D).
    assert (G : forall k p,
      JsMap.get (activeStreams (fold_left run_error_listener l
                                  (run_error_listener s i))) k = Some p ->
      JsMap.get (activeStreams s) k = Some p /\ k <> i).
    { intros k p H. apply C in H. unfold run_error_listener in H.
      simpl in H. rewrite jsmap_get_delete_other in H.
      destruct (Z.eqb_spec k i); [discriminate | auto]. }
    split; [|split; [|split]].
    + intros k [->|Hin]; [|now apply A].
      destruct (JsMap.get (activeStreams (fold_left run_error_listener l
                                            (run_error_listener s k))) k)
        as [p|] eqn:E; [|reflexivity].
      apply G in E. destruct E as (_ & E). congruence.
    + intros k Hk. rewrite B by (intros H; apply Hk; now right).
      unfold run_error_listener. simpl. rewrite jsmap_get_delete_other.
      destruct (Z.eqb_spec k i) as [->|]; [|reflexivity].
      exfalso. apply Hk. now left.
    + intros k p H. now apply G in H.
    + apply (f_equal (set_active (activeStreams s))) in D.
      simpl in D. destruct s. exact D.
Qed.

End ErrorFacts.

(** X19.  The ['error'] event of a process removes the handle of each
    stream whose start call registered a listener on it, and that is all:
    the other handles stay, no process is marked or signalled, no task is
    scheduled, no clean-up runs, no file and no stored record is touched,
    no promise is settled and no call returns. *)
Theorem child_error_effect (s : Service.State) (process : nat)
    (c : Service.Child) :
  Service.children s !! process = Some c ->
  snd (Service.step s (Service.ChildError process)) = [] /\
  (forall streamId : Z,
     In streamId (Service.c_error_listeners c) ->
     Service.isStreamActive
       (fst (Service.step s (Service.ChildError process))) streamId = false) /\
  (forall other : Z,
     ~ In other (Service.c_error_listeners c) ->
     JsMap.get
       (Service.activeStreams
          (fst (Service.step s (Service.ChildError process)))) other
     = JsMap.get (Service.activeStreams s) other) /\
  Service.set_active (Service.activeStreams s)
    (fst (Service.step s (Service.ChildError process))) = s.
Proof.
  intros Hc. cbn [Service.step]. unfold Service.child_error. rewrite Hc.
  cbn [fst snd].
  destruct (error_fold (Service.c_error_listeners c) s) as (A & B & _ & D).
  split; [reflexivity|]. split; [|split; assumption].
  intros i Hi. unfold Service.isStreamActive. apply jsmap_get_has. now apply A.
Qed.

Lemma child_error_effect_witness :
  Service.children (Service.exec Scenario.fresh Scenario.started) !! 0%nat
  = Some (Service.mkChild (FFmpeg.buildFFmpegArgs Scenario.cfg7)
            [Service.StartExit 7] [7] [] false) /\
  Service.isStreamActive
    (fst (Service.step (Service.exec Scenario.fresh Scenario.started)
            (Service.ChildError 0))) 7 = false.
Proof.
  split; [reflexivity|].
  apply (proj1 (proj2 (child_error_effect
                         (Service.exec Scenario.fresh Scenario.started) 0%nat
                         (Service.mkChild
                            (FFmpeg.buildFFmpegArgs Scenario.cfg7)
                            [Service.StartExit 7] [7] [] false) eq_refl))).
  simpl. now left.
Defined.

(** X20.  The clean-up of the start listener.  When the stored record of
    the stream has a video path, the file of that path is deleted if it is
    a regular file, no other path is touched, the record loses its path and
    is marked inactive, the other records and all statistics are left
    alone, and one clean-up is recorded; a second clean-up for the stream
    then changes nothing.  When the record is missing or has no video
    path, nothing changes at all. *)
Theorem auto_cleanup_effect (s : Service.State) (process : nat)
    (config_id : Z) :
  (forall (stream : Storage.Stream) (path : string),
     Storage.getStream (Service.db s) config_id = Some stream ->
     Storage.s_videoPath stream = Some path -> path <> ""%string ->
     let s' := Service.auto_cleanup process config_id s in
     (exists updated : Storage.Stream,
        Storage.getStream (Service.db s') config_id = Some updated /\
        Storage.s_videoPath updated = None /\
        Storage.s_isActive updated = Some false /\
        Storage.s_streamKey updated = Storage.s_streamKey stream /\
        Storage.s_name updated = Storage.s_name stream) /\
     Service.files s'
     = (if Facts.is_regular (Service.files s) path
        then delete path (Service.files s) else Service.files s) /\
     (forall other : Z,
        other <> config_id ->
        Storage.getStream (Service.db s') other
        = Storage.getStream (Service.db s) other) /\
     Storage.streamStats (Service.db s') = Storage.streamStats (Service.db s) /\
     Service.cleanups s'
     = Service.cleanups s
       ++ [Service.AutoCleanupTriggered process config_id path] /\
     Service.activeStreams s' = Service.activeStreams s /\
     Service.children s' = Service.children s /\
     (forall process' : nat,
        Service.auto_cleanup process' config_id s' = s')) /\
  (Storage.getStream (Service.db s) config_id = None
   \/ (exists stream : Storage.Stream,
         Storage.getStream (Service.db s) config_id = Some stream /\
         (Storage.s_videoPath stream = None
          \/ Storage.s_videoPath stream = Some ""%string)) ->
   Service.auto_cleanup process config_id s = s).
Proof.
  split.
  - intros stream path Hs Hp Hne s'.
    assert (E : s' = Service.add_cleanup
                       (Service.AutoCleanupTriggered process config_id path)
                       (Service.set_world
                          (fst (FileManager.deleteFile (Service.files s) path))
                          (fst (Storage.updateStream (Service.db s) config_id
                                  (Storage.mkStreamUpdates (Some None)
                                     (Some false)))) s)).
    { unfold s', Service.auto_cleanup. rewrite Hs, Hp.
      destruct (String.eqb_spec path ""); [contradiction|].
      unfold FileManager.cleanupStreamFiles.
      destruct (String.eqb_spec path ""); [contradiction|].
      destruct (FileManager.deleteFile (Service.files s) path). reflexivity. }
    assert (U : Storage.updateStream (Service.db s) config_id
                  (Storage.mkStreamUpdates (Some None) (Some false))
                = (Storage.mkStorage
                     (<[config_id :=
                          Storage.spread_stream stream
                            (Storage.mkStreamUpdates (Some None) (Some false))]>
                        (Storage.streams (Service.db s)))
                     (Storage.streamStats (Service.db s)),
                   Some (Storage.spread_stream stream
                           (Storage.mkStreamUpdates (Some None)
                              (Some false))))).
    { unfold Storage.updateStream. unfold Storage.getStream in Hs.
      now rewrite Hs. }
    rewrite U in E. cbn [fst] in E.
    assert (G : Storage.getStream (Service.db s') config_id
                = Some (Storage.spread_stream stream
                          (Storage.mkStreamUpdates (Some None) (Some false)))).
    { rewrite E. unfold Storage.getStream. simpl. apply lookup_insert_eq. }
    split; [|split; [|split; [|split; [|split; [|split; [|split]]]]]].
    + eexists. split; [exact G|]. repeat split; reflexivity.
    + rewrite E. cbn [Service.files Service.add_cleanup Service.set_world].
      unfold Facts.is_regular.
      destruct (Service.files s !! path) as [[]|] eqn:F.
      * now rewrite (deleteFile_file _ _ F).
      * now rewrite (deleteFile_directory _ _ F).
      * now rewrite (deleteFile_missing _ _ F).
    + intros other Ho. rewrite E. unfold Storage.getStream. simpl.
      apply lookup_insert_ne. congruence.
    + rewrite E. reflexivity.
    + rewrite E. reflexivity.
    + rewrite E. reflexivity.
    + rewrite E. reflexivity.
    + intros process'. unfold Service.auto_cleanup at 1. now rewrite G.
  - intros [H | (stream & H & [Hp|Hp])]; unfold Service.auto_cleanup;
      rewrite H; try reflexivity; now rewrite Hp.
Qed.

Lemma auto_cleanup_effect_witness :
  Storage.getStream (Service.db Scenario.fresh) 7 = Some Scenario.stream7 /\
  Storage.s_videoPath Scenario.stream7 = Some Scenario.video /\
  Scenario.video <> ""%string /\
  Service.files (Service.auto_cleanup 0 7 Scenario.fresh)
  = (if Facts.is_regular (Service.files Scenario.fresh) Scenario.video
     then delete Scenario.video (Service.files Scenario.fresh)
     else Service.files Scenario.fresh).
Proof.
  split; [reflexivity|]. split; [reflexivity|]. split; [discriminate|].
  apply (proj1 (auto_cleanup_effect Scenario.fresh 0%nat 7)
           Scenario.stream7 Scenario.video); [reflexivity | reflexivity |].
  discriminate.
Defined.

(** ** [path.basename] and the stored file name *)

Section BasenameFacts.
Import Path Props Facts.

Lemma is_slash_eq (c : ascii) : is_slash c = true -> c = CHAR_FORWARD_SLASH.
Proof. unfold is_slash. intros H. now apply Ascii.eqb_eq in H. Qed.

Lemma all_plain_slashless (l : list ascii) : all_plain l -> Forall (fun c => is_slash c = false) l.
Proof.
  intros H. eapply List.Forall_impl; [|exact H].
  intros c Hc. now apply plain_not_slash.
Qed.

Lemma slashless_no_slash (l : list ascii) :
  Forall (fun c => is_slash c = false) l -> forallb (fun c => negb (is_slash c)) l = true.
Proof.
  induction 1 as [|c l Hc Hl IH]; simpl; [reflexivity|].
  now rewrite Hc, IH.
Qed.

(** A run without separators that is followed by a separator is at least
    as long as any run without separators that starts at the same place. *)
Lemma run_length_le {A : Type} (P : A -> Prop) (l1 : list A) :
  forall (l2 r1 r2 : list A) (a : A),
    l2 ++ r2 = l1 ++ a :: r1 -> Forall P l2 -> ~ P a ->
    (length l2 <= length l1)%nat.
Proof.
  induction l1 as [|x l1 IH]; intros l2 r1 r2 a E H2 Ha.
  - destruct l2 as [|y l2]; [simpl; lia|]. simpl in E. inversion E; subst.
    inversion H2; subst. contradiction.
  - destruct l2 as [|y l2]; [simpl; lia|]. simpl in E. inversion E; subst.
    inversion H2; subst. simpl.
    assert ((length l2 <= length l1)%nat); [|lia].
    eapply IH; eauto.
Qed.

Lemma slice_chars_prefix (front comp rest : list ascii) (m : Z) :
  0 <= m <= Z.of_nat (length comp) ->
  Js.slice_chars (front ++ comp ++ rest) (Z.of_nat (length front))
                 (Z.of_nat (length front) + m)
  = take (Z.to_nat m) comp.
Proof.
  intros Hm. unfold Js.slice_chars.
  replace (Z.to_nat (Z.of_nat (length front) + m - Z.of_nat (length front)))
    with (Z.to_nat m) by lia.
  rewrite Nat2Z.id, drop_app_length.
  apply take_app_le. lia.
Qed.

Lemma ext_loop_skip (sl : list ascii) :
  forall rs i st,
    Forall (fun c => is_slash c = true) sl -> matchedSlash st = true ->
    ext_loop (sl ++ rs) i st = ext_loop rs (i - Z.of_nat (length sl)) st.
Proof.
  induction sl as [|c sl IH]; intros rs i st Hs Hm.
  - simpl. f_equal. lia.
  - inversion Hs; subst. simpl app. simpl ext_loop.
    match goal with H : is_slash c = true |- _ => rewrite H end.
    rewrite Hm. simpl negb. cbv iota. rewrite IH by assumption.
    f_equal. cbn [length]. lia.
Qed.

(** The end found by [extname] is the end of the last component. *)
Lemma ext_end_component (front sl : list ascii) (b : ascii) :
  is_slash b = false -> Forall (fun c => is_slash c = true) sl ->
  end_ (ext_loop (rev (front ++ b :: sl))
          (Z.of_nat (length (front ++ b :: sl)) - 1) ext_init)
  = Z.of_nat (length front) + 1.
Proof.
  intros Hb Hs.
  assert (R : rev (front ++ b :: sl) = rev sl ++ b :: rev front).
  { rewrite rev_app_distr. simpl. now rewrite <- app_assoc. }
  rewrite R, ext_loop_skip;
    [|apply List.Forall_rev, Hs | reflexivity].
  rewrite ext_loop_cons by assumption.
  rewrite length_app, length_rev. cbn [length].
  replace (Z.of_nat (length front + S (length sl)) - 1
           - Z.of_nat (length sl)) with (Z.of_nat (length front)) by lia.
  assert (E : end_ (ext_visit b (Z.of_nat (length front)) ext_init)
              = Z.of_nat (length front) + 1).
  { unfold ext_visit, ext_init. simpl. destruct (is_dot b); reflexivity. }
  rewrite ext_end_stable; [exact E|]. rewrite E. lia.
Qed.

(** The extension lies within the last component of the path. *)
Lemma extname_in_component (front comp sl : list ascii) :
  comp <> [] -> Forall (fun c => is_slash c = false) comp -> Forall (fun c => is_slash c = true) sl ->
  (front = [] \/ exists f, front = f ++ [CHAR_FORWARD_SLASH]) ->
  extname_chars (front ++ comp ++ sl) = []
  \/ exists e,
       extname_chars (front ++ comp ++ sl) = CHAR_DOT :: e /\
       all_plain e /\ (length (CHAR_DOT :: e) <= length comp)%nat.
Proof.
  intros Hne Hc Hs Hf.
  set (cs := front ++ comp ++ sl).
  unfold extname_chars, ext_result.
  set (F := ext_loop (rev cs) (Z.of_nat (length cs) - 1) ext_init).
  destruct (Z.eqb_spec (startDot F) (-1)) as [Hsd|Hsd]; [left; reflexivity|].
  match goal with |- context [if ?c then _ else _] =>
    destruct c; [left; reflexivity | right] end.
  destruct (ext_loop_inv (rev cs) [] ext_init) as
    (pre & e & tail & E0 & E1 & E2 & E3).
  { apply scan_inv_init. }
  { rewrite length_rev. exact Hsd. }
  rewrite length_rev in E1, E2. fold F in E1, E2.
  rewrite rev_involutive, app_nil_r in E0.
  destruct (List.exists_last Hne) as (comp' & b & Hcomp).
  assert (Hb : is_slash b = false).
  { rewrite Hcomp in Hc. apply Forall_app in Hc. destruct Hc as (_ & Hc).
    now inversion Hc. }
  assert (Ecs : cs = (front ++ comp') ++ b :: sl).
  { unfold cs. rewrite Hcomp, <- !app_assoc. reflexivity. }
  pose proof (ext_end_component (front ++ comp') sl b Hb Hs) as L.
  rewrite <- Ecs in L. fold F in L.
  assert (Hlen : length (pre ++ CHAR_DOT :: e) = length (front ++ comp)).
  { rewrite Hcomp, !length_app in *. cbn [length] in *. lia. }
  assert (Esplit : pre ++ CHAR_DOT :: e = front ++ comp /\ tail = sl).
  { apply app_inj_1; [exact Hlen|].
    rewrite <- !app_assoc. simpl. unfold cs in E0. now rewrite <- E0. }
  destruct Esplit as (Epc & _).
  exists e. split; [|split; [exact E3|]].
  - rewrite E1, E2, E0.
    replace (pre ++ CHAR_DOT :: e ++ tail)
      with (pre ++ (CHAR_DOT :: e) ++ tail) by reflexivity.
    apply slice_chars_middle.
  - destruct Hf as [->|(f & ->)].
    + simpl in Epc. rewrite <- Epc, length_app. lia.
    + apply (f_equal (@rev ascii)) in Epc.
      rewrite !rev_app_distr in Epc. simpl rev at 3 in Epc.
      simpl app at 3 in Epc.
      rewrite <- (length_rev (CHAR_DOT :: e)), <- (length_rev comp).
      eapply (run_length_le (fun c => is_slash c = false)).
      * exact Epc.
      * apply List.Forall_rev. constructor; [reflexivity|].
        now apply all_plain_slashless.
      * discriminate.
Qed.

Lemma base_visit_inv (suffix : list ascii) (st : BaseScan)
    (done : list ascii) (k : nat) (c : ascii) :
  1 <= Z.of_nat (length suffix) -> is_slash c = false ->
  base_inv (Z.of_nat (length suffix)) st done (S k) ->
  base_inv (Z.of_nat (length suffix)) (base_visit suffix c (Z.of_nat k) st)
           (c :: done) k.
Proof.
  intros Hlen Hc (I1 & I2 & I3). unfold base_visit.
  destruct (Z.eqb_spec (firstNonSlashEnd st) (-1)) as [Hf|Hf].
  - destruct (I2 Hf) as (M & E & X & D).
    cbn [b_start b_end b_matchedSlash extIdx firstNonSlashEnd].
    rewrite X.
    destruct (Z.leb_spec 0 (Z.of_nat (length suffix) - 1)) as [_|]; [|lia].
    assert (G : forall st',
      b_start st' = 0 -> b_matchedSlash st' = false ->
      firstNonSlashEnd st' = Z.of_nat k + 1 ->
      (b_end st' = -1 ->
         extIdx st' = Z.of_nat (length suffix) - 1 - 1 /\ 0 <= extIdx st') ->
      (b_end st' <> -1 ->
         extIdx st' = -1 /\ Z.of_nat k <= b_end st' <= Z.of_nat k + 1) ->
      base_inv (Z.of_nat (length suffix)) st' (c :: done) k).
    { intros st' G1 G2 G3 G4 G5. split; [exact G1|]. split; [intros; lia|].
      intros _. split; [exact G2|]. exists [c], done.
      split; [reflexivity|]. split; [discriminate|].
      split; [now constructor|]. split; [exact D|].
      cbn [length]. split; [lia|]. split.
      - intros H. destruct (G4 H). split; lia.
      - intros H. destruct (G5 H). split; lia. }
    destruct (bool_decide _).
    + destruct (Z.eqb_spec (Z.of_nat (length suffix) - 1 - 1) (-1)).
      * apply G; cbn; try auto; try lia.
      * apply G; cbn; try auto; try lia.
    + apply G; cbn; try auto; try lia.
  - destruct (I3 Hf) as (M & comp & sl & -> & Hne & Hcomp & Hsl & F & A & B).
    assert (G : forall st',
      b_start st' = 0 -> b_matchedSlash st' = false ->
      firstNonSlashEnd st' = firstNonSlashEnd st ->
      (b_end st' = -1 ->
         extIdx st' = Z.of_nat (length suffix) - 1
                      - Z.of_nat (S (length comp)) /\ 0 <= extIdx st') ->
      (b_end st' <> -1 ->
         extIdx st' = -1
         /\ Z.of_nat k <= b_end st' <= Z.of_nat (k + S (length comp))) ->
      base_inv (Z.of_nat (length suffix)) st' (c :: comp ++ sl) k).
    { intros st' G1 G2 G3 G4 G5. split; [exact G1|].
      split; [intros; congruence|].
      intros _. split; [exact G2|]. exists (c :: comp), sl.
      split; [reflexivity|]. split; [discriminate|].
      split; [now constructor|]. split; [exact Hsl|].
      cbn [length]. split; [rewrite G3, F; lia|]. split; assumption. }
    destruct (Z.eq_dec (b_end st) (-1)) as [He|He].
    + destruct (A He) as (A1 & A2).
      destruct (Z.leb_spec 0 (extIdx st)) as [_|]; [|lia].
      destruct (bool_decide _).
      * destruct (Z.eqb_spec (extIdx st - 1) (-1)).
        -- apply G; cbn; try auto; try lia.
        -- apply G; cbn; try auto; try lia.
      * apply G; cbn; try auto; try lia.
    + destruct (B He) as (B1 & B2).
      destruct (Z.leb_spec 0 (extIdx st)) as [|_]; [lia|].
      apply G; auto; try lia; try (intros; contradiction).
Qed.

(** What [basename] with a suffix has found at the end of its scan. *)
Lemma base_suffix_result (suffix : list ascii) (rs : list ascii) :
  forall (done : list ascii) (st : BaseScan),
    1 <= Z.of_nat (length suffix) ->
    base_inv (Z.of_nat (length suffix)) st done (length rs) ->
    let F := base_loop_suffix suffix rs (Z.of_nat (length rs) - 1) st in
    Forall (fun c => is_slash c = true) (rev rs ++ done)
    \/ exists front comp sl,
         rev rs ++ done = front ++ comp ++ sl /\
         comp <> [] /\ Forall (fun c => is_slash c = false) comp /\ Forall (fun c => is_slash c = true) sl /\
         (front = [] \/ exists f, front = f ++ [CHAR_FORWARD_SLASH]) /\
         b_start F = Z.of_nat (length front) /\
         firstNonSlashEnd F = Z.of_nat (length front + length comp) /\
         (b_end F = -1 ->
          Z.of_nat (length comp) <= Z.of_nat (length suffix) - 1) /\
         (b_end F <> -1 ->
          Z.of_nat (length front) <= b_end F
          <= Z.of_nat (length front + length comp)).
Proof.
  induction rs as [|c rs IH]; intros done st Hlen Hinv F.
  - simpl in *. subst F. destruct Hinv as (I1 & I2 & I3).
    destruct (Z.eq_dec (firstNonSlashEnd st) (-1)) as [Hf|Hf].
    + left. now destruct (I2 Hf) as (_ & _ & _ & D).
    + right.
      destruct (I3 Hf) as (M & comp & sl & -> & Hne & Hcomp & Hsl & E & A & B).
      exists [], comp, sl. simpl.
      split; [reflexivity|]. split; [exact Hne|].
      split; [exact Hcomp|]. split; [exact Hsl|].
      split; [now left|]. split; [exact I1|]. split; [exact E|]. split.
      * intros H. destruct (A H). lia.
      * intros H. destruct (B H). simpl in *. lia.
  - assert (R : rev (c :: rs) ++ done = rev rs ++ c :: done).
    { simpl. now rewrite <- app_assoc. }
    rewrite R. subst F. cbn [length] in *.
    replace (Z.of_nat (S (length rs)) - 1) with (Z.of_nat (length rs)) by lia.
    cbn [base_loop_suffix].
    replace (Z.of_nat (length rs) - 1 + 1) with (Z.of_nat (length rs)) by lia.
    destruct (is_slash c) eqn:Hc.
    + destruct Hinv as (I1 & I2 & I3).
      destruct (b_matchedSlash st) eqn:Hm; simpl negb; cbv iota.
      * assert (Hf : firstNonSlashEnd st = -1).
        { destruct (Z.eq_dec (firstNonSlashEnd st) (-1)) as [|Hf];
            [assumption|].
          destruct (I3 Hf). congruence. }
        destruct (I2 Hf) as (_ & E & X & D).
        apply IH; [exact Hlen|].
        split; [exact I1|]. split.
        -- intros _. repeat split; auto.
        -- intros; contradiction.
      * right.
        assert (Hf : firstNonSlashEnd st <> -1).
        { intros Hf. destruct (I2 Hf). congruence. }
        destruct (I3 Hf)
          as (_ & comp & sl & -> & Hne & Hcomp & Hsl & E & A & B).
        apply is_slash_eq in Hc. subst c.
        exists (rev rs ++ [CHAR_FORWARD_SLASH]), comp, sl.
        cbn [b_start b_end firstNonSlashEnd].
        rewrite length_app, length_rev. cbn [length].
        split; [now rewrite <- app_assoc|]. split; [exact Hne|].
        split; [exact Hcomp|]. split; [exact Hsl|].
        split; [right; now exists (rev rs)|].
        split; [lia|]. split; [rewrite E; lia|]. split.
        -- intros H. destruct (A H). lia.
        -- intros H. destruct (B H). lia.
    + replace (Z.of_nat (length rs) + 1 - 1) with (Z.of_nat (length rs)) by lia.
      apply IH; [exact Hlen|]. now apply base_visit_inv.
Qed.

(** What [basename] without a suffix has found at the end of its scan. *)
Lemma base_plain_result (rs : list ascii) :
  forall (done : list ascii) (st : BaseScan),
    plain_base_inv st done (length rs) ->
    let F := base_loop rs (Z.of_nat (length rs) - 1) st in
    b_end F = -1
    \/ exists front comp sl,
         rev rs ++ done = front ++ comp ++ sl /\ Forall (fun c => is_slash c = false) comp /\
         b_start F = Z.of_nat (length front) /\
         b_end F = Z.of_nat (length front) + Z.of_nat (length comp).
Proof.
  induction rs as [|c rs IH]; intros done st Hinv F.
  - simpl in *. subst F. destruct Hinv as (I1 & I2 & I3).
    destruct (Z.eq_dec (b_end st) (-1)) as [He|He]; [now left | right].
    destruct (I3 He) as (_ & comp & sl & -> & Hcomp & E).
    exists [], comp, sl. simpl. repeat split; auto; lia.
  - assert (R : rev (c :: rs) ++ done = rev rs ++ c :: done).
    { simpl. now rewrite <- app_assoc. }
    rewrite R. subst F. cbn [length] in *.
    replace (Z.of_nat (S (length rs)) - 1) with (Z.of_nat (length rs)) by lia.
    cbn [base_loop].
    destruct Hinv as (I1 & I2 & I3).
    destruct (is_slash c) eqn:Hc.
    + destruct (b_matchedSlash st) eqn:Hm; simpl negb; cbv iota.
      * assert (He : b_end st = -1).
        { destruct (Z.eq_dec (b_end st) (-1)) as [|He]; [assumption|].
          destruct (I3 He). congruence. }
        destruct (I2 He) as (_ & D).
        apply IH. split; [exact I1|]. split.
        -- intros _. split; [exact Hm | now constructor].
        -- intros; contradiction.
      * assert (He : b_end st <> -1).
        { intros He. destruct (I2 He). congruence. }
        destruct (I3 He) as (_ & comp & sl & -> & Hcomp & E).
        cbn [b_start b_end].
        destruct (Z.eq_dec (b_end st) (-1)); [contradiction | right].
        exists (rev rs ++ [c]), comp, sl.
        rewrite length_app, length_rev. cbn [length].
        split; [now rewrite <- app_assoc|]. split; [exact Hcomp|].
        split; lia.
    + destruct (Z.eqb_spec (b_end st) (-1)) as [He|He].
      * destruct (I2 He) as (_ & D).
        apply IH. split; [exact I1|]. split; [cbn; intros; lia|].
        intros _. split; [reflexivity|]. exists [c], done.
        split; [reflexivity|]. split; [now constructor|].
        cbn [b_end length]. lia.
      * destruct (I3 He) as (M & comp & sl & -> & Hcomp & E).
        apply IH. split; [exact I1|]. split; [intros; contradiction|].
        intros _. split; [exact M|]. exists (c :: comp), sl.
        split; [reflexivity|]. split; [now constructor|].
        cbn [length]. lia.
Qed.

(** The base name taken by [generateUniqueFilename] holds no separator. *)
Lemma basename_ext_slashless (cs : list ascii) :
  Forall (fun c => is_slash c = false) (basename_chars cs (extname_chars cs)).
Proof.
  unfold basename_chars.
  set (suffix := extname_chars cs).
  destruct ((0 <? Z.of_nat (length suffix))
            && (Z.of_nat (length suffix) <=? Z.of_nat (length cs))) eqn:Hcond.
  - destruct (bool_decide (suffix = cs)); [constructor|].
    apply andb_true_iff in Hcond. destruct Hcond as (H0 & _).
    apply Z.ltb_lt in H0.
    set (st0 := {| b_start := 0; b_end := -1; b_matchedSlash := true;
                   extIdx := Z.of_nat (length suffix) - 1;
                   firstNonSlashEnd := -1 |}).
    destruct (base_suffix_result suffix (rev cs) [] st0) as
      [Hall | (front & comp & sl & E & Hne & Hcomp & Hsl & Hf & Bs & Bf & A & B)].
    { lia. }
    { split; [reflexivity|]. split.
      - intros _. repeat split; auto.
      - intros H. simpl in H. contradiction. }
    + (* a path of separators has no extension *)
      exfalso. rewrite rev_involutive, app_nil_r in Hall.
      destruct (extname_chars_shape cs) as [He|(e & He & _)].
      * fold suffix in He. rewrite He in H0. simpl in H0. lia.
      * unfold extname_chars, ext_result in He.
        set (F := ext_loop (rev cs) (Z.of_nat (length cs) - 1) ext_init)
          in He.
        destruct (Z.eqb_spec (startDot F) (-1)) as [Hsd|Hsd];
          [discriminate|].
        destruct (ext_loop_inv (rev cs) [] ext_init) as
          (pre & e' & tail & E0 & _).
        { apply scan_inv_init. }
        { rewrite length_rev. exact Hsd. }
        rewrite rev_involutive, app_nil_r in E0. rewrite E0 in Hall.
        apply Forall_app in Hall. destruct Hall as (_ & Hall).
        inversion Hall; subst. discriminate.
    + rewrite rev_involutive, app_nil_r, length_rev in *.
      set (F := base_loop_suffix suffix (rev cs)
                  (Z.of_nat (length cs) - 1) st0) in *.
      assert (Hlenc : (length suffix <= length comp)%nat).
      { destruct (extname_in_component front comp sl Hne Hcomp Hsl Hf)
          as [He|(e & He & _ & Hl)];
          rewrite <- E in He; fold suffix in He.
        - rewrite He in H0. simpl in H0. lia.
        - now rewrite He. }
      assert (He : b_end F <> -1) by (intros H; specialize (A H); lia).
      specialize (B He).
      rewrite E, Bs.
      match goal with
      | |- Forall (fun c => is_slash c = false) (Js.slice_chars _ _ ?x) =>
          replace x with (Z.of_nat (length front)
                          + (x - Z.of_nat (length front))) by lia
      end.
      rewrite slice_chars_prefix.
      * apply Forall_take, Hcomp.
      * destruct (Z.eqb_spec (Z.of_nat (length front)) (b_end F)).
        -- rewrite Bf. lia.
        -- destruct (Z.eqb_spec (b_end F) (-1)); [contradiction|]. lia.
  - set (st0 := {| b_start := 0; b_end := -1; b_matchedSlash := true;
                   extIdx := -1; firstNonSlashEnd := -1 |}).
    destruct (base_plain_result (rev cs) [] st0) as
      [He | (front & comp & sl & E & Hcomp & Bs & Be)].
    { split; [reflexivity|]. split.
      - intros _. split; [reflexivity | constructor].
      - intros H. simpl in H. contradiction. }
    + rewrite length_rev in He. rewrite He. simpl. constructor.
    + rewrite rev_involutive, app_nil_r, length_rev in *.
      rewrite Be, Bs, E.
      destruct (Z.eqb_spec (Z.of_nat (length front)
                            + Z.of_nat (length comp)) (-1)); [lia|].
      now rewrite slice_chars_middle.
Qed.

End BasenameFacts.

(** X4.  The name under which an upload is stored holds no path separator,
    whatever the client sent as the original name: the base name is taken
    from the last component of the original name, and neither the
    extension nor the infix adds a separator. *)
Theorem generated_name_no_separator (timestamp : N) (random36 : list nat)
    (originalname : string) :
  Facts.no_slash (Path.basename originalname (Path.extname originalname))
  = true /\
  Facts.no_slash (Routes.filename timestamp random36 originalname) = true.
Proof.
  assert (B : Forall (fun c => Path.is_slash c = false)
                (Js.chars (Path.basename originalname
                             (Path.extname originalname)))).
  { unfold Path.basename, Path.extname. rewrite !chars_str.
    apply basename_ext_slashless. }
  split; [now apply slashless_no_slash|].
  unfold Facts.no_slash, Routes.filename. apply slashless_no_slash.
  rewrite generated_chars. apply Forall_app. split; [exact B|].
  apply Forall_app. split.
  - destruct (infix_two_plain timestamp random36)
      as (m & a & b & -> & Pm & Pa & Pb).
    apply all_plain_slashless. apply Forall_app. split; [exact Pm|].
    repeat constructor; assumption.
  - unfold Path.extname. rewrite chars_str.
    destruct (extname_chars_shape (Js.chars originalname))
      as [->|(e & -> & Pe)]; [constructor|].
    constructor; [reflexivity | now apply all_plain_slashless].
Qed.

(** ** The routes: start-up, start and stop *)

Section RouteFacts.
Import FileManager Storage Stats Facts.

Lemma prefix_inj (a b c : string) : (a ++ b)%string = (a ++ c)%string -> b = c.
Proof.
  induction a as [|x a IH]; simpl; [auto|]. intros H. inversion H. auto.
Qed.

Lemma deleteFile_only_deletes (fs : gmap string FsNode) (p q : string) :
  fst (deleteFile fs p) !! q = fs !! q
  \/ (q = p /\ is_regular fs p = true /\ fst (deleteFile fs p) !! q = None).
Proof.
  destruct (string_dec q p) as [->|Hne].
  - unfold is_regular. destruct (fs !! p) as [[]|] eqn:E.
    + right. rewrite (deleteFile_file _ _ E). simpl.
      split; [reflexivity|]. split; [reflexivity | apply lookup_delete_eq].
    + left. now rewrite (deleteFile_directory _ _ E).
    + left. now rewrite (deleteFile_missing _ _ E).
  - left. destruct (fs !! p) as [[]|] eqn:E.
    + rewrite (deleteFile_file _ _ E). simpl. apply lookup_delete_ne.
      congruence.
    + now rewrite (deleteFile_directory _ _ E).
    + now rewrite (deleteFile_missing _ _ E).
Qed.

Lemma is_regular_deleted (fs : gmap string FsNode) (p : string) :
  is_regular (fst (deleteFile fs p)) p = false.
Proof.
  unfold is_regular. destruct (fs !! p) as [[]|] eqn:E.
  - rewrite (deleteFile_file _ _ E). simpl. now rewrite lookup_delete_eq.
  - rewrite (deleteFile_directory _ _ E). simpl. now rewrite E.
  - rewrite (deleteFile_missing _ _ E). simpl. now rewrite E.
Qed.

Lemma startup_fold (dir : string) (files : list string) :
  forall fs : gmap string FsNode,
    (forall p, Routes.cleanupOnStartup fs dir files !! p = fs !! p
               \/ Routes.cleanupOnStartup fs dir files !! p = None) /\
    (forall p,
       (forall f, In f files -> f <> ".gitkeep"%string ->
                  p <> (dir ++ "/" ++ f)%string) ->
       Routes.cleanupOnStartup fs dir files !! p = fs !! p) /\
    (forall f, In f files -> f <> ".gitkeep"%string ->
       is_regular (Routes.cleanupOnStartup fs dir files)
                  (dir ++ "/" ++ f)%string = false).
Proof.
  unfold Routes.cleanupOnStartup.
  induction files as [|g files IH]; intros fs; cbn [fold_left].
  - split; [auto|]. split; [auto|]. intros f [].
  - set (fs1 := if String.eqb g ".gitkeep" then fs
                else fst (deleteFile fs (dir ++ "/" ++ g))).
    destruct (IH fs1) as (A & B & C).
    assert (D : forall p, fs1 !! p = fs !! p \/ fs1 !! p = None).
    { intros p. unfold fs1. destruct (String.eqb g ".gitkeep"); [now left|].
      destruct (deleteFile_only_deletes fs (dir ++ "/" ++ g) p)
        as [H|(_ & _ & H)]; auto. }
    split; [|split].
    + intros p. destruct (A p) as [H|H]; [|now right].
      rewrite H. apply D.
    + intros p Hp. rewrite B by (intros f Hf; apply Hp; now right).
      unfold fs1. destruct (String.eqb_spec g ".gitkeep"); [reflexivity|].
      destruct (deleteFile_only_deletes fs (dir ++ "/" ++ g) p)
        as [H|(H & _)]; [exact H|].
      exfalso. apply (Hp g); auto. now left.
    + intros f [<-|Hf] Hne; [|now apply C].
      unfold is_regular.
      destruct (A (dir ++ "/" ++ g)%string) as [H|H]; rewrite H; [|reflexivity].
      unfold fs1. destruct (String.eqb_spec g ".gitkeep"); [contradiction|].
      apply is_regular_deleted.
Qed.

Lemma updateStream_stats (d : MemStorage) (i : Z) (u : StreamUpdates) :
  streamStats (fst (updateStream d i u)) = streamStats d.
Proof.
  unfold updateStream. destruct (streams d !! i); reflexivity.
Qed.

Lemma updateStream_lookup (d : MemStorage) (i : Z) (u : StreamUpdates)
    (k : Z) :
  getStream (fst (updateStream d i u)) k
  = if k =? i then option_map (fun s => spread_stream s u) (getStream d i)
    else getStream d k.
Proof.
  unfold updateStream, getStream.
  destruct (Z.eqb_spec k i) as [->|Hne].
  - destruct (streams d !! i) as [s|] eqn:E; simpl; [|exact E].
    apply lookup_insert_eq.
  - destruct (streams d !! i) as [s|] eqn:E; simpl; [|reflexivity].
    apply lookup_insert_ne. congruence.
Qed.

Lemma getStreamStats_updateStream (d : MemStorage) (i : Z) (u : StreamUpdates)
    (k : Z) :
  getStreamStats (fst (updateStream d i u)) k = getStreamStats d k.
Proof. unfold getStreamStats. now rewrite updateStream_stats. Qed.

Lemma stats_wf_updateStream (d : MemStorage) (i : Z) (u : StreamUpdates) :
  Props.stats_wf d -> Props.stats_wf (fst (updateStream d i u)).
Proof. unfold Props.stats_wf. now rewrite updateStream_stats. Qed.

Lemma getStream_updateStreamStats (d : MemStorage) (i : Z) (u : StatsUpdates)
    (now : Z) (k : Z) :
  getStream (fst (updateStreamStats d i u now)) k = getStream d k.
Proof.
  unfold updateStreamStats, getStream.
  destruct (find_stats_entry d i) as [[? ?]|]; reflexivity.
Qed.

End RouteFacts.

(** X21.  The clean-up at start-up, given what the uploads directory
    lists: afterwards no listed name other than [.gitkeep] is a regular
    file of the directory; every path that is not such an entry, among
    them [.gitkeep] itself, is as before; and nothing is created. *)
Theorem cleanupOnStartup_effect (fs : gmap string FileManager.FsNode)
    (uploadsDir : string) (files : list string) :
  (forall file : string,
     In file files -> file <> ".gitkeep"%string ->
     Facts.is_regular (Routes.cleanupOnStartup fs uploadsDir files)
       (uploadsDir ++ "/" ++ file)%string = false) /\
  (forall p : string,
     (forall file, In file files -> file <> ".gitkeep"%string ->
                   p <> (uploadsDir ++ "/" ++ file)%string) ->
     Routes.cleanupOnStartup fs uploadsDir files !! p = fs !! p) /\
  Routes.cleanupOnStartup fs uploadsDir files
    !! (uploadsDir ++ "/" ++ ".gitkeep")%string
  = fs !! (uploadsDir ++ "/" ++ ".gitkeep")%string /\
  (forall p : string,
     Routes.cleanupOnStartup fs uploadsDir files !! p = fs !! p
     \/ Routes.cleanupOnStartup fs uploadsDir files !! p = None).
Proof.
  destruct (startup_fold uploadsDir files fs) as (A & B & C).
  split; [exact C|]. split; [exact B|]. split; [|exact A].
  apply B. intros file _ Hne E. apply prefix_inj in E.
  apply (prefix_inj "/") in E. congruence.
Qed.

Lemma cleanupOnStartup_effect_witness :
  In "clip_1_a.mp4"%string [".gitkeep"; "clip_1_a.mp4"]%string /\
  "clip_1_a.mp4"%string <> ".gitkeep"%string /\
  Facts.is_regular
    (Routes.cleanupOnStartup Scenario.fs7 "/uploads"
       [".gitkeep"; "clip_1_a.mp4"]%string)
    ("/uploads" ++ "/" ++ "clip_1_a.mp4")%string = false.
Proof.
  split; [simpl; auto|]. split; [discriminate|].
  apply (proj1 (cleanupOnStartup_effect Scenario.fs7 "/uploads"
                  [".gitkeep"; "clip_1_a.mp4"]%string)).
  - simpl. auto.
  - discriminate.
Defined.

(** X22.  After a successful start the stream record is marked active and
    its statistics record is connected with uptime 0, the viewer count and
    the ping as they were; so the next tick of the statistics timer over an
    id list that holds the stream broadcasts for it, with uptime 5. *)
Theorem start_marks_connected (d : Storage.MemStorage) (streamId : Z)
    (now : Z) (stream : Storage.Stream) (cur : Storage.StreamStats) :
  Props.stats_wf d ->
  Storage.getStream d streamId = Some stream ->
  Storage.getStreamStats d streamId = Some cur ->
  let d' := Routes.startSucceeded d streamId now in
  Props.stats_wf d' /\
  (exists s', Storage.getStream d' streamId = Some s' /\
              Storage.s_isActive s' = Some true /\
              Storage.s_videoPath s' = Storage.s_videoPath stream) /\
  (exists new,
     Storage.getStreamStats d' streamId = Some new /\
     Storage.connectionStatus new = Some "connected"%string /\
     Storage.uptime new = Some 0 /\
     Storage.viewerCount new = Storage.viewerCount cur /\
     Storage.ping new = Storage.ping cur) /\
  Facts.connected_in d' streamId = true /\
  (forall (rnd : nat -> Z) (now' : Z) (ids : list Z),
     NoDup ids -> In streamId ids ->
     exists v p,
       Stats.updates_for streamId (snd (Stats.tick rnd now' ids d'))
       = [Stats.StatsUpdate streamId v 5 p "connected"]).
Proof.
  intros Hwf Hs Hc d'.
  set (d1 := fst (Storage.updateStream d streamId
                    (Storage.mkStreamUpdates None (Some true)))).
  assert (W1 : Props.stats_wf d1) by now apply stats_wf_updateStream.
  assert (C1 : Storage.getStreamStats d1 streamId = Some cur).
  { unfold d1. now rewrite getStreamStats_updateStream. }
  destruct (updateStreamStats_lookup d1 streamId
              (Storage.mkStatsUpdates None (Some 0) None
                 (Some "connected"%string)) now cur W1 C1) as (W & _ & L).
  fold (Routes.startSucceeded d streamId now) in W, L. fold d' in W, L.
  assert (G : Storage.getStreamStats d' streamId
              = Some (Storage.spread_stats cur
                        (Storage.mkStatsUpdates None (Some 0) None
                           (Some "connected"%string)) now)).
  { rewrite L, Z.eqb_refl. reflexivity. }
  split; [exact W|]. split; [|split; [|split]].
  - unfold d', Routes.startSucceeded.
    rewrite getStream_updateStreamStats, updateStream_lookup, Z.eqb_refl, Hs.
    eexists. split; [reflexivity|]. split; reflexivity.
  - eexists. split; [exact G|]. repeat split; reflexivity.
  - unfold Facts.connected_in. rewrite G. reflexivity.
  - intros rnd now' ids Hnd Hin.
    destruct (tick_connected rnd now' ids d' streamId _
                Hnd (proj2 (list_elem_of_In _ _) Hin) W G eq_refl)
      as (k & new & _ & _ & _ & _ & Ho).
    rewrite Ho. eexists _, _. reflexivity.
Qed.

Lemma start_marks_connected_witness :
  Props.stats_wf Scenario.db7 /\
  Facts.connected_in (Routes.startSucceeded Scenario.db7 7 42) 7 = true.
Proof.
  assert (W : Props.stats_wf Scenario.db7).
  { vm_compute. apply NoDup_singleton. }
  split; [exact W|].
  apply (start_marks_connected Scenario.db7 7 42 Scenario.stream7
           Scenario.stats7 W eq_refl eq_refl).
Defined.

(** X23.  After the stop action the stream record is inactive and, when
    the record read at the start of the request had a video path, has no
    video path and the file of that path is no regular file any more; the
    statistics record is disconnected, so the statistics timer neither
    updates it nor broadcasts for the stream, even while the stream still
    has a handle. *)
Theorem stop_marks_disconnected (d : Storage.MemStorage)
    (fs : gmap string FileManager.FsNode) (streamId : Z)
    (stream current : Storage.Stream) (cur : Storage.StreamStats) (now : Z) :
  Props.stats_wf d ->
  Storage.getStream d streamId = Some current ->
  Storage.getStreamStats d streamId = Some cur ->
  let d' := fst (Routes.stopAction d fs streamId stream now) in
  let fs' := snd (Routes.stopAction d fs streamId stream now) in
  Props.stats_wf d' /\
  (exists s', Storage.getStream d' streamId = Some s' /\
              Storage.s_isActive s' = Some false /\
              (forall p, Storage.s_videoPath stream = Some p ->
                         p <> ""%string ->
                         Storage.s_videoPath s' = None /\
                         Facts.is_regular fs' p = false)) /\
  Facts.connected_in d' streamId = false /\
  (forall (rnd : nat -> Z) (now' : Z) (ids : list Z),
     Storage.getStreamStats (fst (Stats.tick rnd now' ids d')) streamId
     = Storage.getStreamStats d' streamId /\
     Stats.updates_for streamId (snd (Stats.tick rnd now' ids d')) = []).
Proof.
  intros Hwf Hs Hc d' fs'.
  set (d1 := fst (Storage.updateStream d streamId
                    (Storage.mkStreamUpdates None (Some false)))).
  set (u := Storage.mkStatsUpdates None None None
              (Some "disconnected"%string)).
  set (d2 := fst (Storage.updateStreamStats d1 streamId u now)).
  assert (W1 : Props.stats_wf d1) by now apply stats_wf_updateStream.
  assert (C1 : Storage.getStreamStats d1 streamId = Some cur).
  { unfold d1. now rewrite getStreamStats_updateStream. }
  destruct (updateStreamStats_lookup d1 streamId u now cur W1 C1)
    as (W2 & _ & L). fold d2 in W2, L.
  assert (G2 : Storage.getStreamStats d2 streamId
               = Some (Storage.spread_stats cur u now)).
  { rewrite L, Z.eqb_refl. reflexivity. }
  assert (S2 : Storage.getStream d2 streamId
               = Some (Storage.spread_stream current
                         (Storage.mkStreamUpdates None (Some false)))).
  { unfold d2, d1.
    rewrite getStream_updateStreamStats, updateStream_lookup, Z.eqb_refl, Hs.
    reflexivity. }
  assert (Wd : Props.stats_wf d'
               /\ Storage.getStreamStats d' streamId
                  = Some (Storage.spread_stats cur u now)).
  { unfold d', Routes.stopAction. fold d1 u d2.
    destruct (Store.or_null (Storage.s_videoPath stream)); cbn [fst].
    - split; [now apply stats_wf_updateStream|].
      now rewrite getStreamStats_updateStream.
    - split; assumption. }
  destruct Wd as (W & G).
  assert (Cn : Facts.connected_in d' streamId = false).
  { unfold Facts.connected_in. rewrite G. reflexivity. }
  split; [exact W|]. split; [|split; [exact Cn|]].
  - unfold d', fs', Routes.stopAction. fold d1 u d2.
    unfold Store.or_null.
    destruct (Storage.s_videoPath stream) as [p|] eqn:Hp.
    + destruct (String.eqb_spec p "") as [->|Hne]; cbn [fst snd].
      * eexists. split; [exact S2|]. split; [reflexivity|].
        intros p Hp' Hn. congruence.
      * rewrite updateStream_lookup, Z.eqb_refl, S2.
        eexists. split; [reflexivity|]. split; [reflexivity|].
        intros p' Hp' _. inversion Hp'; subst p'.
        split; [reflexivity | apply is_regular_deleted].
    + cbn [fst snd]. eexists. split; [exact S2|]. split; [reflexivity|].
      intros p Hp' _. discriminate.
  - intros rnd now' ids. apply tick_untouched; [exact W|].
    right. right. eexists. split; [exact G | reflexivity].
Qed.

Lemma stop_marks_disconnected_witness :
  Props.stats_wf Scenario.db7 /\
  Facts.connected_in
    (fst (Routes.stopAction Scenario.db7 Scenario.fs7 7 Scenario.stream7 42)) 7
  = false.
Proof.
  assert (W : Props.stats_wf Scenario.db7).
  { vm_compute. apply NoDup_singleton. }
  split; [exact W|].
  apply (stop_marks_disconnected Scenario.db7 Scenario.fs7 7 Scenario.stream7
           Scenario.stream7 Scenario.stats7 42 W eq_refl eq_refl).
Defined.

(** ** Restarting a running stream *)

Section RestartFacts.
Import FFmpeg FileManager Storage Service Props Facts.

Lemma start_resume_frame (config : StreamConfig) (sp : SpawnResult)
    (s : State) :
  files (fst (start_resume config sp s)) = files s /\
  (length (children s) <= length (children (fst (start_resume config sp s))))%nat.
Proof.
  unfold start_resume.
  destruct (negb (existsSync (files s) (videoPath config))); [auto|].
  destruct sp; [|auto]. simpl. rewrite length_app. simpl. split; [auto | lia].
Qed.

Lemma drain_frame (acc : State * list Waiter) :
  files (fst (drain acc)) = files (fst acc) /\
  (length (children (fst acc)) <= length (children (fst (drain acc))))%nat.
Proof.
  unfold drain. destruct acc as [s q]. cbn [fst snd].
  change s with (fst (s, @nil Output)) at 2 3.
  generalize (s, @nil Output) as a.
  induction q as [|w q IH]; intros a; simpl; [auto|].
  destruct (IH (resume a w)) as (A & B). rewrite A.
  destruct a as [s0 o]. destruct w as [i|config sp]; simpl in *; [auto|].
  pose proof (start_resume_frame config sp s0) as (F1 & F2).
  destruct (start_resume config sp s0) as [s1 o1]. simpl in *.
  split; [exact F1 | lia].
Qed.

Lemma exit_fold_frame (q : nat) (L : list ExitListener) :
  forall acc : State * list Waiter,
    files (fst (fold_left (run_exit_listener q) L acc)) = files (fst acc) /\
    children (fst (fold_left (run_exit_listener q) L acc))
    = children (fst acc).
Proof.
  induction L as [|l L IH]; intros [s w]; cbn [fold_left]; [auto|].
  destruct (IH (run_exit_listener q (s, w) l)) as (A & B). rewrite A, B.
  destruct l as [i|i j]; unfold run_exit_listener; [auto|].
  set (s1 := set_active (JsMap.delete (activeStreams s) i) s).
  destruct (cleanupCallback s1); [auto|].
  destruct (resolve_frame j s1 w) as (_ & C & _ & _ & _ & D & _).
  rewrite C, D. auto.
Qed.

Lemma drain_snoc_restart (s : State) (ws : list Waiter)
    (config : StreamConfig) (sp : SpawnResult) :
  drain (s, ws ++ [Restart config sp])
  = (fst (start_resume config sp (fst (drain (s, ws)))),
     snd (drain (s, ws)) ++ snd (start_resume config sp (fst (drain (s, ws))))).
Proof.
  unfold drain. cbn [fst snd]. rewrite fold_left_app. cbn [fold_left].
  destruct (fold_left resume ws (s, [])) as [s' o]. cbn [fst snd].
  unfold resume. destruct (start_resume config sp s'). reflexivity.
Qed.

End RestartFacts.

(** X24.  With no callback registered, a start call for a stream that is
    running does not return at once; when the old encoder exits and the
    video file exists, a new encoder is spawned in that same turn with the
    arguments of the new configuration, the stream's handle is the new
    process, and the timer that makes the start call return is the last
    task scheduled. *)
Theorem restart_spawns_on_exit (s : Service.State)
    (config : FFmpeg.StreamConfig) (process : nat) :
  Props.reachable s ->
  JsMap.get (Service.activeStreams s) (FFmpeg.id config) = Some process ->
  Service.cleanupCallback s = None ->
  FileManager.existsSync (Service.files s) (FFmpeg.videoPath config) = true ->
  snd (Service.step s (Service.CallStart config Service.Spawned)) = [] /\
  exists (fresh : nat) (earlier : list (Service.Task * bool)),
    (length (Service.children s) <= fresh)%nat /\
    JsMap.get
      (Service.activeStreams
         (Service.exec s [Service.CallStart config Service.Spawned;
                          Service.ChildExit process]))
      (FFmpeg.id config) = Some fresh /\
    Service.children
      (Service.exec s [Service.CallStart config Service.Spawned;
                       Service.ChildExit process]) !! fresh
    = Some (Service.mkChild (FFmpeg.buildFFmpegArgs config)
              [Service.StartExit (FFmpeg.id config)] [FFmpeg.id config] []
              false) /\
    Service.tasks
      (Service.exec s [Service.CallStart config Service.Spawned;
                       Service.ChildExit process])
    = earlier ++ [(Service.StartGrace (FFmpeg.id config), false)].
Proof.
  intros Hr Hget Hcb Hfile.
  destruct (reachable_hinv s Hr) as (H1 & H2).
  destruct (H1 (FFmpeg.id config) process Hget) as (c & Hc & Hex & Hin).
  assert (E1 : Service.step s (Service.CallStart config Service.Spawned)
               = (Service.stop_register (FFmpeg.id config) process
                    (Service.Restart config Service.Spawned) s, [])).
  { simpl. unfold Service.startStream. now rewrite Hget. }
  rewrite E1. split; [reflexivity|].
  unfold Service.exec. rewrite run_cons, E1. cbn [fst snd].
  rewrite run_cons, run_nil. cbn [fst snd].
  pose proof (stop_register_child (FFmpeg.id config) process
                (Service.Restart config Service.Spawned) s c Hc Hex) as Hch.
  set (s1 := Service.stop_register (FFmpeg.id config) process
               (Service.Restart config Service.Spawned) s) in *.
  set (k := length (Service.promises s)) in *.
  set (c1 := Service.mkChild (Service.c_args c)
               (Service.c_exit_listeners c
                ++ [Service.StopExit (FFmpeg.id config) k])
               (Service.c_error_listeners c)
               (Service.c_signals c ++ [Service.SIGTERM]) false) in *.
  assert (Hc1 : Service.children s1 !! process = Some c1).
  { rewrite Hch. apply list_lookup_insert_eq, lookup_lt_is_Some. eauto. }
  cbn [Service.step]. unfold Service.child_exit. rewrite Hc1.
  cbn [Service.c_exited c1 Service.c_exit_listeners].
  rewrite fold_left_app. cbn [fold_left].
  set (s1' := Service.set_children _ s1).
  assert (Hlen1 : length (Service.children s1')
                  = length (Service.children s)).
  { unfold s1'. cbn [Service.children Service.set_children].
    now rewrite length_insert, Hch, length_insert. }
  destruct (exit_fold_no_callback process k (Service.c_exit_listeners c)
              (s1', []))
    as (A & B & _).
  { exact Hcb. }
  { intros i j Hj. specialize (H2 process c i j Hc Hj). unfold k. lia. }
  destruct (exit_fold_frame process (Service.c_exit_listeners c) (s1', []))
    as (Ff & Fc).
  destruct (fold_left (Service.run_exit_listener process)
              (Service.c_exit_listeners c) (s1', [])) as [sA wA].
  cbn [fst] in A, B, Ff, Fc.
  unfold Service.run_exit_listener.
  set (sA' := Service.set_active _ sA).
  change (Service.cleanupCallback sA') with (Service.cleanupCallback sA).
  rewrite A.
  assert (Hp : Service.promises sA' !! k
               = Some (Service.mkPromise false
                         (Service.Restart config Service.Spawned))).
  { change (Service.promises sA') with (Service.promises sA). rewrite B.
    change (Service.promises s1')
      with (Service.promises s
            ++ [Service.mkPromise false
                  (Service.Restart config Service.Spawned)]).
    unfold k. rewrite lookup_app_r by lia. now rewrite Nat.sub_diag. }
  unfold Service.resolve. rewrite Hp.
  cbn [Service.p_resolved Service.p_waiter].
  rewrite drain_snoc_restart. cbn [fst snd].
  set (sB := Service.set_promises _ sA').
  destruct (drain_frame (sB, wA)) as (Df & Dc). cbn [fst] in Df, Dc.
  set (sD := fst (Service.drain (sB, wA))) in *.
  assert (HfD : FileManager.existsSync (Service.files sD)
                  (FFmpeg.videoPath config) = true).
  { rewrite Df. change (Service.files sB) with (Service.files sA).
    rewrite Ff. exact Hfile. }
  unfold Service.start_resume. rewrite HfD. cbn [negb fst].
  exists (length (Service.children sD)). eexists.
  split; [|split; [|split]].
  - change (Service.children sB) with (Service.children sA) in Dc.
    rewrite Fc in Dc. lia.
  - cbn [Service.activeStreams Service.schedule Service.set_tasks
         Service.set_active]. apply jsmap_get_set.
  - cbn [Service.children Service.schedule Service.set_tasks
         Service.set_active Service.set_children].
    rewrite lookup_app_r by lia. now rewrite Nat.sub_diag.
  - reflexivity.
Qed.

Lemma restart_spawns_on_exit_witness :
  Props.reachable (Service.exec Scenario.fresh Scenario.started) /\
  snd (Service.step (Service.exec Scenario.fresh Scenario.started)
         (Service.CallStart Scenario.cfg7_portrait Service.Spawned)) = [].
Proof.
  assert (R : Props.reachable (Service.exec Scenario.fresh Scenario.started)).
  { exists Scenario.fs7, Scenario.db7, Scenario.started. reflexivity. }
  split; [exact R|].
  apply (restart_spawns_on_exit (Service.exec Scenario.fresh Scenario.started)
           Scenario.cfg7_portrait 0%nat R); reflexivity.
Defined.

(** ** The generated name and the last component of the original name *)

Section ComponentFacts.
Import Path Props Facts FileManager.

Lemma dot_inv_visit (st : ExtScan) (done : list ascii) (k : nat) (c : ascii) :
  is_slash c = false -> dot_inv st done (S k) ->
  dot_inv (ext_visit c (Z.of_nat k) st) (c :: done) k.
Proof.
  intros Hc (C & A & B).
  assert (Ext : preDotState st <> 0 ->
            exists b1 x rest,
              c :: done = b1 ++ x :: rest /\ is_slash x = false /\
              startDot st = Z.of_nat (k + length b1 + 1)).
  { intros H. destruct (B H) as (b1 & x & rest & -> & Hx & E).
    exists (c :: b1), x, rest. cbn [length]. repeat split; auto. lia. }
  assert (New : startDot st <> -1 ->
            exists b1 x rest,
              c :: done = b1 ++ x :: rest /\ is_slash x = false /\
              startDot st = Z.of_nat (k + length b1 + 1)).
  { intros Hs. destruct (Z.eq_dec (preDotState st) 0) as [H0|H0].
    - exists [], c, done. cbn [length]. repeat split; auto.
      rewrite (A Hs H0). lia.
    - now apply Ext. }
  unfold ext_visit.
  destruct (Z.eqb_spec (end_ st) (-1)) as [He|He];
    cbn [startDot startPart end_ matchedSlash preDotState];
    destruct (is_dot c);
    destruct (Z.eqb_spec (startDot st) (-1)) as [Hs|Hs];
    cbn [negb startDot startPart end_ matchedSlash preDotState];
    try (destruct (Z.eqb_spec (preDotState st) 1) as [H1|H1];
         cbn [negb startDot startPart end_ matchedSlash preDotState]);
    unfold dot_inv;
    cbn [startDot startPart end_ matchedSlash preDotState];
    (split; [|split]);
    try (intros; lia);
    try (intros; exfalso; specialize (C Hs); lia);
    try (intros; now apply New);
    try (intros; now apply Ext);
    try (intros; now apply C).
Qed.

(** When [extname] gives an extension, a character that is no separator
    stands right before its dot. *)
Lemma dot_inv_loop (rs : list ascii) :
  forall (done : list ascii) (st : ExtScan),
    scan_inv st done (length rs) -> dot_inv st done (length rs) ->
    preDotState (ext_loop rs (Z.of_nat (length rs) - 1) st) <> 0 ->
    exists p x rest,
      rev rs ++ done = p ++ x :: rest /\ is_slash x = false /\
      startDot (ext_loop rs (Z.of_nat (length rs) - 1) st)
      = Z.of_nat (length p + 1).
Proof.
  induction rs as [|c rs IH]; intros done st Hs Hd Hp.
  - simpl in *. destruct Hd as (_ & _ & B).
    destruct (B Hp) as (b1 & x & rest & -> & Hx & E).
    exists b1, x, rest. repeat split; auto.
  - cbn [length] in *.
    replace (Z.of_nat (S (length rs)) - 1) with (Z.of_nat (length rs)) in *
      by lia.
    assert (R : rev (c :: rs) ++ done = rev rs ++ c :: done).
    { simpl. now rewrite <- app_assoc. }
    rewrite R. simpl ext_loop in *. destruct (is_slash c) eqn:Hc.
    + destruct (matchedSlash st) eqn:Hm; simpl negb in *; cbv iota in *.
      * apply IH; [now apply scan_inv_slash | | exact Hp].
        destruct Hs as (I1 & I2 & _). destruct Hd as (C & _ & _).
        assert (He : end_ st = -1).
        { destruct (Z.eq_dec (end_ st) (-1)) as [|He]; [assumption|].
          specialize (I2 He). congruence. }
        specialize (C (I1 He)).
        split; [auto|]. split; intros; [specialize (I1 He)|]; lia.
      * cbn [startDot preDotState] in *. destruct Hd as (_ & _ & B).
        destruct (B Hp) as (b1 & x & rest & -> & Hx & E).
        exists (rev rs ++ c :: b1), x, rest.
        rewrite <- app_assoc. simpl. split; [reflexivity|].
        split; [exact Hx|].
        rewrite E, length_app, length_rev. cbn [length]. lia.
    + apply IH; [now apply scan_inv_visit | now apply dot_inv_visit | exact Hp].
Qed.

(** The extension is the end of the last component, and it is not the
    whole of it. *)
Lemma ext_component (front comp sl : list ascii) :
  comp <> [] -> Forall (fun c => is_slash c = false) comp ->
  Forall (fun c => is_slash c = true) sl ->
  (front = [] \/ exists f, front = f ++ [CHAR_FORWARD_SLASH]) ->
  extname_chars (front ++ comp ++ sl) = []
  \/ exists stem e,
       extname_chars (front ++ comp ++ sl) = CHAR_DOT :: e /\
       all_plain e /\ comp = stem ++ CHAR_DOT :: e /\ stem <> [].
Proof.
  intros Hne Hc Hs Hf.
  set (cs := front ++ comp ++ sl).
  unfold extname_chars, ext_result.
  set (F := ext_loop (rev cs) (Z.of_nat (length cs) - 1) ext_init).
  destruct (Z.eqb_spec (startDot F) (-1)) as [Hsd|Hsd]; [left; reflexivity|].
  destruct (Z.eqb_spec (end_ F) (-1)) as [He|He]; [left; reflexivity|].
  destruct (Z.eqb_spec (preDotState F) 0) as [Hp|Hp]; [left; reflexivity|].
  cbn [orb].
  match goal with |- context [if ?c then _ else _] =>
    destruct c; [left; reflexivity | right] end.
  destruct (ext_loop_inv (rev cs) [] ext_init) as
    (pre & e & tail & E0 & E1 & E2 & E3).
  { apply scan_inv_init. }
  { rewrite length_rev. exact Hsd. }
  destruct (dot_inv_loop (rev cs) [] ext_init) as (p & x & rest & D0 & Dx & D1).
  { apply scan_inv_init. }
  { unfold dot_inv, ext_init. simpl. repeat split; intros; lia. }
  { rewrite length_rev. exact Hp. }
  rewrite length_rev in E1, E2, D1. fold F in E1, E2, D1.
  rewrite rev_involutive, app_nil_r in E0, D0.
  destruct (List.exists_last Hne) as (comp' & b & Hcomp).
  assert (Hb : is_slash b = false).
  { rewrite Hcomp in Hc. apply Forall_app in Hc. destruct Hc as (_ & Hc).
    now inversion Hc. }
  assert (Ecs : cs = (front ++ comp') ++ b :: sl).
  { unfold cs. rewrite Hcomp, <- !app_assoc. reflexivity. }
  pose proof (ext_end_component (front ++ comp') sl b Hb Hs) as L.
  rewrite <- Ecs in L. fold F in L.
  assert (Hlen : length (pre ++ CHAR_DOT :: e) = length (front ++ comp)).
  { rewrite Hcomp, !length_app in *. cbn [length] in *. lia. }
  assert (Esplit : pre ++ CHAR_DOT :: e = front ++ comp /\ tail = sl).
  { apply app_inj_1; [exact Hlen|].
    rewrite <- !app_assoc. simpl. unfold cs in E0. now rewrite <- E0. }
  destruct Esplit as (Epc & _).
  (* the character before the dot *)
  assert (Hpre : pre = p ++ [x]).
  { assert (Hl : length pre = length (p ++ [x])).
    { rewrite length_app. cbn [length]. lia. }
    assert (Eq : pre ++ (CHAR_DOT :: e ++ tail) = (p ++ [x]) ++ rest).
    { rewrite <- E0, D0, <- app_assoc. reflexivity. }
    now destruct (app_inj_1 _ _ _ _ Hl Eq). }
  assert (Hle : (length (CHAR_DOT :: e) <= length comp)%nat).
  { destruct Hf as [->|(f & ->)].
    - simpl in Epc. rewrite <- Epc, length_app. lia.
    - pose proof Epc as Epc'.
      apply (f_equal (@rev ascii)) in Epc'.
      rewrite !rev_app_distr in Epc'. simpl rev at 3 in Epc'.
      simpl app at 3 in Epc'.
      rewrite <- (length_rev (CHAR_DOT :: e)), <- (length_rev comp).
      eapply (run_length_le (fun c => is_slash c = false)).
      + exact Epc'.
      + apply List.Forall_rev. constructor; [reflexivity|].
        now apply all_plain_slashless.
      + discriminate. }
  assert (Hstem : exists stem, pre = front ++ stem
                               /\ comp = stem ++ CHAR_DOT :: e).
  { exists (drop (length front) pre).
    assert (Hfl : (length front <= length pre)%nat).
    { rewrite !length_app in Hlen. lia. }
    assert (Et : take (length front) pre = front).
    { apply (f_equal (take (length front))) in Epc.
      rewrite take_app_le in Epc by lia.
      now rewrite take_app_length in Epc. }
    split.
    - rewrite <- Et at 1. now rewrite take_drop.
    - apply (f_equal (drop (length front))) in Epc.
      rewrite drop_app_le in Epc by lia.
      now rewrite drop_app_length in Epc. }
  destruct Hstem as (stem & Hps & Hcs).
  exists stem, e. split; [|split; [exact E3|split; [exact Hcs|]]].
  - rewrite E1, E2, E0.
    replace (pre ++ CHAR_DOT :: e ++ tail)
      with (pre ++ (CHAR_DOT :: e) ++ tail) by reflexivity.
    apply slice_chars_middle.
  - intros ->. rewrite app_nil_r in Hps. subst pre.
    destruct Hf as [Hf|(f & Hf)].
    + rewrite Hf in Hps. destruct p; discriminate.
    + rewrite Hf in Hps. apply app_inj_tail in Hps.
      destruct Hps as (_ & Hx). subst x. discriminate.
Qed.

Lemma base_skip (suffix sl : list ascii) :
  forall rs i st,
    Forall (fun c => is_slash c = true) sl -> b_matchedSlash st = true ->
    base_loop_suffix suffix (sl ++ rs) i st
    = base_loop_suffix suffix rs (i - Z.of_nat (length sl)) st.
Proof.
  induction sl as [|c sl IH]; intros rs i st Hs Hm.
  - simpl. f_equal. lia.
  - inversion Hs; subst. simpl app. cbn [base_loop_suffix].
    match goal with H : is_slash c = true |- _ => rewrite H end.
    rewrite Hm. simpl negb. cbv iota. rewrite IH by assumption.
    f_equal. cbn [length]. lia.
Qed.

Lemma base_body (suffix body : list ascii) :
  forall rest i st,
    Forall (fun c => is_slash c = false) body ->
    extIdx st = -1 -> firstNonSlashEnd st <> -1 ->
    base_loop_suffix suffix (body ++ rest) i st
    = base_loop_suffix suffix rest (i - Z.of_nat (length body)) st.
Proof.
  induction body as [|c body IH]; intros rest i st Hb He Hf.
  - simpl. f_equal. lia.
  - inversion Hb; subst. simpl app. cbn [base_loop_suffix].
    match goal with H : is_slash c = false |- _ => rewrite H end.
    assert (V : base_visit suffix c i st = st).
    { unfold base_visit.
      destruct (Z.eqb_spec (firstNonSlashEnd st) (-1)); [contradiction|].
      rewrite He. reflexivity. }
    rewrite V, IH by assumption. f_equal. cbn [length]. lia.
Qed.

(** The part of the scan that matches the suffix, once its last character
    has been matched. *)
Lemma base_match_mid (suffix : list ascii) (n1 : nat) (f : Z) (a : list ascii) :
  forall (b rest : list ascii),
    suffix = a ++ b -> a <> [] -> 0 <= f ->
    Forall (fun c => is_slash c = false) a ->
    base_loop_suffix suffix (rev a ++ rest)
      (Z.of_nat n1 + Z.of_nat (length a) - 1)
      (mkBaseScan 0 (-1) false (Z.of_nat (length a) - 1) f)
    = base_loop_suffix suffix rest (Z.of_nat n1 - 1)
        (mkBaseScan 0 (Z.of_nat n1) false (-1) f).
Proof.
  induction a as [|x a IH] using rev_ind; intros b rest Hsuf Hne Hf Ha;
    [contradiction|].
  apply Forall_app in Ha. destruct Ha as (Ha & Hx).
  inversion Hx as [|? ? Hxs _]; subst.
  rewrite rev_app_distr. simpl rev. simpl app.
  cbn [base_loop_suffix]. rewrite Hxs.
  rewrite length_app. cbn [length].
  assert (V : base_visit (((a ++ [x]) ++ b)) x
                (Z.of_nat n1 + Z.of_nat (length a + 1) - 1)
                (mkBaseScan 0 (-1) false (Z.of_nat (length a + 1) - 1) f)
              = if Z.of_nat (length a) =? 0
                then mkBaseScan 0 (Z.of_nat n1 + Z.of_nat (length a)) false
                                (-1) f
                else mkBaseScan 0 (-1) false (Z.of_nat (length a) - 1) f).
  { unfold base_visit. cbn [b_start b_end b_matchedSlash extIdx firstNonSlashEnd].
    destruct (Z.eqb_spec f (-1)); [lia|].
    cbn [b_start b_end b_matchedSlash extIdx firstNonSlashEnd].
    destruct (Z.leb_spec 0 (Z.of_nat (length a + 1) - 1)); [|lia].
    rewrite bool_decide_eq_true_2.
    2:{ replace (Z.to_nat (Z.of_nat (length a + 1) - 1)) with (length a) by lia.
        rewrite <- !app_assoc. rewrite lookup_app_r by lia.
        now rewrite Nat.sub_diag. }
    destruct (Z.eqb_spec (Z.of_nat (length a + 1) - 1 - 1) (-1));
      destruct (Z.eqb_spec (Z.of_nat (length a)) 0); try lia.
    - f_equal. lia.
    - f_equal. lia. }
  rewrite V. destruct a as [|y a].
  - simpl. f_equal; [lia | f_equal; lia].
  - destruct (Z.eqb_spec (Z.of_nat (length (y :: a))) 0) as [E|_];
      [cbn [length] in E; lia|].
    replace (Z.of_nat n1 + Z.of_nat (length (y :: a) + 1) - 1 - 1)
      with (Z.of_nat n1 + Z.of_nat (length (y :: a)) - 1) by lia.
    apply (IH (x :: b)); auto; try discriminate.
    now rewrite <- app_assoc.
Qed.

Lemma base_match_all (suffix : list ascii) (n1 : nat) (rest : list ascii) :
  suffix <> [] -> Forall (fun c => is_slash c = false) suffix ->
  base_loop_suffix suffix (rev suffix ++ rest)
    (Z.of_nat n1 + Z.of_nat (length suffix) - 1)
    (mkBaseScan 0 (-1) true (Z.of_nat (length suffix) - 1) (-1))
  = base_loop_suffix suffix rest (Z.of_nat n1 - 1)
      (mkBaseScan 0 (Z.of_nat n1) false (-1)
         (Z.of_nat n1 + Z.of_nat (length suffix))).
Proof.
  intros Hne Hs.
  destruct (List.exists_last Hne) as (a & x & ->).
  apply Forall_app in Hs. destruct Hs as (Ha & Hx).
  inversion Hx as [|? ? Hxs _]; subst.
  rewrite rev_app_distr. simpl rev. simpl app.
  cbn [base_loop_suffix]. rewrite Hxs.
  rewrite length_app. cbn [length].
  set (f := Z.of_nat n1 + Z.of_nat (length a + 1)).
  assert (V : base_visit (a ++ [x]) x (f - 1)
                (mkBaseScan 0 (-1) true (Z.of_nat (length a + 1) - 1) (-1))
              = if Z.of_nat (length a) =? 0
                then mkBaseScan 0 (Z.of_nat n1 + Z.of_nat (length a)) false
                                (-1) f
                else mkBaseScan 0 (-1) false (Z.of_nat (length a) - 1) f).
  { unfold base_visit. cbn [b_start b_end b_matchedSlash extIdx firstNonSlashEnd].
    change (-1 =? -1) with true. cbv iota.
    cbn [b_start b_end b_matchedSlash extIdx firstNonSlashEnd].
    destruct (Z.leb_spec 0 (Z.of_nat (length a + 1) - 1)); [|lia].
    rewrite bool_decide_eq_true_2.
    2:{ replace (Z.to_nat (Z.of_nat (length a + 1) - 1)) with (length a) by lia.
        rewrite lookup_app_r by lia. now rewrite Nat.sub_diag. }
    destruct (Z.eqb_spec (Z.of_nat (length a + 1) - 1 - 1) (-1));
      destruct (Z.eqb_spec (Z.of_nat (length a)) 0); try lia.
    - unfold f. f_equal; lia.
    - unfold f. f_equal; lia. }
  rewrite V. destruct a as [|y a].
  - simpl. f_equal; [unfold f; simpl; lia | f_equal; lia].
  - destruct (Z.eqb_spec (Z.of_nat (length (y :: a))) 0) as [E|_];
      [cbn [length] in E; lia|].
    replace (f - 1 - 1)
      with (Z.of_nat n1 + Z.of_nat (length (y :: a)) - 1) by (unfold f; lia).
    apply (base_match_mid _ n1 f (y :: a) [x]); auto; try discriminate.
    unfold f. lia.
Qed.

(** The end of the scan: the start of the path or the separator before the
    last component. *)
Lemma base_stop (suffix front : list ascii) (st : BaseScan) :
  b_matchedSlash st = false -> b_start st = 0 ->
  (front = [] \/ exists f, front = f ++ [CHAR_FORWARD_SLASH]) ->
  base_loop_suffix suffix (rev front) (Z.of_nat (length front) - 1) st
  = mkBaseScan (Z.of_nat (length front)) (b_end st) (b_matchedSlash st)
               (extIdx st) (firstNonSlashEnd st).
Proof.
  intros Hm Hs [->|(f & ->)].
  - simpl. destruct st. simpl in *. now subst.
  - rewrite rev_app_distr. simpl. rewrite Hm. simpl. f_equal.
    rewrite length_app. simpl. lia.
Qed.

(** The scan of [basename] on a path whose last component ends with the
    suffix. *)
Lemma base_suffix_exact (front body suffix sl : list ascii) :
  suffix <> [] -> Forall (fun c => is_slash c = false) suffix ->
  Forall (fun c => is_slash c = false) body ->
  Forall (fun c => is_slash c = true) sl ->
  (front = [] \/ exists f, front = f ++ [CHAR_FORWARD_SLASH]) ->
  base_loop_suffix suffix (rev (front ++ body ++ suffix ++ sl))
    (Z.of_nat (length (front ++ body ++ suffix ++ sl)) - 1)
    (mkBaseScan 0 (-1) true (Z.of_nat (length suffix) - 1) (-1))
  = mkBaseScan (Z.of_nat (length front))
      (Z.of_nat (length front) + Z.of_nat (length body)) false (-1)
      (Z.of_nat (length front) + Z.of_nat (length body)
       + Z.of_nat (length suffix)).
Proof.
  intros Hne Hsuf Hbody Hsl Hf.
  assert (R : rev (front ++ body ++ suffix ++ sl)
              = rev sl ++ rev suffix ++ rev body ++ rev front).
  { rewrite !rev_app_distr, <- !app_assoc. reflexivity. }
  rewrite R, base_skip; [|apply List.Forall_rev, Hsl | reflexivity].
  rewrite !length_app, !length_rev.
  replace (Z.of_nat (length front + (length body + (length suffix + length sl)))
           - 1 - Z.of_nat (length sl))
    with (Z.of_nat (length front + length body) + Z.of_nat (length suffix) - 1)
    by lia.
  rewrite base_match_all by assumption.
  rewrite base_body; [|apply List.Forall_rev, Hbody | reflexivity
                      | cbn; lia].
  rewrite length_rev.
  replace (Z.of_nat (length front + length body) - 1
           - Z.of_nat (length body))
    with (Z.of_nat (length front) - 1) by lia.
  rewrite base_stop; [|reflexivity | reflexivity | exact Hf].
  cbn [b_end b_matchedSlash extIdx firstNonSlashEnd]. f_equal; lia.
Qed.

Lemma plain_skip (sl : list ascii) :
  forall rs i st,
    Forall (fun c => is_slash c = true) sl -> b_matchedSlash st = true ->
    base_loop (sl ++ rs) i st = base_loop rs (i - Z.of_nat (length sl)) st.
Proof.
  induction sl as [|c sl IH]; intros rs i st Hs Hm.
  - simpl. f_equal. lia.
  - inversion Hs; subst. simpl app. cbn [base_loop].
    match goal with H : is_slash c = true |- _ => rewrite H end.
    rewrite Hm. simpl negb. cbv iota. rewrite IH by assumption.
    f_equal. cbn [length]. lia.
Qed.

Lemma plain_body (body : list ascii) :
  forall rest i st,
    Forall (fun c => is_slash c = false) body -> b_end st <> -1 ->
    base_loop (body ++ rest) i st
    = base_loop rest (i - Z.of_nat (length body)) st.
Proof.
  induction body as [|c body IH]; intros rest i st Hb He.
  - simpl. f_equal. lia.
  - inversion Hb; subst. simpl app. cbn [base_loop].
    match goal with H : is_slash c = false |- _ => rewrite H end.
    destruct (Z.eqb_spec (b_end st) (-1)); [contradiction|].
    rewrite IH by assumption. f_equal. cbn [length]. lia.
Qed.

Lemma plain_stop (front : list ascii) (st : BaseScan) :
  b_matchedSlash st = false -> b_start st = 0 ->
  (front = [] \/ exists f, front = f ++ [CHAR_FORWARD_SLASH]) ->
  base_loop (rev front) (Z.of_nat (length front) - 1) st
  = mkBaseScan (Z.of_nat (length front)) (b_end st) (b_matchedSlash st)
               (extIdx st) (firstNonSlashEnd st).
Proof.
  intros Hm Hs [->|(f & ->)].
  - simpl. destruct st. simpl in *. now subst.
  - rewrite rev_app_distr. simpl. rewrite Hm. simpl. f_equal.
    rewrite length_app. simpl. lia.
Qed.

(** Without a suffix, [basename] gives the last component. *)
Lemma basename_plain_component (front comp sl : list ascii) :
  comp <> [] -> Forall (fun c => is_slash c = false) comp ->
  Forall (fun c => is_slash c = true) sl ->
  (front = [] \/ exists f, front = f ++ [CHAR_FORWARD_SLASH]) ->
  basename_chars (front ++ comp ++ sl) [] = comp.
Proof.
  intros Hne Hc Hs Hf. unfold basename_chars. cbn [length].
  change (0 <? Z.of_nat 0) with false. cbn [andb].
  assert (R : rev (front ++ comp ++ sl) = rev sl ++ rev comp ++ rev front).
  { rewrite !rev_app_distr, <- !app_assoc. reflexivity. }
  rewrite R, plain_skip; [|apply List.Forall_rev, Hs | reflexivity].
  destruct (List.exists_last Hne) as (comp' & b & Hcomp).
  assert (Hb : is_slash b = false /\ Forall (fun c => is_slash c = false) comp').
  { rewrite Hcomp in Hc. apply Forall_app in Hc. destruct Hc as (Hc' & Hc).
    split; [now inversion Hc | exact Hc']. }
  destruct Hb as (Hb & Hc').
  assert (Rc : rev comp = b :: rev comp').
  { rewrite Hcomp, rev_app_distr. reflexivity. }
  assert (Hlen : Z.of_nat (length (front ++ comp ++ sl)) - 1
                 - Z.of_nat (length (rev sl))
                 = Z.of_nat (length front + length comp')).
  { rewrite Hcomp, !length_app, length_rev. cbn [length]. lia. }
  rewrite Hlen, Rc. simpl app. cbn [base_loop]. rewrite Hb.
  cbn [b_start b_end extIdx firstNonSlashEnd].
  change (-1 =? -1) with true. cbv iota.
  rewrite plain_body; [|apply List.Forall_rev, Hc' | cbn; lia].
  rewrite length_rev.
  replace (Z.of_nat (length front + length comp') - 1
           - Z.of_nat (length comp'))
    with (Z.of_nat (length front) - 1) by lia.
  rewrite plain_stop; [|reflexivity | reflexivity | exact Hf].
  cbn [b_start b_end].
  destruct (Z.eqb_spec (Z.of_nat (length front + length comp') + 1) (-1));
    [lia|].
  replace (Z.of_nat (length front + length comp') + 1)
    with (Z.of_nat (length front) + Z.of_nat (length comp))
    by (rewrite Hcomp, length_app; cbn [length]; lia).
  apply slice_chars_middle.
Qed.

(** With the extension as suffix, [basename] gives the last component
    without the extension. *)
Lemma basename_ext_component (front stem e sl : list ascii) :
  stem <> [] -> Forall (fun c => is_slash c = false) stem ->
  all_plain e -> Forall (fun c => is_slash c = true) sl ->
  (front = [] \/ exists f, front = f ++ [CHAR_FORWARD_SLASH]) ->
  basename_chars (front ++ stem ++ (CHAR_DOT :: e) ++ sl) (CHAR_DOT :: e)
  = stem.
Proof.
  intros Hne Hstem He Hs Hf. unfold basename_chars.
  set (suffix := CHAR_DOT :: e).
  set (cs := front ++ stem ++ suffix ++ sl).
  assert (Hsuf : Forall (fun c => is_slash c = false) suffix).
  { constructor; [reflexivity | now apply all_plain_slashless]. }
  assert (Hcond : (0 <? Z.of_nat (length suffix))
                  && (Z.of_nat (length suffix) <=? Z.of_nat (length cs)) = true).
  { apply andb_true_iff. split; [apply Z.ltb_lt; cbn [length suffix]; lia|].
    apply Z.leb_le. unfold cs. rewrite !length_app. lia. }
  rewrite Hcond.
  rewrite bool_decide_eq_false_2.
  2:{ intros E. apply (f_equal (@length ascii)) in E. unfold cs in E.
      rewrite !length_app in E. destruct stem; [contradiction|].
      cbn [length] in E. lia. }
  unfold cs.
  rewrite base_suffix_exact; try assumption; [|discriminate].
  cbn [b_start b_end firstNonSlashEnd].
  destruct (Z.eqb_spec (Z.of_nat (length front))
              (Z.of_nat (length front) + Z.of_nat (length stem))) as [E|_].
  { destruct stem; [contradiction|]. cbn [length] in E. lia. }
  destruct (Z.eqb_spec (Z.of_nat (length front) + Z.of_nat (length stem))
              (-1)); [lia|].
  apply slice_chars_middle.
Qed.

End ComponentFacts.

(** X25.  The generated name is the last path component of the original
    name with the infix put before its extension: whatever directories and
    trailing separators the original name holds, the stem and the extension
    of the generated name make up exactly that component, and the stem is
    not empty when there is an extension. *)
Theorem generated_name_shape (timestamp : N) (random36 : list nat)
    (originalName : string) (front comp sl : list ascii) :
  Js.chars originalName = front ++ comp ++ sl ->
  comp <> [] ->
  Forall (fun c => Path.is_slash c = false) comp ->
  Forall (fun c => Path.is_slash c = true) sl ->
  (front = [] \/ exists f, front = f ++ [Path.CHAR_FORWARD_SLASH]) ->
  exists stem : list ascii,
    comp = stem ++ Js.chars (Path.extname originalName) /\
    Js.chars (Path.basename originalName (Path.extname originalName)) = stem /\
    (Path.extname originalName <> ""%string -> stem <> []) /\
    Js.chars (FileManager.generateUniqueFilename timestamp random36
                originalName)
    = stem
      ++ Js.chars ("_" ++ Js.show_N timestamp ++ "_"
                   ++ Js.substring (Js.toString36 random36) 2 8)
      ++ Js.chars (Path.extname originalName).
Proof.
  intros Hcs Hne Hc Hs Hf.
  assert (G : exists stem,
    comp = stem ++ Js.chars (Path.extname originalName) /\
    Js.chars (Path.basename originalName (Path.extname originalName)) = stem /\
    (Path.extname originalName <> ""%string -> stem <> [])).
  { unfold Path.basename, Path.extname. rewrite !chars_str, Hcs.
    destruct (ext_component front comp sl Hne Hc Hs Hf)
      as [E | (stem & e & E & He & Hcomp & Hstem)]; rewrite E.
    - exists comp. rewrite app_nil_r. split; [reflexivity|].
      split; [now apply basename_plain_component|].
      intros H. exfalso. apply H. reflexivity.
    - exists stem. split; [exact Hcomp|]. split; [|auto].
      rewrite Hcomp, <- app_assoc.
      apply basename_ext_component; try assumption.
      rewrite Hcomp in Hc. now apply Forall_app in Hc. }
  destruct G as (stem & G1 & G2 & G3). exists stem.
  split; [exact G1|]. split; [exact G2|]. split; [exact G3|].
  now rewrite generated_chars, G2.
Qed.

Lemma generated_name_shape_witness :
  Js.chars "a.d/My.Clip.MOV//"
  = Js.chars "a.d/" ++ Js.chars "My.Clip.MOV" ++ Js.chars "//" /\
  exists stem : list ascii,
    Js.chars "My.Clip.MOV"
    = stem ++ Js.chars (Path.extname "a.d/My.Clip.MOV//") /\
    Js.chars (Path.basename "a.d/My.Clip.MOV//"
                (Path.extname "a.d/My.Clip.MOV//")) = stem.
Proof.
  split; [reflexivity|].
  destruct (generated_name_shape 5 [1; 2; 3]%nat "a.d/My.Clip.MOV//"
              (Js.chars "a.d/") (Js.chars "My.Clip.MOV") (Js.chars "//"))
    as (stem & H1 & H2 & _).
  - reflexivity.
  - discriminate.
  - repeat constructor.
  - repeat constructor.
  - right. exists (Js.chars "a.d"). reflexivity.
  - exists stem. split; assumption.
Defined.
